(** * PipeWire: ALSA PCM utilities, native protocol server, session manager

    A shallow embedding of the parts of
    - [spa/plugins/alsa/alsa-utils.c],
    - [src/modules/module-protocol-native.c],
    - [src/modules/module-session-manager/endpoint.c] and [session.c]
    that the specification talks about, together with the properties proved
    (or refuted) about them. *)

From Stdlib Require Import ZArith Lia Bool List Permutation Sorted.
From stdpp Require Import base list gmap strings sorting.

(** ** Shared C idioms *)

(** [for (i = 0; i < n; i++) body]. *)
Definition for_range {St : Type} (n : nat) (body : nat -> St -> St) (s : St) : St :=
  fold_left (fun s i => body i s) (seq 0 n) s.

(** [SPA_FLAG_SET] / [SPA_FLAG_UNSET] on a bit field. *)
Definition SPA_FLAG_SET (field flag : Z) : Z := Z.lor field flag.
Definition SPA_FLAG_UNSET (field flag : Z) : Z := Z.land field (Z.lnot flag).

(** errno values (Linux). *)
Definition EAGAIN : Z := 11.
Definition ENOMEM : Z := 12.
Definition EACCES : Z := 13.
Definition EINVAL : Z := 22.

Module Alsa.
Local Open Scope Z_scope.

(** *** Channel maps: [sanitize_map] *)

(** [enum snd_pcm_chmap_position] of the ALSA headers. *)
Definition SND_CHMAP_UNKNOWN : Z := 0.
Definition SND_CHMAP_NA : Z := 1.
Definition SND_CHMAP_MONO : Z := 2.
Definition SND_CHMAP_FL : Z := 3.
Definition SND_CHMAP_FR : Z := 4.
Definition SND_CHMAP_RL : Z := 5.
Definition SND_CHMAP_RR : Z := 6.
Definition SND_CHMAP_FC : Z := 7.
Definition SND_CHMAP_LFE : Z := 8.
Definition SND_CHMAP_SL : Z := 9.
Definition SND_CHMAP_SR : Z := 10.
Definition SND_CHMAP_BRC : Z := 36.
Definition SND_CHMAP_LAST : Z := SND_CHMAP_BRC.

(** [#define _M(ch) (1LL << SND_CHMAP_ ##ch)] *)
Definition _M (ch : Z) : Z := Z.shiftl 1 ch.

(** [struct def_mask]. *)
Record def_mask := { dm_channels : Z; dm_mask : Z }.

Definition default_layouts : list def_mask :=
  [ {| dm_channels := 0; dm_mask := 0 |};
    {| dm_channels := 1; dm_mask := _M SND_CHMAP_MONO |};
    {| dm_channels := 2; dm_mask := Z.lor (_M SND_CHMAP_FL) (_M SND_CHMAP_FR) |};
    {| dm_channels := 3;
       dm_mask := Z.lor (Z.lor (_M SND_CHMAP_FL) (_M SND_CHMAP_FR)) (_M SND_CHMAP_LFE) |};
    {| dm_channels := 4;
       dm_mask := Z.lor (Z.lor (Z.lor (_M SND_CHMAP_FL) (_M SND_CHMAP_FR))
                               (_M SND_CHMAP_RL)) (_M SND_CHMAP_RR) |};
    {| dm_channels := 5;
       dm_mask := Z.lor (Z.lor (Z.lor (Z.lor (_M SND_CHMAP_FL) (_M SND_CHMAP_FR))
                               (_M SND_CHMAP_RL)) (_M SND_CHMAP_RR)) (_M SND_CHMAP_FC) |};
    {| dm_channels := 6;
       dm_mask := Z.lor (Z.lor (Z.lor (Z.lor (Z.lor (_M SND_CHMAP_FL) (_M SND_CHMAP_FR))
                               (_M SND_CHMAP_RL)) (_M SND_CHMAP_RR)) (_M SND_CHMAP_FC))
                        (_M SND_CHMAP_LFE) |};
    {| dm_channels := 7;
       dm_mask := Z.lor (Z.lor (Z.lor (Z.lor (Z.lor (Z.lor (_M SND_CHMAP_FL) (_M SND_CHMAP_FR))
                               (_M SND_CHMAP_RL)) (_M SND_CHMAP_RR)) (_M SND_CHMAP_SL))
                        (_M SND_CHMAP_SR)) (_M SND_CHMAP_FC) |};
    {| dm_channels := 8;
       dm_mask := Z.lor (Z.lor (Z.lor (Z.lor (Z.lor (Z.lor (Z.lor (_M SND_CHMAP_FL)
                               (_M SND_CHMAP_FR)) (_M SND_CHMAP_RL)) (_M SND_CHMAP_RR))
                               (_M SND_CHMAP_SL)) (_M SND_CHMAP_SR)) (_M SND_CHMAP_FC))
                        (_M SND_CHMAP_LFE) |} ].

(** A [snd_pcm_chmap_t] is its position array [pos]; [channels] is the
    length of that array. *)
Definition snd_pcm_chmap_t := list Z.

(** [~x] on a [uint64_t]. *)
Definition not64 (x : Z) : Z := Z.land (Z.lnot x) (Z.ones 64).

(** The inner loop of the first pass:
    [for (j = 0; j <= i; j++) if (pos[j] == pos[i]) pos[j] = UNKNOWN]. *)
Definition clear_duplicates (i : nat) (pos : list Z) : list Z :=
  for_range (S i)
    (fun j pos =>
       if pos !!! j =? pos !!! i then <[j := SND_CHMAP_UNKNOWN]> pos else pos)
    pos.

(** State of the first pass: the positions and the two bit sets [mask]
    (positions seen) and [dup] (positions seen more than once). *)
Record scan := { sc_pos : list Z; sc_mask : Z; sc_dup : Z }.

(** Body of the first loop of [sanitize_map]. *)
Definition scan_step (i : nat) (s : scan) : scan :=
  let pos :=
    if (sc_pos s !!! i <? 0) || (sc_pos s !!! i >? SND_CHMAP_LAST)
    then <[i := SND_CHMAP_UNKNOWN]> (sc_pos s) else sc_pos s in
  let p := Z.shiftl 1 (pos !!! i) in
  if negb (Z.land (sc_mask s) p =? 0) then
    {| sc_pos := clear_duplicates i pos;
       sc_mask := Z.lor (sc_mask s) (Z.shiftl 1 SND_CHMAP_UNKNOWN);
       sc_dup := Z.lor (sc_dup s) p |}
  else
    {| sc_pos := pos; sc_mask := Z.lor (sc_mask s) p; sc_dup := sc_dup s |}.

(** [do { mask >>= 1; pos++; } while (mask != 0 && (mask & 1) == 0)].
    [mask] is a [uint64_t], so 64 rounds always suffice; [fuel] counts the
    rounds still allowed after the first. *)
Fixpoint next_position (fuel : nat) (mask pos : Z) : Z * Z :=
  let mask := Z.shiftr mask 1 in
  let pos := pos + 1 in
  match fuel with
  | O => (mask, pos)
  | S fuel' =>
      if negb (mask =? 0) && (Z.land mask 1 =? 0)
      then next_position fuel' mask pos
      else (mask, pos)
  end.

(** State of the second pass. *)
Record fill := { fl_pos : list Z; fl_mask : Z; fl_next : Z }.

(** Body of the second loop of [sanitize_map]. *)
Definition fill_step (i : nat) (s : fill) : fill :=
  if fl_pos s !!! i =? SND_CHMAP_UNKNOWN then
    let '(mask, pos) := next_position 64 (fl_mask s) (fl_next s) in
    {| fl_pos := <[i := if negb (mask =? 0) then pos else 0]> (fl_pos s);
       fl_mask := mask; fl_next := pos |}
  else s.

(** [sanitize_map]. The result is [None] when the function reads
    [default_layouts] past its end (more than 8 channels with an UNKNOWN
    position left after the first pass), which is undefined in C. *)
Definition sanitize_map (map : snd_pcm_chmap_t) : option snd_pcm_chmap_t :=
  let channels := length map in
  let s := for_range channels scan_step {| sc_pos := map; sc_mask := 0; sc_dup := 0 |} in
  if Z.land (sc_mask s) (Z.shiftl 1 SND_CHMAP_UNKNOWN) =? 0 then Some (sc_pos s)
  else
    match default_layouts !! channels with
    | None => None
    | Some def =>
        let mask := Z.land (sc_mask s) (not64 (sc_dup s)) in
        let mask := Z.land (dm_mask def) (not64 mask) in
        Some (fl_pos (for_range channels fill_step
                        {| fl_pos := sc_pos s; fl_mask := mask; fl_next := 0 |}))
    end.

(** *** [sanitize_map] as the specification words it

    Clamp out-of-range positions to UNKNOWN; set every occurrence of a
    duplicated position to UNKNOWN; fill the UNKNOWN slots, in ascending bit
    order, from [default \ (seen \ duplicated)]. *)

Definition clamp_position (x : Z) : Z :=
  if (x <? 0) || (x >? SND_CHMAP_LAST) then SND_CHMAP_UNKNOWN else x.

Definition seen (c : list Z) (q : Z) : bool := (1 <=? count_occ Z.eq_dec c q)%nat.

Definition duplicated (c : list Z) (q : Z) : bool := (2 <=? count_occ Z.eq_dec c q)%nat.

Definition unknown_duplicates (c : list Z) : list Z :=
  List.map (fun x => if duplicated c x then SND_CHMAP_UNKNOWN else x) c.

(** The bit positions [0..63] of a [uint64_t], ascending. *)
Definition bit_positions : list Z := List.map Z.of_nat (seq 0 64).

(** The positions of [default_layouts[n].mask], ascending (none when [n]
    is past the end of the table). *)
Definition default_positions (n : nat) : list Z :=
  match default_layouts !! n with
  | Some def => List.filter (Z.testbit (dm_mask def)) bit_positions
  | None => []
  end.

(** Give the UNKNOWN slots of [l] the positions of [avail], in order; slots
    left over when [avail] runs out stay UNKNOWN. *)
Fixpoint fill_unknown (l avail : list Z) : list Z :=
  match l with
  | [] => []
  | x :: l' =>
      if x =? SND_CHMAP_UNKNOWN then
        match avail with
        | [] => SND_CHMAP_UNKNOWN :: fill_unknown l' []
        | a :: avail' => a :: fill_unknown l' avail'
        end
      else x :: fill_unknown l' avail
  end.

Definition sanitize_spec (map : list Z) : list Z :=
  let c := List.map clamp_position map in
  fill_unknown (unknown_duplicates c)
    (List.filter (fun q => negb (seen c q && negb (duplicated c q)))
       (default_positions (length map))).

(** *** Notions used to state the invariants of [sanitize_map] *)

(** What [clear_duplicates] computes. *)
Definition clear (x y : Z) : Z := if y =? x then SND_CHMAP_UNKNOWN else y.

(** Invariant of the first loop after [i] rounds. *)
Record scan_inv (l : list Z) (i : nat) (s : scan) : Prop := {
  si_pos : sc_pos s
           = unknown_duplicates (take i (List.map clamp_position l)) ++ drop i l;
  si_mask : forall q, 1 <= q ->
            Z.testbit (sc_mask s) q = seen (take i (List.map clamp_position l)) q;
  si_dup : forall q, 1 <= q ->
           Z.testbit (sc_dup s) q = duplicated (take i (List.map clamp_position l)) q;
  si_unknown : Z.testbit (sc_mask s) 0
               = seen (unknown_duplicates (take i (List.map clamp_position l)))
                   SND_CHMAP_UNKNOWN
}.

(** The positions [p .. p+n-1] that satisfy [g], ascending. *)
Fixpoint bits_from (g : Z -> bool) (p : Z) (n : nat) : list Z :=
  match n with
  | O => []
  | S n' => (if g p then [p] else []) ++ bits_from g (p + 1) n'
  end.

(** The set bits of [F] strictly above bit [p] (and below bit 64). *)
Definition avail_above (F p : Z) : list Z :=
  bits_from (Z.testbit F) (p + 1) (Z.to_nat (63 - p)).

(** Invariant of the second loop after [i] rounds: what is still to be
    done is [fill_unknown] on the rest of the map with the bits still
    above the cursor. *)
Record fill_inv (F : Z) (u : list Z) (i : nat) (s : fill) : Prop := {
  fi_next : 0 <= fl_next s;
  fi_mask : fl_mask s = Z.shiftr F (fl_next s);
  fi_pos : exists done, length done = i /\ fl_pos s = done ++ drop i u
           /\ fill_unknown u (avail_above F 0)
              = done ++ fill_unknown (drop i u) (avail_above F (fl_next s))
}.

(** A map in normal form: positions in range, no known position twice. *)
Definition normal (m : list Z) : Prop :=
  (forall x, In x m -> 0 <= x <= SND_CHMAP_LAST) /\
  (forall x, x <> SND_CHMAP_UNKNOWN -> (count_occ Z.eq_dec m x <= 1)%nat).

(** The check that every bit of every default layout is a known position. *)
Definition bit_positions_checked : bool :=
  forallb (fun d => forallb (fun q =>
     implb (Z.testbit (dm_mask d) q) ((1 <=? q) && (q <=? SND_CHMAP_LAST))) bit_positions)
    default_layouts.

(** The known (not UNKNOWN) positions of a map. *)
Definition known (u : list Z) : list Z :=
  List.filter (fun x => negb (x =? SND_CHMAP_UNKNOWN)) u.

(** The check that a map of two to eight equal positions comes out as the
    default layout, for every position in range. *)
Definition all_duplicates_checked : bool :=
  forallb (fun n => forallb (fun y =>
     bool_decide (sanitize_spec (replicate n y) = default_positions n))
     (List.map Z.of_nat (seq 0 37))) (seq 2 7).

(** *** Sample formats: [format_info], [spa_format_to_alsa] *)

(** [enum spa_audio_format], the members [alsa-utils.c] names. *)
Inductive spa_audio_format :=
  | SPA_AUDIO_FORMAT_UNKNOWN
  | SPA_AUDIO_FORMAT_S8 | SPA_AUDIO_FORMAT_U8
  | SPA_AUDIO_FORMAT_S16_LE | SPA_AUDIO_FORMAT_S16_BE
  | SPA_AUDIO_FORMAT_U16_LE | SPA_AUDIO_FORMAT_U16_BE
  | SPA_AUDIO_FORMAT_S24_32_LE | SPA_AUDIO_FORMAT_S24_32_BE
  | SPA_AUDIO_FORMAT_U24_32_LE | SPA_AUDIO_FORMAT_U24_32_BE
  | SPA_AUDIO_FORMAT_S32_LE | SPA_AUDIO_FORMAT_S32_BE
  | SPA_AUDIO_FORMAT_U32_LE | SPA_AUDIO_FORMAT_U32_BE
  | SPA_AUDIO_FORMAT_S24_LE | SPA_AUDIO_FORMAT_S24_BE
  | SPA_AUDIO_FORMAT_U24_LE | SPA_AUDIO_FORMAT_U24_BE
  | SPA_AUDIO_FORMAT_F32_LE | SPA_AUDIO_FORMAT_F32_BE
  | SPA_AUDIO_FORMAT_F64_LE | SPA_AUDIO_FORMAT_F64_BE
  | SPA_AUDIO_FORMAT_U8P | SPA_AUDIO_FORMAT_S16P | SPA_AUDIO_FORMAT_S24_32P
  | SPA_AUDIO_FORMAT_S32P | SPA_AUDIO_FORMAT_S24P
  | SPA_AUDIO_FORMAT_F32P | SPA_AUDIO_FORMAT_F64P.

#[global] Instance spa_audio_format_eq_dec : EqDecision spa_audio_format.
Proof. solve_decision. Defined.

(** [snd_pcm_format_t] of the ALSA headers, the members the table names. *)
Inductive snd_pcm_format_t :=
  | SND_PCM_FORMAT_UNKNOWN
  | SND_PCM_FORMAT_S8 | SND_PCM_FORMAT_U8
  | SND_PCM_FORMAT_S16_LE | SND_PCM_FORMAT_S16_BE
  | SND_PCM_FORMAT_U16_LE | SND_PCM_FORMAT_U16_BE
  | SND_PCM_FORMAT_S24_LE | SND_PCM_FORMAT_S24_BE
  | SND_PCM_FORMAT_U24_LE | SND_PCM_FORMAT_U24_BE
  | SND_PCM_FORMAT_S32_LE | SND_PCM_FORMAT_S32_BE
  | SND_PCM_FORMAT_U32_LE | SND_PCM_FORMAT_U32_BE
  | SND_PCM_FORMAT_FLOAT_LE | SND_PCM_FORMAT_FLOAT_BE
  | SND_PCM_FORMAT_FLOAT64_LE | SND_PCM_FORMAT_FLOAT64_BE
  | SND_PCM_FORMAT_S24_3LE | SND_PCM_FORMAT_S24_3BE
  | SND_PCM_FORMAT_U24_3LE | SND_PCM_FORMAT_U24_3BE.

#[global] Instance snd_pcm_format_eq_dec : EqDecision snd_pcm_format_t.
Proof. solve_decision. Defined.

(** [snd_pcm_access_t], the two mmap access types the enumeration tests. *)
Inductive snd_pcm_access_t :=
  | SND_PCM_ACCESS_MMAP_INTERLEAVED
  | SND_PCM_ACCESS_MMAP_NONINTERLEAVED.

(** [struct format_info]. *)
Record format_info_t := {
  spa_format : spa_audio_format;
  spa_pformat : spa_audio_format;
  format : snd_pcm_format_t
}.

Definition format_info : list format_info_t :=
  [ Build_format_info_t SPA_AUDIO_FORMAT_UNKNOWN SPA_AUDIO_FORMAT_UNKNOWN SND_PCM_FORMAT_UNKNOWN;
    Build_format_info_t SPA_AUDIO_FORMAT_F32_LE SPA_AUDIO_FORMAT_F32P SND_PCM_FORMAT_FLOAT_LE;
    Build_format_info_t SPA_AUDIO_FORMAT_F32_BE SPA_AUDIO_FORMAT_F32P SND_PCM_FORMAT_FLOAT_BE;
    Build_format_info_t SPA_AUDIO_FORMAT_S32_LE SPA_AUDIO_FORMAT_S32P SND_PCM_FORMAT_S32_LE;
    Build_format_info_t SPA_AUDIO_FORMAT_S32_BE SPA_AUDIO_FORMAT_S32P SND_PCM_FORMAT_S32_BE;
    Build_format_info_t SPA_AUDIO_FORMAT_S24_32_LE SPA_AUDIO_FORMAT_S24_32P SND_PCM_FORMAT_S24_LE;
    Build_format_info_t SPA_AUDIO_FORMAT_S24_32_BE SPA_AUDIO_FORMAT_S24_32P SND_PCM_FORMAT_S24_BE;
    Build_format_info_t SPA_AUDIO_FORMAT_S16_LE SPA_AUDIO_FORMAT_S16P SND_PCM_FORMAT_S16_LE;
    Build_format_info_t SPA_AUDIO_FORMAT_S16_BE SPA_AUDIO_FORMAT_S16P SND_PCM_FORMAT_S16_BE;
    Build_format_info_t SPA_AUDIO_FORMAT_S24_LE SPA_AUDIO_FORMAT_S24P SND_PCM_FORMAT_S24_3LE;
    Build_format_info_t SPA_AUDIO_FORMAT_S24_BE SPA_AUDIO_FORMAT_S24P SND_PCM_FORMAT_S24_3BE;
    Build_format_info_t SPA_AUDIO_FORMAT_S8 SPA_AUDIO_FORMAT_UNKNOWN SND_PCM_FORMAT_S8;
    Build_format_info_t SPA_AUDIO_FORMAT_U8 SPA_AUDIO_FORMAT_U8P SND_PCM_FORMAT_U8;
    Build_format_info_t SPA_AUDIO_FORMAT_U16_LE SPA_AUDIO_FORMAT_UNKNOWN SND_PCM_FORMAT_U16_LE;
    Build_format_info_t SPA_AUDIO_FORMAT_U16_BE SPA_AUDIO_FORMAT_UNKNOWN SND_PCM_FORMAT_U16_BE;
    Build_format_info_t SPA_AUDIO_FORMAT_U24_32_LE SPA_AUDIO_FORMAT_UNKNOWN SND_PCM_FORMAT_U24_LE;
    Build_format_info_t SPA_AUDIO_FORMAT_U24_32_BE SPA_AUDIO_FORMAT_UNKNOWN SND_PCM_FORMAT_U24_BE;
    Build_format_info_t SPA_AUDIO_FORMAT_U24_LE SPA_AUDIO_FORMAT_UNKNOWN SND_PCM_FORMAT_U24_3LE;
    Build_format_info_t SPA_AUDIO_FORMAT_U24_BE SPA_AUDIO_FORMAT_UNKNOWN SND_PCM_FORMAT_U24_3BE;
    Build_format_info_t SPA_AUDIO_FORMAT_U32_LE SPA_AUDIO_FORMAT_UNKNOWN SND_PCM_FORMAT_U32_LE;
    Build_format_info_t SPA_AUDIO_FORMAT_U32_BE SPA_AUDIO_FORMAT_UNKNOWN SND_PCM_FORMAT_U32_BE;
    Build_format_info_t SPA_AUDIO_FORMAT_F64_LE SPA_AUDIO_FORMAT_F64P SND_PCM_FORMAT_FLOAT64_LE;
    Build_format_info_t SPA_AUDIO_FORMAT_F64_BE SPA_AUDIO_FORMAT_F64P SND_PCM_FORMAT_FLOAT64_BE ].

(** The loop of [spa_format_to_alsa] over the rest of the table. *)
Fixpoint spa_format_to_alsa_from (table : list format_info_t) (fmt : spa_audio_format)
  : snd_pcm_format_t :=
  match table with
  | [] => SND_PCM_FORMAT_UNKNOWN
  | fi :: table' =>
      if bool_decide (spa_format fi = fmt) then format fi
      else spa_format_to_alsa_from table' fmt
  end.

Definition spa_format_to_alsa (fmt : spa_audio_format) : snd_pcm_format_t :=
  spa_format_to_alsa_from format_info fmt.

(** *** The PCM device and the driver state *)

(** What the ALSA library answers for one device. A call returns a negative
    errno when it fails; a call with an out-parameter is the pair of its
    return value and the value it stores. *)
Record pcm_device := {
  snd_output_stdio_attach : Z;
  snd_pcm_open : Z;
  snd_pcm_close : Z;
  snd_pcm_hw_params_any : Z;
  snd_pcm_hw_params_get_format_mask : snd_pcm_format_t -> bool;
  snd_pcm_hw_params_get_access_mask : snd_pcm_access_t -> bool;
  snd_pcm_hw_params_get_rate_min : Z * Z;
  snd_pcm_hw_params_get_rate_max : Z * Z;
  snd_pcm_hw_params_get_channels_min : Z * Z;
  snd_pcm_hw_params_get_channels_max : Z * Z;
  snd_pcm_hw_params_set_rate_resample : Z;
  snd_pcm_hw_params_set_access : Z;
  snd_pcm_hw_params_can_disable_period_wakeup : bool;
  snd_pcm_hw_params_set_period_wakeup : Z;
  snd_pcm_hw_params_set_format : snd_pcm_format_t -> Z;
  snd_pcm_hw_params_set_channels_near : Z -> Z * Z;
  snd_pcm_hw_params_set_rate_near : Z -> Z * Z;
  snd_pcm_format_physical_width : snd_pcm_format_t -> Z;
  snd_pcm_hw_params_set_period_size_near : Z -> Z * Z;
  snd_pcm_hw_params_get_buffer_size_max : Z * Z;
  snd_pcm_hw_params_set_buffer_size_near : Z -> Z * Z;
  snd_pcm_hw_params : Z
}.

Inductive snd_pcm_stream_t := SND_PCM_STREAM_PLAYBACK | SND_PCM_STREAM_CAPTURE.

(** [struct timespec] and the armed value of the timerfd. *)
Record timespec := { tv_sec : Z; tv_nsec : Z }.

(** [struct state], the fields the modelled functions read or write.
    [position] is [state->position] ([None] for a null pointer) reduced to
    its [size]; [timer] is the expiry last given to [timerfd_settime].
    The struct is declared in [alsa-utils.h]; the frame counts and the
    rate are integers here and their arithmetic is exact, as it is in C
    while [threshold * 2] and [threshold * 1e9] stay in range; [next_time]
    is a [uint64_t] and what is stored into it is reduced modulo 2^64. *)
Record state := {
  opened : bool;
  stream : snd_pcm_stream_t;
  st_format : snd_pcm_format_t;
  rate : Z;
  channels : Z;
  frame_size : Z;
  buffer_frames : Z;
  period_frames : Z;
  position : option Z;
  threshold : Z;
  started : bool;
  slaved : bool;
  now : timespec;
  sample_count : Z;
  sample_time : Z;
  next_time : Z;
  timer : option timespec
}.

Definition set_opened (st : state) (b : bool) (count time : Z) : state :=
  {| opened := b; stream := stream st; st_format := st_format st; rate := rate st;
     channels := channels st; frame_size := frame_size st;
     buffer_frames := buffer_frames st; period_frames := period_frames st;
     position := position st; threshold := threshold st; started := started st;
     slaved := slaved st; now := now st; sample_count := count; sample_time := time;
     next_time := next_time st; timer := timer st |}.

Definition set_hw_format (st : state) (f : snd_pcm_format_t) (ch r fs : Z) : state :=
  {| opened := opened st; stream := stream st; st_format := f; rate := r;
     channels := ch; frame_size := fs;
     buffer_frames := buffer_frames st; period_frames := period_frames st;
     position := position st; threshold := threshold st; started := started st;
     slaved := slaved st; now := now st; sample_count := sample_count st;
     sample_time := sample_time st; next_time := next_time st; timer := timer st |}.

Definition set_buffer_frames (st : state) (n : Z) : state :=
  {| opened := opened st; stream := stream st; st_format := st_format st; rate := rate st;
     channels := channels st; frame_size := frame_size st;
     buffer_frames := n; period_frames := period_frames st;
     position := position st; threshold := threshold st; started := started st;
     slaved := slaved st; now := now st; sample_count := sample_count st;
     sample_time := sample_time st; next_time := next_time st; timer := timer st |}.

Definition set_period_frames (st : state) (n : Z) : state :=
  {| opened := opened st; stream := stream st; st_format := st_format st; rate := rate st;
     channels := channels st; frame_size := frame_size st;
     buffer_frames := buffer_frames st; period_frames := n;
     position := position st; threshold := threshold st; started := started st;
     slaved := slaved st; now := now st; sample_count := sample_count st;
     sample_time := sample_time st; next_time := next_time st; timer := timer st |}.

Definition set_threshold (st : state) (n : Z) : state :=
  {| opened := opened st; stream := stream st; st_format := st_format st; rate := rate st;
     channels := channels st; frame_size := frame_size st;
     buffer_frames := buffer_frames st; period_frames := period_frames st;
     position := position st; threshold := n; started := started st;
     slaved := slaved st; now := now st; sample_count := sample_count st;
     sample_time := sample_time st; next_time := next_time st; timer := timer st |}.

Definition set_now (st : state) (t : timespec) : state :=
  {| opened := opened st; stream := stream st; st_format := st_format st; rate := rate st;
     channels := channels st; frame_size := frame_size st;
     buffer_frames := buffer_frames st; period_frames := period_frames st;
     position := position st; threshold := threshold st; started := started st;
     slaved := slaved st; now := t; sample_count := sample_count st;
     sample_time := sample_time st; next_time := next_time st; timer := timer st |}.

Definition set_next_time (st : state) (t : Z) : state :=
  {| opened := opened st; stream := stream st; st_format := st_format st; rate := rate st;
     channels := channels st; frame_size := frame_size st;
     buffer_frames := buffer_frames st; period_frames := period_frames st;
     position := position st; threshold := threshold st; started := started st;
     slaved := slaved st; now := now st; sample_count := sample_count st;
     sample_time := sample_time st; next_time := t; timer := timer st |}.

Definition set_timer (st : state) (t : timespec) : state :=
  {| opened := opened st; stream := stream st; st_format := st_format st; rate := rate st;
     channels := channels st; frame_size := frame_size st;
     buffer_frames := buffer_frames st; period_frames := period_frames st;
     position := position st; threshold := threshold st; started := started st;
     slaved := slaved st; now := now st; sample_count := sample_count st;
     sample_time := sample_time st; next_time := next_time st; timer := Some t |}.

(** [CHECK(s, msg)]: leave the function with the error of a failed call.
    [ret] builds the function's result from the error code. *)
Notation "'CHECK' e 'ELSE' ret ;; k" :=
  (if (e <? 0)%Z then ret e%Z else k)
  (at level 10, e at level 9, ret at level 9, k at level 200).

Definition spa_alsa_open (dev : pcm_device) (st : state) : Z * state :=
  if opened st then (0, st)
  else
    CHECK (snd_output_stdio_attach dev) ELSE (fun err => (err, st)) ;;
    CHECK (snd_pcm_open dev) ELSE (fun err => (err, st)) ;;
    (0, set_opened st true 0 0).

Definition spa_alsa_close (dev : pcm_device) (st : state) : Z * state :=
  if negb (opened st) then (0, st)
  else
    CHECK (snd_pcm_close dev) ELSE (fun err => (err, st)) ;;
    (0, set_opened st false (sample_count st) (sample_time st)).

(** *** Format enumeration: [spa_alsa_enum_format] *)

(** Modelled from the spec: [DEFAULT_RATE] and [DEFAULT_CHANNELS] of
    [alsa-utils.h], the preferred values of the rate and channels choices. *)
Definition DEFAULT_RATE : Z := 48000.
Definition DEFAULT_CHANNELS : Z := 2.

(** Modelled from the spec: [SPA_CLAMP(v, low, high)], the value clamped
    into [[low, high]]. *)
Definition SPA_CLAMP (v low high : Z) : Z := Z.min (Z.max v low) high.

Inductive spa_choice_type := SPA_CHOICE_None | SPA_CHOICE_Range | SPA_CHOICE_Enum.

(** A choice pod: its type and the values pushed into it, the first being
    the default. *)
Record spa_pod_choice (A : Type) := {
  choice_type : spa_choice_type;
  choice_values : list A
}.
Arguments choice_type {A} _.
Arguments choice_values {A} _.

(** [enum spa_audio_channel]: [chmap_info] pairs every chmap position with
    the channel of the same name. *)
Inductive spa_audio_channel := SPA_AUDIO_CHANNEL (pos : Z).

Definition chmap_position_to_channel (pos : Z) : spa_audio_channel := SPA_AUDIO_CHANNEL pos.

(** The [SPA_TYPE_OBJECT_Format] object that one pass builds (media type
    audio, subtype raw): its format, rate and channels properties, and the
    position array of the channel-map path. *)
Record format_pod := {
  fp_format : spa_pod_choice spa_audio_format;
  fp_rate : spa_pod_choice Z;
  fp_channels : spa_pod_choice Z;
  fp_position : option (list spa_audio_channel)
}.

(** Body of the loop over [format_info] (lines 274-290); [j] counts the
    ids pushed so far, the first one is pushed twice (default value). *)
Definition format_choice_step (dev : pcm_device)
    (acc : list spa_audio_format * Z) (fi : format_info_t) : list spa_audio_format * Z :=
  if snd_pcm_hw_params_get_format_mask dev (format fi) then
    let acc :=
      if snd_pcm_hw_params_get_access_mask dev SND_PCM_ACCESS_MMAP_INTERLEAVED then
        ((if acc.2 =? 0 then acc.1 ++ [spa_format fi] else acc.1) ++ [spa_format fi],
         acc.2 + 1)
      else acc in
    if snd_pcm_hw_params_get_access_mask dev SND_PCM_ACCESS_MMAP_NONINTERLEAVED
       && negb (bool_decide (spa_pformat fi = SPA_AUDIO_FORMAT_UNKNOWN)) then
      ((if acc.2 =? 0 then acc.1 ++ [spa_pformat fi] else acc.1) ++ [spa_pformat fi],
       acc.2 + 1)
    else acc
  else acc.

(** The format choice: [for (i = 1, j = 0; i < SPA_N_ELEMENTS(format_info); i++)]. *)
Definition format_choice (dev : pcm_device) : spa_pod_choice spa_audio_format :=
  let acc := fold_left (format_choice_step dev) (drop 1 format_info) ([], 0) in
  {| choice_type := if 1 <? acc.2 then SPA_CHOICE_Enum else SPA_CHOICE_None;
     choice_values := acc.1 |}.

(** The rate and the channels choice: the clamped preferred value, turned
    into a range when [min != max]. *)
Definition range_choice (preferred min max : Z) : spa_pod_choice Z :=
  if negb (min =? max)
  then {| choice_type := SPA_CHOICE_Range;
          choice_values := [SPA_CLAMP preferred min max; min; max] |}
  else {| choice_type := SPA_CHOICE_None;
          choice_values := [SPA_CLAMP preferred min max] |}.

(** How one pass from the label [next] to the filter ends. *)
Inductive enum_pass :=
  | PassError (err : Z)        (* a CHECK failed: [return err] *)
  | PassEnd                    (* [goto enum_end] *)
  | PassUndefined              (* undefined behaviour in [sanitize_map] *)
  | PassFormat (fmt : format_pod).

(** One pass for [result.index = index]. [chmaps] is what
    [snd_pcm_query_chmaps] would answer; the branch that uses it is under
    [if (false)]. *)
Definition enum_format_pass (dev : pcm_device) (chmaps : list snd_pcm_chmap_t)
    (index : Z) : enum_pass :=
  CHECK (snd_pcm_hw_params_any dev) ELSE PassError ;;
  let fmts := format_choice dev in
  CHECK (snd_pcm_hw_params_get_rate_min dev).1 ELSE PassError ;;
  CHECK (snd_pcm_hw_params_get_rate_max dev).1 ELSE PassError ;;
  let rates := range_choice DEFAULT_RATE (snd_pcm_hw_params_get_rate_min dev).2
                 (snd_pcm_hw_params_get_rate_max dev).2 in
  CHECK (snd_pcm_hw_params_get_channels_min dev).1 ELSE PassError ;;
  CHECK (snd_pcm_hw_params_get_channels_max dev).1 ELSE PassError ;;
  if false then
    match chmaps !! Z.to_nat index with
    | None => PassEnd
    | Some map =>
        match sanitize_map map with
        | None => PassUndefined
        | Some map =>
            PassFormat
              {| fp_format := fmts; fp_rate := rates;
                 fp_channels := {| choice_type := SPA_CHOICE_None;
                                   choice_values := [Z.of_nat (length map)] |};
                 fp_position := Some (List.map chmap_position_to_channel map) |}
        end
    end
  else if index >? 0 then PassEnd
  else
    PassFormat
      {| fp_format := fmts; fp_rate := rates;
         fp_channels := range_choice DEFAULT_CHANNELS
                          (snd_pcm_hw_params_get_channels_min dev).2
                          (snd_pcm_hw_params_get_channels_max dev).2;
         fp_position := None |}.

(** [struct spa_result_node_params] as given to [spa_node_emit_result],
    with the [seq] it is emitted under. *)
Record spa_result_node_params := {
  rp_seq : Z;
  rp_index : Z;
  rp_next : Z;
  rp_param : format_pod
}.

Inductive enum_exit := ExitError (err : Z) | ExitEnd | ExitUndefined.

(** [uint32_t] increment. *)
Definition incr32 (x : Z) : Z := (x + 1) mod 2 ^ 32.

(** The passes from the label [next] on. [filter] is [spa_pod_filter]
    applied to the caller's filter: [None] when it returns a negative
    value. [fuel] bounds the number of passes; [None] when it runs out. *)
Fixpoint enum_format_loop (fuel : nat) (dev : pcm_device) (chmaps : list snd_pcm_chmap_t)
    (filter : format_pod -> option format_pod) (seq num next count : Z)
    (out : list spa_result_node_params)
  : option (enum_exit * list spa_result_node_params) :=
  match fuel with
  | O => None
  | S fuel' =>
      let index := next in
      let next := incr32 next in
      match enum_format_pass dev chmaps index with
      | PassError err => Some (ExitError err, out)
      | PassEnd => Some (ExitEnd, out)
      | PassUndefined => Some (ExitUndefined, out)
      | PassFormat fmt =>
          match filter fmt with
          | None => enum_format_loop fuel' dev chmaps filter seq num next count out
          | Some param =>
              let out := out ++ [{| rp_seq := seq; rp_index := index;
                                    rp_next := next; rp_param := param |}] in
              let count := incr32 count in
              if negb (count =? num)
              then enum_format_loop fuel' dev chmaps filter seq num next count out
              else Some (ExitEnd, out)
          end
      end
  end.

(** [spa_alsa_enum_format]: the return value, the state, and the results
    emitted. [None] when [fuel] passes were not enough, or the behaviour is
    undefined. *)
Definition spa_alsa_enum_format (fuel : nat) (dev : pcm_device)
    (chmaps : list snd_pcm_chmap_t) (st : state) (seq start num : Z)
    (filter : format_pod -> option format_pod)
  : option (Z * state * list spa_result_node_params) :=
  let was_opened := opened st in
  let '(err, st) := spa_alsa_open dev st in
  if err <? 0 then Some (err, st, [])
  else
    match enum_format_loop fuel dev chmaps filter seq num start 0 [] with
    | None => None
    | Some (ExitUndefined, _) => None
    | Some (ExitError err, out) => Some (err, st, out)
    | Some (ExitEnd, out) =>
        let st := if negb was_opened then (spa_alsa_close dev st).2 else st in
        Some (0, st, out)
    end.

(** *** Hardware parameters: [spa_alsa_set_format] *)

(** Modelled from the spec: [SPA_NODE_PARAM_FLAG_NEAREST] of
    [spa/node/node.h], the flag with which the caller allows the nearest
    match. *)
Definition SPA_NODE_PARAM_FLAG_NEAREST : Z := Z.shiftl 1 2.

(** [struct spa_audio_info_raw], the fields [spa_alsa_set_format] uses. *)
Record spa_audio_info_raw := {
  info_format : spa_audio_format;
  info_rate : Z;
  info_channels : Z
}.

Definition info_set_rate (info : spa_audio_info_raw) (r : Z) : spa_audio_info_raw :=
  {| info_format := info_format info; info_rate := r; info_channels := info_channels info |}.

Definition info_set_channels (info : spa_audio_info_raw) (c : Z) : spa_audio_info_raw :=
  {| info_format := info_format info; info_rate := info_rate info; info_channels := c |}.

(** The result of [spa_alsa_set_format]: its return value, the caller's
    [info] (it is written through the pointer) and the state. *)
Definition set_format_result : Type := Z * spa_audio_info_raw * state.

(** Lines 436-456: the negotiated format is stored, then period and buffer
    size are set and the parameters written to the device. *)
Definition set_format_finish (dev : pcm_device) (st : state) (info : spa_audio_info_raw)
    (fmt : snd_pcm_format_t) : set_format_result :=
  let st := set_hw_format st fmt (info_channels info) (info_rate info)
              (info_channels info * Z.quot (snd_pcm_format_physical_width dev fmt) 8) in
  let period := snd_pcm_hw_params_set_period_size_near dev 1024 in
  CHECK period.1 ELSE (fun err => (err, info, st)) ;;
  let bmax := snd_pcm_hw_params_get_buffer_size_max dev in
  CHECK bmax.1 ELSE (fun err => (err, info, st)) ;;
  let st := set_buffer_frames st bmax.2 in
  let bnear := snd_pcm_hw_params_set_buffer_size_near dev (buffer_frames st) in
  CHECK bnear.1 ELSE (fun err => (err, info, st)) ;;
  let st := set_period_frames (set_buffer_frames st bnear.2) period.2 in
  CHECK (snd_pcm_hw_params dev) ELSE (fun err => (err, info, st)) ;;
  (0, info, st).

(** Lines 425-434: the stream rate. *)
Definition set_format_rate (dev : pcm_device) (st : state) (info : spa_audio_info_raw)
    (flags : Z) (fmt : snd_pcm_format_t) : set_format_result :=
  let near := snd_pcm_hw_params_set_rate_near dev (info_rate info) in
  CHECK near.1 ELSE (fun err => (err, info, st)) ;;
  let rrate := near.2 in
  if negb (rrate =? info_rate info) then
    if negb (Z.land flags SPA_NODE_PARAM_FLAG_NEAREST =? 0)
    then set_format_finish dev st (info_set_rate info rrate) fmt
    else (- EINVAL, info, st)
  else set_format_finish dev st info fmt.

(** Lines 414-423: the count of channels. *)
Definition set_format_channels (dev : pcm_device) (st : state) (info : spa_audio_info_raw)
    (flags : Z) (fmt : snd_pcm_format_t) : set_format_result :=
  let near := snd_pcm_hw_params_set_channels_near dev (info_channels info) in
  CHECK near.1 ELSE (fun err => (err, info, st)) ;;
  let rchannels := near.2 in
  if negb (rchannels =? info_channels info) then
    if negb (Z.land flags SPA_NODE_PARAM_FLAG_NEAREST =? 0)
    then set_format_rate dev st (info_set_channels info rchannels) flags fmt
    else (- EINVAL, info, st)
  else set_format_rate dev st info flags fmt.

Definition spa_alsa_set_format (dev : pcm_device) (st : state) (info : spa_audio_info_raw)
    (flags : Z) : set_format_result :=
  let '(err, st) := spa_alsa_open dev st in
  if err <? 0 then (err, info, st)
  else
    CHECK (snd_pcm_hw_params_any dev) ELSE (fun err => (err, info, st)) ;;
    CHECK (snd_pcm_hw_params_set_rate_resample dev) ELSE (fun err => (err, info, st)) ;;
    CHECK (snd_pcm_hw_params_set_access dev) ELSE (fun err => (err, info, st)) ;;
    CHECK (if snd_pcm_hw_params_can_disable_period_wakeup dev
           then snd_pcm_hw_params_set_period_wakeup dev else 0)
      ELSE (fun err => (err, info, st)) ;;
    let fmt := spa_format_to_alsa (info_format info) in
    if bool_decide (fmt = SND_PCM_FORMAT_UNKNOWN) then (- EINVAL, info, st)
    else
      CHECK (snd_pcm_hw_params_set_format dev fmt) ELSE (fun err => (err, info, st)) ;;
      set_format_channels dev st info flags fmt.

(** *** The timer handlers: [handle_play], [alsa_on_capture_timeout_event] *)

Definition SPA_NSEC_PER_SEC : Z := 1000000000.

Definition SPA_TIMESPEC_TO_NSEC (t : timespec) : Z := tv_sec t * SPA_NSEC_PER_SEC + tv_nsec t.

(** A value stored into a [uint64_t]. *)
Definition to_uint64 (x : Z) : Z := x mod 2 ^ 64.

(** [set_timeout]: arms the timerfd for the absolute time, unless slaved. *)
Definition set_timeout (st : state) (time : Z) : state :=
  if negb (slaved st)
  then set_timer st {| tv_sec := Z.quot time SPA_NSEC_PER_SEC;
                       tv_nsec := Z.rem time SPA_NSEC_PER_SEC |}
  else st.

(** [if (state->position && state->threshold != state->position->size)
    state->threshold = state->position->size;] of [handle_play], and
    [if (state->position) state->threshold = state->position->size;] of
    the capture handler. *)
Definition play_threshold (st : state) : state :=
  match position st with
  | Some size => if negb (threshold st =? size) then set_threshold st size else st
  | None => st
  end.

Definition capture_threshold (st : state) : state :=
  match position st with
  | Some size => set_threshold st size
  | None => st
  end.

Section Timers.

(** What [snd_pcm_avail] answers in a given state. *)
Variable snd_pcm_avail : state -> Z.

(** [alsa_recover], [update_time] and the transfers are parameters here:
    they run the DLL in floating point and move the frames through the
    mmap areas and the buffer queues, neither of which this model has.
    [play_transfer] is lines 866-881 of [handle_play]; [capture_transfer]
    is lines 932-956 of the capture handler, with [false] when it returns
    from the handler on an mmap error. *)
Variable alsa_recover : state -> Z -> Z * state.
Variable update_time : state -> Z -> Z -> bool -> Z * state.
Variable play_transfer : state -> state.
Variable capture_transfer : state -> Z -> Z -> bool * state.

(** [get_status]: the return value, [*delay] and the state. *)
Definition get_status (st : state) : Z * Z * state :=
  let delay_of (st : state) (av : Z) :=
    match stream st with
    | SND_PCM_STREAM_PLAYBACK => buffer_frames st - av
    | SND_PCM_STREAM_CAPTURE => av
    end in
  let av := snd_pcm_avail st in
  if av <? 0 then
    let '(res, st) := alsa_recover st av in
    if res <? 0 then (res, 0, st)
    else
      let av := snd_pcm_avail st in
      if av <? 0 then (av, 0, st) else (0, delay_of st av, st)
  else (0, delay_of st av, st).

(** [handle_play]; [t] is what [clock_gettime] reads. *)
Definition handle_play (st : state) (t : timespec) : Z * state :=
  let st := set_now (play_threshold st) t in
  let '(res, delay, st) := get_status st in
  if res <? 0 then (0, st)
  else
    let nsec := SPA_TIMESPEC_TO_NSEC (now st) in
    if delay >=? threshold st * 2 then
      (0, set_next_time st
            (to_uint64 (nsec + Z.quot (Z.quot (threshold st) 2 * SPA_NSEC_PER_SEC) (rate st))))
    else
      let '(res, st) := update_time st nsec delay false in
      if res <? 0 then (0, st)
      else (0, play_transfer st).

Definition alsa_on_playback_timeout_event (st : state) (t : timespec) : state :=
  let '(_, st) := handle_play st t in
  set_timeout st (next_time st).

Definition alsa_on_capture_timeout_event (st : state) (t : timespec) : state :=
  let st := set_now (capture_threshold st) t in
  let '(res, delay, st) := get_status st in
  if res <? 0 then st
  else
    let nsec := SPA_TIMESPEC_TO_NSEC (now st) in
    if delay <? threshold st then
      let st := set_next_time st
                  (to_uint64 (nsec + Z.quot ((threshold st - delay) * SPA_NSEC_PER_SEC)
                                      (rate st))) in
      set_timeout st (next_time st)
    else
      let '(res, st) := update_time st nsec delay false in
      if res <? 0 then st
      else
        let '(completed, st) := capture_transfer st nsec delay in
        if completed then set_timeout st (next_time st) else st.

End Timers.

(** *** Preconditions and example inputs *)

(** The hardware-parameter queries of one enumeration pass all succeed. *)
Definition hw_queries_ok (dev : pcm_device) : Prop :=
  0 <= snd_pcm_hw_params_any dev /\
  0 <= (snd_pcm_hw_params_get_rate_min dev).1 /\
  0 <= (snd_pcm_hw_params_get_rate_max dev).1 /\
  0 <= (snd_pcm_hw_params_get_channels_min dev).1 /\
  0 <= (snd_pcm_hw_params_get_channels_max dev).1.

(** [spa_alsa_set_format] gets as far as the channel count: the device
    opens, the calls before it succeed and the format is a known one. *)
Definition reaches_negotiation (dev : pcm_device) (st : state)
    (info : spa_audio_info_raw) : Prop :=
  0 <= (spa_alsa_open dev st).1 /\
  0 <= snd_pcm_hw_params_any dev /\
  0 <= snd_pcm_hw_params_set_rate_resample dev /\
  0 <= snd_pcm_hw_params_set_access dev /\
  0 <= (if snd_pcm_hw_params_can_disable_period_wakeup dev
        then snd_pcm_hw_params_set_period_wakeup dev else 0) /\
  spa_format_to_alsa (info_format info) <> SND_PCM_FORMAT_UNKNOWN /\
  0 <= snd_pcm_hw_params_set_format dev (spa_format_to_alsa (info_format info)).

(** A closed playback state. *)
Definition example_state : state :=
  {| opened := false; stream := SND_PCM_STREAM_PLAYBACK;
     st_format := SND_PCM_FORMAT_UNKNOWN; rate := 48000; channels := 2; frame_size := 4;
     buffer_frames := 16384; period_frames := 1024; position := None;
     threshold := 1024; started := true; slaved := false;
     now := {| tv_sec := 0; tv_nsec := 0 |}; sample_count := 0; sample_time := 0;
     next_time := 0; timer := None |}.

(** A capture state, and a reading of the clock. *)
Definition example_capture_state : state :=
  {| opened := true; stream := SND_PCM_STREAM_CAPTURE;
     st_format := SND_PCM_FORMAT_S16_LE; rate := 48000; channels := 2; frame_size := 4;
     buffer_frames := 16384; period_frames := 1024; position := None;
     threshold := 1024; started := true; slaved := false;
     now := {| tv_sec := 0; tv_nsec := 0 |}; sample_count := 0; sample_time := 0;
     next_time := 0; timer := None |}.

Definition example_time : timespec := {| tv_sec := 5; tv_nsec := 7 |}.

(** A device that does S16_LE and FLOAT_LE at 44100 to 48000 Hz on 1 to 2
    channels, grants 2 channels and 48000 Hz whatever is asked, and has the
    access types of [amask]. *)
Definition example_device_with (amask : snd_pcm_access_t -> bool) : pcm_device :=
  {| snd_output_stdio_attach := 0;
     snd_pcm_open := 0;
     snd_pcm_close := 0;
     snd_pcm_hw_params_any := 0;
     snd_pcm_hw_params_get_format_mask :=
       fun f => bool_decide (f = SND_PCM_FORMAT_S16_LE)
                || bool_decide (f = SND_PCM_FORMAT_FLOAT_LE);
     snd_pcm_hw_params_get_access_mask := amask;
     snd_pcm_hw_params_get_rate_min := (0, 44100);
     snd_pcm_hw_params_get_rate_max := (0, 48000);
     snd_pcm_hw_params_get_channels_min := (0, 1);
     snd_pcm_hw_params_get_channels_max := (0, 2);
     snd_pcm_hw_params_set_rate_resample := 0;
     snd_pcm_hw_params_set_access := 0;
     snd_pcm_hw_params_can_disable_period_wakeup := true;
     snd_pcm_hw_params_set_period_wakeup := 0;
     snd_pcm_hw_params_set_format := fun _ => 0;
     snd_pcm_hw_params_set_channels_near := fun _ => (0, 2);
     snd_pcm_hw_params_set_rate_near := fun _ => (0, 48000);
     snd_pcm_format_physical_width := fun _ => 16;
     snd_pcm_hw_params_set_period_size_near := fun n => (0, n);
     snd_pcm_hw_params_get_buffer_size_max := (0, 16384);
     snd_pcm_hw_params_set_buffer_size_near := fun n => (0, n);
     snd_pcm_hw_params := 0 |}.

Definition example_device : pcm_device :=
  example_device_with
    (fun a => match a with SND_PCM_ACCESS_MMAP_INTERLEAVED => true | _ => false end).

Definition planar_device : pcm_device := example_device_with (fun _ => true).


Definition example_info : spa_audio_info_raw :=
  {| info_format := SPA_AUDIO_FORMAT_S16_LE; info_rate := 44100; info_channels := 6 |}.

(** A request for the channels [example_device] grants, at a rate it does
    not. *)
Definition stereo_info : spa_audio_info_raw :=
  {| info_format := SPA_AUDIO_FORMAT_S16_LE; info_rate := 44100; info_channels := 2 |}.

End Alsa.

Module ProtocolNative.
Local Open Scope Z_scope.

(** *** Messages, resources and the dispatch loop: [process_messages] *)

(** Modelled from the spec: the permission bits {R,W,X} of a resource
    ([pipewire/permission.h]). *)
Definition PW_PERM_R : Z := 256.
Definition PW_PERM_W : Z := 128.
Definition PW_PERM_X : Z := 64.
Definition PW_PERM_RWX : Z := Z.lor (Z.lor PW_PERM_R PW_PERM_W) PW_PERM_X.

(** Modelled from the spec: [enum spa_io], the readiness bits of an io
    source ([spa/support/loop.h]). *)
Definition SPA_IO_IN : Z := Z.shiftl 1 0.
Definition SPA_IO_OUT : Z := Z.shiftl 1 2.
Definition SPA_IO_ERR : Z := Z.shiftl 1 3.
Definition SPA_IO_HUP : Z := Z.shiftl 1 4.

(** Modelled from the spec: a frame, the 16-byte header
    [(id, opcode, size, seq)] of [struct pw_protocol_native_message]. *)
Record message := {
  msg_id : Z;
  msg_opcode : Z;
  msg_size : Z;
  msg_seq : Z
}.

(** A demarshal function is known by its name. *)
Definition method : Type := string.

(** Modelled from the spec: [struct pw_protocol_native_demarshal], one
    method's demarshal function ([None] for a null pointer) and the
    permissions it requires. *)
Record demarshal := {
  func : option method;
  permissions : Z
}.

(** Modelled from the spec: [struct pw_protocol_marshal], reduced to the
    method table; [n_methods] is its length. *)
Record marshal := { method_demarshal : list demarshal }.

Definition n_methods (m : marshal) : Z := Z.of_nat (length (method_demarshal m)).

(** Modelled from the spec: a resource, its id unique within the client,
    its permission bits and its marshal ([None] for a null pointer). *)
Record resource := {
  res_id : Z;
  res_permissions : Z;
  res_marshal : option marshal
}.

(** Modelled from the spec: an error surfaced to a resource is a typed
    reply [(errno, message)]; here the resource it is about and the
    (negative) errno. *)
Record error_reply := {
  er_id : Z;
  er_res : Z
}.

(** [struct client_data] with the fields of its [struct pw_client] that
    the module uses: [recv_seq], the id of [core_resource], the resource
    map, the error replies sent so far, whether [pw_client_destroy] has
    run, and whether the core has it as [current_client]. [source_mask]
    is [data->source->mask]. *)
Record client_data := {
  busy : bool;
  source_mask : Z;
  recv_seq : Z;
  core_resource : Z;
  resources : gmap Z resource;
  replies : list error_reply;
  destroyed : bool;
  current_client : bool
}.

Definition set_recv_seq (d : client_data) (seq : Z) : client_data :=
  {| busy := busy d; source_mask := source_mask d; recv_seq := seq;
     core_resource := core_resource d; resources := resources d;
     replies := replies d; destroyed := destroyed d;
     current_client := current_client d |}.

Definition set_source_mask (d : client_data) (mask : Z) : client_data :=
  {| busy := busy d; source_mask := mask; recv_seq := recv_seq d;
     core_resource := core_resource d; resources := resources d;
     replies := replies d; destroyed := destroyed d;
     current_client := current_client d |}.

Definition set_current_client (d : client_data) (b : bool) : client_data :=
  {| busy := busy d; source_mask := source_mask d; recv_seq := recv_seq d;
     core_resource := core_resource d; resources := resources d;
     replies := replies d; destroyed := destroyed d;
     current_client := b |}.

(** Modelled from the spec: [pw_resource_error] emits an error reply about
    the resource to the client. *)
Definition pw_resource_error (d : client_data) (id res : Z) : client_data :=
  {| busy := busy d; source_mask := source_mask d; recv_seq := recv_seq d;
     core_resource := core_resource d; resources := resources d;
     replies := replies d ++ [{| er_id := id; er_res := res |}];
     destroyed := destroyed d; current_client := current_client d |}.

(** Modelled from the spec: [pw_client_destroy] tears the client down
    (socket watcher removed, connection closed, client freed). *)
Definition pw_client_destroy (d : client_data) : client_data :=
  {| busy := busy d; source_mask := source_mask d; recv_seq := recv_seq d;
     core_resource := core_resource d; resources := resources d;
     replies := replies d; destroyed := true;
     current_client := current_client d |}.

(** Modelled from the spec: [pw_client_find_resource]. *)
Definition pw_client_find_resource (d : client_data) (id : Z) : option resource :=
  resources d !! id.

Section Dispatch.

(** What calling a demarshal function does: its return value and the
    client afterwards (it may set the client busy). *)
Variable invoke : method -> resource -> message -> client_data -> Z * client_data.

(** The labels [invalid_method] and [invalid_message]. *)
Definition invalid_method (d : client_data) (r : resource) : client_data :=
  pw_client_destroy (pw_resource_error d (res_id r) (- EINVAL)).

Definition invalid_message (d : client_data) (r : resource) : client_data :=
  pw_client_destroy (pw_resource_error d (res_id r) (- EINVAL)).

(** The [while (!data->busy)] loop of [process_messages]. The frames the
    connection holds are [incoming]:
    [pw_protocol_native_connection_get_next] yields the first of them and
    returns 1, or returns 0 when there is none. The result is the client
    and the frames left in the connection. *)
Fixpoint process_loop (d : client_data) (incoming : list message)
  : client_data * list message :=
  if busy d then (d, incoming)
  else
    match incoming with
    | [] => (d, [])
    | msg :: incoming' =>
        let d := set_recv_seq d (msg_seq msg) in
        match pw_client_find_resource d (msg_id msg) with
        | None =>
            process_loop (pw_resource_error d (core_resource d) (- EINVAL)) incoming'
        | Some r =>
            match res_marshal r with
            | None => (invalid_method d r, incoming')
            | Some m =>
                if msg_opcode msg >=? n_methods m then (invalid_method d r, incoming')
                else
                  match method_demarshal m !! Z.to_nat (msg_opcode msg) with
                  | None => (invalid_message d r, incoming')
                  | Some dm =>
                      match func dm with
                      | None => (invalid_message d r, incoming')
                      | Some f =>
                          let required := Z.lor (permissions dm) PW_PERM_X in
                          if negb (Z.land required (res_permissions r) =? required) then
                            process_loop (pw_resource_error d (res_id r) (- EACCES))
                              incoming'
                          else
                            let '(res, d) := invoke f r msg d in
                            if res <? 0 then (invalid_message d r, incoming')
                            else process_loop d incoming'
                      end
                  end
            end
        end
    end.

Definition process_messages (d : client_data) (incoming : list message)
  : client_data * list message :=
  let '(d, rest) := process_loop (set_current_client d true) incoming in
  (set_current_client d false, rest).

(** *** Socket readiness: [connection_data], [on_before_hook] *)

(** Modelled from the spec: [pw_protocol_native_connection_flush]
    attempts a non-blocking write of what is pending; the value it
    returns for a client: non-negative when drained, the negative errno
    otherwise, [-EAGAIN] on a partial write. *)
Variable pw_protocol_native_connection_flush : client_data -> Z.

Definition connection_data (d : client_data) (mask : Z) (incoming : list message)
  : client_data * list message :=
  if negb (Z.land mask SPA_IO_HUP =? 0) then (pw_client_destroy d, incoming)
  else if negb (Z.land mask SPA_IO_ERR =? 0) then (pw_client_destroy d, incoming)
  else
    let flushed :=
      if negb (Z.land mask SPA_IO_OUT =? 0) then
        let res := pw_protocol_native_connection_flush d in
        if res >=? 0 then
          Some (set_source_mask d (SPA_FLAG_UNSET (source_mask d) SPA_IO_OUT))
        else if negb (res =? EAGAIN) then None
        else Some d
      else Some d in
    match flushed with
    | None => (pw_client_destroy d, incoming)
    | Some d =>
        if negb (Z.land mask SPA_IO_IN =? 0) then process_messages d incoming
        else (d, incoming)
    end.

(** Body of the loop of [on_before_hook] for one client. *)
Definition before_hook_client (d : client_data) : client_data :=
  let res := pw_protocol_native_connection_flush d in
  if res =? - EAGAIN then set_source_mask d (SPA_FLAG_SET (source_mask d) SPA_IO_OUT)
  else if res <? 0 then pw_client_destroy d
  else d.

(** [on_before_hook] over the server's client list: the clients left on
    the list, and those destroyed. [pw_client_destroy] ends in
    [client_free], which takes the client off the list, and the loop is
    the one that is safe against the removal of the current entry. *)
Fixpoint on_before_hook (clients : list client_data)
  : list client_data * list client_data :=
  match clients with
  | [] => ([], [])
  | d :: tmp =>
      let res := pw_protocol_native_connection_flush d in
      let '(client_list, freed) := on_before_hook tmp in
      if res =? - EAGAIN then
        (set_source_mask d (SPA_FLAG_SET (source_mask d) SPA_IO_OUT) :: client_list, freed)
      else if res <? 0 then (client_list, pw_client_destroy d :: freed)
      else (d :: client_list, freed)
  end.

End Dispatch.

(** *** The server socket: [lock_socket], [add_socket], [destroy_server],
    [impl_add_server] *)

Definition UNIX_PATH_MAX : Z := 108.
Definition LOCK_SUFFIX : string := ".lock".

(** The system calls the server makes, as logged by the model. *)
Inductive syscall :=
  | SysOpen (path : string)
  | SysFlock (fd : Z)
  | SysClose (fd : Z)
  | SysSocket
  | SysBind (fd : Z) (path : string)
  | SysListen (fd : Z)
  | SysUnlink (path : string).

(** The process and its surroundings: environment variables, the paths
    that exist, the lock files another process holds an exclusive [flock]
    on, paths [open] is refused on, the descriptors this process has open
    (with the path of those opened by path), the descriptors passed in by
    socket activation with the path each is bound to, whether [socket],
    [listen] and [pw_loop_add_io] succeed, and the log of system calls. *)
Record os := {
  xdg_runtime_dir : option string;
  pipewire_core : option string;
  files : gset string;
  locked : gset string;
  open_refused : gset string;
  open_fds : gmap Z string;
  next_fd : Z;
  listen_fds : list (Z * string);
  socket_ok : bool;
  listen_ok : bool;
  add_io_ok : bool;
  syscalls : list syscall
}.

Definition os_update (w : os) (fs : gset string) (fds : gmap Z string) (next : Z)
    (call : syscall) : os :=
  {| xdg_runtime_dir := xdg_runtime_dir w; pipewire_core := pipewire_core w;
     files := fs; locked := locked w; open_refused := open_refused w;
     open_fds := fds; next_fd := next; listen_fds := listen_fds w;
     socket_ok := socket_ok w; listen_ok := listen_ok w; add_io_ok := add_io_ok w;
     syscalls := syscalls w ++ [call] |}.

(** [open(path, O_CREAT | O_CLOEXEC, 0660)]. *)
Definition sys_open (w : os) (path : string) : Z * os :=
  if bool_decide (path ∈ open_refused w)
  then (-1, os_update w (files w) (open_fds w) (next_fd w) (SysOpen path))
  else (next_fd w,
        os_update w ({[path]} ∪ files w) (<[next_fd w := path]> (open_fds w))
          (next_fd w + 1) (SysOpen path)).

(** [flock(fd, LOCK_EX | LOCK_NB)]: fails when another process holds the
    lock on the file. *)
Definition sys_flock (w : os) (fd : Z) : Z * os :=
  let w' := os_update w (files w) (open_fds w) (next_fd w) (SysFlock fd) in
  match open_fds w !! fd with
  | Some path => if bool_decide (path ∈ locked w) then (-1, w') else (0, w')
  | None => (-1, w')
  end.

Definition sys_close (w : os) (fd : Z) : os :=
  os_update w (files w) (delete fd (open_fds w)) (next_fd w) (SysClose fd).

Definition sys_unlink (w : os) (path : string) : os :=
  os_update w (files w ∖ {[path]}) (open_fds w) (next_fd w) (SysUnlink path).

(** [socket(PF_LOCAL, SOCK_STREAM | SOCK_CLOEXEC | SOCK_NONBLOCK, 0)]. *)
Definition sys_socket (w : os) : Z * os :=
  if socket_ok w
  then (next_fd w, os_update w (files w) (<[next_fd w := EmptyString]> (open_fds w))
                     (next_fd w + 1) SysSocket)
  else (-1, os_update w (files w) (open_fds w) (next_fd w) SysSocket).

(** [bind]: fails when the path exists already. *)
Definition sys_bind (w : os) (fd : Z) (path : string) : Z * os :=
  if bool_decide (path ∈ files w)
  then (-1, os_update w (files w) (open_fds w) (next_fd w) (SysBind fd path))
  else (0, os_update w ({[path]} ∪ files w) (open_fds w) (next_fd w) (SysBind fd path)).

Definition sys_listen (w : os) (fd : Z) : Z * os :=
  (if listen_ok w then 0 else -1,
   os_update w (files w) (open_fds w) (next_fd w) (SysListen fd)).

(** [struct server]: the strings are the NUL-terminated buffers
    [addr.sun_path] and [lock_addr]; [source] is the descriptor the io
    source watches ([None] for a null pointer). *)
Record server := {
  fd_lock : Z;
  sun_path : string;
  lock_addr : string;
  activated : bool;
  source : option Z;
  hooked : bool
}.

(** [get_name]: the core name property, else [PIPEWIRE_CORE], else the
    default. *)
Definition get_name (w : os) (core_name : option string) : string :=
  match core_name with
  | Some name => name
  | None =>
      match pipewire_core w with
      | Some name => name
      | None => "pipewire-0"%string
      end
  end.

(** [init_socket_name]. *)
Definition init_socket_name (w : os) (s : server) (name : string) : bool * server :=
  match xdg_runtime_dir w with
  | None => (false, s)
  | Some runtime_dir =>
      let path := (runtime_dir +:+ "/" +:+ name)%string in
      let name_size := Z.of_nat (String.length path) + 1 in
      if name_size >? UNIX_PATH_MAX then
        (false, {| fd_lock := fd_lock s; sun_path := EmptyString; lock_addr := lock_addr s;
                   activated := activated s; source := source s; hooked := hooked s |})
      else
        (true, {| fd_lock := fd_lock s; sun_path := path; lock_addr := lock_addr s;
                  activated := activated s; source := source s; hooked := hooked s |})
  end.

(** [lock_socket]. *)
Definition lock_socket (w : os) (s : server) : bool * server * os :=
  let lock := (sun_path s +:+ LOCK_SUFFIX)%string in
  let '(fd, w) := sys_open w lock in
  let failed (fd : Z) :=
    {| fd_lock := fd; sun_path := EmptyString; lock_addr := EmptyString;
       activated := activated s; source := source s; hooked := hooked s |} in
  if fd <? 0 then (false, failed fd, w)
  else
    let '(res, w) := sys_flock w fd in
    if res <? 0 then (false, failed (-1), sys_close w fd)
    else
      (true, {| fd_lock := fd; sun_path := sun_path s; lock_addr := lock;
                activated := activated s; source := source s; hooked := hooked s |}, w).

(** The descriptor socket activation passed in for the path, if any. *)
Definition activation_fd (w : os) (path : string) : option Z :=
  match List.find (fun e => String.eqb e.2 path) (listen_fds w) with
  | Some e => Some e.1
  | None => None
  end.

(** [add_socket]. *)
Definition add_socket (w : os) (s : server) : bool * server * os :=
  let with_source (w : os) (fd : Z) (act : bool) :=
    if add_io_ok w then
      (true, {| fd_lock := fd_lock s; sun_path := sun_path s; lock_addr := lock_addr s;
                activated := act; source := Some fd; hooked := hooked s |}, w)
    else
      (false, {| fd_lock := fd_lock s; sun_path := sun_path s; lock_addr := lock_addr s;
                 activated := act; source := None; hooked := hooked s |}, sys_close w fd) in
  match activation_fd w (sun_path s) with
  | Some fd => with_source w fd true
  | None =>
      let '(fd, w) := sys_socket w in
      if fd <? 0 then (false, s, w)
      else
        let '(res, w) := sys_bind w fd (sun_path s) in
        if res <? 0 then (false, s, sys_close w fd)
        else
          let '(res, w) := sys_listen w fd in
          if res <? 0 then (false, s, sys_close w fd)
          else with_source w fd false
  end.

(** [buf[0]] as a truth value: the buffer holds a non-empty string. *)
Definition first_char (buf : string) : bool :=
  match buf with
  | EmptyString => false
  | String _ _ => true
  end.

(** [destroy_server] (the clients of a server that failed to start are
    none). *)
Definition destroy_server (w : os) (s : server) : os :=
  let w := match source s with Some fd => sys_close w fd | None => w end in
  let w := if first_char (sun_path s) && negb (activated s)
           then sys_unlink w (sun_path s) else w in
  let w := if first_char (lock_addr s)
           then sys_unlink w (lock_addr s) else w in
  if negb (fd_lock s =? -1) then sys_close w (fd_lock s) else w.

(** [impl_add_server]: the server ([None] for NULL) and the world after. *)
Definition impl_add_server (w : os) (core_name : option string) : option server * os :=
  let s := {| fd_lock := -1; sun_path := EmptyString; lock_addr := EmptyString;
              activated := false; source := None; hooked := false |} in
  let name := get_name w core_name in
  let '(ok, s) := init_socket_name w s name in
  if negb ok then (None, destroy_server w s)
  else
    let '(ok, s, w) := lock_socket w s in
    if negb ok then (None, destroy_server w s)
    else
      let '(ok, s, w) := add_socket w s in
      if negb ok then (None, destroy_server w s)
      else
        (Some {| fd_lock := fd_lock s; sun_path := sun_path s; lock_addr := lock_addr s;
                 activated := activated s; source := source s; hooked := true |}, w).

(** *** Example inputs *)

(** A method table whose first entry has no demarshal function, and a
    resource bound with permissions R|X. *)
Definition example_marshal : marshal :=
  {| method_demarshal :=
       [ {| func := None; permissions := PW_PERM_W |};
         {| func := Some "set_param"%string; permissions := PW_PERM_W |};
         {| func := Some "enum_params"%string; permissions := PW_PERM_R |};
         {| func := Some "broken"%string; permissions := 0 |} ] |}.

Definition example_resource : resource :=
  {| res_id := 1; res_permissions := Z.lor PW_PERM_R PW_PERM_X;
     res_marshal := Some example_marshal |}.

Definition example_client : client_data :=
  {| busy := false; source_mask := Z.lor (Z.lor SPA_IO_ERR SPA_IO_HUP) SPA_IO_IN;
     recv_seq := 0; core_resource := 0;
     resources := {[ 1 := example_resource ]};
     replies := []; destroyed := false; current_client := false |}.

(** Demarshal functions that succeed, but for the one named "broken". *)
Definition example_invoke (f : method) (r : resource) (msg : message) (d : client_data)
  : Z * client_data :=
  if String.eqb f "broken" then (- EINVAL, d) else (0, d).

Definition example_message (id opcode seq : Z) : message :=
  {| msg_id := id; msg_opcode := opcode; msg_size := 0; msg_seq := seq |}.

(** A second server started while a first one owns "pipewire-0": socket
    and lock file exist and the lock is held. *)
Definition example_os : os :=
  {| xdg_runtime_dir := Some "/run/user/1000"%string;
     pipewire_core := None;
     files := {[ "/run/user/1000/pipewire-0"%string;
                 "/run/user/1000/pipewire-0.lock"%string ]};
     locked := {[ "/run/user/1000/pipewire-0.lock"%string ]};
     open_refused := ∅;
     open_fds := ∅;
     next_fd := 3;
     listen_fds := [];
     socket_ok := true; listen_ok := true; add_io_ok := true;
     syscalls := [] |}.

End ProtocolNative.

Module SessionManager.
Local Open Scope Z_scope.

(** *** Endpoints and sessions: [endpoint_update], [session_update], bind *)

(** Modelled from the spec: an update carries a change-mask; the bits of
    [extensions/session-manager], one per part of the update and one per
    info field. *)
Definition PW_CLIENT_ENDPOINT_UPDATE_PARAMS : Z := Z.shiftl 1 0.
Definition PW_CLIENT_ENDPOINT_UPDATE_INFO : Z := Z.shiftl 1 1.
Definition PW_ENDPOINT_CHANGE_MASK_STREAMS : Z := Z.shiftl 1 0.
Definition PW_ENDPOINT_CHANGE_MASK_SESSION : Z := Z.shiftl 1 1.
Definition PW_ENDPOINT_CHANGE_MASK_PROPS : Z := Z.shiftl 1 2.
Definition PW_ENDPOINT_CHANGE_MASK_PARAMS : Z := Z.shiftl 1 3.
Definition PW_ENDPOINT_CHANGE_MASK_ALL : Z := Z.shiftl 1 4 - 1.
Definition PW_CLIENT_SESSION_UPDATE_PARAMS : Z := Z.shiftl 1 0.
Definition PW_CLIENT_SESSION_UPDATE_INFO : Z := Z.shiftl 1 1.
Definition PW_SESSION_CHANGE_MASK_PROPS : Z := Z.shiftl 1 0.
Definition PW_SESSION_CHANGE_MASK_PARAMS : Z := Z.shiftl 1 1.
Definition PW_SESSION_CHANGE_MASK_ALL : Z := Z.shiftl 1 2 - 1.

(** Modelled from the spec: a parameter object, as far as the module looks
    at it: whether it is an object, and its object id. *)
Record spa_pod := {
  pod_is_object : bool;
  pod_object_id : Z;
  pod_body : list Z
}.

(** [struct spa_param_info]. *)
Record spa_param_info := { pi_id : Z; pi_flags : Z }.

(** Properties: [struct spa_dict] items. The stored [info.props] points
    into [this->props], so the two are one field here. *)
Definition spa_dict : Type := list (string * string).

(** Modelled from the spec: [struct pw_endpoint_info]. *)
Record pw_endpoint_info := {
  ei_version : Z;
  ei_id : Z;
  ei_name : option string;
  ei_media_class : option string;
  ei_direction : Z;
  ei_flags : Z;
  ei_change_mask : Z;
  ei_n_streams : Z;
  ei_session_id : Z;
  ei_props : spa_dict;
  ei_params : list spa_param_info;
  ei_n_params : Z
}.

(** Modelled from the spec: [struct pw_session_info]. *)
Record pw_session_info := {
  si_version : Z;
  si_id : Z;
  si_change_mask : Z;
  si_props : spa_dict;
  si_params : list spa_param_info;
  si_n_params : Z
}.

(** A resource bound to the global, with its [struct resource_data]:
    [n_subscribe_ids] is the length of [subscribe_ids]. *)
Record bound_resource := {
  rd_id : Z;
  rd_subscribe_ids : list Z
}.

(** What the module sends: the [info] and [param] events of a resource,
    and [pw_resource_error]. *)
Inductive event (Info : Type) :=
  | EvInfo (resource : Z) (info : Info)
  | EvParam (resource seq id index next : Z) (param : spa_pod)
  | EvError (resource res : Z).
Arguments EvInfo {Info} _ _.
Arguments EvParam {Info} _ _ _ _ _ _.
Arguments EvError {Info} _ _.

(** [struct endpoint]: [ep_resources] is [global->resource_list],
    [ep_client] the id of [client_ep->resource]. *)
Record endpoint := {
  ep_info : pw_endpoint_info;
  ep_params : list (option spa_pod);
  ep_n_params : Z;
  ep_resources : list bound_resource;
  ep_client : Z
}.

(** [struct session]. *)
Record session := {
  ss_info : pw_session_info;
  ss_params : list (option spa_pod);
  ss_n_params : Z;
  ss_resources : list bound_resource;
  ss_client : Z
}.

Section Update.

(** [pw_properties_update] of the core. *)
Variable pw_properties_update : spa_dict -> spa_dict -> spa_dict.

(** Whether [realloc] to a size succeeds. *)
Variable realloc_ok : Z -> bool.

(** The sizes of a pod pointer and of a [struct spa_param_info]. *)
Definition sizeof_pointer : Z := 8.
Definition sizeof_param_info : Z := 8.

(** [endpoint_notify_subscribed] / [session_notify_subscribed]. *)
Definition notify_subscribed {Info : Type} (resources : list bound_resource)
    (params : list (option spa_pod)) (index next : Z) : list (event Info) :=
  match mjoin (params !! Z.to_nat index) with
  | None => []
  | Some param =>
      if negb (pod_is_object param) then []
      else
        let id := pod_object_id param in
        List.flat_map
          (fun r =>
             List.flat_map
               (fun sid => if sid =? id then [EvParam (rd_id r) 1 id index next param] else [])
               (rd_subscribe_ids r))
          resources
  end.

(** The params an update installs: [n_params] copies of [params[i]]. *)
Definition copy_params (n_params : Z) (params : list (option spa_pod))
  : list (option spa_pod) :=
  List.map (fun i => mjoin (params !! i)) (seq 0 (Z.to_nat n_params)).

(** The notifications of the loop that installs them. *)
Definition notify_all {Info : Type} (resources : list bound_resource)
    (stored : list (option spa_pod)) : list (event Info) :=
  List.flat_map
    (fun i => notify_subscribed resources stored (Z.of_nat i) (Z.of_nat i + 1))
    (seq 0 (length stored)).

Definition set_ep_info (e : endpoint) (i : pw_endpoint_info) : endpoint :=
  {| ep_info := i; ep_params := ep_params e; ep_n_params := ep_n_params e;
     ep_resources := ep_resources e; ep_client := ep_client e |}.

Definition set_ep_params (e : endpoint) (ps : list (option spa_pod)) (n : Z) : endpoint :=
  {| ep_info := ep_info e; ep_params := ps; ep_n_params := n;
     ep_resources := ep_resources e; ep_client := ep_client e |}.

Definition ei_set_change_mask (i : pw_endpoint_info) (m : Z) : pw_endpoint_info :=
  {| ei_version := ei_version i; ei_id := ei_id i; ei_name := ei_name i;
     ei_media_class := ei_media_class i; ei_direction := ei_direction i;
     ei_flags := ei_flags i; ei_change_mask := m; ei_n_streams := ei_n_streams i;
     ei_session_id := ei_session_id i; ei_props := ei_props i;
     ei_params := ei_params i; ei_n_params := ei_n_params i |}.

Definition ei_set_n_streams (i : pw_endpoint_info) (n : Z) : pw_endpoint_info :=
  {| ei_version := ei_version i; ei_id := ei_id i; ei_name := ei_name i;
     ei_media_class := ei_media_class i; ei_direction := ei_direction i;
     ei_flags := ei_flags i; ei_change_mask := ei_change_mask i; ei_n_streams := n;
     ei_session_id := ei_session_id i; ei_props := ei_props i;
     ei_params := ei_params i; ei_n_params := ei_n_params i |}.

Definition ei_set_session_id (i : pw_endpoint_info) (n : Z) : pw_endpoint_info :=
  {| ei_version := ei_version i; ei_id := ei_id i; ei_name := ei_name i;
     ei_media_class := ei_media_class i; ei_direction := ei_direction i;
     ei_flags := ei_flags i; ei_change_mask := ei_change_mask i;
     ei_n_streams := ei_n_streams i; ei_session_id := n; ei_props := ei_props i;
     ei_params := ei_params i; ei_n_params := ei_n_params i |}.

Definition ei_set_props (i : pw_endpoint_info) (d : spa_dict) : pw_endpoint_info :=
  {| ei_version := ei_version i; ei_id := ei_id i; ei_name := ei_name i;
     ei_media_class := ei_media_class i; ei_direction := ei_direction i;
     ei_flags := ei_flags i; ei_change_mask := ei_change_mask i;
     ei_n_streams := ei_n_streams i; ei_session_id := ei_session_id i; ei_props := d;
     ei_params := ei_params i; ei_n_params := ei_n_params i |}.

Definition ei_set_params (i : pw_endpoint_info) (ps : list spa_param_info) (n : Z)
  : pw_endpoint_info :=
  {| ei_version := ei_version i; ei_id := ei_id i; ei_name := ei_name i;
     ei_media_class := ei_media_class i; ei_direction := ei_direction i;
     ei_flags := ei_flags i; ei_change_mask := ei_change_mask i;
     ei_n_streams := ei_n_streams i; ei_session_id := ei_session_id i;
     ei_props := ei_props i; ei_params := ps; ei_n_params := n |}.

Definition ei_set_name (i : pw_endpoint_info) (name class : option string)
    (direction flags : Z) : pw_endpoint_info :=
  {| ei_version := ei_version i; ei_id := ei_id i; ei_name := name;
     ei_media_class := class; ei_direction := direction;
     ei_flags := flags; ei_change_mask := ei_change_mask i;
     ei_n_streams := ei_n_streams i; ei_session_id := ei_session_id i;
     ei_props := ei_props i; ei_params := ei_params i; ei_n_params := ei_n_params i |}.

(** The [PW_CLIENT_ENDPOINT_UPDATE_PARAMS] part of [endpoint_update]:
    whether it got its memory, the endpoint and the events. *)
Definition endpoint_update_params (this : endpoint) (change_mask n_params : Z)
    (params : list (option spa_pod))
  : bool * endpoint * list (event pw_endpoint_info) :=
  if negb (Z.land change_mask PW_CLIENT_ENDPOINT_UPDATE_PARAMS =? 0) then
    let size := n_params * sizeof_pointer in
    if (size >? 0) && negb (realloc_ok size) then (false, set_ep_params this [] 0, [])
    else
      let stored := copy_params n_params params in
      (true, set_ep_params this stored n_params, notify_all (ep_resources this) stored)
  else (true, this, []).

(** The field updates of the [PW_CLIENT_ENDPOINT_UPDATE_INFO] part, up to
    the [realloc] of [info.params]: [inl] when that fails. *)
Definition endpoint_info_fields (stored info : pw_endpoint_info)
  : pw_endpoint_info + pw_endpoint_info :=
  let i := stored in
  let i := if negb (Z.land (ei_change_mask info) PW_ENDPOINT_CHANGE_MASK_STREAMS =? 0)
           then ei_set_n_streams i (ei_n_streams info) else i in
  let i := if negb (Z.land (ei_change_mask info) PW_ENDPOINT_CHANGE_MASK_SESSION =? 0)
           then ei_set_session_id i (ei_session_id info) else i in
  let i := if negb (Z.land (ei_change_mask info) PW_ENDPOINT_CHANGE_MASK_PROPS =? 0)
           then ei_set_props i (pw_properties_update (ei_props i) (ei_props info)) else i in
  if negb (Z.land (ei_change_mask info) PW_ENDPOINT_CHANGE_MASK_PARAMS =? 0) then
    let size := ei_n_params info * sizeof_param_info in
    if (size >? 0) && negb (realloc_ok size) then inl (ei_set_params i [] 0)
    else inr (ei_set_params i (take (Z.to_nat (ei_n_params info)) (ei_params info))
                (ei_n_params info))
  else inr i.

(** The [PW_CLIENT_ENDPOINT_UPDATE_INFO] part of [endpoint_update]. *)
Definition endpoint_update_info (this : endpoint) (change_mask : Z)
    (info : pw_endpoint_info)
  : bool * endpoint * list (event pw_endpoint_info) :=
  if negb (Z.land change_mask PW_CLIENT_ENDPOINT_UPDATE_INFO =? 0) then
    match endpoint_info_fields (ep_info this) info with
    | inl i => (false, set_ep_info this i, [])
    | inr i =>
        let i := match ei_name i with
                 | None => ei_set_name i (ei_name info) (ei_media_class info)
                             (ei_direction info) (ei_flags info)
                 | Some _ => i
                 end in
        let i := ei_set_change_mask i (ei_change_mask info) in
        (true, set_ep_info this (ei_set_change_mask i 0),
         List.map (fun r => EvInfo (rd_id r) i) (ep_resources this))
    end
  else (true, this, []).

(** [endpoint_update]: the return value, the endpoint and the events. *)
Definition endpoint_update (this : endpoint) (change_mask n_params : Z)
    (params : list (option spa_pod)) (info : pw_endpoint_info)
  : Z * endpoint * list (event pw_endpoint_info) :=
  let '(ok, this, ev1) := endpoint_update_params this change_mask n_params params in
  if negb ok then (- ENOMEM, this, ev1 ++ [EvError (ep_client this) (- ENOMEM)])
  else
    let '(ok, this, ev2) := endpoint_update_info this change_mask info in
    if negb ok then (- ENOMEM, this, ev1 ++ ev2 ++ [EvError (ep_client this) (- ENOMEM)])
    else (0, this, ev1 ++ ev2).

(** [endpoint_bind]; [new_resource] is the id of the resource
    [pw_resource_new] makes, [None] when it returns NULL. *)
Definition endpoint_bind (this : endpoint) (new_resource : option Z)
  : Z * endpoint * list (event pw_endpoint_info) :=
  match new_resource with
  | None => (- ENOMEM, this, [EvError (ep_client this) (- ENOMEM)])
  | Some id =>
      let this := {| ep_info := ep_info this; ep_params := ep_params this;
                     ep_n_params := ep_n_params this;
                     ep_resources := ep_resources this
                                     ++ [{| rd_id := id; rd_subscribe_ids := [] |}];
                     ep_client := ep_client this |} in
      let i := ei_set_change_mask (ep_info this) PW_ENDPOINT_CHANGE_MASK_ALL in
      (0, set_ep_info this (ei_set_change_mask i 0), [EvInfo id i])
  end.

Definition set_ss_info (e : session) (i : pw_session_info) : session :=
  {| ss_info := i; ss_params := ss_params e; ss_n_params := ss_n_params e;
     ss_resources := ss_resources e; ss_client := ss_client e |}.

Definition set_ss_params (e : session) (ps : list (option spa_pod)) (n : Z) : session :=
  {| ss_info := ss_info e; ss_params := ps; ss_n_params := n;
     ss_resources := ss_resources e; ss_client := ss_client e |}.

Definition si_set_change_mask (i : pw_session_info) (m : Z) : pw_session_info :=
  {| si_version := si_version i; si_id := si_id i; si_change_mask := m;
     si_props := si_props i; si_params := si_params i; si_n_params := si_n_params i |}.

Definition si_set_props (i : pw_session_info) (d : spa_dict) : pw_session_info :=
  {| si_version := si_version i; si_id := si_id i; si_change_mask := si_change_mask i;
     si_props := d; si_params := si_params i; si_n_params := si_n_params i |}.

Definition si_set_params (i : pw_session_info) (ps : list spa_param_info) (n : Z)
  : pw_session_info :=
  {| si_version := si_version i; si_id := si_id i; si_change_mask := si_change_mask i;
     si_props := si_props i; si_params := ps; si_n_params := n |}.

(** The [PW_CLIENT_SESSION_UPDATE_PARAMS] part of [session_update]. *)
Definition session_update_params (this : session) (change_mask n_params : Z)
    (params : list (option spa_pod))
  : bool * session * list (event pw_session_info) :=
  if negb (Z.land change_mask PW_CLIENT_SESSION_UPDATE_PARAMS =? 0) then
    let size := n_params * sizeof_pointer in
    if (size >? 0) && negb (realloc_ok size) then (false, set_ss_params this [] 0, [])
    else
      let stored := copy_params n_params params in
      (true, set_ss_params this stored n_params, notify_all (ss_resources this) stored)
  else (true, this, []).

Definition session_info_fields (stored info : pw_session_info)
  : pw_session_info + pw_session_info :=
  let i := stored in
  let i := if negb (Z.land (si_change_mask info) PW_SESSION_CHANGE_MASK_PROPS =? 0)
           then si_set_props i (pw_properties_update (si_props i) (si_props info)) else i in
  if negb (Z.land (si_change_mask info) PW_SESSION_CHANGE_MASK_PARAMS =? 0) then
    let size := si_n_params info * sizeof_param_info in
    if (size >? 0) && negb (realloc_ok size) then inl (si_set_params i [] 0)
    else inr (si_set_params i (take (Z.to_nat (si_n_params info)) (si_params info))
                (si_n_params info))
  else inr i.

(** The [PW_CLIENT_SESSION_UPDATE_INFO] part of [session_update]. *)
Definition session_update_info (this : session) (change_mask : Z) (info : pw_session_info)
  : bool * session * list (event pw_session_info) :=
  if negb (Z.land change_mask PW_CLIENT_SESSION_UPDATE_INFO =? 0) then
    match session_info_fields (ss_info this) info with
    | inl i => (false, set_ss_info this i, [])
    | inr i =>
        let i := si_set_change_mask i (si_change_mask info) in
        (true, set_ss_info this (si_set_change_mask i 0),
         List.map (fun r => EvInfo (rd_id r) i) (ss_resources this))
    end
  else (true, this, []).

Definition session_update (this : session) (change_mask n_params : Z)
    (params : list (option spa_pod)) (info : pw_session_info)
  : Z * session * list (event pw_session_info) :=
  let '(ok, this, ev1) := session_update_params this change_mask n_params params in
  if negb ok then (- ENOMEM, this, ev1 ++ [EvError (ss_client this) (- ENOMEM)])
  else
    let '(ok, this, ev2) := session_update_info this change_mask info in
    if negb ok then (- ENOMEM, this, ev1 ++ ev2 ++ [EvError (ss_client this) (- ENOMEM)])
    else (0, this, ev1 ++ ev2).

Definition session_bind (this : session) (new_resource : option Z)
  : Z * session * list (event pw_session_info) :=
  match new_resource with
  | None => (- ENOMEM, this, [EvError (ss_client this) (- ENOMEM)])
  | Some id =>
      let this := {| ss_info := ss_info this; ss_params := ss_params this;
                     ss_n_params := ss_n_params this;
                     ss_resources := ss_resources this
                                     ++ [{| rd_id := id; rd_subscribe_ids := [] |}];
                     ss_client := ss_client this |} in
      let i := si_set_change_mask (ss_info this) PW_SESSION_CHANGE_MASK_ALL in
      (0, set_ss_info this (si_set_change_mask i 0), [EvInfo id i])
  end.

(** *** What an info update does to the stored fields *)

(** The stored endpoint info [new], after an info update with [info] of
    the stored info [old]: each of [n_streams], [session_id], [props] and
    [params] is the updated value when its change bit is set and the old
    value otherwise; [version] and [id] are the old ones; [name],
    [media_class], [direction] and [flags] are the old ones once the name
    is set, and those of the update while it is not. *)
Record endpoint_fields_updated (old info new : pw_endpoint_info) : Prop := {
  efu_n_streams :
    ei_n_streams new
    = if Z.land (ei_change_mask info) PW_ENDPOINT_CHANGE_MASK_STREAMS =? 0
      then ei_n_streams old else ei_n_streams info;
  efu_session_id :
    ei_session_id new
    = if Z.land (ei_change_mask info) PW_ENDPOINT_CHANGE_MASK_SESSION =? 0
      then ei_session_id old else ei_session_id info;
  efu_props :
    ei_props new
    = if Z.land (ei_change_mask info) PW_ENDPOINT_CHANGE_MASK_PROPS =? 0
      then ei_props old else pw_properties_update (ei_props old) (ei_props info);
  efu_params :
    ei_params new
    = if Z.land (ei_change_mask info) PW_ENDPOINT_CHANGE_MASK_PARAMS =? 0
      then ei_params old else take (Z.to_nat (ei_n_params info)) (ei_params info);
  efu_n_params :
    ei_n_params new
    = if Z.land (ei_change_mask info) PW_ENDPOINT_CHANGE_MASK_PARAMS =? 0
      then ei_n_params old else ei_n_params info;
  efu_version : ei_version new = ei_version old;
  efu_id : ei_id new = ei_id old;
  efu_named :
    ei_name old <> None ->
    ei_name new = ei_name old /\ ei_media_class new = ei_media_class old
    /\ ei_direction new = ei_direction old /\ ei_flags new = ei_flags old;
  efu_unnamed :
    ei_name old = None ->
    ei_name new = ei_name info /\ ei_media_class new = ei_media_class info
    /\ ei_direction new = ei_direction info /\ ei_flags new = ei_flags info
}.

(** The same for a session, which has [props] and [params] only. *)
Record session_fields_updated (old info new : pw_session_info) : Prop := {
  sfu_props :
    si_props new
    = if Z.land (si_change_mask info) PW_SESSION_CHANGE_MASK_PROPS =? 0
      then si_props old else pw_properties_update (si_props old) (si_props info);
  sfu_params :
    si_params new
    = if Z.land (si_change_mask info) PW_SESSION_CHANGE_MASK_PARAMS =? 0
      then si_params old else take (Z.to_nat (si_n_params info)) (si_params info);
  sfu_n_params :
    si_n_params new
    = if Z.land (si_change_mask info) PW_SESSION_CHANGE_MASK_PARAMS =? 0
      then si_n_params old else si_n_params info;
  sfu_version : si_version new = si_version old;
  sfu_id : si_id new = si_id old
}.

End Update.

(** Whether an event is an [info] event. *)
Definition is_info_event {Info : Type} (e : event Info) : bool :=
  match e with
  | EvInfo _ _ => true
  | _ => false
  end.

(** *** Example inputs *)

(** An endpoint that has not had an info update yet (its name is unset),
    with two resources bound. *)
Definition example_endpoint : endpoint :=
  {| ep_info := {| ei_version := 0; ei_id := 42; ei_name := None; ei_media_class := None;
                   ei_direction := 0; ei_flags := 0; ei_change_mask := 0;
                   ei_n_streams := 0; ei_session_id := 0; ei_props := [];
                   ei_params := []; ei_n_params := 0 |};
     ep_params := []; ep_n_params := 0;
     ep_resources := [ {| rd_id := 7; rd_subscribe_ids := [] |};
                       {| rd_id := 8; rd_subscribe_ids := [2] |} ];
     ep_client := 3 |}.

(** The info of an update, with the given change mask. *)
Definition example_endpoint_info (change_mask : Z) : pw_endpoint_info :=
  {| ei_version := 0; ei_id := 42; ei_name := Some "speakers"%string;
     ei_media_class := Some "Audio/Sink"%string;
     ei_direction := 1; ei_flags := 0; ei_change_mask := change_mask;
     ei_n_streams := 2; ei_session_id := 5;
     ei_props := [("endpoint.name", "speakers")]%string;
     ei_params := [ {| pi_id := 1; pi_flags := 0 |} ]; ei_n_params := 1 |}.

Definition example_session : session :=
  {| ss_info := {| si_version := 0; si_id := 43; si_change_mask := 0; si_props := [];
                   si_params := []; si_n_params := 0 |};
     ss_params := []; ss_n_params := 0;
     ss_resources := [ {| rd_id := 9; rd_subscribe_ids := [] |} ];
     ss_client := 4 |}.

Definition example_session_info (change_mask : Z) : pw_session_info :=
  {| si_version := 0; si_id := 43; si_change_mask := change_mask;
     si_props := [("session.name", "default")]%string;
     si_params := [ {| pi_id := 1; pi_flags := 0 |} ]; si_n_params := 1 |}.

(** Properties updated by putting the new items first. *)
Definition example_properties_update (old new : spa_dict) : spa_dict := new ++ old.

End SessionManager.

Module AlsaFormats.
Import Alsa.
Local Open Scope Z_scope.

(** *** The format choice as the enumeration builds it

    The ids of one table row for a device: the interleaved id when the
    device does MMAP_INTERLEAVED, then the planar id, if the row has one,
    when it does MMAP_NONINTERLEAVED; none when the device does not do the
    row's sample format. *)
Definition row_ids (dev : pcm_device) (fi : format_info_t) : list spa_audio_format :=
  if snd_pcm_hw_params_get_format_mask dev (format fi) then
    (if snd_pcm_hw_params_get_access_mask dev SND_PCM_ACCESS_MMAP_INTERLEAVED
     then [spa_format fi] else [])
    ++ (if snd_pcm_hw_params_get_access_mask dev SND_PCM_ACCESS_MMAP_NONINTERLEAVED
           && negb (bool_decide (spa_pformat fi = SPA_AUDIO_FORMAT_UNKNOWN))
        then [spa_pformat fi] else [])
  else [].

(** The ids of all rows but the first, in table order. *)
Definition supported_ids (dev : pcm_device) : list spa_audio_format :=
  List.flat_map (row_ids dev) (drop 1 format_info).

(** A choice of these ids: the first of them is the default, and comes
    first once more; the choice is an enumeration when there are two or
    more ids. *)
Definition choice_of_ids (ids : list spa_audio_format) : spa_pod_choice spa_audio_format :=
  match ids with
  | [] => {| choice_type := SPA_CHOICE_None; choice_values := [] |}
  | [x] => {| choice_type := SPA_CHOICE_None; choice_values := [x; x] |}
  | x :: _ => {| choice_type := SPA_CHOICE_Enum; choice_values := x :: ids |}
  end.

(** The accumulator of the loop after the ids [ids] have been pushed. *)
Definition pushed (ids : list spa_audio_format) : list spa_audio_format * Z :=
  (match ids with [] => [] | x :: _ => x :: ids end, Z.of_nat (length ids)).

End AlsaFormats.

Module AlsaStream.
Import Alsa.
Local Open Scope Z_scope.

(** *** The data path: [spa_alsa_write], [push_frames], the capture
    transfer, [alsa_recover], [spa_alsa_start] and [spa_alsa_pause] *)

Definition byte : Type := Byte.byte.

(** A value stored into a [uint32_t]. [size_t] and [snd_pcm_uframes_t]
    are taken as 64 bits wide, and are stored with [to_uint64]. *)
Definition to_uint32 (x : Z) : Z := x mod 2 ^ 32.

(** errno values (Linux). *)
Definition EPIPE : Z := 32.
Definition ESTRPIPE : Z := 86.

(** Modelled from the spec: the status of the single-slot inbox [io],
    with the values of [spa/node/io.h], and [SPA_ID_INVALID]. *)
Definition SPA_STATUS_OK : Z := 0.
Definition SPA_STATUS_NEED_BUFFER : Z := 1.
Definition SPA_STATUS_HAVE_BUFFER : Z := 2.
Definition SPA_ID_INVALID : Z := 2 ^ 32 - 1.

(** Modelled from the spec: the flag that marks a buffer as outbound. *)
Definition BUFFER_FLAG_OUT : Z := 1.

(** Modelled from the spec: the header of a buffer, sequence number,
    presentation timestamp and dts offset. *)
Record spa_meta_header := { h_seq : Z; h_pts : Z; h_dts_offset : Z }.

(** Modelled from the spec: a buffer, with its id, its flags, its header
    ([None] for a null [b->h]), and the one data descriptor the code
    uses, [b->buf->datas[0]]: the memory [d_data], its [maxsize], and the
    chunk's offset, size and stride. *)
Record buffer := {
  b_id : Z;
  b_flags : Z;
  b_h : option spa_meta_header;
  d_data : list byte;
  d_maxsize : Z;
  chunk_offset : Z;
  chunk_size : Z;
  chunk_stride : Z
}.

Definition set_b_flags (b : buffer) (x : Z) : buffer :=
  {| b_id := b_id b; b_flags := x; b_h := b_h b; d_data := d_data b;
     d_maxsize := d_maxsize b; chunk_offset := chunk_offset b; chunk_size := chunk_size b;
     chunk_stride := chunk_stride b |}.

Definition set_b_h (b : buffer) (x : option spa_meta_header) : buffer :=
  {| b_id := b_id b; b_flags := b_flags b; b_h := x; d_data := d_data b;
     d_maxsize := d_maxsize b; chunk_offset := chunk_offset b; chunk_size := chunk_size b;
     chunk_stride := chunk_stride b |}.

Definition set_d_data (b : buffer) (x : list byte) : buffer :=
  {| b_id := b_id b; b_flags := b_flags b; b_h := b_h b; d_data := x;
     d_maxsize := d_maxsize b; chunk_offset := chunk_offset b; chunk_size := chunk_size b;
     chunk_stride := chunk_stride b |}.

Definition set_chunk (b : buffer) (offset size stride : Z) : buffer :=
  {| b_id := b_id b; b_flags := b_flags b; b_h := b_h b; d_data := d_data b;
     d_maxsize := d_maxsize b; chunk_offset := offset; chunk_size := size;
     chunk_stride := stride |}.

(** Modelled from the spec: the single-slot inbox, [struct spa_io_buffers]. *)
Record spa_io_buffers := { io_status : Z; io_buffer_id : Z }.

(** What leaves the driver: the calls into the ALSA library that act on
    the device, the callbacks to the node and the calls into the data
    loop, in the order they are made. *)
Inductive call :=
  | Avail
  | Status
  | Recover (err : Z)
  | Start
  | MmapBegin (frames : Z)
  | MmapCommit (offset frames : Z)
  | AreasSilence (offset channels frames : Z) (format : snd_pcm_format_t)
  | Rewind (frames : Z)
  | SwParamsCurrent
  | SwParamsSetTstampMode
  | SwParamsSetStartThreshold
  | SwParamsSetPeriodEvent
  | SwParams
  | Dump
  | Prepare
  | Drop
  | ReuseBuffer (port id : Z)
  | Ready (status : Z)
  | AddSource (func : snd_pcm_stream_t)
  | RemoveSource.

(** What the ALSA library answers for the handle [state->hndl], given the
    calls made so far. A call returns a negative errno when it fails;
    [snd_pcm_mmap_begin] returns its return value, the offset and the
    number of frames it stores. [snd_pcm_areas_silence] is what it makes
    of the mmap area. *)
Record snd_pcm_t := {
  snd_pcm_avail : list call -> Z;
  snd_pcm_status : list call -> Z;
  snd_pcm_recover : list call -> Z -> Z;
  snd_pcm_start : list call -> Z;
  snd_pcm_mmap_begin : list call -> Z -> Z * Z * Z;
  snd_pcm_mmap_commit : list call -> Z -> Z -> Z;
  snd_pcm_areas_silence : list byte -> Z -> Z -> Z -> snd_pcm_format_t -> list byte;
  snd_pcm_sw_params_current : list call -> Z;
  snd_pcm_sw_params_set_tstamp_mode : list call -> Z;
  snd_pcm_sw_params_set_start_threshold : list call -> Z;
  snd_pcm_sw_params_set_period_event : list call -> Z;
  snd_pcm_sw_params : list call -> Z;
  snd_pcm_prepare : list call -> Z;
  snd_pcm_drop : list call -> Z
}.

(** [struct state] with the queues: [st] holds the fields of [Alsa.state];
    [clock] is [state->clock] reduced to its id, and [position_clock] the
    id, position and delay of [state->position->clock], read only when
    [position st] is there; [buffers] is the array [state->buffers], and
    the intrusive lists [free] and [ready] hold indices into it; [io] is
    [state->io] ([None] for a null pointer); [area] is the memory
    [snd_pcm_mmap_begin] hands out, [my_areas[0].addr]; [trace] holds the
    calls made so far. The DLL and [safety], which are floating-point
    numbers, are not part of the model. *)
Record pcm := {
  st : state;
  alsa_started : bool;
  min_latency : Z;
  clock : option Z;
  position_clock : Z * Z * Z;
  buffers : list buffer;
  free : list nat;
  ready : list nat;
  ready_offset : Z;
  io : option spa_io_buffers;
  area : list byte;
  trace : list call
}.

Definition set_st (p : pcm) (x : state) : pcm :=
  {| st := x; alsa_started := alsa_started p; min_latency := min_latency p;
     clock := clock p; position_clock := position_clock p; buffers := buffers p;
     free := free p; ready := ready p; ready_offset := ready_offset p; io := io p;
     area := area p; trace := trace p |}.

Definition set_alsa_started (p : pcm) (x : bool) : pcm :=
  {| st := st p; alsa_started := x; min_latency := min_latency p; clock := clock p;
     position_clock := position_clock p; buffers := buffers p; free := free p;
     ready := ready p; ready_offset := ready_offset p; io := io p; area := area p;
     trace := trace p |}.

Definition set_buffers (p : pcm) (x : list buffer) : pcm :=
  {| st := st p; alsa_started := alsa_started p; min_latency := min_latency p;
     clock := clock p; position_clock := position_clock p; buffers := x; free := free p;
     ready := ready p; ready_offset := ready_offset p; io := io p; area := area p;
     trace := trace p |}.

Definition set_free (p : pcm) (x : list nat) : pcm :=
  {| st := st p; alsa_started := alsa_started p; min_latency := min_latency p;
     clock := clock p; position_clock := position_clock p; buffers := buffers p; free := x;
     ready := ready p; ready_offset := ready_offset p; io := io p; area := area p;
     trace := trace p |}.

Definition set_ready (p : pcm) (x : list nat) : pcm :=
  {| st := st p; alsa_started := alsa_started p; min_latency := min_latency p;
     clock := clock p; position_clock := position_clock p; buffers := buffers p;
     free := free p; ready := x; ready_offset := ready_offset p; io := io p;
     area := area p; trace := trace p |}.

Definition set_ready_offset (p : pcm) (x : Z) : pcm :=
  {| st := st p; alsa_started := alsa_started p; min_latency := min_latency p;
     clock := clock p; position_clock := position_clock p; buffers := buffers p;
     free := free p; ready := ready p; ready_offset := x; io := io p; area := area p;
     trace := trace p |}.

Definition set_io (p : pcm) (x : option spa_io_buffers) : pcm :=
  {| st := st p; alsa_started := alsa_started p; min_latency := min_latency p;
     clock := clock p; position_clock := position_clock p; buffers := buffers p;
     free := free p; ready := ready p; ready_offset := ready_offset p; io := x;
     area := area p; trace := trace p |}.

Definition set_area (p : pcm) (x : list byte) : pcm :=
  {| st := st p; alsa_started := alsa_started p; min_latency := min_latency p;
     clock := clock p; position_clock := position_clock p; buffers := buffers p;
     free := free p; ready := ready p; ready_offset := ready_offset p; io := io p;
     area := x; trace := trace p |}.

Definition set_trace (p : pcm) (x : list call) : pcm :=
  {| st := st p; alsa_started := alsa_started p; min_latency := min_latency p;
     clock := clock p; position_clock := position_clock p; buffers := buffers p;
     free := free p; ready := ready p; ready_offset := ready_offset p; io := io p;
     area := area p; trace := x |}.

Definition set_started (s : state) (x : bool) : state :=
  {| opened := opened s; stream := stream s; st_format := st_format s; rate := rate s;
     channels := channels s; frame_size := frame_size s; buffer_frames := buffer_frames s;
     period_frames := period_frames s; position := position s; threshold := threshold s;
     started := x; slaved := slaved s; now := now s; sample_count := sample_count s;
     sample_time := sample_time s; next_time := next_time s; timer := timer s |}.

Definition set_slaved (s : state) (x : bool) : state :=
  {| opened := opened s; stream := stream s; st_format := st_format s; rate := rate s;
     channels := channels s; frame_size := frame_size s; buffer_frames := buffer_frames s;
     period_frames := period_frames s; position := position s; threshold := threshold s;
     started := started s; slaved := x; now := now s; sample_count := sample_count s;
     sample_time := sample_time s; next_time := next_time s; timer := timer s |}.

Definition set_sample_count (s : state) (x : Z) : state :=
  {| opened := opened s; stream := stream s; st_format := st_format s; rate := rate s;
     channels := channels s; frame_size := frame_size s; buffer_frames := buffer_frames s;
     period_frames := period_frames s; position := position s; threshold := threshold s;
     started := started s; slaved := slaved s; now := now s; sample_count := x;
     sample_time := sample_time s; next_time := next_time s; timer := timer s |}.

(** A call is made: it joins the trace. *)
Definition log (p : pcm) (c : call) : pcm := set_trace p (trace p ++ [c]).

(** How a function ends: it returns; or it reads or writes outside an
    object, divides by zero or follows a null pointer; or the bound on the
    rounds of its loops is used up. *)
Inductive outcome (A : Type) :=
  | Returns (a : A)
  | Undefined
  | OutOfFuel.
Arguments Returns {A} a.
Arguments Undefined {A}.
Arguments OutOfFuel {A}.

#[global] Instance outcome_ret : MRet outcome := fun A a => Returns a.
#[global] Instance outcome_bind : MBind outcome := fun A B k m =>
  match m with
  | Returns a => k a
  | Undefined => Undefined
  | OutOfFuel => OutOfFuel
  end.

Definition defined {A : Type} (o : option A) : outcome A :=
  match o with
  | Some a => Returns a
  | None => Undefined
  end.

(** [spa_memcpy(dst + dpos, src + spos, n)]; [None] when it would read
    or write outside the objects. *)
Definition spa_memcpy (dst : list byte) (dpos : Z) (src : list byte) (spos n : Z)
  : option (list byte) :=
  if (0 <=? n) && (0 <=? spos) && (spos + n <=? Z.of_nat (length src))
     && (0 <=? dpos) && (dpos + n <=? Z.of_nat (length dst))
  then Some (take (Z.to_nat dpos) dst
             ++ take (Z.to_nat n) (drop (Z.to_nat spos) src)
             ++ drop (Z.to_nat (dpos + n)) dst)
  else None.

(** The locals of [spa_alsa_write] that its [while] loop updates. *)
Record copy := { to_write : Z; off : Z; written : Z; silence : Z }.

(** The body of the [while] loop of [spa_alsa_write], for a [ready] list
    that is not empty. *)
Definition write_buffer (p : pcm) (v : copy) : option (pcm * copy) :=
  match ready p with
  | [] => None
  | i :: rest =>
      b ← buffers p !! i;
      let fs := frame_size (st p) in
      let size := to_uint32 (chunk_size b) in
      let maxsize := to_uint32 (d_maxsize b) in
      let index := to_uint32 (chunk_offset b + ready_offset p) in
      let avail := to_uint32 (size - ready_offset p) in
      if fs =? 0 then None
      else
        let avail := to_uint32 (avail / fs) in
        let n_frames := Z.min avail (to_write v) in
        let n_bytes := to_uint64 (n_frames * fs) in
        if maxsize =? 0 then None
        else
          let offs := index mod maxsize in
          let l0 := to_uint32 (Z.min n_bytes (maxsize - offs)) in
          let l1 := to_uint32 (n_bytes - l0) in
          let dst := to_uint64 (off v * fs) in
          area1 ← spa_memcpy (area p) dst (d_data b) offs l0;
          area2 ← (if l1 >? 0 then spa_memcpy area1 (dst + l0) (d_data b) 0 l1
                   else Some area1);
          let p := set_area p area2 in
          let p := set_ready_offset p (to_uint64 (ready_offset p + n_bytes)) in
          p ← (if ready_offset p >=? size then
                 io0 ← io p;
                 let p := set_ready p rest in
                 let p := set_buffers p
                            (<[i := set_b_flags b (SPA_FLAG_SET (b_flags b) BUFFER_FLAG_OUT)]>
                               (buffers p)) in
                 let p := set_io p (Some {| io_status := io_status io0;
                                            io_buffer_id := b_id b |}) in
                 let p := log p (ReuseBuffer 0 (b_id b)) in
                 Some (set_ready_offset p 0)
               else Some p);
          Some (p, {| to_write := to_uint64 (to_write v - n_frames);
                      off := to_uint64 (off v + n_frames);
                      written := to_uint64 (written v + n_frames);
                      silence := if silence v >? n_frames then silence v - n_frames
                                 else 0 |})
  end.

(** [while (!spa_list_is_empty(&state->ready) && to_write > 0)]. *)
Fixpoint write_loop (fuel : nat) (p : pcm) (v : copy) : outcome (pcm * copy) :=
  match ready p with
  | [] => Returns (p, v)
  | _ :: _ =>
      if to_write v >? 0 then
        match fuel with
        | O => OutOfFuel
        | S fuel' =>
            match write_buffer p v with
            | None => Undefined
            | Some (p', v') => write_loop fuel' p' v'
            end
        end
      else Returns (p, v)
  end.

(** How the part of [spa_alsa_write] from the label [again] on ends: it
    returns the error of [snd_pcm_mmap_begin] or [snd_pcm_mmap_commit], or
    falls through with [written] and [total_written]. *)
Inductive passes :=
  | Failed (res : Z) (p : pcm)
  | Written (p : pcm) (written total_written : Z).

Section Handle.

Variable hndl : snd_pcm_t.

(** From the label [again] to [goto again]; [sil] is the parameter
    [silence]. *)
Fixpoint write_again (fuel : nat) (p : pcm) (sil total_written : Z) : outcome passes :=
  match fuel with
  | O => OutOfFuel
  | S fuel' =>
      let frames := buffer_frames (st p) in
      let '(res, offset, frames) := snd_pcm_mmap_begin hndl (trace p) frames in
      let p := log p (MmapBegin (buffer_frames (st p))) in
      if res <? 0 then Returns (Failed res p)
      else
        '(p, v) ← write_loop fuel' p
                    {| to_write := frames; off := offset; written := 0;
                       silence := Z.min sil frames |};
        let '(p, written) :=
          if silence v >? 0 then
            (log (set_area p (snd_pcm_areas_silence hndl (area p) (off v) (channels (st p))
                                (silence v) (st_format (st p))))
               (AreasSilence (off v) (channels (st p)) (silence v) (st_format (st p))),
             to_uint64 (written v + silence v))
          else (p, written v) in
        let total_written := to_uint64 (total_written + written) in
        let res := snd_pcm_mmap_commit hndl (trace p) offset written in
        let p := log p (MmapCommit offset written) in
        if (res <? 0) && negb (res =? - EPIPE) && negb (res =? - ESTRPIPE)
        then Returns (Failed res p)
        else
          match ready p with
          | _ :: _ =>
              if written >? 0 then write_again fuel' p (silence v) total_written
              else Returns (Written p written total_written)
          | [] => Returns (Written p written total_written)
          end
  end.

(** [update_time] is a parameter: it runs the DLL in floating point. *)
Variable update_time : pcm -> Z -> Z -> bool -> Z * pcm.

Section Recursion.

(** [spa_alsa_write] calls [get_status], which calls [alsa_recover],
    which calls [spa_alsa_write]: the three are written over the
    [spa_alsa_write] of the calls below. *)
Variable spa_alsa_write : pcm -> Z -> bool -> outcome (Z * pcm).

Definition alsa_recover (p : pcm) (err : Z) : outcome (Z * pcm) :=
  let res := snd_pcm_status hndl (trace p) in
  let p := log p Status in
  if res <? 0 then Returns (res, p)
  else
    let res := snd_pcm_recover hndl (trace p) err in
    let p := log p (Recover err) in
    if res <? 0 then Returns (res, p)
    else
      match stream (st p) with
      | SND_PCM_STREAM_CAPTURE =>
          let res := snd_pcm_start hndl (trace p) in
          let p := log p Start in
          if res <? 0 then Returns (res, p)
          else Returns (0, set_alsa_started p true)
      | SND_PCM_STREAM_PLAYBACK =>
          let p := set_alsa_started p false in
          '(_, p) ← spa_alsa_write p (threshold (st p) * 2) true;
          Returns (0, p)
      end.

(** [get_status]: the return value, [*delay] and the state. *)
Definition get_status (p : pcm) : outcome (Z * Z * pcm) :=
  let delay_of (p : pcm) (av : Z) :=
    match stream (st p) with
    | SND_PCM_STREAM_PLAYBACK => buffer_frames (st p) - av
    | SND_PCM_STREAM_CAPTURE => av
    end in
  let av := snd_pcm_avail hndl (trace p) in
  let p := log p Avail in
  if av <? 0 then
    '(res, p) ← alsa_recover p av;
    if res <? 0 then Returns (res, 0, p)
    else
      let av := snd_pcm_avail hndl (trace p) in
      let p := log p Avail in
      if av <? 0 then Returns (av, 0, p) else Returns (0, delay_of p av, p)
  else Returns (0, delay_of p av, p).

(** The part of [spa_alsa_write] for a slaved state, lines 656-677:
    [inl] when the function returns from it. *)
Definition write_slaved (p : pcm) : outcome (Z * pcm + pcm) :=
  match position (st p) with
  | None => Undefined
  | Some _ =>
      let master := to_uint64 ((position_clock p).1.2 + (position_clock p).2) in
      if rate (st p) =? 0 then Undefined
      else
        let nsec := to_uint64 (master * SPA_NSEC_PER_SEC) / rate (st p) in
        '(res, delay, p) ← get_status p;
        if res <? 0 then Returns (inl (res, p))
        else
          let '(res, p) := update_time p nsec delay true in
          if res <? 0 then Returns (inl (res, p))
          else if delay >? threshold (st p) * 2
               then Returns (inr (log p (Rewind (threshold (st p)))))
               else Returns (inr p)
  end.

(** The body of [spa_alsa_write]. *)
Definition spa_alsa_write_body (fuel : nat) (p : pcm) (sil : Z) (start : bool)
  : outcome (Z * pcm) :=
  let p := set_st p (play_threshold (st p)) in
  r ← (if slaved (st p) then write_slaved p else Returns (inr p));
  match r with
  | inl early => Returns early
  | inr p =>
      w ← write_again fuel p sil 0;
      match w with
      | Failed res p => Returns (res, p)
      | Written p written total_written =>
          let p := set_st p (set_sample_count (st p) (sample_count (st p) + total_written)) in
          if negb (alsa_started p) && (written >? 0) && start then
            let res := snd_pcm_start hndl (trace p) in
            let p := log p Start in
            if res <? 0 then Returns (res, p)
            else Returns (0, set_alsa_started p true)
          else Returns (0, p)
      end
  end.

End Recursion.

(** [spa_alsa_write]; [fuel] bounds the depth of its calls through
    [alsa_recover], and the rounds of each of its loops. *)
Fixpoint spa_alsa_write (fuel : nat) (p : pcm) (sil : Z) (start : bool)
  : outcome (Z * pcm) :=
  match fuel with
  | O => OutOfFuel
  | S fuel' => spa_alsa_write_body (spa_alsa_write fuel') fuel' p sil start
  end.

(** [push_frames]: the frames it reports, and the state. *)
Definition push_frames (p : pcm) (offset frames : Z) : option (Z * pcm) :=
  match free p with
  | [] => Some (threshold (st p), p)
  | i :: rest =>
      b ← buffers p !! i;
      let p := set_free p rest in
      let b := match b_h b with
               | Some _ => set_b_h b (Some {| h_seq := sample_count (st p);
                                              h_pts := SPA_TIMESPEC_TO_NSEC (now (st p));
                                              h_dts_offset := 0 |})
               | None => b
               end in
      let fs := frame_size (st p) in
      if fs =? 0 then None
      else
        let avail := to_uint32 (d_maxsize b / fs) in
        let index := 0 in
        let total_frames := Z.min avail frames in
        let n_bytes := to_uint64 (total_frames * fs) in
        if d_maxsize b =? 0 then None
        else
          let offs := index mod d_maxsize b in
          let l0 := to_uint32 (Z.min n_bytes (d_maxsize b - offs)) in
          let l1 := to_uint32 (n_bytes - l0) in
          let src := to_uint64 (offset * fs) in
          data1 ← spa_memcpy (d_data b) offs (area p) src l0;
          data2 ← (if l1 >? 0 then spa_memcpy data1 0 (area p) (src + l0) l1
                   else Some data1);
          let b := set_chunk (set_d_data b data2) index n_bytes fs in
          let b := set_b_flags b (SPA_FLAG_SET (b_flags b) BUFFER_FLAG_OUT) in
          let p := set_buffers p (<[i := b]> (buffers p)) in
          let p := match io p with
                   | Some io0 =>
                       if negb (io_status io0 =? SPA_STATUS_HAVE_BUFFER)
                       then set_io p (Some {| io_status := SPA_STATUS_HAVE_BUFFER;
                                              io_buffer_id := b_id b |})
                       else set_ready p (ready p ++ [i])
                   | None => set_ready p (ready p ++ [i])
                   end in
          Some (total_frames, log p (Ready SPA_STATUS_HAVE_BUFFER))
  end.

(** [while (total_read < to_read)] of the capture handler: [false] when
    it returns from the handler, and [total_read]. *)
Fixpoint capture_loop (fuel : nat) (p : pcm) (to_read total_read : Z)
  : outcome (bool * pcm * Z) :=
  if total_read <? to_read then
    match fuel with
    | O => OutOfFuel
    | S fuel' =>
        let frames := to_uint64 (to_read - total_read) in
        let '(res, offset, granted) := snd_pcm_mmap_begin hndl (trace p) frames in
        let p := log p (MmapBegin frames) in
        if res <? 0 then Returns (false, p, total_read)
        else
          '(read, p) ← defined (push_frames p offset granted);
          let to_read := if read <? granted then 0 else to_read in
          let res := snd_pcm_mmap_commit hndl (trace p) offset read in
          let p := log p (MmapCommit offset read) in
          if (res <? 0) && negb (res =? - EPIPE) && negb (res =? - ESTRPIPE)
          then Returns (false, p, total_read)
          else capture_loop fuel' p to_read (to_uint64 (total_read + read))
    end
  else Returns (true, p, total_read).

(** Lines 930-956 of [alsa_on_capture_timeout_event], from
    [to_read = SPA_MIN(delay, state->threshold)] to the label [next]:
    [false] when the handler returns without arming the timer. *)
Definition capture_transfer (fuel : nat) (p : pcm) (delay : Z) : outcome (bool * pcm) :=
  let to_read := Z.min delay (threshold (st p)) in
  '(completed, p, total_read) ← capture_loop fuel p to_read 0;
  if (completed : bool)
  then Returns (true, set_st p (set_sample_count (st p) (sample_count (st p) + total_read)))
  else Returns (false, p).

(** [reset_buffers]. *)
Definition reset_buffers (p : pcm) : pcm :=
  for_range (length (buffers p))
    (fun i p =>
       match buffers p !! i with
       | Some b =>
           match stream (st p) with
           | SND_PCM_STREAM_PLAYBACK =>
               set_buffers p
                 (<[i := set_b_flags b (SPA_FLAG_SET (b_flags b) BUFFER_FLAG_OUT)]> (buffers p))
           | SND_PCM_STREAM_CAPTURE =>
               set_buffers (set_free p (free p ++ [i]))
                 (<[i := set_b_flags b (SPA_FLAG_UNSET (b_flags b) BUFFER_FLAG_OUT)]>
                    (buffers p))
           end
       | None => p
       end)
    (set_ready (set_free p []) []).

(** [set_swparams]: the return value and the state. *)
Definition set_swparams (p : pcm) : Z * pcm :=
  let err := snd_pcm_sw_params_current hndl (trace p) in
  let p := log p SwParamsCurrent in
  CHECK err ELSE (fun err => (err, p)) ;;
  let err := snd_pcm_sw_params_set_tstamp_mode hndl (trace p) in
  let p := log p SwParamsSetTstampMode in
  CHECK err ELSE (fun err => (err, p)) ;;
  let err := snd_pcm_sw_params_set_start_threshold hndl (trace p) in
  let p := log p SwParamsSetStartThreshold in
  CHECK err ELSE (fun err => (err, p)) ;;
  let err := snd_pcm_sw_params_set_period_event hndl (trace p) in
  let p := log p SwParamsSetPeriodEvent in
  CHECK err ELSE (fun err => (err, p)) ;;
  let err := snd_pcm_sw_params hndl (trace p) in
  let p := log p SwParams in
  CHECK err ELSE (fun err => (err, p)) ;;
  (0, p).

(** [spa_alsa_start]; [t] is what [clock_gettime] reads. *)
Definition spa_alsa_start (fuel : nat) (p : pcm) (t : timespec) : outcome (Z * pcm) :=
  if started (st p) then Returns (0, p)
  else
    let p := set_st p (set_threshold (st p)
                         (match position (st p) with
                          | Some size => size
                          | None => min_latency p
                          end)) in
    let p := set_st p (set_slaved (st p) false) in
    let p := match position (st p), clock p with
             | Some _, Some id =>
                 if negb ((position_clock p).1.1 =? id)
                 then set_st p (set_slaved (st p) true) else p
             | _, _ => p
             end in
    let '(err, p) := set_swparams p in
    CHECK err ELSE (fun err => Returns (err, p)) ;;
    let p := log p Dump in
    let err := snd_pcm_prepare hndl (trace p) in
    let p := log p Prepare in
    CHECK err ELSE (fun err => Returns (err, p)) ;;
    let p := if negb (slaved (st p)) then log p (AddSource (stream (st p))) else p in
    let p := reset_buffers p in
    r ← match stream (st p) with
        | SND_PCM_STREAM_PLAYBACK =>
            let p := set_alsa_started p false in
            '(_, p) ← spa_alsa_write fuel p (threshold (st p) * 2) true;
            Returns (inr p)
        | SND_PCM_STREAM_CAPTURE =>
            let err := snd_pcm_start hndl (trace p) in
            let p := log p Start in
            if err <? 0 then Returns (inl (err, p))
            else Returns (inr (set_alsa_started p true))
        end;
    match r with
    | inl early => Returns early
    | inr p =>
        let p := if negb (slaved (st p))
                 then set_st p (set_timer (set_now (st p) t) {| tv_sec := 0; tv_nsec := 1 |})
                 else p in
        match io p with
        | None => Undefined
        | Some _ =>
            let p := set_io p (Some {| io_status := SPA_STATUS_OK;
                                       io_buffer_id := SPA_ID_INVALID |}) in
            Returns (0, set_st p (set_started (st p) true))
        end
    end.

(** [do_remove_source]. *)
Definition do_remove_source (p : pcm) : pcm :=
  if negb (slaved (st p))
  then set_st (log p RemoveSource) (set_timer (st p) {| tv_sec := 0; tv_nsec := 0 |})
  else p.

(** [spa_alsa_pause]. *)
Definition spa_alsa_pause (p : pcm) : Z * pcm :=
  if negb (started (st p)) then (0, p)
  else
    let p := do_remove_source p in
    let p := log p Drop in
    (0, set_st p (set_started (st p) false)).

End Handle.

(** *** Notions used to state what the data path does *)

(** The memory [a] with the bytes [c] written over it from position [d]
    on. *)
Definition overwrite (a : list byte) (d : nat) (c : list byte) : list byte :=
  take d a ++ c ++ drop (d + length c) a.

(** [len] bytes of the ring [data], from [start] on: byte [k] is
    [data[(start + k) % length data]]. *)
Definition ring_read (data : list byte) (start : Z) (len : nat) : list byte :=
  List.map
    (fun k => default Byte.x00
                (data !! Z.to_nat ((start + Z.of_nat k) mod Z.of_nat (length data))))
    (seq 0 len).

(** The bytes of a buffer's chunk that are still to be played when
    [ready_offset] bytes of it have been. *)
Definition chunk_bytes (b : buffer) (ready_offset : Z) : list byte :=
  ring_read (d_data b) (chunk_offset b + ready_offset)
    (Z.to_nat (chunk_size b - ready_offset)).

(** The bytes queued for playback: what is left of the first buffer of
    the [ready] list, and the chunks of the others, in order. *)
Fixpoint queued_from (bufs : list buffer) (ready : list nat) (ready_offset : Z)
  : list byte :=
  match ready with
  | [] => []
  | i :: rest =>
      match bufs !! i with
      | Some b => chunk_bytes b ready_offset
      | None => []
      end ++ queued_from bufs rest 0
  end.

Definition queued (p : pcm) : list byte := queued_from (buffers p) (ready p) (ready_offset p).

(** A buffer the playback loop can take: its memory is [maxsize] bytes,
    and its chunk is a whole number of frames that fits into it. *)
Definition buffer_ok (fs : Z) (b : buffer) : Prop :=
  0 < d_maxsize b < 2 ^ 32
  /\ Z.of_nat (length (d_data b)) = d_maxsize b
  /\ 0 <= chunk_offset b
  /\ 0 < chunk_size b <= d_maxsize b
  /\ chunk_offset b + chunk_size b < 2 ^ 32
  /\ chunk_size b mod fs = 0.

(** A state the playback loop can run in: the frame size is positive,
    the [ready] list holds buffers it can take, [ready_offset] is a whole
    number of frames inside the first of them, and [io] is there. *)
Definition ready_ok (p : pcm) : Prop :=
  0 < frame_size (st p) < 2 ^ 32
  /\ Forall (fun i => exists b, buffers p !! i = Some b /\ buffer_ok (frame_size (st p)) b)
       (ready p)
  /\ 0 <= ready_offset p
  /\ ready_offset p mod frame_size (st p) = 0
  /\ (forall i b, head (ready p) = Some i -> buffers p !! i = Some b ->
        ready_offset p < chunk_size b)
  /\ io p <> None.

(** The ids of the buffers at the indices [l]. *)
Definition buffer_ids (bufs : list buffer) (l : list nat) : list Z :=
  omap (fun i => b_id <$> bufs !! i) l.

(** The frames the calls [calls] commit. *)
Definition committed (calls : list call) : Z :=
  fold_right (fun c n => match c with MmapCommit _ frames => frames + n | _ => n end)
    0 calls.

End AlsaStream.

Module StreamExamples.
Import Alsa AlsaStream.
Local Open Scope Z_scope.

(** A handle that grants what is asked, up to 8 frames at offset 0, and
    whose calls succeed; silence leaves the area as it is. *)
Definition example_hndl : snd_pcm_t :=
  {| snd_pcm_avail := fun _ => 100;
     snd_pcm_status := fun _ => 0;
     snd_pcm_recover := fun _ _ => 0;
     snd_pcm_start := fun _ => 0;
     snd_pcm_mmap_begin := fun _ frames => (0, 0, Z.min frames 8);
     snd_pcm_mmap_commit := fun _ _ frames => frames;
     snd_pcm_areas_silence := fun area _ _ _ _ => area;
     snd_pcm_sw_params_current := fun _ => 0;
     snd_pcm_sw_params_set_tstamp_mode := fun _ => 0;
     snd_pcm_sw_params_set_start_threshold := fun _ => 0;
     snd_pcm_sw_params_set_period_event := fun _ => 0;
     snd_pcm_sw_params := fun _ => 0;
     snd_pcm_prepare := fun _ => 0;
     snd_pcm_drop := fun _ => 0 |}.

(** The same handle, with a [snd_pcm_start] that fails. *)
Definition failing_hndl : snd_pcm_t :=
  {| snd_pcm_avail := snd_pcm_avail example_hndl;
     snd_pcm_status := snd_pcm_status example_hndl;
     snd_pcm_recover := snd_pcm_recover example_hndl;
     snd_pcm_start := fun _ => - EPIPE;
     snd_pcm_mmap_begin := snd_pcm_mmap_begin example_hndl;
     snd_pcm_mmap_commit := snd_pcm_mmap_commit example_hndl;
     snd_pcm_areas_silence := snd_pcm_areas_silence example_hndl;
     snd_pcm_sw_params_current := snd_pcm_sw_params_current example_hndl;
     snd_pcm_sw_params_set_tstamp_mode := snd_pcm_sw_params_set_tstamp_mode example_hndl;
     snd_pcm_sw_params_set_start_threshold :=
       snd_pcm_sw_params_set_start_threshold example_hndl;
     snd_pcm_sw_params_set_period_event := snd_pcm_sw_params_set_period_event example_hndl;
     snd_pcm_sw_params := snd_pcm_sw_params example_hndl;
     snd_pcm_prepare := snd_pcm_prepare example_hndl;
     snd_pcm_drop := snd_pcm_drop example_hndl |}.

Definition example_update_time (p : pcm) (nsec delay : Z) (slaved : bool) : Z * pcm := (0, p).

(** A buffer of 8 bytes whose chunk of [size] bytes starts at byte 4 of
    the ring. *)
Definition example_buffer (id size : Z) : buffer :=
  {| b_id := id; b_flags := 0; b_h := Some {| h_seq := 0; h_pts := 0; h_dts_offset := 0 |};
     d_data := [Byte.x01; Byte.x02; Byte.x03; Byte.x04;
                Byte.x05; Byte.x06; Byte.x07; Byte.x08];
     d_maxsize := 8; chunk_offset := 4; chunk_size := size; chunk_stride := 4 |}.

(** A playback state with frames of 4 bytes, two buffers of two frames
    each queued, and a mmap area of 32 bytes. *)
Definition example_pcm : pcm :=
  {| st := example_state; alsa_started := false; min_latency := 1024;
     clock := None; position_clock := (0, 0, 0);
     buffers := [example_buffer 7 8; example_buffer 9 8];
     free := []; ready := [0%nat; 1%nat]; ready_offset := 0;
     io := Some {| io_status := SPA_STATUS_OK; io_buffer_id := SPA_ID_INVALID |};
     area := replicate 32 Byte.x00; trace := [] |}.

(** The same, with a first buffer whose chunk is a frame and a half. *)
Definition partial_pcm : pcm :=
  set_buffers example_pcm [example_buffer 7 6; example_buffer 9 8].

(** A capture state that is not started, with one free buffer, then
    with none, and a mmap area that holds the bytes 0x10 to 0x1f. *)
Definition capture_pcm : pcm :=
  {| st := set_started example_capture_state false; alsa_started := false;
     min_latency := 1024; clock := None; position_clock := (0, 0, 0);
     buffers := [example_buffer 7 0];
     free := [0%nat]; ready := []; ready_offset := 0;
     io := Some {| io_status := SPA_STATUS_OK; io_buffer_id := SPA_ID_INVALID |};
     area := [Byte.x10; Byte.x11; Byte.x12; Byte.x13; Byte.x14; Byte.x15; Byte.x16;
              Byte.x17; Byte.x18; Byte.x19; Byte.x1a; Byte.x1b; Byte.x1c; Byte.x1d;
              Byte.x1e; Byte.x1f];
     trace := [] |}.

Definition starved_pcm : pcm := set_free capture_pcm [].

End StreamExamples.

Module ProtocolRemote.
Import ProtocolNative.
Local Open Scope Z_scope.

(** *** Back-pressure: [client_busy_changed] *)

Definition set_busy (d : client_data) (b : bool) : client_data :=
  {| busy := b; source_mask := source_mask d; recv_seq := recv_seq d;
     core_resource := core_resource d; resources := resources d;
     replies := replies d; destroyed := destroyed d;
     current_client := current_client d |}.

(** [client_busy_changed]: the busy flag is stored, [SPA_IO_IN] is taken
    out of the source's mask or put into it ([pw_loop_update_io] stores the
    mask), and a client that is no longer busy has its frames processed. *)
Definition client_busy_changed
    (invoke : method -> resource -> message -> client_data -> Z * client_data)
    (c : client_data) (b : bool) (incoming : list message) : client_data * list message :=
  let mask := source_mask c in
  let c := set_busy c b in
  let mask := if b then SPA_FLAG_UNSET mask SPA_IO_IN else SPA_FLAG_SET mask SPA_IO_IN in
  let c := set_source_mask c mask in
  if negb b then process_messages invoke c incoming else (c, incoming).

(** *** The remote's side: [on_need_flush], [on_remote_data], connecting *)

Definition EIO : Z := 5.
Definition EPIPE : Z := 32.

(** Modelled from the spec: the events of an interface, [n_events] of
    them, each with its demarshaller ([struct pw_protocol_marshal], the
    proxy side). *)
Record proxy_marshal := { event_demarshal : list demarshal }.

Definition n_events (m : proxy_marshal) : Z := Z.of_nat (length (event_demarshal m)).

(** Modelled from the spec: a proxy, the remote's end of a resource. *)
Record proxy := {
  proxy_id : Z;
  proxy_marshal_of : option proxy_marshal
}.

(** [struct client] with the fields of its [struct pw_remote] that the
    module uses. [cl_source] is [impl->source] ([None] for NULL): the
    descriptor it watches and its mask; [cl_connection] says whether
    [impl->connection] is set; [remote_disconnected] whether
    [pw_remote_disconnect] has run. *)
Record client := {
  cl_source : option (Z * Z);
  cl_connection : bool;
  disconnecting : bool;
  flushing : bool;
  remote_recv_seq : Z;
  remote_proxies : gmap Z proxy;
  remote_disconnected : bool
}.

Definition set_cl_source (c : client) (src : option (Z * Z)) : client :=
  {| cl_source := src; cl_connection := cl_connection c;
     disconnecting := disconnecting c; flushing := flushing c;
     remote_recv_seq := remote_recv_seq c; remote_proxies := remote_proxies c;
     remote_disconnected := remote_disconnected c |}.

Definition set_cl_connection (c : client) (b : bool) : client :=
  {| cl_source := cl_source c; cl_connection := b;
     disconnecting := disconnecting c; flushing := flushing c;
     remote_recv_seq := remote_recv_seq c; remote_proxies := remote_proxies c;
     remote_disconnected := remote_disconnected c |}.

Definition set_disconnecting (c : client) (b : bool) : client :=
  {| cl_source := cl_source c; cl_connection := cl_connection c;
     disconnecting := b; flushing := flushing c;
     remote_recv_seq := remote_recv_seq c; remote_proxies := remote_proxies c;
     remote_disconnected := remote_disconnected c |}.

Definition set_flushing (c : client) (b : bool) : client :=
  {| cl_source := cl_source c; cl_connection := cl_connection c;
     disconnecting := disconnecting c; flushing := b;
     remote_recv_seq := remote_recv_seq c; remote_proxies := remote_proxies c;
     remote_disconnected := remote_disconnected c |}.

Definition set_remote_recv_seq (c : client) (seq : Z) : client :=
  {| cl_source := cl_source c; cl_connection := cl_connection c;
     disconnecting := disconnecting c; flushing := flushing c;
     remote_recv_seq := seq; remote_proxies := remote_proxies c;
     remote_disconnected := remote_disconnected c |}.

(** Modelled from the spec: [pw_remote_disconnect] takes the remote to
    the unconnected state. *)
Definition pw_remote_disconnect (c : client) : client :=
  {| cl_source := cl_source c; cl_connection := cl_connection c;
     disconnecting := disconnecting c; flushing := flushing c;
     remote_recv_seq := remote_recv_seq c; remote_proxies := remote_proxies c;
     remote_disconnected := true |}.

(** The mask of the io source; [None] when [impl->source] is NULL and the
    code would dereference it. *)
Definition update_source_mask (c : client) (f : Z -> Z) : option client :=
  match cl_source c with
  | Some (fd, mask) => Some (set_cl_source c (Some (fd, f mask)))
  | None => None
  end.

(** [on_need_flush]. *)
Definition on_need_flush (c : client) : option client :=
  if negb (flushing c) then
    update_source_mask (set_flushing c true) (fun mask => SPA_FLAG_SET mask SPA_IO_OUT)
  else Some c.

Section Remote.

(** What calling an event's demarshal function does: its return value
    and the client afterwards (a handler may disconnect the remote). *)
Variable invoke : method -> proxy -> message -> client -> Z * client.

(** The [while (!impl->disconnecting)] loop of [on_remote_data]. The
    connection holds the frames [incoming];
    [pw_protocol_native_connection_get_next] yields the first of them and
    returns 1, and returns [last] (0 when more bytes are needed, or a
    negative errno) when there is none. The result is the [res] the loop
    leaves to the label [error] with, if it does, the client, and the
    frames left in the connection. *)
Fixpoint remote_loop (c : client) (incoming : list message) (last : Z)
  : option Z * client * list message :=
  if disconnecting c then (None, c, incoming)
  else
    match incoming with
    | [] =>
        if last <? 0 then
          if last =? - EAGAIN then (None, c, []) else (Some last, c, [])
        else (None, c, [])
    | msg :: incoming' =>
        let c := set_remote_recv_seq c (msg_seq msg) in
        match remote_proxies c !! msg_id msg with
        | None => remote_loop c incoming' last
        | Some p =>
            match proxy_marshal_of p with
            | None => remote_loop c incoming' last
            | Some m =>
                if msg_opcode msg >=? n_events m then remote_loop c incoming' last
                else
                  match event_demarshal m !! Z.to_nat (msg_opcode msg) with
                  | None => remote_loop c incoming' last
                  | Some dm =>
                      match func dm with
                      | None => remote_loop c incoming' last
                      | Some f =>
                          let '(res, c) := invoke f p msg c in
                          remote_loop c incoming' last
                      end
                  end
            end
        end
    end.

(** What [pw_protocol_native_connection_flush] returns for the client. *)
Variable pw_protocol_native_connection_flush : client -> Z.

(** The label [error] of [on_remote_data]. *)
Definition remote_error (c : client) : client :=
  pw_remote_disconnect (set_cl_source c None).

(** [on_remote_data]; [None] when it dereferences a NULL [impl->source]. *)
Definition on_remote_data (c : client) (mask : Z) (incoming : list message) (last : Z)
  : option (client * list message) :=
  if negb (Z.land mask (Z.lor SPA_IO_ERR SPA_IO_HUP) =? 0)
  then Some (remote_error c, incoming)
  else
    let flushed : option (option client) :=
      if negb (Z.land mask SPA_IO_OUT =? 0) then
        let res := pw_protocol_native_connection_flush c in
        if res >=? 0 then
          match update_source_mask c (fun mask => SPA_FLAG_UNSET mask SPA_IO_OUT) with
          | Some c => Some (Some (set_flushing c false))
          | None => None
          end
        else if negb (res =? EAGAIN) then Some None
        else Some (Some c)
      else Some (Some c) in
    match flushed with
    | None => None
    | Some None => Some (remote_error c, incoming)
    | Some (Some c) =>
        if negb (Z.land mask SPA_IO_IN =? 0) then
          let '(err, c, rest) := remote_loop c incoming last in
          match err with
          | Some _ => Some (remote_error c, rest)
          | None => Some (c, rest)
          end
        else Some (c, incoming)
    end.

End Remote.

(** Whether [pw_protocol_native_connection_new] and [pw_loop_add_io] get
    their memory. *)
Record connect_env := { connection_new_ok : bool; add_io_ok : bool }.

(** [impl_connect_fd]: the return value, the client and the descriptors
    it closed. *)
Definition impl_connect_fd (env : connect_env) (c : client) (fd : Z)
  : Z * client * list Z :=
  let c := set_disconnecting c false in
  if negb (connection_new_ok env) then (- ENOMEM, set_cl_connection c false, [fd])
  else
    let c := set_cl_connection c true in
    if negb (add_io_ok env) then (- ENOMEM, set_cl_source c None, [fd])
    else (0, set_cl_source c (Some (fd, Z.lor (Z.lor SPA_IO_IN SPA_IO_HUP) SPA_IO_ERR)), []).

(** [impl_disconnect]. *)
Definition impl_disconnect (c : client) : client :=
  set_cl_connection (set_cl_source (set_disconnecting c true) None) false.

(** [impl_steal_fd]; [dup] is what [dup(2)] returns for a descriptor, and
    [pw_protocol_client_disconnect] calls the client's [disconnect]. *)
Definition impl_steal_fd (dup : Z -> Z) (c : client) : Z * client :=
  match cl_source c with
  | None => (- EIO, c)
  | Some (fd, _) => (dup fd, impl_disconnect c)
  end.

End ProtocolRemote.

Module RemoteExamples.
Import ProtocolNative ProtocolRemote.
Local Open Scope Z_scope.

(** *** Example inputs for the remote's side *)

(** An interface with three events, the second without demarshaller. *)
Definition example_proxy_marshal : proxy_marshal :=
  {| event_demarshal :=
       [ {| func := Some "info"%string; permissions := 0 |};
         {| func := None; permissions := 0 |};
         {| func := Some "broken"%string; permissions := 0 |} ] |}.

Definition example_proxy : proxy :=
  {| proxy_id := 1; proxy_marshal_of := Some example_proxy_marshal |}.

(** A connected remote that watches descriptor 5. *)
Definition example_remote : client :=
  {| cl_source := Some (5, Z.lor (Z.lor SPA_IO_IN SPA_IO_HUP) SPA_IO_ERR);
     cl_connection := true; disconnecting := false; flushing := false;
     remote_recv_seq := 0; remote_proxies := {[ 1 := example_proxy ]};
     remote_disconnected := false |}.

(** Event handlers that succeed, but for the one named "broken". *)
Definition example_remote_invoke (f : method) (p : proxy) (msg : message) (c : client)
  : Z * client :=
  if String.eqb f "broken" then (- EINVAL, c) else (0, c).

End RemoteExamples.

Module ServerExamples.
Import ProtocolNative.
Local Open Scope Z_scope.

(** *** More surroundings for [impl_add_server] *)

(** Nobody owns "pipewire-0" and nothing is left of it. *)
Definition free_os : os :=
  {| xdg_runtime_dir := Some "/run/user/1000"%string;
     pipewire_core := None;
     files := ∅; locked := ∅; open_refused := ∅; open_fds := ∅;
     next_fd := 3; listen_fds := [];
     socket_ok := true; listen_ok := true; add_io_ok := true;
     syscalls := [] |}.

(** Nobody owns "pipewire-0", but the socket file of a daemon that died
    is still there. *)
Definition stale_os : os :=
  {| xdg_runtime_dir := Some "/run/user/1000"%string;
     pipewire_core := None;
     files := {[ "/run/user/1000/pipewire-0"%string ]};
     locked := ∅; open_refused := ∅; open_fds := ∅;
     next_fd := 3; listen_fds := [];
     socket_ok := true; listen_ok := true; add_io_ok := true;
     syscalls := [] |}.

(** Socket activation has passed descriptor 3, bound to the socket path. *)
Definition activated_os : os :=
  {| xdg_runtime_dir := Some "/run/user/1000"%string;
     pipewire_core := None;
     files := {[ "/run/user/1000/pipewire-0"%string ]};
     locked := ∅; open_refused := ∅; open_fds := ∅;
     next_fd := 4; listen_fds := [(3, "/run/user/1000/pipewire-0"%string)];
     socket_ok := true; listen_ok := true; add_io_ok := true;
     syscalls := [] |}.

(** Socket activation has passed descriptor 3, which is open and bound
    to the socket path; [add_io] tells whether [pw_loop_add_io] gets its
    memory. *)
Definition inherited_os (add_io : bool) : os :=
  {| xdg_runtime_dir := Some "/run/user/1000"%string;
     pipewire_core := None;
     files := {[ "/run/user/1000/pipewire-0"%string ]};
     locked := ∅; open_refused := ∅;
     open_fds := {[ 3 := EmptyString ]};
     next_fd := 4; listen_fds := [(3, "/run/user/1000/pipewire-0"%string)];
     socket_ok := true; listen_ok := true; add_io_ok := add_io;
     syscalls := [] |}.

End ServerExamples.

Module ServerTactics.
Import ProtocolNative.

(** Reduce the projections of the OS model and of the server record. *)
Ltac os_fields :=
  cbn [open_fds os_update sys_close sys_unlink files next_fd locked listen_fds
       socket_ok listen_ok add_io_ok syscalls xdg_runtime_dir pipewire_core open_refused
       fd_lock sun_path lock_addr activated source hooked fst snd] in *.

(** Goals about the sets of paths. *)
Ltac same_files := try (apply set_eq; intros ?p); set_unfold; intuition congruence.

(** Two descriptor tables agree: compare them key by key. *)
Ltac same_fds :=
  apply map_eq; intros ?k; rewrite ?lookup_delete, ?lookup_insert;
  repeat case_decide; subst; try reflexivity; try congruence.

End ServerTactics.

Module SessionParams.
Import SessionManager.
Local Open Scope Z_scope.

(** *** Enumerating and subscribing: [endpoint_enum_params],
    [endpoint_subscribe_params] and their session twins *)

(** Modelled from the spec: [spa_pod_is_object_id], the pod is an object
    and its inner object-id equals [id]. *)
Definition spa_pod_is_object_id (param : spa_pod) (id : Z) : bool :=
  pod_is_object param && (pod_object_id param =? id).

Definition UINT32_MAX : Z := 2 ^ 32 - 1.

(** [SPA_N_ELEMENTS(data->subscribe_ids)]. *)
Definition subscribe_ids_size : Z := 32.

Section EnumParams.

Context {Info : Type}.

(** Modelled from the spec: [spa_pod_filter] applies a structural filter
    ([None] for a NULL filter) to a parameter; the result when it returns
    0, [None] when it does not. *)
Variable spa_pod_filter : spa_pod -> option spa_pod -> option spa_pod.

(** The [while (true)] loop of [endpoint_enum_params] and
    [session_enum_params], from [index = next++] on. [fuel] bounds the
    rounds; [None] when it runs out. *)
Fixpoint enum_params_loop (fuel : nat) (params : list (option spa_pod)) (n_params : Z)
    (resource seq id num : Z) (filter : option spa_pod) (next count : Z)
  : option (list (event Info)) :=
  match fuel with
  | O => None
  | S fuel' =>
      let index := next in
      let next := Alsa.incr32 next in
      if index >=? n_params then Some []
      else
        match mjoin (params !! Z.to_nat index) with
        | None =>
            enum_params_loop fuel' params n_params resource seq id num filter next count
        | Some param =>
            if negb (spa_pod_is_object_id param id) then
              enum_params_loop fuel' params n_params resource seq id num filter next count
            else
              match spa_pod_filter param filter with
              | None =>
                  enum_params_loop fuel' params n_params resource seq id num filter next
                    count
              | Some result =>
                  let ev := EvParam resource seq id index next result in
                  let count := Alsa.incr32 count in
                  if count =? num then Some [ev]
                  else
                    match enum_params_loop fuel' params n_params resource seq id num
                            filter next count with
                    | Some evs => Some (ev :: evs)
                    | None => None
                    end
              end
        end
  end.

(** The loop of [endpoint_subscribe_params] over the ids it has stored:
    each id is enumerated from the start, without limit or filter, under
    [seq] 1. *)
Fixpoint subscribe_loop (fuel : nat) (params : list (option spa_pod)) (n_params : Z)
    (resource : Z) (ids : list Z) : option (list (event Info)) :=
  match ids with
  | [] => Some []
  | id :: ids' =>
      match enum_params_loop fuel params n_params resource 1 id UINT32_MAX None 0 0 with
      | None => None
      | Some evs =>
          match subscribe_loop fuel params n_params resource ids' with
          | None => None
          | Some evs' => Some (evs ++ evs')
          end
      end
  end.

(** *** Enumeration as the specification words it

    Walk [params[start ...]], keep the entries whose object id is [id] and
    which pass the filter, and emit [param(seq, id, index, next, filtered)]
    for them, up to [num] times; a [num] of 0 is never reached by the
    count, and so sets no limit. *)
Definition param_event (resource seq id : Z) (filter : option spa_pod) (i : nat)
    (p : option spa_pod) : list (event Info) :=
  match p with
  | Some param =>
      if spa_pod_is_object_id param id then
        match spa_pod_filter param filter with
        | Some result => [EvParam resource seq id (Z.of_nat i) (Z.of_nat i + 1) result]
        | None => []
        end
      else []
  | None => []
  end.

Definition params_from (params : list (option spa_pod)) (resource seq id : Z)
    (filter : option spa_pod) (start : nat) : list (event Info) :=
  List.flat_map (fun i => param_event resource seq id filter i (mjoin (params !! i)))
    (List.seq start (length params - start)).

Definition enum_params_spec (params : list (option spa_pod)) (resource seq id start num : Z)
    (filter : option spa_pod) : list (event Info) :=
  let all := params_from params resource seq id filter (Z.to_nat start) in
  if num =? 0 then all else take (Z.to_nat num) all.

End EnumParams.


Section Endpoint.

Variable spa_pod_filter : spa_pod -> option spa_pod -> option spa_pod.

(** [endpoint_enum_params], called on the resource with id [resource]. *)
Definition endpoint_enum_params (fuel : nat) (this : endpoint) (resource seq id start num : Z)
    (filter : option spa_pod) : option (Z * list (event pw_endpoint_info)) :=
  match enum_params_loop spa_pod_filter fuel (ep_params this) (ep_n_params this)
          resource seq id num filter start 0 with
  | Some evs => Some (0, evs)
  | None => None
  end.

(** [endpoint_subscribe_params], called on the [k]-th bound resource:
    [None] when there is no such resource. *)
Definition endpoint_subscribe_params (fuel : nat) (this : endpoint) (k : nat) (ids : list Z)
  : option (Z * endpoint * list (event pw_endpoint_info)) :=
  match ep_resources this !! k with
  | None => None
  | Some r =>
      let n_ids := Z.min (Z.of_nat (length ids)) subscribe_ids_size in
      let stored := take (Z.to_nat n_ids) ids in
      match subscribe_loop spa_pod_filter fuel (ep_params this) (ep_n_params this)
              (rd_id r) stored with
      | None => None
      | Some evs =>
          Some (0,
                {| ep_info := ep_info this; ep_params := ep_params this;
                   ep_n_params := ep_n_params this;
                   ep_resources :=
                     <[k := {| rd_id := rd_id r; rd_subscribe_ids := stored |}]>
                       (ep_resources this);
                   ep_client := ep_client this |},
                evs)
      end
  end.

(** [session_enum_params] and [session_subscribe_params]. *)
Definition session_enum_params (fuel : nat) (this : session) (resource seq id start num : Z)
    (filter : option spa_pod) : option (Z * list (event pw_session_info)) :=
  match enum_params_loop spa_pod_filter fuel (ss_params this) (ss_n_params this)
          resource seq id num filter start 0 with
  | Some evs => Some (0, evs)
  | None => None
  end.

Definition session_subscribe_params (fuel : nat) (this : session) (k : nat) (ids : list Z)
  : option (Z * session * list (event pw_session_info)) :=
  match ss_resources this !! k with
  | None => None
  | Some r =>
      let n_ids := Z.min (Z.of_nat (length ids)) subscribe_ids_size in
      let stored := take (Z.to_nat n_ids) ids in
      match subscribe_loop spa_pod_filter fuel (ss_params this) (ss_n_params this)
              (rd_id r) stored with
      | None => None
      | Some evs =>
          Some (0,
                {| ss_info := ss_info this; ss_params := ss_params this;
                   ss_n_params := ss_n_params this;
                   ss_resources :=
                     <[k := {| rd_id := rd_id r; rd_subscribe_ids := stored |}]>
                       (ss_resources this);
                   ss_client := ss_client this |},
                evs)
      end
  end.

End Endpoint.

(** *** Example inputs *)

Definition example_pod (id : Z) : spa_pod :=
  {| pod_is_object := true; pod_object_id := id; pod_body := [] |}.

(** Four parameters, the second a NULL, the first and the last with
    object id 2. *)
Definition example_params : list (option spa_pod) :=
  [Some (example_pod 2); None; Some (example_pod 3); Some (example_pod 2)].

Definition example_params_endpoint : endpoint :=
  set_ep_params example_endpoint example_params 4.

(** A filter that lets every parameter through as it is. *)
Definition example_pod_filter (param : spa_pod) (filter : option spa_pod) : option spa_pod :=
  Some param.

End SessionParams.

(** * Properties *)

Module AlsaFacts.
Import Alsa.
Local Open Scope Z_scope.

(** ** Loops *)

Lemma for_range_S {St : Type} (n : nat) (body : nat -> St -> St) (s : St) :
  for_range (S n) body s = body n (for_range n body s).
Proof. unfold for_range. rewrite seq_S, fold_left_app. reflexivity. Qed.

Lemma for_range_ind {St : Type} (P : nat -> St -> Prop) (n : nat) body (s : St) :
  P O s ->
  (forall i t, (i < n)%nat -> P i t -> P (S i) (body i t)) ->
  P n (for_range n body s).
Proof.
  intros H0 Hstep.
  assert (forall k, (k <= n)%nat -> P k (for_range k body s)) as H.
  { induction k as [|k IH]; intros Hk; [exact H0|].
    rewrite for_range_S. apply Hstep; [lia|]. apply IH. lia. }
  apply H. lia.
Qed.

(** Bits *)
Lemma testbit_shiftl_1 (x q : Z) :
  0 <= x -> 0 <= q -> Z.testbit (Z.shiftl 1 x) q = (q =? x).
Proof.
  intros Hx Hq. rewrite Z.shiftl_1_l, Z.pow2_bits_eqb by lia. apply Z.eqb_sym.
Qed.

Lemma land_shiftl_1_eqb (m x : Z) :
  0 <= x -> (Z.land m (Z.shiftl 1 x) =? 0) = negb (Z.testbit m x).
Proof.
  intros Hx.
  destruct (Z.testbit m x) eqn:Hb; simpl.
  - apply Z.eqb_neq. intros H0.
    assert (Z.testbit (Z.land m (Z.shiftl 1 x)) x = true) as Ht.
    { rewrite Z.land_spec, Hb, testbit_shiftl_1, Z.eqb_refl by lia. reflexivity. }
    rewrite H0, Z.bits_0 in Ht. discriminate.
  - apply Z.eqb_eq. apply Z.bits_inj'. intros q Hq.
    rewrite Z.land_spec, Z.bits_0, testbit_shiftl_1 by lia.
    destruct (Z.eqb_spec q x) as [->|]; [rewrite Hb; reflexivity|apply andb_false_r].
Qed.

Lemma testbit_not64 (x q : Z) :
  0 <= q -> Z.testbit (not64 x) q = negb (Z.testbit x q) && (q <? 64).
Proof.
  intros Hq. unfold not64. rewrite Z.land_spec, Z.lnot_spec by lia.
  f_equal. destruct (Z.ltb_spec q 64).
  - apply Z.ones_spec_low. lia.
  - apply Z.ones_spec_high. lia.
Qed.

Lemma insert_middle {A} (l1 l2 : list A) (x y : A) (n : nat) :
  n = length l1 -> <[n := y]> (l1 ++ x :: l2) = l1 ++ y :: l2.
Proof.
  intros ->. rewrite insert_app_r_alt by lia. rewrite Nat.sub_diag. reflexivity.
Qed.

Lemma clear_duplicates_spec (U rest : list Z) (x : Z) :
  clear_duplicates (length U) (U ++ x :: rest)
  = List.map (clear x) U ++ SND_CHMAP_UNKNOWN :: rest.
Proof.
  unfold clear_duplicates. rewrite for_range_S.
  set (body := fun (j : nat) (pos : list Z) =>
                 if pos !!! j =? pos !!! length U
                 then <[j := SND_CHMAP_UNKNOWN]> pos else pos).
  assert (for_range (length U) body (U ++ x :: rest)
          = List.map (clear x) U ++ x :: rest) as ->.
  { pose (P := fun (j : nat) (pos : list Z) =>
                 pos = List.map (clear x) (take j U) ++ drop j U ++ x :: rest).
    assert (P (length U) (for_range (length U) body (U ++ x :: rest))) as HP.
    { apply for_range_ind; unfold P.
      - rewrite take_0, drop_0. reflexivity.
      - intros j t Hj ->.
        destruct (lookup_lt_is_Some_2 U j Hj) as [y Hy].
        rewrite (take_S_r _ _ _ Hy), List.map_app. simpl.
        rewrite (drop_S _ _ _ Hy). simpl.
        unfold body.
        assert ((List.map (clear x) (take j U) ++ y :: drop (S j) U ++ x :: rest) !!! j = y)
          as ->.
        { apply list_lookup_total_middle.
          rewrite List.length_map, length_take_le; lia. }
        assert ((List.map (clear x) (take j U) ++ y :: drop (S j) U ++ x :: rest)
                  !!! length U = x) as ->.
        { change (y :: drop (S j) U ++ x :: rest) with ((y :: drop (S j) U) ++ x :: rest).
          rewrite app_assoc. apply list_lookup_total_middle.
          rewrite length_app, List.length_map, length_take_le by lia.
          simpl. rewrite length_drop. lia. }
        rewrite <- app_assoc. simpl. unfold clear.
        destruct (y =? x).
        + apply insert_middle. rewrite List.length_map, length_take_le; lia.
        + reflexivity. }
    unfold P in HP. rewrite HP, take_ge, drop_ge by lia. reflexivity. }
  unfold body.
  rewrite list_lookup_total_middle by (rewrite List.length_map; reflexivity).
  rewrite Z.eqb_refl. apply insert_middle. rewrite List.length_map. reflexivity.
Qed.

(** Counting *)
Lemma seen_app c x q : seen (c ++ [x]) q = seen c q || (q =? x).
Proof.
  unfold seen. rewrite count_occ_app. cbn [count_occ].
  destruct (Z.eq_dec x q) as [->|Hne].
  - rewrite Z.eqb_refl, orb_true_r.
    destruct (count_occ Z.eq_dec c q) as [|n]; reflexivity.
  - rewrite (proj2 (Z.eqb_neq q x)) by congruence. rewrite orb_false_r, Nat.add_0_r. reflexivity.
Qed.

Lemma duplicated_app c x q :
  duplicated (c ++ [x]) q = duplicated c q || ((q =? x) && seen c q).
Proof.
  unfold duplicated, seen. rewrite count_occ_app. cbn [count_occ].
  destruct (Z.eq_dec x q) as [->|Hne].
  - rewrite Z.eqb_refl.
    destruct (count_occ Z.eq_dec c q) as [|[|n]]; reflexivity.
  - rewrite (proj2 (Z.eqb_neq q x)) by congruence.
    rewrite andb_false_l, orb_false_r, Nat.add_0_r. reflexivity.
Qed.

Lemma duplicated_seen c q : duplicated c q = true -> seen c q = true.
Proof. unfold duplicated, seen. rewrite !Nat.leb_le. lia. Qed.

Lemma seen_In c q : seen c q = true <-> In q c.
Proof.
  unfold seen. rewrite Nat.leb_le, (count_occ_In Z.eq_dec). lia.
Qed.

(** [unknown_duplicates] of a prefix extended by one position. *)
Lemma unknown_duplicates_snoc_dup c x :
  x = SND_CHMAP_UNKNOWN \/ seen c x = true ->
  unknown_duplicates (c ++ [x])
  = List.map (clear x) (unknown_duplicates c) ++ [SND_CHMAP_UNKNOWN].
Proof.
  intros Hx. unfold unknown_duplicates. rewrite List.map_app, List.map_map.
  cbn [List.map]. f_equal.
  - apply List.map_ext. intros y. rewrite duplicated_app. unfold clear.
    destruct (duplicated c y) eqn:Hd; cbn [orb].
    + destruct (SND_CHMAP_UNKNOWN =? x); reflexivity.
    + destruct (Z.eqb_spec y x) as [->|Hne]; cbn [andb]; [|reflexivity].
      destruct Hx as [-> | ->]; [|reflexivity].
      destruct (seen c SND_CHMAP_UNKNOWN); reflexivity.
  - rewrite duplicated_app, Z.eqb_refl. cbn [andb].
    destruct Hx as [-> | ->].
    + destruct (_ || _); reflexivity.
    + rewrite orb_true_r. reflexivity.
Qed.

Lemma unknown_duplicates_snoc_new c x :
  seen c x = false ->
  unknown_duplicates (c ++ [x]) = unknown_duplicates c ++ [x].
Proof.
  intros Hx. unfold unknown_duplicates. rewrite List.map_app. cbn [List.map].
  f_equal.
  - apply List.map_ext_in. intros y Hy. rewrite duplicated_app.
    destruct (Z.eqb_spec y x) as [->|Hne]; cbn [andb].
    + rewrite Hx, orb_false_r. reflexivity.
    + rewrite orb_false_r. reflexivity.
  - rewrite duplicated_app, Hx, andb_false_r, orb_false_r.
    destruct (duplicated c x) eqn:Hd; [|reflexivity].
    apply duplicated_seen in Hd. congruence.
Qed.

Lemma clamp_position_range x : 0 <= clamp_position x <= SND_CHMAP_LAST.
Proof.
  unfold clamp_position, SND_CHMAP_LAST, SND_CHMAP_BRC, SND_CHMAP_UNKNOWN.
  destruct (Z.ltb_spec x 0); cbn [orb]; [lia|].
  destruct (Z.gtb_spec x 36); lia.
Qed.

Lemma seen_unknown_duplicates c :
  seen c SND_CHMAP_UNKNOWN = true -> seen (unknown_duplicates c) SND_CHMAP_UNKNOWN = true.
Proof.
  rewrite !seen_In. unfold unknown_duplicates. intros H.
  apply List.in_map_iff. exists SND_CHMAP_UNKNOWN. split; [|exact H].
  destruct (duplicated c SND_CHMAP_UNKNOWN); reflexivity.
Qed.

Lemma length_unknown_duplicates c : length (unknown_duplicates c) = length c.
Proof. unfold unknown_duplicates. apply List.length_map. Qed.

Lemma scan_inv_init l : scan_inv l 0 {| sc_pos := l; sc_mask := 0; sc_dup := 0 |}.
Proof.
  split; cbn [sc_pos sc_mask sc_dup]; rewrite ?take_0, ?drop_0; try reflexivity;
    intros; apply Z.bits_0.
Qed.

Lemma scan_inv_step l i s :
  (i < length l)%nat -> scan_inv l i s -> scan_inv l (S i) (scan_step i s).
Proof.
  intros Hi [Hpos Hmask Hdup Hunk].
  destruct (lookup_lt_is_Some_2 l i Hi) as [x0 Hx0].
  assert (take (S i) (List.map clamp_position l)
          = take i (List.map clamp_position l) ++ [clamp_position x0]) as Hpre.
  { rewrite !List.firstn_map, (take_S_r _ _ _ Hx0), List.map_app. reflexivity. }
  set (pre := take i (List.map clamp_position l)) in *.
  set (x := clamp_position x0) in *.
  assert (length (unknown_duplicates pre) = i) as Hlen.
  { rewrite length_unknown_duplicates. unfold pre.
    rewrite length_take_le; [reflexivity|]. rewrite List.length_map. lia. }
  rewrite (drop_S _ _ _ Hx0) in Hpos.
  pose proof (clamp_position_range x0) as Hrange. fold x in Hrange.
  unfold SND_CHMAP_LAST, SND_CHMAP_BRC in Hrange.
  unfold scan_step.
  assert (sc_pos s !!! i = x0) as Hread.
  { rewrite Hpos. apply list_lookup_total_middle. symmetry. exact Hlen. }
  rewrite Hread.
  assert ((if (x0 <? 0) || (x0 >? SND_CHMAP_LAST)
           then <[i := SND_CHMAP_UNKNOWN]> (sc_pos s) else sc_pos s)
          = unknown_duplicates pre ++ x :: drop (S i) l) as ->.
  { unfold x, clamp_position.
    destruct ((x0 <? 0) || (x0 >? SND_CHMAP_LAST)).
    - rewrite Hpos. apply insert_middle. symmetry. exact Hlen.
    - exact Hpos. }
  rewrite list_lookup_total_middle by (symmetry; exact Hlen).
  rewrite land_shiftl_1_eqb, negb_involutive by lia.
  assert (Z.testbit (sc_mask s) x = true -> x = SND_CHMAP_UNKNOWN \/ seen pre x = true) as Hhit.
  { intros Ht. destruct (Z.eq_dec x 0) as [->|Hne]; [left; reflexivity|right].
    rewrite <- Hmask by lia. exact Ht. }
  assert (Z.testbit (sc_mask s) x = false -> seen pre x = false) as Hmiss.
  { intros Ht. destruct (Z.eq_dec x 0) as [Hx|Hne].
    - rewrite Hx in *. rewrite Hunk in Ht.
      destruct (seen pre 0) eqn:Hs; [|reflexivity].
      apply seen_unknown_duplicates in Hs. unfold SND_CHMAP_UNKNOWN in *. congruence.
    - rewrite <- Hmask by lia. exact Ht. }
  destruct (Z.testbit (sc_mask s) x) eqn:Hbit.
  - specialize (Hhit eq_refl). clear Hmiss.
    split; cbn [sc_pos sc_mask sc_dup]; rewrite Hpre.
    + rewrite <- Hlen at 1. rewrite clear_duplicates_spec.
      rewrite (unknown_duplicates_snoc_dup _ _ Hhit), <- app_assoc. reflexivity.
    + intros q Hq. rewrite Z.lor_spec, testbit_shiftl_1, Hmask, seen_app by (unfold SND_CHMAP_UNKNOWN; lia).
      unfold SND_CHMAP_UNKNOWN.
      destruct (Z.eqb_spec q x) as [->|Hne].
      * destruct Hhit as [Hx|Hx]; [unfold SND_CHMAP_UNKNOWN in Hx; lia|].
        rewrite Hx. rewrite (proj2 (Z.eqb_neq x 0)) by lia. reflexivity.
      * rewrite (proj2 (Z.eqb_neq q 0)) by lia. reflexivity.
    + intros q Hq. rewrite Z.lor_spec, testbit_shiftl_1, Hdup, duplicated_app by lia.
      destruct (Z.eqb_spec q x) as [->|Hne]; [|reflexivity].
      destruct Hhit as [Hx|Hx]; [unfold SND_CHMAP_UNKNOWN in Hx; lia|].
      rewrite Hx. reflexivity.
    + rewrite Z.lor_spec, testbit_shiftl_1 by (unfold SND_CHMAP_UNKNOWN; lia).
      rewrite (unknown_duplicates_snoc_dup _ _ Hhit), seen_app.
      rewrite Z.eqb_refl, !orb_true_r. reflexivity.
  - specialize (Hmiss eq_refl). clear Hhit.
    split; cbn [sc_pos sc_mask sc_dup]; rewrite Hpre.
    + rewrite (unknown_duplicates_snoc_new _ _ Hmiss), <- app_assoc. reflexivity.
    + intros q Hq. rewrite Z.lor_spec, testbit_shiftl_1, Hmask, seen_app by lia.
      reflexivity.
    + intros q Hq. rewrite Hdup, duplicated_app by lia.
      destruct (Z.eqb_spec q x) as [->|Hne].
      * rewrite Hmiss, andb_false_r, orb_false_r. reflexivity.
      * rewrite orb_false_r. reflexivity.
    + rewrite Z.lor_spec, testbit_shiftl_1, Hunk by lia.
      rewrite (unknown_duplicates_snoc_new _ _ Hmiss), seen_app. reflexivity.
Qed.

Lemma scan_loop_spec l :
  scan_inv l (length l)
    (for_range (length l) scan_step {| sc_pos := l; sc_mask := 0; sc_dup := 0 |}).
Proof.
  apply (for_range_ind (scan_inv l)).
  - apply scan_inv_init.
  - intros i t Hi. apply scan_inv_step. exact Hi.
Qed.

Lemma filter_range_bits_from g a n :
  List.filter g (List.map Z.of_nat (seq a n)) = bits_from g (Z.of_nat a) n.
Proof.
  revert a. induction n as [|n IH]; intros a; [reflexivity|].
  cbn [seq List.map List.filter bits_from].
  rewrite IH. replace (Z.of_nat (S a)) with (Z.of_nat a + 1) by lia.
  destruct (g (Z.of_nat a)); reflexivity.
Qed.

Lemma bits_from_ext g g' p n :
  (forall q, p <= q < p + Z.of_nat n -> g q = g' q) ->
  bits_from g p n = bits_from g' p n.
Proof.
  revert p. induction n as [|n IH]; intros p H; [reflexivity|].
  cbn [bits_from]. rewrite (H p) by lia. f_equal. apply IH. intros q Hq. apply H. lia.
Qed.

Lemma bits_from_nil g p n :
  (forall q, p <= q < p + Z.of_nat n -> g q = false) -> bits_from g p n = [].
Proof.
  revert p. induction n as [|n IH]; intros p H; [reflexivity|].
  cbn [bits_from]. rewrite (H p) by lia. apply IH. intros q Hq. apply H. lia.
Qed.

Lemma avail_above_step F p :
  0 <= p -> p + 1 < 64 ->
  avail_above F p = (if Z.testbit F (p + 1) then [p + 1] else []) ++ avail_above F (p + 1).
Proof.
  intros Hp Hlt. unfold avail_above.
  replace (Z.to_nat (63 - p)) with (S (Z.to_nat (63 - (p + 1)))) by lia.
  reflexivity.
Qed.

Lemma avail_above_high F p : 63 <= p -> avail_above F p = [].
Proof.
  intros Hp. unfold avail_above. replace (Z.to_nat (63 - p)) with O by lia. reflexivity.
Qed.

Lemma testbit_high F q : 0 <= F < 2 ^ 64 -> 64 <= q -> Z.testbit F q = false.
Proof.
  intros [H0 H1] Hq. destruct (Z.eq_dec F 0) as [->|Hne]; [apply Z.bits_0|].
  apply Z.bits_above_log2; [exact H0|].
  assert (Z.log2 F < 64); [|lia]. apply Z.log2_lt_pow2; lia.
Qed.

Lemma shiftr_zero_bits F p q :
  0 <= p -> Z.shiftr F p = 0 -> p <= q -> Z.testbit F q = false.
Proof.
  intros Hp H0 Hq. replace q with ((q - p) + p) by lia.
  rewrite <- Z.shiftr_spec, H0 by lia. apply Z.bits_0.
Qed.

Lemma avail_above_nil F p :
  0 <= p -> Z.shiftr F (p + 1) = 0 -> avail_above F p = [].
Proof.
  intros Hp H0. unfold avail_above. apply bits_from_nil.
  intros q Hq. apply (shiftr_zero_bits F (p + 1)); lia.
Qed.

Lemma shiftr_bound F p n :
  0 <= F -> 0 <= p -> Z.shiftr F p < 2 ^ Z.of_nat (S n) -> Z.shiftr F (p + 1) < 2 ^ Z.of_nat n.
Proof.
  intros HF Hp H. rewrite <- Z.shiftr_shiftr by lia.
  rewrite (Z.shiftr_div_pow2 _ 1) by lia. change (2 ^ 1) with 2.
  apply Z.div_lt_upper_bound; [lia|].
  rewrite Nat2Z.inj_succ, Z.pow_succ_r in H by lia. exact H.
Qed.

(** [next_position] steps to the next set bit of [F]; 64 rounds are enough
    for a 64-bit [F]. *)
Lemma next_position_spec F fuel p :
  0 <= F < 2 ^ 64 -> 0 <= p -> Z.shiftr F p < 2 ^ Z.of_nat fuel ->
  exists p', next_position fuel (Z.shiftr F p) p = (Z.shiftr F p', p')
    /\ p < p'
    /\ avail_above F p = (if Z.shiftr F p' =? 0 then [] else [p']) ++ avail_above F p'.
Proof.
  intros HF. revert p. induction fuel as [|fuel IH]; intros p Hp Hlt.
  - assert (Z.shiftr F p = 0) as H0.
    { pose proof (proj2 (Z.shiftr_nonneg F p) (proj1 HF)). change (2 ^ Z.of_nat 0) with 1 in Hlt. lia. }
    assert (Z.shiftr F (p + 1) = 0) as H1.
    { rewrite <- Z.shiftr_shiftr, H0 by lia. reflexivity. }
    exists (p + 1). cbn [next_position]. rewrite Z.shiftr_shiftr by lia.
    split; [reflexivity|]. split; [lia|].
    rewrite H1. cbn [Z.eqb app].
    rewrite (avail_above_nil F p), (avail_above_nil F (p + 1)); try lia; try reflexivity.
    rewrite <- Z.shiftr_shiftr, H1 by lia. reflexivity.
  - cbn [next_position]. rewrite Z.shiftr_shiftr by lia.
    assert ((Z.land (Z.shiftr F (p + 1)) 1 =? 0) = negb (Z.testbit F (p + 1))) as Hodd.
    { change 1 with (Z.shiftl 1 0) at 2. rewrite land_shiftl_1_eqb by lia.
      rewrite Z.shiftr_spec by lia. reflexivity. }
    rewrite Hodd.
    destruct (Z.eqb_spec (Z.shiftr F (p + 1)) 0) as [H1|H1]; cbn [negb andb].
    + exists (p + 1). split; [reflexivity|]. split; [lia|].
      rewrite H1. cbn [Z.eqb app].
      rewrite (avail_above_nil F p), (avail_above_nil F (p + 1)); try lia; try reflexivity.
      rewrite <- Z.shiftr_shiftr, H1 by lia. reflexivity.
    + destruct (Z.testbit F (p + 1)) eqn:Hbit; cbn [negb].
      * exists (p + 1). split; [reflexivity|]. split; [lia|].
        rewrite (proj2 (Z.eqb_neq _ _) H1).
        assert (p + 1 < 64) as Hp64.
        { destruct (Z.lt_ge_cases (p + 1) 64) as [|Hge]; [assumption|].
          rewrite (testbit_high F (p + 1) HF Hge) in Hbit. discriminate. }
        rewrite avail_above_step, Hbit by lia. reflexivity.
      * destruct (IH (p + 1)) as (p' & Heq & Hlt' & Hav); [lia| |].
        { apply shiftr_bound; lia. }
        exists p'. split; [exact Heq|]. split; [lia|].
        rewrite <- Hav.
        destruct (Z.lt_ge_cases (p + 1) 64) as [Hp64|Hge].
        -- rewrite avail_above_step, Hbit by lia. reflexivity.
        -- rewrite !avail_above_high by lia. reflexivity.
Qed.

Lemma fill_inv_step F u i s :
  0 <= F < 2 ^ 64 -> (i < length u)%nat ->
  fill_inv F u i s -> fill_inv F u (S i) (fill_step i s).
Proof.
  intros HF Hi [Hnext Hmask (done & Hlen & Hpos & Hfill)].
  destruct (lookup_lt_is_Some_2 u i Hi) as [y Hy].
  rewrite (drop_S _ _ _ Hy) in Hpos, Hfill.
  unfold fill_step.
  assert (fl_pos s !!! i = y) as ->.
  { rewrite Hpos. apply list_lookup_total_middle. symmetry. exact Hlen. }
  cbn [fill_unknown] in Hfill.
  destruct (y =? SND_CHMAP_UNKNOWN) eqn:Hy0.
  - destruct (next_position_spec F 64 (fl_next s) HF Hnext) as (p' & Heq & Hlt & Hav).
    { rewrite Z.shiftr_div_pow2 by lia.
      apply Z.div_lt_upper_bound; [lia|].
      assert (0 < 2 ^ fl_next s) by (apply Z.pow_pos_nonneg; lia).
      change (Z.of_nat 64) with 64. nia. }
    rewrite Hmask, Heq.
    split; cbn [fl_pos fl_mask fl_next]; [lia|reflexivity|].
    exists (done ++ [if negb (Z.shiftr F p' =? 0) then p' else 0]).
    split; [rewrite length_app; simpl; lia|].
    split.
    + rewrite Hpos, <- app_assoc. apply insert_middle. symmetry. exact Hlen.
    + rewrite Hfill, Hav, <- app_assoc. f_equal.
      destruct (Z.shiftr F p' =? 0) eqn:Hz; cbn [negb app].
      * assert (avail_above F p' = []) as ->; [|reflexivity].
        destruct (Z.lt_ge_cases p' 63); [|apply avail_above_high; lia].
        apply avail_above_nil; [lia|].
        apply Z.eqb_eq in Hz. rewrite <- Z.shiftr_shiftr, Hz by lia. reflexivity.
      * reflexivity.
  - split; [exact Hnext|exact Hmask|].
    exists (done ++ [y]). split; [rewrite length_app; simpl; lia|].
    rewrite <- !app_assoc. split; [exact Hpos|exact Hfill].
Qed.

Lemma fill_loop_spec F u :
  0 <= F < 2 ^ 64 ->
  fl_pos (for_range (length u) fill_step {| fl_pos := u; fl_mask := F; fl_next := 0 |})
  = fill_unknown u (avail_above F 0).
Proof.
  intros HF.
  assert (fill_inv F u (length u)
            (for_range (length u) fill_step {| fl_pos := u; fl_mask := F; fl_next := 0 |}))
    as [_ _ (done & Hlen & Hpos & Hfill)].
  { apply (for_range_ind (fill_inv F u)).
    - split; cbn [fl_pos fl_mask fl_next]; [lia|reflexivity|].
      exists []. rewrite drop_0. repeat split.
    - intros i t Hi. apply fill_inv_step; assumption. }
  rewrite drop_ge in Hpos, Hfill by lia.
  rewrite Hpos, Hfill. reflexivity.
Qed.

Lemma default_layouts_masks :
  Forall (fun d => Z.testbit (dm_mask d) 0 = false) default_layouts.
Proof. repeat constructor. Qed.

Lemma filter_filter_andb {A} (f g : A -> bool) (l : list A) :
  List.filter f (List.filter g l) = List.filter (fun x => g x && f x) l.
Proof.
  induction l as [|x l IH]; [reflexivity|]. cbn [List.filter].
  destruct (g x); cbn [List.filter andb]; rewrite IH; reflexivity.
Qed.

Lemma fill_unknown_no_unknown u avail :
  ~ In SND_CHMAP_UNKNOWN u -> fill_unknown u avail = u.
Proof.
  induction u as [|x u IH]; intros Hu; [reflexivity|].
  cbn [fill_unknown]. destruct (Z.eqb_spec x SND_CHMAP_UNKNOWN) as [->|Hne].
  - exfalso. apply Hu. left. reflexivity.
  - f_equal. apply IH. intros H. apply Hu. right. exact H.
Qed.

Lemma not64_range x : 0 <= not64 x < 2 ^ 64.
Proof. unfold not64. rewrite Z.land_ones by lia. apply Z.mod_pos_bound. lia. Qed.

Lemma land_not64_range a x : 0 <= Z.land a (not64 x) < 2 ^ 64.
Proof.
  unfold not64. rewrite Z.land_assoc, Z.land_ones by lia. apply Z.mod_pos_bound. lia.
Qed.

Lemma bits_from_S g p n :
  bits_from g p (S n) = (if g p then [p] else []) ++ bits_from g (p + 1) n.
Proof. reflexivity. Qed.

(** The available positions as the second loop walks them are the ones the
    specification names: [default \ (seen \ duplicated)], ascending. *)
Lemma avail_above_spec l def s :
  scan_inv l (length l) s ->
  Z.testbit (dm_mask def) 0 = false ->
  avail_above (Z.land (dm_mask def) (not64 (Z.land (sc_mask s) (not64 (sc_dup s))))) 0
  = List.filter (fun q => negb (seen (List.map clamp_position l) q
                                && negb (duplicated (List.map clamp_position l) q)))
      (List.filter (Z.testbit (dm_mask def)) bit_positions).
Proof.
  intros [_ Hmask Hdup _] Hdef0.
  rewrite take_ge in Hmask, Hdup by (rewrite List.length_map; lia).
  rewrite filter_filter_andb. unfold bit_positions.
  rewrite filter_range_bits_from.
  change (Z.of_nat 0) with 0.
  rewrite (bits_from_S _ 0 63), Hdef0. cbn [andb app].
  unfold avail_above. change (Z.to_nat (63 - 0)) with 63%nat.
  apply bits_from_ext. intros q Hq.
  rewrite Z.land_spec, testbit_not64, Z.land_spec, testbit_not64 by lia.
  rewrite Hmask, Hdup by lia.
  rewrite (proj2 (Z.ltb_lt q 64)) by lia. rewrite !andb_true_r. reflexivity.
Qed.

(** [sanitize_map] computes [sanitize_spec], whenever it stays inside the
    [default_layouts] table. *)
Lemma sanitize_map_refines l :
  sanitize_map l =
  match default_layouts !! length l with
  | Some _ => Some (sanitize_spec l)
  | None =>
      if seen (unknown_duplicates (List.map clamp_position l)) SND_CHMAP_UNKNOWN
      then None else Some (sanitize_spec l)
  end.
Proof.
  unfold sanitize_map, sanitize_spec.
  pose proof (scan_loop_spec l) as Hinv.
  set (s := for_range (length l) scan_step _) in *.
  pose proof Hinv as [Hpos _ _ Hunk].
  rewrite take_ge in Hpos, Hunk by (rewrite List.length_map; lia).
  rewrite drop_ge, app_nil_r in Hpos by lia.
  set (c := List.map clamp_position l) in *.
  rewrite land_shiftl_1_eqb by (unfold SND_CHMAP_UNKNOWN; lia).
  unfold SND_CHMAP_UNKNOWN at 1. rewrite Hunk.
  destruct (seen (unknown_duplicates c) SND_CHMAP_UNKNOWN) eqn:Hs; cbn [negb].
  - destruct (default_layouts !! length l) as [def|] eqn:Hdef; [|reflexivity].
    f_equal. rewrite Hpos.
    assert (length l = length (unknown_duplicates c)) as Hlen.
    { rewrite length_unknown_duplicates. unfold c. rewrite List.length_map. reflexivity. }
    rewrite Hlen at 1. rewrite fill_loop_spec by apply land_not64_range.
    f_equal. unfold default_positions. rewrite Hdef.
    apply avail_above_spec; [exact Hinv|].
    exact (Forall_lookup_1 _ _ _ _ default_layouts_masks Hdef).
  - assert (fill_unknown (unknown_duplicates c)
              (List.filter (fun q => negb (seen c q && negb (duplicated c q)))
                 (default_positions (length l))) = unknown_duplicates c) as ->.
    { apply fill_unknown_no_unknown. rewrite <- seen_In, Hs. discriminate. }
    rewrite Hpos. destruct (default_layouts !! length l); reflexivity.
Qed.

Lemma clamp_position_id x : 0 <= x <= SND_CHMAP_LAST -> clamp_position x = x.
Proof.
  intros H. unfold clamp_position.
  rewrite (proj2 (Z.ltb_ge x 0)) by lia.
  destruct (Z.gtb_spec x SND_CHMAP_LAST); [lia|reflexivity].
Qed.

Lemma map_clamp_position_id m :
  (forall x, In x m -> 0 <= x <= SND_CHMAP_LAST) -> List.map clamp_position m = m.
Proof.
  intros H. etransitivity; [|apply List.map_id]. apply List.map_ext_in.
  intros x Hx. apply clamp_position_id, H, Hx.
Qed.

Lemma unknown_duplicates_id m :
  (forall x, x <> SND_CHMAP_UNKNOWN -> (count_occ Z.eq_dec m x <= 1)%nat) ->
  unknown_duplicates m = m.
Proof.
  intros H. unfold unknown_duplicates. etransitivity; [|apply List.map_id].
  apply List.map_ext. intros x. unfold duplicated.
  destruct (Z.eq_dec x SND_CHMAP_UNKNOWN) as [->|Hne].
  - destruct (_ <=? _)%nat; reflexivity.
  - specialize (H x Hne). destruct (Nat.leb_spec 2 (count_occ Z.eq_dec m x)); [lia|reflexivity].
Qed.

(** Counting in [unknown_duplicates] and [fill_unknown]. *)
Lemma count_occ_clear_map c c' x :
  x <> SND_CHMAP_UNKNOWN ->
  count_occ Z.eq_dec
    (List.map (fun y => if duplicated c y then SND_CHMAP_UNKNOWN else y) c') x
  = if duplicated c x then O else count_occ Z.eq_dec c' x.
Proof.
  intros Hx. induction c' as [|y c' IH].
  - destruct (duplicated c x); reflexivity.
  - cbn [List.map count_occ]. rewrite IH.
    destruct (Z.eq_dec y x) as [->|Hne].
    + destruct (duplicated c x).
      * destruct (Z.eq_dec SND_CHMAP_UNKNOWN x); [congruence|reflexivity].
      * destruct (Z.eq_dec x x); [reflexivity|congruence].
    + destruct (duplicated c y); destruct (duplicated c x);
        try (destruct (Z.eq_dec SND_CHMAP_UNKNOWN x); [congruence|reflexivity]);
        destruct (Z.eq_dec y x); try congruence; reflexivity.
Qed.

Lemma count_occ_unknown_duplicates c x :
  x <> SND_CHMAP_UNKNOWN ->
  count_occ Z.eq_dec (unknown_duplicates c) x
  = if seen c x && negb (duplicated c x) then 1%nat else O.
Proof.
  intros Hx. unfold unknown_duplicates. rewrite count_occ_clear_map by exact Hx.
  unfold seen, duplicated.
  destruct (count_occ Z.eq_dec c x) as [|[|k]]; reflexivity.
Qed.

Lemma In_unknown_duplicates c x :
  In x (unknown_duplicates c) -> x = SND_CHMAP_UNKNOWN \/ In x c.
Proof.
  unfold unknown_duplicates. rewrite List.in_map_iff. intros (y & Hy & Hin).
  destruct (duplicated c y); [left; congruence|right; congruence].
Qed.

Lemma count_occ_fill_unknown u avail x :
  x <> SND_CHMAP_UNKNOWN ->
  (count_occ Z.eq_dec (fill_unknown u avail) x
   <= count_occ Z.eq_dec u x + count_occ Z.eq_dec avail x)%nat.
Proof.
  intros Hx. revert avail. induction u as [|y u IH]; intros avail; [cbn; lia|].
  cbn [fill_unknown]. destruct (Z.eqb_spec y SND_CHMAP_UNKNOWN) as [->|Hy].
  - destruct avail as [|a avail]; cbn [count_occ].
    + specialize (IH []). cbn [count_occ] in IH.
      destruct (Z.eq_dec SND_CHMAP_UNKNOWN x); [congruence|lia].
    + specialize (IH avail).
      destruct (Z.eq_dec SND_CHMAP_UNKNOWN x); [congruence|].
      destruct (Z.eq_dec a x); lia.
  - cbn [count_occ]. specialize (IH avail). destruct (Z.eq_dec y x); lia.
Qed.

Lemma In_fill_unknown u avail x :
  In x (fill_unknown u avail) -> In x u \/ In x avail.
Proof.
  revert avail. induction u as [|y u IH]; intros avail; [intros []|].
  cbn [fill_unknown]. destruct (Z.eqb_spec y SND_CHMAP_UNKNOWN) as [->|Hy].
  - destruct avail as [|a avail]; intros [<-|H].
    + left; left; reflexivity.
    + destruct (IH _ H) as [?|[]]. left; right; assumption.
    + right; left; reflexivity.
    + destruct (IH _ H); [left; right; assumption|right; right; assumption].
  - intros [<-|H]; [left; left; reflexivity|].
    destruct (IH _ H); [left; right; assumption|right; assumption].
Qed.

Lemma fill_unknown_keeps u avail x :
  x <> SND_CHMAP_UNKNOWN -> In x u -> In x (fill_unknown u avail).
Proof.
  intros Hx. revert avail. induction u as [|y u IH]; intros avail; [intros []|].
  cbn [fill_unknown]. intros [->|H].
  - rewrite (proj2 (Z.eqb_neq _ _) Hx). left; reflexivity.
  - destruct (y =? SND_CHMAP_UNKNOWN); [destruct avail|]; right; apply IH, H.
Qed.

(** If an UNKNOWN is left after filling, every available position was used. *)
Lemma fill_unknown_exhausts u avail :
  ~ In SND_CHMAP_UNKNOWN avail ->
  In SND_CHMAP_UNKNOWN (fill_unknown u avail) ->
  forall a, In a avail -> In a (fill_unknown u avail).
Proof.
  revert avail. induction u as [|y u IH]; intros avail Hav; [intros []|].
  cbn [fill_unknown]. destruct (Z.eqb_spec y SND_CHMAP_UNKNOWN) as [->|Hy].
  - destruct avail as [|a avail]; [intros _ ? []|].
    intros [H0|H0]; [exfalso; apply Hav; left; exact H0|].
    intros b [<-|Hb]; [left; reflexivity|right].
    apply IH; [intros H; apply Hav; right; exact H|exact H0|exact Hb].
  - intros [H0|H0]; [congruence|]. intros b Hb. right. apply IH; assumption.
Qed.

Lemma default_positions_range n q :
  In q (default_positions n) -> 1 <= q <= SND_CHMAP_LAST.
Proof.
  unfold default_positions. destruct (default_layouts !! n) as [def|] eqn:Hdef; [|intros []].
  rewrite List.filter_In. intros [Hq Hbit].
  assert (bit_positions_checked = true) as Hc by (vm_compute; reflexivity).
  unfold bit_positions_checked in Hc. rewrite forallb_forall in Hc.
  assert (In def default_layouts) as Hin.
  { apply list_elem_of_In. eapply list_elem_of_lookup_2. exact Hdef. }
  specialize (Hc def Hin). rewrite forallb_forall in Hc. specialize (Hc q Hq).
  rewrite Hbit in Hc. cbn [implb] in Hc. apply andb_true_iff in Hc. lia.
Qed.

Lemma NoDup_bit_positions : List.NoDup bit_positions.
Proof. apply NoDup_ListNoDup, (bool_decide_unpack _). vm_compute. exact I. Qed.

Lemma NoDup_default_positions n : List.NoDup (default_positions n).
Proof.
  unfold default_positions. destruct (default_layouts !! n); [|constructor].
  apply List.NoDup_filter, NoDup_bit_positions.
Qed.

Lemma length_default_positions n def :
  default_layouts !! n = Some def -> length (default_positions n) = n.
Proof.
  intros H. do 9 (destruct n as [|n]; [reflexivity|]). discriminate.
Qed.

(** The result of the specification is in normal form. *)
Lemma sanitize_spec_normal l : normal (sanitize_spec l).
Proof.
  unfold sanitize_spec. set (c := List.map clamp_position l).
  set (avail := List.filter _ _).
  split.
  - intros x Hx. apply In_fill_unknown in Hx as [Hx|Hx].
    + apply In_unknown_duplicates in Hx as [->|Hx].
      * unfold SND_CHMAP_UNKNOWN, SND_CHMAP_LAST, SND_CHMAP_BRC. lia.
      * unfold c in Hx. apply List.in_map_iff in Hx as (y & <- & _).
        apply clamp_position_range.
    + unfold avail in Hx. apply List.filter_In in Hx as [Hx _].
      apply default_positions_range in Hx. lia.
  - intros x Hx.
    pose proof (count_occ_fill_unknown (unknown_duplicates c) avail x Hx) as Hle.
    rewrite count_occ_unknown_duplicates in Hle by exact Hx.
    assert (count_occ Z.eq_dec avail x <= 1)%nat as Hav.
    { apply (proj1 (NoDup_count_occ Z.eq_dec avail)).
      apply List.NoDup_filter, NoDup_default_positions. }
    destruct (seen c x && negb (duplicated c x)) eqn:Honce; [|lia].
    assert (count_occ Z.eq_dec avail x = O) as Hz; [|lia].
    apply count_occ_not_In. unfold avail. rewrite List.filter_In, Honce.
    intros [_ H]. discriminate.
Qed.

Lemma seen_normal m x :
  normal m -> x <> SND_CHMAP_UNKNOWN ->
  seen m x && negb (duplicated m x) = seen m x.
Proof.
  intros [_ H] Hx. specialize (H x Hx). unfold seen, duplicated.
  destruct (count_occ Z.eq_dec m x) as [|[|k]]; try reflexivity. lia.
Qed.

Lemma length_fill_unknown u avail : length (fill_unknown u avail) = length u.
Proof.
  revert avail. induction u as [|y u IH]; intros avail; [reflexivity|].
  cbn [fill_unknown]. destruct (y =? SND_CHMAP_UNKNOWN); [destruct avail|];
    cbn [length]; rewrite IH; reflexivity.
Qed.

Lemma length_sanitize_spec l : length (sanitize_spec l) = length l.
Proof.
  unfold sanitize_spec.
  rewrite length_fill_unknown, length_unknown_duplicates. apply List.length_map.
Qed.

Lemma filter_none {A} (f : A -> bool) (l : list A) :
  (forall x, In x l -> f x = false) -> List.filter f l = [].
Proof.
  induction l as [|x l IH]; intros H; [reflexivity|].
  cbn [List.filter]. rewrite (H x) by (left; reflexivity).
  apply IH. intros y Hy. apply H. right. exact Hy.
Qed.

(** The specification is idempotent. *)
Lemma sanitize_spec_idempotent l : sanitize_spec (sanitize_spec l) = sanitize_spec l.
Proof.
  pose proof (sanitize_spec_normal l) as Hn.
  pose proof (length_sanitize_spec l) as Hlen.
  unfold sanitize_spec at 1.
  rewrite (map_clamp_position_id _ (proj1 Hn)), (unknown_duplicates_id _ (proj2 Hn)), Hlen.
  destruct (in_dec Z.eq_dec SND_CHMAP_UNKNOWN (sanitize_spec l)) as [H0|H0];
    [|apply fill_unknown_no_unknown, H0].
  assert (List.filter
            (fun q => negb (seen (sanitize_spec l) q && negb (duplicated (sanitize_spec l) q)))
            (default_positions (length l)) = []) as ->.
  { apply filter_none. intros q Hq. apply negb_false_iff.
    assert (q <> SND_CHMAP_UNKNOWN) as Hq0.
    { apply default_positions_range in Hq. unfold SND_CHMAP_UNKNOWN. lia. }
    rewrite (seen_normal _ _ Hn Hq0). apply seen_In.
    unfold sanitize_spec in *. set (c := List.map clamp_position l) in *.
    destruct (seen c q && negb (duplicated c q)) eqn:Honce.
    - apply fill_unknown_keeps; [exact Hq0|].
      apply (count_occ_In Z.eq_dec). rewrite count_occ_unknown_duplicates, Honce by exact Hq0. lia.
    - apply fill_unknown_exhausts; [|exact H0|].
      + rewrite List.filter_In. intros [H _]. apply default_positions_range in H.
        unfold SND_CHMAP_UNKNOWN in H. lia.
      + rewrite List.filter_In, Honce. split; [exact Hq|reflexivity]. }
  clear. induction (sanitize_spec l) as [|y u IH]; [reflexivity|].
  cbn [fill_unknown]. rewrite IH. destruct (Z.eqb_spec y SND_CHMAP_UNKNOWN); congruence.
Qed.

Lemma count_occ_known u x :
  count_occ Z.eq_dec (known u) x
  = if x =? SND_CHMAP_UNKNOWN then O else count_occ Z.eq_dec u x.
Proof.
  induction u as [|y u IH].
  - destruct (x =? SND_CHMAP_UNKNOWN); reflexivity.
  - cbn [known List.filter count_occ]. fold (known u).
    destruct (Z.eqb_spec y SND_CHMAP_UNKNOWN) as [->|Hy]; cbn [negb count_occ]; rewrite IH.
    + destruct (Z.eq_dec SND_CHMAP_UNKNOWN x) as [<-|Hx].
      * rewrite Z.eqb_refl. reflexivity.
      * reflexivity.
    + destruct (Z.eq_dec y x) as [->|Hx]; [|reflexivity].
      rewrite (proj2 (Z.eqb_neq _ _) Hy). reflexivity.
Qed.

Lemma length_known u :
  (count_occ Z.eq_dec u SND_CHMAP_UNKNOWN + length (known u))%nat = length u.
Proof.
  induction u as [|y u IH]; [reflexivity|].
  cbn [known List.filter count_occ]. fold (known u).
  destruct (Z.eqb_spec y SND_CHMAP_UNKNOWN) as [->|Hy]; cbn [negb length].
  - destruct (Z.eq_dec SND_CHMAP_UNKNOWN SND_CHMAP_UNKNOWN); [lia|congruence].
  - destruct (Z.eq_dec y SND_CHMAP_UNKNOWN); [congruence|lia].
Qed.

Lemma fill_unknown_perm u avail :
  length avail = count_occ Z.eq_dec u SND_CHMAP_UNKNOWN ->
  Permutation (fill_unknown u avail) (known u ++ avail).
Proof.
  revert avail. induction u as [|y u IH]; intros avail Hlen.
  - destruct avail; [constructor|discriminate].
  - cbn [fill_unknown known List.filter]. fold (known u).
    cbn [count_occ] in Hlen.
    destruct (Z.eqb_spec y SND_CHMAP_UNKNOWN) as [->|Hy]; cbn [negb].
    + destruct (Z.eq_dec SND_CHMAP_UNKNOWN SND_CHMAP_UNKNOWN); [|congruence].
      destruct avail as [|a avail]; [discriminate|].
      apply Permutation_cons_app, IH. cbn [length] in Hlen. lia.
    + destruct (Z.eq_dec y SND_CHMAP_UNKNOWN); [congruence|].
      cbn [app]. apply perm_skip, IH, Hlen.
Qed.

Lemma filter_split_perm {A} (f : A -> bool) (l : list A) :
  Permutation (List.filter f l ++ List.filter (fun x => negb (f x)) l) l.
Proof.
  induction l as [|x l IH]; [constructor|].
  cbn [List.filter]. destruct (f x); cbn [negb app].
  - apply perm_skip, IH.
  - symmetry. apply Permutation_cons_app. symmetry. exact IH.
Qed.

(** A map drawn from the default layout for its channel count comes out
    as a permutation of that layout. *)
Lemma sanitize_spec_drawn_perm M :
  (forall x, In x M -> In x (default_positions (length M))) ->
  Permutation (sanitize_spec M) (default_positions (length M)).
Proof.
  intros Hdrawn.
  assert (exists def, default_layouts !! length M = Some def) as [def Hdef].
  { destruct M as [|x M]; [eexists; reflexivity|].
    specialize (Hdrawn x (or_introl eq_refl)). unfold default_positions in Hdrawn.
    destruct (default_layouts !! length (x :: M)); [eexists; reflexivity|destruct Hdrawn]. }
  unfold sanitize_spec.
  rewrite map_clamp_position_id.
  2:{ intros x Hx. apply Hdrawn, default_positions_range in Hx. lia. }
  set (D := default_positions (length M)) in *.
  set (once := fun q => seen M q && negb (duplicated M q)).
  change (fun q => negb (seen M q && negb (duplicated M q))) with (fun q => negb (once q)).
  assert (Permutation (known (unknown_duplicates M)) (List.filter once D)) as Hknown.
  { apply Permutation.NoDup_Permutation.
    - apply (NoDup_count_occ Z.eq_dec). intros x. rewrite count_occ_known.
      destruct (Z.eqb_spec x SND_CHMAP_UNKNOWN); [lia|].
      rewrite count_occ_unknown_duplicates by assumption. destruct (_ && _); lia.
    - apply List.NoDup_filter, NoDup_default_positions.
    - intros x. rewrite (count_occ_In Z.eq_dec), count_occ_known, List.filter_In.
      destruct (Z.eqb_spec x SND_CHMAP_UNKNOWN) as [->|Hx].
      + split; [lia|]. intros [H _]. apply default_positions_range in H.
        unfold SND_CHMAP_UNKNOWN in H. lia.
      + rewrite count_occ_unknown_duplicates by assumption. fold (once x).
        destruct (once x) eqn:Honce; [|split; [lia|intros [_ ?]; discriminate]].
        split; [|lia]. intros _. split; [|reflexivity].
        apply Hdrawn, seen_In. unfold once in Honce.
        apply andb_true_iff in Honce. tauto. }
  etransitivity; [apply fill_unknown_perm|].
  - pose proof (length_known (unknown_duplicates M)) as H1.
    rewrite length_unknown_duplicates in H1.
    pose proof (Permutation_length Hknown) as H2.
    pose proof (Permutation_length (filter_split_perm once D)) as H3.
    rewrite length_app in H3. unfold D in H3 at 3.
    rewrite (length_default_positions _ _ Hdef) in H3. lia.
  - etransitivity; [apply Permutation_app_tail, Hknown|]. apply filter_split_perm.
Qed.

(** All entries the same position. *)
Lemma map_replicate {A B} (f : A -> B) n x :
  List.map f (replicate n x) = replicate n (f x).
Proof. induction n as [|n IH]; [reflexivity|]. cbn. rewrite IH. reflexivity. Qed.

Lemma clamp_position_idem x : clamp_position (clamp_position x) = clamp_position x.
Proof. apply clamp_position_id, clamp_position_range. Qed.

Lemma sanitize_spec_all_duplicates n x :
  (2 <= n <= 8)%nat -> sanitize_spec (replicate n x) = default_positions n.
Proof.
  intros Hn.
  assert (sanitize_spec (replicate n x) = sanitize_spec (replicate n (clamp_position x))) as ->.
  { unfold sanitize_spec. rewrite !map_replicate, clamp_position_idem, !length_replicate.
    reflexivity. }
  assert (all_duplicates_checked = true) as Hc by (vm_compute; reflexivity).
  unfold all_duplicates_checked in Hc. rewrite forallb_forall in Hc.
  assert (In n (seq 2 7)) as Hin by (apply in_seq; lia).
  specialize (Hc n Hin). rewrite forallb_forall in Hc.
  assert (In (clamp_position x) (List.map Z.of_nat (seq 0 37))) as Hiny.
  { pose proof (clamp_position_range x) as Hr.
    unfold SND_CHMAP_LAST, SND_CHMAP_BRC in Hr.
    apply List.in_map_iff. exists (Z.to_nat (clamp_position x)). split; [lia|].
    apply in_seq. lia. }
  specialize (Hc _ Hiny). apply bool_decide_eq_true in Hc. exact Hc.
Qed.

Lemma default_positions_sorted n : StronglySorted Z.lt (default_positions n).
Proof.
  do 9 (destruct n as [|n]; [apply (bool_decide_unpack _); vm_compute; exact I|]).
  constructor.
Qed.

Lemma default_layouts_lookup n : (n <= 8)%nat -> is_Some (default_layouts !! n).
Proof. intros H. apply lookup_lt_is_Some_2. cbn. lia. Qed.

(** ** Channel-map sanitisation *)

Lemma sanitize_map_total (M : list Z) :
  (length M <= 8)%nat -> sanitize_map M = Some (sanitize_spec M).
Proof.
  intros Hlen. rewrite sanitize_map_refines.
  destruct (default_layouts_lookup _ Hlen) as [def ->]. reflexivity.
Qed.

Lemma sanitize_map_defined (M M' : list Z) :
  sanitize_map M = Some M' -> M' = sanitize_spec M.
Proof.
  rewrite sanitize_map_refines.
  destruct (default_layouts !! length M);
    [|destruct (seen _ _)]; congruence.
Qed.

Lemma sanitize_map_idempotent (M M' : list Z) :
  sanitize_map M = Some M' -> sanitize_map M' = Some M'.
Proof.
  intros Hrun. pose proof (sanitize_map_defined _ _ Hrun) as ->.
  rewrite sanitize_map_refines in *.
  rewrite length_sanitize_spec, sanitize_spec_idempotent.
  destruct (default_layouts !! length M); [reflexivity|].
  destruct (seen (unknown_duplicates (List.map clamp_position M)) SND_CHMAP_UNKNOWN)
    eqn:Hs; [discriminate|].
  pose proof (sanitize_spec_normal M) as [Hrange Hcount].
  rewrite (map_clamp_position_id _ Hrange), (unknown_duplicates_id _ Hcount).
  assert (sanitize_spec M = unknown_duplicates (List.map clamp_position M)) as ->;
    [|rewrite Hs; reflexivity].
  unfold sanitize_spec. apply fill_unknown_no_unknown.
  rewrite <- seen_In, Hs. discriminate.
Qed.

(** C5: [sanitize_map] clamps every out-of-range position to UNKNOWN, sets
    all occurrences of every duplicated position to UNKNOWN, and fills the
    UNKNOWN slots in ascending bit order from [default \ (seen \ duplicated)]
    of the default layout for the channel count: on every map the
    [default_layouts] table covers it returns what [sanitize_spec], the
    specification's wording, computes. Concretely the 4-channel map
    [FL, FR, FR, UNKNOWN] becomes [FL, FR, RL, RR]. *)
Theorem sanitize_map_clamps_dedups_fills :
  (forall M : list Z, (length M <= 8)%nat -> sanitize_map M = Some (sanitize_spec M)) /\
  sanitize_map [SND_CHMAP_FL; SND_CHMAP_FR; SND_CHMAP_FR; SND_CHMAP_UNKNOWN]
  = Some [SND_CHMAP_FL; SND_CHMAP_FR; SND_CHMAP_RL; SND_CHMAP_RR].
Proof.
  split; [exact sanitize_map_total|reflexivity].
Qed.

Lemma sanitize_map_clamps_dedups_fills_witness :
  (length [SND_CHMAP_SL; SND_CHMAP_SL; 50; -1; SND_CHMAP_FC]%Z <= 8)%nat /\
  sanitize_map [SND_CHMAP_SL; SND_CHMAP_SL; 50; -1; SND_CHMAP_FC]
  = Some (sanitize_spec [SND_CHMAP_SL; SND_CHMAP_SL; 50; -1; SND_CHMAP_FC]).
Proof.
  split; [simpl; lia|].
  apply (proj1 sanitize_map_clamps_dedups_fills). simpl. lia.
Defined.

(** C4: [sanitize_map] is idempotent: run on its own output it returns that
    output unchanged (and it does return on every map of at most 8
    channels). When the positions of [M] are drawn from
    [default_layouts[M.channels].mask], the output is a permutation of the
    positions of that mask, [default_positions], which lists them in
    ascending order; a map of [n >= 2] copies of one position comes out as
    exactly that ascending list. *)
Theorem sanitize_map_idempotent_permutation :
  (forall M M' : list Z, sanitize_map M = Some M' -> sanitize_map M' = Some M') /\
  (forall M : list Z, (length M <= 8)%nat -> exists M', sanitize_map M = Some M') /\
  (forall M : list Z,
      (forall x, In x M -> In x (default_positions (length M))) ->
      exists M', sanitize_map M = Some M'
                 /\ Permutation M' (default_positions (length M))) /\
  (forall n : nat, StronglySorted Z.lt (default_positions n)) /\
  (forall (n : nat) (x : Z), (2 <= n <= 8)%nat ->
      sanitize_map (replicate n x) = Some (default_positions n)).
Proof.
  split; [exact sanitize_map_idempotent|].
  split; [intros M Hlen; eexists; apply sanitize_map_total, Hlen|].
  split.
  { intros M Hdrawn. exists (sanitize_spec M). split.
    - rewrite sanitize_map_refines.
      destruct (default_layouts !! length M) eqn:Hdef; [reflexivity|].
      destruct M as [|x M]; [discriminate|].
      specialize (Hdrawn x (or_introl eq_refl)). unfold default_positions in Hdrawn.
      rewrite Hdef in Hdrawn. destruct Hdrawn.
    - apply sanitize_spec_drawn_perm, Hdrawn. }
  split; [exact default_positions_sorted|].
  intros n x Hn. rewrite sanitize_map_total by (rewrite length_replicate; lia).
  f_equal. apply sanitize_spec_all_duplicates, Hn.
Qed.

Lemma sanitize_map_idempotent_permutation_witness :
  sanitize_map [SND_CHMAP_FL; SND_CHMAP_FR; SND_CHMAP_RL; SND_CHMAP_RR]
  = Some [SND_CHMAP_FL; SND_CHMAP_FR; SND_CHMAP_RL; SND_CHMAP_RR]
  /\ (exists M', sanitize_map [SND_CHMAP_FR; SND_CHMAP_RR; SND_CHMAP_FR; SND_CHMAP_FL]
                 = Some M'
                 /\ Permutation M' (default_positions 4))
  /\ sanitize_map (replicate 3 SND_CHMAP_FR) = Some (default_positions 3).
Proof.
  destruct sanitize_map_idempotent_permutation as (Hidem & _ & Hperm & _ & Hdup).
  split.
  - apply (Hidem [SND_CHMAP_FL; SND_CHMAP_FR; SND_CHMAP_FR; SND_CHMAP_UNKNOWN]).
    reflexivity.
  - split.
    + apply (Hperm [SND_CHMAP_FR; SND_CHMAP_RR; SND_CHMAP_FR; SND_CHMAP_FL]).
      intros x Hx. vm_compute in Hx. vm_compute. tauto.
    + apply Hdup. lia.
Defined.

(** ** Format enumeration *)

(** An invariant of a [fold_left] holds at its end. *)
Lemma fold_left_invariant {A B} (P : A -> Prop) (f : A -> B -> A) (l : list B) (a : A) :
  P a -> (forall a b, In b l -> P a -> P (f a b)) -> P (fold_left f l a).
Proof.
  revert a. induction l as [|b l IH]; intros a Ha Hstep; [exact Ha|].
  cbn [fold_left]. apply IH.
  - apply Hstep; [left; reflexivity|exact Ha].
  - intros a' b' Hb'. apply Hstep. right. exact Hb'.
Qed.

Lemma spa_format_known_interleaved fi :
  In fi (drop 1 format_info) -> spa_format_to_alsa (spa_format fi) <> SND_PCM_FORMAT_UNKNOWN.
Proof.
  intros Hin. cbn in Hin.
  repeat (destruct Hin as [<-|Hin]; [vm_compute; discriminate|]). destruct Hin.
Qed.

(** The ids of the interleaved column are all known to [spa_format_to_alsa]. *)
Lemma format_choice_interleaved_known dev F :
  snd_pcm_hw_params_get_access_mask dev SND_PCM_ACCESS_MMAP_NONINTERLEAVED = false ->
  In F (choice_values (format_choice dev)) ->
  spa_format_to_alsa F <> SND_PCM_FORMAT_UNKNOWN.
Proof.
  intros Hplanar. unfold format_choice. cbn [choice_values]. revert F.
  apply (fold_left_invariant
           (fun acc => forall F, In F acc.1 -> spa_format_to_alsa F <> SND_PCM_FORMAT_UNKNOWN)).
  - intros F [].
  - intros acc fi Hfi Hacc F. unfold format_choice_step. rewrite Hplanar. cbn [andb].
    destruct (snd_pcm_hw_params_get_format_mask dev (format fi)); [|apply Hacc].
    destruct (snd_pcm_hw_params_get_access_mask dev SND_PCM_ACCESS_MMAP_INTERLEAVED);
      [|apply Hacc].
    cbn [fst]. intros HF.
    assert (In F acc.1 \/ F = spa_format fi) as [H | ->].
    { destruct (acc.2 =? 0); rewrite ?in_app_iff in HF; cbn [In] in HF; intuition. }
    + apply Hacc, H.
    + apply spa_format_known_interleaved, Hfi.
Qed.

(** C2: the enumeration of a device that supports MMAP_NONINTERLEAVED
    emits the planar id [SPA_AUDIO_FORMAT_F32P] in its format choice, and
    [spa_format_to_alsa] maps that id to [SND_PCM_FORMAT_UNKNOWN], so that
    [spa_alsa_set_format] refuses the format it was offered. *)
Theorem enum_format_emits_unknown_planar :
  exists st r,
    spa_alsa_enum_format 2 planar_device [] example_state 0 0 1 Some = Some (0, st, [r])
    /\ In SPA_AUDIO_FORMAT_F32P (choice_values (fp_format (rp_param r)))
    /\ spa_format_to_alsa SPA_AUDIO_FORMAT_F32P = SND_PCM_FORMAT_UNKNOWN
    /\ (spa_alsa_set_format planar_device example_state
          {| info_format := SPA_AUDIO_FORMAT_F32P; info_rate := 48000; info_channels := 2 |}
          SPA_NODE_PARAM_FLAG_NEAREST).1.1 = - EINVAL.
Proof.
  eexists. eexists. split; [vm_compute; reflexivity|].
  split; [vm_compute; tauto|]. split; reflexivity.
Qed.

Lemma enum_format_pass_cases dev chmaps index :
  (exists err, err < 0 /\ enum_format_pass dev chmaps index = PassError err)
  \/ (hw_queries_ok dev /\
      exists fmt, enum_format_pass dev chmaps index
                  = if index >? 0 then PassEnd else PassFormat fmt).
Proof.
  unfold enum_format_pass, hw_queries_ok.
  destruct (Z.ltb_spec (snd_pcm_hw_params_any dev) 0); [left; eauto|].
  destruct (Z.ltb_spec (snd_pcm_hw_params_get_rate_min dev).1 0); [left; eauto|].
  destruct (Z.ltb_spec (snd_pcm_hw_params_get_rate_max dev).1 0); [left; eauto|].
  destruct (Z.ltb_spec (snd_pcm_hw_params_get_channels_min dev).1 0); [left; eauto|].
  destruct (Z.ltb_spec (snd_pcm_hw_params_get_channels_max dev).1 0); [left; eauto|].
  right. split; [tauto|]. eexists. reflexivity.
Qed.

Lemma enum_format_pass_error dev chmaps index err :
  hw_queries_ok dev -> enum_format_pass dev chmaps index <> PassError err.
Proof.
  intros (H1 & H2 & H3 & H4 & H5). unfold enum_format_pass.
  rewrite (proj2 (Z.ltb_ge _ _) H1), (proj2 (Z.ltb_ge _ _) H2), (proj2 (Z.ltb_ge _ _) H3),
    (proj2 (Z.ltb_ge _ _) H4), (proj2 (Z.ltb_ge _ _) H5).
  destruct (index >? 0); discriminate.
Qed.


Lemma enum_format_loop_error dev chmaps filter seq num (fuel : nat) :
  forall next count out err out',
    enum_format_loop fuel dev chmaps filter seq num next count out
    = Some (ExitError err, out') ->
    err < 0 /\ ~ hw_queries_ok dev.
Proof.
  induction fuel as [|fuel IH]; intros next count out err out'; [discriminate|].
  cbn [enum_format_loop].
  destruct (enum_format_pass dev chmaps next) as [e| | |fmt] eqn:Hpass; try discriminate.
  - intros [= <- <-].
    destruct (enum_format_pass_cases dev chmaps next)
      as [(e' & He' & Hp)|(Hok & fmt & Hp)].
    + rewrite Hp in Hpass. injection Hpass as <-. split; [exact He'|].
      intros Hq. exact (enum_format_pass_error _ _ _ _ Hq Hp).
    + rewrite Hp in Hpass. destruct (next >? 0); discriminate.
  - destruct (filter fmt) as [param|]; [|apply IH].
    destruct (negb _); [apply IH|discriminate].
Qed.





(** ** Hardware parameters *)

Lemma set_format_reaches dev st info flags :
  reaches_negotiation dev st info ->
  spa_alsa_set_format dev st info flags
  = set_format_channels dev (spa_alsa_open dev st).2 info flags
      (spa_format_to_alsa (info_format info)).
Proof.
  intros (Hopen & Hany & Hres & Hacc & Hwake & Hfmt & Hset).
  unfold spa_alsa_set_format.
  destruct (spa_alsa_open dev st) as [err st1]. cbn [fst snd] in *.
  rewrite (proj2 (Z.ltb_ge _ _) Hopen), (proj2 (Z.ltb_ge _ _) Hany),
    (proj2 (Z.ltb_ge _ _) Hres), (proj2 (Z.ltb_ge _ _) Hacc), (proj2 (Z.ltb_ge _ _) Hwake).
  rewrite bool_decide_eq_false_2 by exact Hfmt.
  rewrite (proj2 (Z.ltb_ge _ _) Hset). reflexivity.
Qed.

Lemma set_format_finish_info dev st info fmt :
  (set_format_finish dev st info fmt).1.2 = info.
Proof.
  unfold set_format_finish.
  repeat (match goal with |- context [if ?b then _ else _] => destruct b end);
    reflexivity.
Qed.

Lemma set_format_finish_state dev st info fmt :
  (set_format_finish dev st info fmt).1.1 = 0 ->
  rate (set_format_finish dev st info fmt).2 = info_rate info
  /\ channels (set_format_finish dev st info fmt).2 = info_channels info.
Proof.
  unfold set_format_finish.
  repeat (match goal with |- context [if ?b then _ else _] => destruct b end);
    cbn; intros; split; reflexivity.
Qed.

(** C7: once [spa_alsa_set_format] has got as far as the negotiation and
    the device has answered the nearest-match calls, a granted channel
    count or a granted rate that differs from the requested one makes the
    call return [-EINVAL] when [SPA_NODE_PARAM_FLAG_NEAREST] is not set,
    with [info] untouched: for the rate also when the channel count is
    the one asked for. With the flag set the call writes the granted
    channel count and rate into [info] and goes on to store them; when
    both are as requested it goes on with [info] as it is. *)
Theorem set_format_nearest_rule (dev : pcm_device) (st : state)
    (info : spa_audio_info_raw) (flags : Z) :
  reaches_negotiation dev st info ->
  let ch := snd_pcm_hw_params_set_channels_near dev (info_channels info) in
  let rt := snd_pcm_hw_params_set_rate_near dev (info_rate info) in
  let st1 := (spa_alsa_open dev st).2 in
  let fmt := spa_format_to_alsa (info_format info) in
  let granted := {| info_format := info_format info; info_rate := rt.2;
                    info_channels := ch.2 |} in
  let result := spa_alsa_set_format dev st info flags in
  (0 <= ch.1 -> ch.2 <> info_channels info ->
   Z.land flags SPA_NODE_PARAM_FLAG_NEAREST = 0 ->
   result = (- EINVAL, info, st1)) /\
  (0 <= ch.1 -> 0 <= rt.1 -> rt.2 <> info_rate info ->
   Z.land flags SPA_NODE_PARAM_FLAG_NEAREST = 0 ->
   result = (- EINVAL, info, st1)) /\
  (0 <= ch.1 -> 0 <= rt.1 ->
   Z.land flags SPA_NODE_PARAM_FLAG_NEAREST <> 0 ->
   result = set_format_finish dev st1 granted fmt
   /\ result.1.2 = granted
   /\ (result.1.1 = 0 -> rate result.2 = rt.2 /\ channels result.2 = ch.2)) /\
  (0 <= ch.1 -> 0 <= rt.1 -> ch.2 = info_channels info -> rt.2 = info_rate info ->
   result = set_format_finish dev st1 info fmt /\ result.1.2 = info).
Proof.
  intros Hreach ch rt st1 fmt granted result.
  assert (result = set_format_channels dev st1 info flags fmt) as Hresult
    by (apply set_format_reaches; exact Hreach).
  assert (forall i, set_format_rate dev st1 i flags fmt
                    = let near := snd_pcm_hw_params_set_rate_near dev (info_rate i) in
                      if near.1 <? 0 then (near.1, i, st1)
                      else if negb (near.2 =? info_rate i) then
                             if negb (Z.land flags SPA_NODE_PARAM_FLAG_NEAREST =? 0)
                             then set_format_finish dev st1 (info_set_rate i near.2) fmt
                             else (- EINVAL, i, st1)
                           else set_format_finish dev st1 i fmt) as Hrate
    by reflexivity.
  assert (result
          = if ch.1 <? 0 then (ch.1, info, st1)
            else if negb (ch.2 =? info_channels info) then
                   if negb (Z.land flags SPA_NODE_PARAM_FLAG_NEAREST =? 0)
                   then set_format_rate dev st1 (info_set_channels info ch.2) flags fmt
                   else (- EINVAL, info, st1)
                 else set_format_rate dev st1 info flags fmt) as Hch
    by (rewrite Hresult; reflexivity).
  clearbody result. clear Hresult.
  assert (info_set_rate (info_set_channels info ch.2) rt.2 = granted) as Hboth
    by reflexivity.
  split; [|split; [|split]].
  - intros Hok Hne Hflag. rewrite Hch, (proj2 (Z.ltb_ge _ _) Hok),
      (proj2 (Z.eqb_neq _ _) Hne), Hflag. reflexivity.
  - intros Hok Hrok Hne Hflag. rewrite Hch, (proj2 (Z.ltb_ge _ _) Hok), Hflag.
    destruct (Z.eqb_spec ch.2 (info_channels info)) as [Heq|Hneq]; [|reflexivity].
    cbn [negb]. rewrite Hrate. cbv zeta. fold rt.
    rewrite (proj2 (Z.ltb_ge _ _) Hrok), (proj2 (Z.eqb_neq _ _) Hne), Hflag. reflexivity.
  - intros Hok Hrok Hflag.
    assert (result = set_format_finish dev st1 granted fmt) as ->.
    { rewrite Hch, (proj2 (Z.ltb_ge _ _) Hok), (proj2 (Z.eqb_neq _ _) Hflag).
      cbn [negb].
      assert (set_format_rate dev st1 (info_set_channels info ch.2) flags fmt
              = set_format_finish dev st1 granted fmt) as Hover.
      { rewrite Hrate. cbv zeta. cbn [info_rate info_set_channels]. fold rt.
        rewrite (proj2 (Z.ltb_ge _ _) Hrok), (proj2 (Z.eqb_neq _ _) Hflag). cbn [negb].
        destruct (Z.eqb_spec rt.2 (info_rate info)) as [Heq|Hneq]; cbn [negb];
          [|rewrite Hboth; reflexivity].
        f_equal. unfold granted, info_set_channels. rewrite Heq. reflexivity. }
      destruct (Z.eqb_spec ch.2 (info_channels info)) as [Heq|Hneq]; cbn [negb];
        [|exact Hover].
      rewrite <- Hover. f_equal. unfold info_set_channels. rewrite Heq.
      destruct info; reflexivity. }
    split; [reflexivity|]. split; [apply set_format_finish_info|].
    intros H0. apply set_format_finish_state in H0. exact H0.
  - intros Hok Hrok Hceq Hreq.
    assert (result = set_format_finish dev st1 info fmt) as ->.
    { rewrite Hch, (proj2 (Z.ltb_ge _ _) Hok), (proj2 (Z.eqb_eq _ _) Hceq). cbn [negb].
      rewrite Hrate. cbv zeta. fold rt.
      rewrite (proj2 (Z.ltb_ge _ _) Hrok), (proj2 (Z.eqb_eq _ _) Hreq). reflexivity. }
    split; [reflexivity|apply set_format_finish_info].
Qed.

Lemma set_format_nearest_rule_witness :
  spa_alsa_set_format example_device example_state stereo_info 0
  = (- EINVAL, stereo_info, (spa_alsa_open example_device example_state).2)
  /\ spa_alsa_set_format example_device example_state example_info 0
     = (- EINVAL, example_info, (spa_alsa_open example_device example_state).2)
  /\ (spa_alsa_set_format example_device example_state example_info
        SPA_NODE_PARAM_FLAG_NEAREST).1.2
     = {| info_format := SPA_AUDIO_FORMAT_S16_LE; info_rate := 48000; info_channels := 2 |}
  /\ (spa_alsa_set_format example_device example_state example_info
        SPA_NODE_PARAM_FLAG_NEAREST).1.1 = 0.
Proof.
  assert (forall info, info_format info = SPA_AUDIO_FORMAT_S16_LE ->
                       reaches_negotiation example_device example_state info) as Hr.
  { intros info Hf. unfold reaches_negotiation. rewrite Hf.
    repeat split; try (cbn; lia). vm_compute. discriminate. }
  split; [|split].
  - refine (proj1 (proj2 (set_format_nearest_rule example_device example_state stereo_info 0
                            (Hr stereo_info eq_refl))) _ _ _ _);
      first [reflexivity|vm_compute; discriminate].
  - refine (proj1 (set_format_nearest_rule example_device example_state example_info 0
                     (Hr example_info eq_refl)) _ _ _);
      first [reflexivity|vm_compute; discriminate].
  - destruct (proj1 (proj2 (proj2 (set_format_nearest_rule example_device example_state
                                     example_info SPA_NODE_PARAM_FLAG_NEAREST
                                     (Hr example_info eq_refl)))))
      as (_ & Hinfo & _); [vm_compute; discriminate..|].
    split; [exact Hinfo|reflexivity].
Defined.

(** ** Timer handlers *)

(** Without an xrun, [get_status] reports the frames in the device buffer
    (playback) or the frames available (capture) and leaves the state. *)
Lemma get_status_available avail recover (st : state) :
  0 <= avail st ->
  get_status avail recover st
  = (0, match stream st with
        | SND_PCM_STREAM_PLAYBACK => buffer_frames st - avail st
        | SND_PCM_STREAM_CAPTURE => avail st
        end, st).
Proof.
  intros Hav. unfold get_status. rewrite (proj2 (Z.ltb_ge _ _) Hav). reflexivity.
Qed.

Lemma handle_play_early avail recover update play (st st2 : state) (t : timespec)
    (res delay : Z) :
  get_status avail recover (set_now (play_threshold st) t) = (res, delay, st2) ->
  0 <= res -> 0 <= threshold st2 -> 0 < rate st2 ->
  threshold st2 * 2 <= delay ->
  handle_play avail recover update play st t
  = (0, set_next_time st2
          ((SPA_TIMESPEC_TO_NSEC (now st2)
            + threshold st2 / 2 * 1000000000 / rate st2) mod 2 ^ 64)).
Proof.
  intros Hstatus Hres Hthr Hrate Hdelay.
  unfold handle_play. rewrite Hstatus.
  rewrite (proj2 (Z.ltb_ge _ _) Hres).
  rewrite (proj2 (Z.geb_le _ _) Hdelay).
  unfold to_uint64, SPA_NSEC_PER_SEC.
  rewrite (Z.quot_div_nonneg (threshold st2) 2) by lia.
  rewrite Z.quot_div_nonneg; [reflexivity| |lia].
  apply Z.mul_nonneg_nonneg; [|lia]. apply Z.div_pos; lia.
Qed.

Lemma capture_early avail recover update capture (st st2 : state) (t : timespec)
    (res delay : Z) :
  get_status avail recover (set_now (capture_threshold st) t) = (res, delay, st2) ->
  0 <= res -> 0 < rate st2 -> delay < threshold st2 ->
  alsa_on_capture_timeout_event avail recover update capture st t
  = set_timeout
      (set_next_time st2
         ((SPA_TIMESPEC_TO_NSEC (now st2)
           + (threshold st2 - delay) * 1000000000 / rate st2) mod 2 ^ 64))
      ((SPA_TIMESPEC_TO_NSEC (now st2)
        + (threshold st2 - delay) * 1000000000 / rate st2) mod 2 ^ 64).
Proof.
  intros Hstatus Hres Hrate Hdelay.
  unfold alsa_on_capture_timeout_event. rewrite Hstatus.
  rewrite (proj2 (Z.ltb_ge _ _) Hres).
  rewrite (proj2 (Z.ltb_lt _ _) Hdelay).
  unfold to_uint64, SPA_NSEC_PER_SEC.
  rewrite Z.quot_div_nonneg; [reflexivity| |lia].
  apply Z.mul_nonneg_nonneg; lia.
Qed.

Lemma sample_count_set_timeout (st : state) (time next : Z) :
  sample_count (set_timeout (set_next_time st next) time) = sample_count st.
Proof. unfold set_timeout. destruct (negb _); reflexivity. Qed.

(** C8: when [get_status] succeeds with a delay of at least twice the
    threshold, [handle_play] only stores
    [next_time = now + (threshold / 2) * 1e9 / rate] (as a [uint64_t]):
    neither [update_time] nor the transfer runs, and the playback handler
    then arms the timer for that time. When it succeeds with fewer frames
    available than the threshold, the capture handler only stores
    [next_time = now + (threshold - avail) * 1e9 / rate] and arms the
    timer: it reads nothing. [st2] is the state [get_status] leaves; the
    last two parts say the same for a wakeup without xrun, where the
    delay is [buffer_frames - avail] on playback and [avail] on capture,
    and [get_status] leaves the state as it is. *)
Theorem early_wakeup_reschedules :
  (forall avail recover update play (st st2 : state) (t : timespec) (res delay : Z),
      get_status avail recover (set_now (play_threshold st) t) = (res, delay, st2) ->
      0 <= res -> 0 <= threshold st2 -> 0 < rate st2 ->
      threshold st2 * 2 <= delay ->
      let next := (SPA_TIMESPEC_TO_NSEC (now st2)
                   + threshold st2 / 2 * 1000000000 / rate st2) mod 2 ^ 64 in
      handle_play avail recover update play st t = (0, set_next_time st2 next)
      /\ alsa_on_playback_timeout_event avail recover update play st t
         = set_timeout (set_next_time st2 next) next
      /\ sample_count (alsa_on_playback_timeout_event avail recover update play st t)
         = sample_count st2) /\
  (forall avail recover update capture (st st2 : state) (t : timespec) (res delay : Z),
      get_status avail recover (set_now (capture_threshold st) t) = (res, delay, st2) ->
      0 <= res -> 0 < rate st2 ->
      delay < threshold st2 ->
      let next := (SPA_TIMESPEC_TO_NSEC (now st2)
                   + (threshold st2 - delay) * 1000000000 / rate st2) mod 2 ^ 64 in
      alsa_on_capture_timeout_event avail recover update capture st t
      = set_timeout (set_next_time st2 next) next
      /\ sample_count (alsa_on_capture_timeout_event avail recover update capture st t)
         = sample_count st2) /\
  (forall avail recover update play (st : state) (t : timespec),
      let st1 := set_now (play_threshold st) t in
      stream st = SND_PCM_STREAM_PLAYBACK ->
      0 <= avail st1 -> 0 <= threshold st1 -> 0 < rate st1 ->
      threshold st1 * 2 <= buffer_frames st1 - avail st1 ->
      let next := (SPA_TIMESPEC_TO_NSEC t
                   + threshold st1 / 2 * 1000000000 / rate st1) mod 2 ^ 64 in
      alsa_on_playback_timeout_event avail recover update play st t
      = set_timeout (set_next_time st1 next) next) /\
  (forall avail recover update capture (st : state) (t : timespec),
      let st1 := set_now (capture_threshold st) t in
      stream st = SND_PCM_STREAM_CAPTURE ->
      0 <= avail st1 -> 0 < rate st1 ->
      avail st1 < threshold st1 ->
      let next := (SPA_TIMESPEC_TO_NSEC t
                   + (threshold st1 - avail st1) * 1000000000 / rate st1) mod 2 ^ 64 in
      alsa_on_capture_timeout_event avail recover update capture st t
      = set_timeout (set_next_time st1 next) next).
Proof.
  split; [|split; [|split]].
  - intros avail recover update play st st2 t res delay Hstatus Hres Hthr Hrate Hdelay next.
    pose proof (handle_play_early avail recover update play st st2 t res delay
                  Hstatus Hres Hthr Hrate Hdelay) as Hplay.
    fold next in Hplay. split; [exact Hplay|].
    unfold alsa_on_playback_timeout_event. rewrite Hplay.
    split; [reflexivity|]. apply sample_count_set_timeout.
  - intros avail recover update capture st st2 t res delay Hstatus Hres Hrate Hdelay next.
    pose proof (capture_early avail recover update capture st st2 t res delay
                  Hstatus Hres Hrate Hdelay) as Hcap.
    fold next in Hcap. split; [exact Hcap|]. rewrite Hcap.
    apply sample_count_set_timeout.
  - intros avail recover update play st t st1 Hstream Hav Hthr Hrate Hdelay next.
    assert (stream st1 = SND_PCM_STREAM_PLAYBACK) as Hs1.
    { unfold st1, play_threshold. destruct (position st) as [size|]; [|exact Hstream].
      destruct (negb _); exact Hstream. }
    pose proof (get_status_available avail recover st1 Hav) as Hstatus.
    rewrite Hs1 in Hstatus.
    pose proof (handle_play_early avail recover update play st st1 t 0 _
                  Hstatus (Z.le_refl 0) Hthr Hrate Hdelay) as Hplay.
    unfold alsa_on_playback_timeout_event. rewrite Hplay.
    assert (now st1 = t) as -> by reflexivity. reflexivity.
  - intros avail recover update capture st t st1 Hstream Hav Hrate Hdelay next.
    assert (stream st1 = SND_PCM_STREAM_CAPTURE) as Hs1.
    { unfold st1, capture_threshold. destruct (position st); exact Hstream. }
    pose proof (get_status_available avail recover st1 Hav) as Hstatus.
    rewrite Hs1 in Hstatus.
    pose proof (capture_early avail recover update capture st st1 t 0 _
                  Hstatus (Z.le_refl 0) Hrate Hdelay) as Hcap.
    rewrite Hcap. assert (now st1 = t) as -> by reflexivity. reflexivity.
Qed.

Lemma early_wakeup_reschedules_witness :
  handle_play (fun _ => 100) (fun s _ => (0, s)) (fun s _ _ _ => (0, s)) (fun s => s)
    example_state example_time
  = (0, set_next_time (set_now example_state example_time) 5010666673)
  /\ alsa_on_capture_timeout_event (fun _ => 100) (fun s _ => (0, s))
       (fun s _ _ _ => (0, s)) (fun s _ _ => (true, s)) example_capture_state example_time
     = set_timeout (set_next_time (set_now example_capture_state example_time) 5019250007)
         5019250007.
Proof.
  split.
  - refine (proj1 (proj1 early_wakeup_reschedules (fun _ => 100) _ _ _ example_state
                     (set_now example_state example_time) example_time 0 16284 _ _ _ _ _)).
    + reflexivity.
    + lia.
    + cbn. lia.
    + cbn. lia.
    + cbn. lia.
  - refine (proj1 (proj1 (proj2 early_wakeup_reschedules) (fun _ => 100) _ _ _ example_capture_state
                     (set_now example_capture_state example_time) example_time 0 100 _ _ _ _)).
    + reflexivity.
    + lia.
    + cbn. lia.
    + cbn. lia.
Defined.

End AlsaFacts.

Module ProtocolFacts.
Import ProtocolNative.
Local Open Scope Z_scope.

(** ** Dispatch *)

Section DispatchFacts.

Variable invoke : method -> resource -> message -> client_data -> Z * client_data.

(** One round of the loop, when the client is not busy. *)
Lemma process_loop_cons d msg rest :
  busy d = false ->
  process_loop invoke d (msg :: rest)
  = let d := set_recv_seq d (msg_seq msg) in
    match pw_client_find_resource d (msg_id msg) with
    | None =>
        process_loop invoke (pw_resource_error d (core_resource d) (- EINVAL)) rest
    | Some r =>
        match res_marshal r with
        | None => (invalid_method d r, rest)
        | Some m =>
            if msg_opcode msg >=? n_methods m then (invalid_method d r, rest)
            else
              match method_demarshal m !! Z.to_nat (msg_opcode msg) with
              | None => (invalid_message d r, rest)
              | Some dm =>
                  match func dm with
                  | None => (invalid_message d r, rest)
                  | Some f =>
                      let required := Z.lor (permissions dm) PW_PERM_X in
                      if negb (Z.land required (res_permissions r) =? required) then
                        process_loop invoke (pw_resource_error d (res_id r) (- EACCES)) rest
                      else
                        let '(res, d) := invoke f r msg d in
                        if res <? 0 then (invalid_message d r, rest)
                        else process_loop invoke d rest
                  end
              end
        end
    end.
Proof. intros Hbusy. cbn [process_loop]. rewrite Hbusy. reflexivity. Qed.

(** The frame's target resource does not exist. *)
Lemma dispatch_unknown_resource d msg rest :
  busy d = false ->
  pw_client_find_resource d (msg_id msg) = None ->
  process_messages invoke d (msg :: rest)
  = process_messages invoke
      (pw_resource_error (set_recv_seq d (msg_seq msg)) (core_resource d) (- EINVAL)) rest.
Proof.
  intros Hbusy Hfind. unfold process_messages.
  rewrite process_loop_cons by exact Hbusy. cbv zeta.
  change (pw_client_find_resource (set_recv_seq (set_current_client d true) (msg_seq msg))
            (msg_id msg)) with (pw_client_find_resource d (msg_id msg)).
  rewrite Hfind. reflexivity.
Qed.

Lemma dispatch_invalid_method d msg rest r :
  busy d = false ->
  pw_client_find_resource d (msg_id msg) = Some r ->
  (res_marshal r = None
   \/ exists m, res_marshal r = Some m /\ n_methods m <= msg_opcode msg) ->
  process_messages invoke d (msg :: rest)
  = (set_current_client
       (pw_client_destroy
          (pw_resource_error (set_recv_seq d (msg_seq msg)) (res_id r) (- EINVAL))) false,
     rest).
Proof.
  intros Hbusy Hfind Hm. unfold process_messages.
  rewrite process_loop_cons by exact Hbusy. cbv zeta.
  change (pw_client_find_resource (set_recv_seq (set_current_client d true) (msg_seq msg))
            (msg_id msg)) with (pw_client_find_resource d (msg_id msg)).
  rewrite Hfind.
  destruct Hm as [->|(m & -> & Hop)]; [reflexivity|].
  rewrite (proj2 (Z.geb_le _ _) Hop). reflexivity.
Qed.

Lemma dispatch_null_function d msg rest r m dm :
  busy d = false ->
  pw_client_find_resource d (msg_id msg) = Some r ->
  res_marshal r = Some m -> msg_opcode msg < n_methods m ->
  method_demarshal m !! Z.to_nat (msg_opcode msg) = Some dm ->
  func dm = None ->
  process_messages invoke d (msg :: rest)
  = (set_current_client
       (pw_client_destroy
          (pw_resource_error (set_recv_seq d (msg_seq msg)) (res_id r) (- EINVAL))) false,
     rest).
Proof.
  intros Hbusy Hfind Hm Hop Hdm Hf. unfold process_messages.
  rewrite process_loop_cons by exact Hbusy. cbv zeta.
  change (pw_client_find_resource (set_recv_seq (set_current_client d true) (msg_seq msg))
            (msg_id msg)) with (pw_client_find_resource d (msg_id msg)).
  rewrite Hfind, Hm.
  destruct (Z.geb_spec (msg_opcode msg) (n_methods m)); [lia|].
  rewrite Hdm, Hf. reflexivity.
Qed.

Lemma dispatch_denied d msg rest r m dm f :
  busy d = false ->
  pw_client_find_resource d (msg_id msg) = Some r ->
  res_marshal r = Some m -> msg_opcode msg < n_methods m ->
  method_demarshal m !! Z.to_nat (msg_opcode msg) = Some dm ->
  func dm = Some f ->
  Z.land (Z.lor (permissions dm) PW_PERM_X) (res_permissions r)
  <> Z.lor (permissions dm) PW_PERM_X ->
  process_messages invoke d (msg :: rest)
  = process_messages invoke
      (pw_resource_error (set_recv_seq d (msg_seq msg)) (res_id r) (- EACCES)) rest.
Proof.
  intros Hbusy Hfind Hm Hop Hdm Hf Hperm. unfold process_messages.
  rewrite process_loop_cons by exact Hbusy. cbv zeta.
  change (pw_client_find_resource (set_recv_seq (set_current_client d true) (msg_seq msg))
            (msg_id msg)) with (pw_client_find_resource d (msg_id msg)).
  rewrite Hfind, Hm.
  destruct (Z.geb_spec (msg_opcode msg) (n_methods m)); [lia|].
  rewrite Hdm, Hf. rewrite (proj2 (Z.eqb_neq _ _) Hperm). reflexivity.
Qed.

Lemma dispatch_demarshal_failed d msg rest r m dm f res d' :
  busy d = false ->
  pw_client_find_resource d (msg_id msg) = Some r ->
  res_marshal r = Some m -> msg_opcode msg < n_methods m ->
  method_demarshal m !! Z.to_nat (msg_opcode msg) = Some dm ->
  func dm = Some f ->
  Z.land (Z.lor (permissions dm) PW_PERM_X) (res_permissions r)
  = Z.lor (permissions dm) PW_PERM_X ->
  invoke f r msg (set_recv_seq (set_current_client d true) (msg_seq msg)) = (res, d') ->
  res < 0 ->
  process_messages invoke d (msg :: rest)
  = (set_current_client
       (pw_client_destroy (pw_resource_error d' (res_id r) (- EINVAL))) false, rest).
Proof.
  intros Hbusy Hfind Hm Hop Hdm Hf Hperm Hcall Hres. unfold process_messages.
  rewrite process_loop_cons by exact Hbusy. cbv zeta.
  change (pw_client_find_resource (set_recv_seq (set_current_client d true) (msg_seq msg))
            (msg_id msg)) with (pw_client_find_resource d (msg_id msg)).
  rewrite Hfind, Hm.
  destruct (Z.geb_spec (msg_opcode msg) (n_methods m)); [lia|].
  rewrite Hdm, Hf. rewrite (proj2 (Z.eqb_eq _ _) Hperm). cbn [negb].
  rewrite Hcall. rewrite (proj2 (Z.ltb_lt _ _) Hres). reflexivity.
Qed.

End DispatchFacts.

(** C1, as amended: for a frame taken off the connection while the client
    is not busy, [recv_seq] becomes the frame's [seq], and
    - if no resource has the frame's id, [-EINVAL] is reported on the core
      resource and processing goes on with the next frame;
    - if the resource has no marshal or the opcode is not below its method
      count, [-EINVAL] is reported and the client is destroyed;
    - if the method's demarshal function is missing, [-EINVAL] is reported
      and the client is destroyed, whatever the permissions;
    - if the function is there and [required_permissions | X] is not
      contained in the resource's permissions, [-EACCES] is reported, the
      client is not destroyed, and processing goes on with the next frame;
    - if the permissions suffice and the function returns a negative
      value, [-EINVAL] is reported and the client is destroyed. *)
Theorem dispatch_frame_outcomes
    (invoke : method -> resource -> message -> client_data -> Z * client_data)
    (d : client_data) (msg : message) (rest : list message) :
  busy d = false ->
  (pw_client_find_resource d (msg_id msg) = None ->
   process_messages invoke d (msg :: rest)
   = process_messages invoke
       (pw_resource_error (set_recv_seq d (msg_seq msg)) (core_resource d) (- EINVAL))
       rest) /\
  (forall r,
      pw_client_find_resource d (msg_id msg) = Some r ->
      (res_marshal r = None
       \/ exists m, res_marshal r = Some m /\ n_methods m <= msg_opcode msg) ->
      process_messages invoke d (msg :: rest)
      = (set_current_client
           (pw_client_destroy
              (pw_resource_error (set_recv_seq d (msg_seq msg)) (res_id r) (- EINVAL)))
           false, rest)) /\
  (forall r m dm,
      pw_client_find_resource d (msg_id msg) = Some r ->
      res_marshal r = Some m -> msg_opcode msg < n_methods m ->
      method_demarshal m !! Z.to_nat (msg_opcode msg) = Some dm ->
      (func dm = None ->
       process_messages invoke d (msg :: rest)
       = (set_current_client
            (pw_client_destroy
               (pw_resource_error (set_recv_seq d (msg_seq msg)) (res_id r) (- EINVAL)))
            false, rest)) /\
      (forall f, func dm = Some f ->
         Z.land (Z.lor (permissions dm) PW_PERM_X) (res_permissions r)
         <> Z.lor (permissions dm) PW_PERM_X ->
         let d' := pw_resource_error (set_recv_seq d (msg_seq msg)) (res_id r) (- EACCES) in
         process_messages invoke d (msg :: rest) = process_messages invoke d' rest
         /\ replies d' = replies d ++ [{| er_id := res_id r; er_res := - EACCES |}]
         /\ destroyed d' = destroyed d
         /\ recv_seq d' = msg_seq msg) /\
      (forall f res d',
         func dm = Some f ->
         Z.land (Z.lor (permissions dm) PW_PERM_X) (res_permissions r)
         = Z.lor (permissions dm) PW_PERM_X ->
         invoke f r msg (set_recv_seq (set_current_client d true) (msg_seq msg)) = (res, d') ->
         res < 0 ->
         process_messages invoke d (msg :: rest)
         = (set_current_client
              (pw_client_destroy (pw_resource_error d' (res_id r) (- EINVAL))) false,
            rest))).
Proof.
  intros Hbusy.
  split; [apply dispatch_unknown_resource, Hbusy|].
  split; [intros r; apply dispatch_invalid_method, Hbusy|].
  intros r m dm Hfind Hm Hop Hdm.
  split; [apply (dispatch_null_function invoke d msg rest r m dm); assumption|].
  split.
  - intros f Hf Hperm d'. split; [|repeat split].
    apply (dispatch_denied invoke d msg rest r m dm f); assumption.
  - intros f res d' Hf Hperm Hcall Hres.
    apply (dispatch_demarshal_failed invoke d msg rest r m dm f res d'); assumption.
Qed.

Lemma dispatch_frame_outcomes_witness :
  process_messages example_invoke example_client
    [example_message 1 1 5; example_message 1 2 6]
  = process_messages example_invoke
      (pw_resource_error (set_recv_seq example_client 5) 1 (- EACCES))
      [example_message 1 2 6].
Proof.
  destruct (dispatch_frame_outcomes example_invoke example_client
              (example_message 1 1 5) [example_message 1 2 6] eq_refl) as (_ & _ & H).
  destruct (H example_resource example_marshal
              {| func := Some "set_param"%string; permissions := PW_PERM_W |}
              eq_refl eq_refl ltac:(vm_compute; reflexivity) eq_refl) as (_ & Hdenied & _).
  exact (proj1 (Hdenied "set_param"%string eq_refl ltac:(vm_compute; discriminate))).
Defined.

(** C1, as stated, fails on a method without demarshal function: the
    frame asks for method 0 of [example_resource], which requires W while
    the resource has R|X, so [required | X] is not contained in the
    permissions; yet the reply is [-EINVAL], not [-EACCES], and the client
    is destroyed. *)
Lemma dispatch_null_function_counterexample :
  pw_client_find_resource example_client 1 = Some example_resource
  /\ (Z.land (Z.lor PW_PERM_W PW_PERM_X) (res_permissions example_resource)
      =? Z.lor PW_PERM_W PW_PERM_X) = false
  /\ replies (process_messages example_invoke example_client [example_message 1 0 5]).1
     = [{| er_id := 1; er_res := - EINVAL |}]
  /\ destroyed (process_messages example_invoke example_client [example_message 1 0 5]).1
     = true.
Proof. repeat split. Qed.

(** ** Flushing *)

(** The drain hook keeps a client whose flush returns [-EAGAIN], with
    [SPA_IO_OUT] armed, and destroys it on any other negative value. *)
Lemma before_hook_client_spec flush d :
  before_hook_client flush d
  = if flush d =? - EAGAIN
    then set_source_mask d (SPA_FLAG_SET (source_mask d) SPA_IO_OUT)
    else if flush d <? 0 then pw_client_destroy d else d.
Proof. reflexivity. Qed.

(** C3: in the io handler, a flush that returns [-EAGAIN] on [SPA_IO_OUT]
    destroys the client: the handler compares the negative result with
    the positive [EAGAIN]. The drain hook, on the same result, keeps the
    client and arms [SPA_IO_OUT]. *)
Theorem connection_data_again_destroys :
  forall invoke (d : client_data) (incoming : list message),
    connection_data invoke (fun _ => - EAGAIN) d SPA_IO_OUT incoming
    = (pw_client_destroy d, incoming)
    /\ before_hook_client (fun _ => - EAGAIN) d
       = set_source_mask d (SPA_FLAG_SET (source_mask d) SPA_IO_OUT).
Proof. intros invoke d incoming. split; reflexivity. Qed.

(** ** The server socket *)

(** C6: when another process holds the lock on the lock file,
    [impl_add_server] returns NULL after exactly three system calls: the
    [open] and the failing [flock] of the lock file, and the [close] of its
    descriptor. No [bind] is attempted and nothing is unlinked: every path
    that existed still exists. *)
Theorem lock_contention_fails_before_bind (w : os) (core_name : option string)
    (dir : string) :
  xdg_runtime_dir w = Some dir ->
  let path := (dir +:+ "/" +:+ get_name w core_name)%string in
  let lock := (path +:+ LOCK_SUFFIX)%string in
  Z.of_nat (String.length path) + 1 <= UNIX_PATH_MAX ->
  lock ∉ open_refused w -> lock ∈ locked w -> 0 <= next_fd w ->
  exists w',
    impl_add_server w core_name = (None, w')
    /\ syscalls w'
       = syscalls w ++ [SysOpen lock; SysFlock (next_fd w); SysClose (next_fd w)]
    /\ files w' = {[lock]} ∪ files w
    /\ locked w' = locked w
    /\ (forall p, p ∈ files w -> p ∈ files w').
Proof.
  intros Hdir path lock Hlen Hopen Hlocked Hfd.
  unfold impl_add_server, init_socket_name. rewrite Hdir.
  fold path.
  destruct (Z.gtb_spec (Z.of_nat (String.length path) + 1) UNIX_PATH_MAX) as [|_]; [lia|].
  cbn [negb]. unfold lock_socket. cbn [sun_path]. fold lock.
  unfold sys_open. rewrite bool_decide_eq_false_2 by exact Hopen.
  rewrite (proj2 (Z.ltb_ge _ _) Hfd).
  unfold sys_flock, os_update at 1. cbn [open_fds locked].
  rewrite lookup_insert_eq. rewrite bool_decide_eq_true_2 by exact Hlocked.
  cbn [Z.ltb Z.compare negb].
  eexists. split; [reflexivity|].
  cbn. rewrite <- ?app_assoc. cbn.
  split; [reflexivity|]. split; [reflexivity|]. split; [reflexivity|].
  intros p Hp. set_solver.
Qed.

Lemma lock_contention_fails_before_bind_witness :
  exists w',
    impl_add_server example_os None = (None, w')
    /\ syscalls w'
       = syscalls example_os
         ++ [SysOpen "/run/user/1000/pipewire-0.lock"; SysFlock 3; SysClose 3]
    /\ files w' = {[ "/run/user/1000/pipewire-0.lock"%string ]} ∪ files example_os
    /\ locked w' = locked example_os
    /\ (forall p, p ∈ files example_os -> p ∈ files w').
Proof.
  refine (lock_contention_fails_before_bind example_os None "/run/user/1000" eq_refl _ _ _ _).
  - vm_compute. discriminate.
  - cbn. set_solver.
  - cbn. set_solver.
  - cbn. lia.
Defined.

End ProtocolFacts.

Module SessionFacts.
Import SessionManager.
Local Open Scope Z_scope.

(** ** Info updates *)

Section UpdateFacts.

Variable pw_properties_update : spa_dict -> spa_dict -> spa_dict.
Variable realloc_ok : Z -> bool.

Lemma notify_subscribed_no_info {Info : Type} resources params index next :
  Forall (fun e => is_info_event e = false)
    (notify_subscribed (Info := Info) resources params index next).
Proof.
  unfold notify_subscribed.
  destruct (mjoin (params !! Z.to_nat index)) as [param|]; [|constructor].
  destruct (negb (pod_is_object param)); [constructor|].
  apply Forall_forall. intros e He. apply list_elem_of_In in He.
  apply List.in_flat_map in He as (r & _ & He).
  apply List.in_flat_map in He as (sid & _ & He).
  destruct (sid =? pod_object_id param); [|destruct He].
  destruct He as [<-|[]]. reflexivity.
Qed.

Lemma notify_all_no_info {Info : Type} resources stored :
  Forall (fun e => is_info_event e = false) (notify_all (Info := Info) resources stored).
Proof.
  unfold notify_all. apply Forall_forall. intros e He. apply list_elem_of_In in He.
  apply List.in_flat_map in He as (i & _ & He).
  pose proof (notify_subscribed_no_info (Info := Info) resources stored
                (Z.of_nat i) (Z.of_nat i + 1)) as H.
  rewrite Forall_forall in H. apply H, list_elem_of_In, He.
Qed.

(** The params part leaves the info, the bound resources and the client
    alone, and sends no [info] event. *)
Lemma endpoint_update_params_frame this change_mask n_params params ok this' evs :
  endpoint_update_params realloc_ok this change_mask n_params params = (ok, this', evs) ->
  ep_info this' = ep_info this /\ ep_resources this' = ep_resources this
  /\ ep_client this' = ep_client this
  /\ Forall (fun e => is_info_event e = false) evs
  /\ (Z.land change_mask PW_CLIENT_ENDPOINT_UPDATE_PARAMS = 0 ->
      ep_params this' = ep_params this /\ ep_n_params this' = ep_n_params this).
Proof.
  unfold endpoint_update_params.
  destruct (Z.eqb_spec (Z.land change_mask PW_CLIENT_ENDPOINT_UPDATE_PARAMS) 0) as [H0|H0];
    cbn [negb].
  - intros [= <- <- <-]. repeat split. constructor.
  - destruct ((n_params * sizeof_pointer >? 0) && negb (realloc_ok (n_params * sizeof_pointer)));
      intros [= <- <- <-]; repeat split; try constructor; try (intros; contradiction).
    apply notify_all_no_info.
Qed.

Lemma session_update_params_frame this change_mask n_params params ok this' evs :
  session_update_params realloc_ok this change_mask n_params params = (ok, this', evs) ->
  ss_info this' = ss_info this /\ ss_resources this' = ss_resources this
  /\ ss_client this' = ss_client this
  /\ Forall (fun e => is_info_event e = false) evs
  /\ (Z.land change_mask PW_CLIENT_SESSION_UPDATE_PARAMS = 0 ->
      ss_params this' = ss_params this /\ ss_n_params this' = ss_n_params this).
Proof.
  unfold session_update_params.
  destruct (Z.eqb_spec (Z.land change_mask PW_CLIENT_SESSION_UPDATE_PARAMS) 0) as [H0|H0];
    cbn [negb].
  - intros [= <- <- <-]. repeat split. constructor.
  - destruct ((n_params * sizeof_pointer >? 0) && negb (realloc_ok (n_params * sizeof_pointer)));
      intros [= <- <- <-]; repeat split; try constructor; try (intros; contradiction).
    apply notify_all_no_info.
Qed.

Lemma endpoint_info_fields_spec old info i :
  endpoint_info_fields pw_properties_update realloc_ok old info = inr i ->
  ei_n_streams i
  = (if Z.land (ei_change_mask info) PW_ENDPOINT_CHANGE_MASK_STREAMS =? 0
     then ei_n_streams old else ei_n_streams info)
  /\ ei_session_id i
     = (if Z.land (ei_change_mask info) PW_ENDPOINT_CHANGE_MASK_SESSION =? 0
        then ei_session_id old else ei_session_id info)
  /\ ei_props i
     = (if Z.land (ei_change_mask info) PW_ENDPOINT_CHANGE_MASK_PROPS =? 0
        then ei_props old else pw_properties_update (ei_props old) (ei_props info))
  /\ ei_params i
     = (if Z.land (ei_change_mask info) PW_ENDPOINT_CHANGE_MASK_PARAMS =? 0
        then ei_params old else take (Z.to_nat (ei_n_params info)) (ei_params info))
  /\ ei_n_params i
     = (if Z.land (ei_change_mask info) PW_ENDPOINT_CHANGE_MASK_PARAMS =? 0
        then ei_n_params old else ei_n_params info)
  /\ ei_version i = ei_version old /\ ei_id i = ei_id old
  /\ ei_name i = ei_name old /\ ei_media_class i = ei_media_class old
  /\ ei_direction i = ei_direction old /\ ei_flags i = ei_flags old.
Proof.
  unfold endpoint_info_fields.
  destruct (Z.land (ei_change_mask info) PW_ENDPOINT_CHANGE_MASK_STREAMS =? 0);
    destruct (Z.land (ei_change_mask info) PW_ENDPOINT_CHANGE_MASK_SESSION =? 0);
    destruct (Z.land (ei_change_mask info) PW_ENDPOINT_CHANGE_MASK_PROPS =? 0);
    destruct (Z.land (ei_change_mask info) PW_ENDPOINT_CHANGE_MASK_PARAMS =? 0);
    cbn [negb];
    try destruct ((ei_n_params info * sizeof_param_info >? 0)
                  && negb (realloc_ok (ei_n_params info * sizeof_param_info)));
    intros [= <-]; repeat split.
Qed.

Lemma session_info_fields_spec old info i :
  session_info_fields pw_properties_update realloc_ok old info = inr i ->
  session_fields_updated pw_properties_update old info i.
Proof.
  unfold session_info_fields.
  destruct (Z.land (si_change_mask info) PW_SESSION_CHANGE_MASK_PROPS =? 0) eqn:H1;
    destruct (Z.land (si_change_mask info) PW_SESSION_CHANGE_MASK_PARAMS =? 0) eqn:H2;
    cbn [negb];
    try destruct ((si_n_params info * sizeof_param_info >? 0)
                  && negb (realloc_ok (si_n_params info * sizeof_param_info)));
    intros [= <-]; split; rewrite ?H1, ?H2; reflexivity.
Qed.

(** [endpoint_update] with the info bit set, when it succeeds. *)
Lemma endpoint_update_info_spec this change_mask n_params params info this' evs :
  Z.land change_mask PW_CLIENT_ENDPOINT_UPDATE_INFO <> 0 ->
  endpoint_update pw_properties_update realloc_ok this change_mask n_params params info
  = (0, this', evs) ->
  endpoint_fields_updated pw_properties_update (ep_info this) info (ep_info this')
  /\ ei_change_mask (ep_info this') = 0
  /\ ep_resources this' = ep_resources this
  /\ ep_client this' = ep_client this
  /\ (Z.land change_mask PW_CLIENT_ENDPOINT_UPDATE_PARAMS = 0 ->
      ep_params this' = ep_params this /\ ep_n_params this' = ep_n_params this)
  /\ exists notifications,
       Forall (fun e => is_info_event e = false) notifications
       /\ evs = notifications
                ++ List.map
                     (fun r => EvInfo (rd_id r)
                                 (ei_set_change_mask (ep_info this') (ei_change_mask info)))
                     (ep_resources this).
Proof.
  intros Hbit. unfold endpoint_update.
  destruct (endpoint_update_params realloc_ok this change_mask n_params params)
    as [[ok1 t1] ev1] eqn:Hparams.
  apply endpoint_update_params_frame in Hparams as (Hinfo & Hres & Hcl & Hev & Hkeep).
  destruct ok1; cbn [negb]; [|intros [=]].
  unfold endpoint_update_info. rewrite (proj2 (Z.eqb_neq _ _) Hbit). cbn [negb].
  destruct (endpoint_info_fields pw_properties_update realloc_ok (ep_info t1) info)
    as [i|i] eqn:Hfields; cbn [negb]; [intros [=]|].
  intros [= <- <-].
  apply endpoint_info_fields_spec in Hfields
    as (H1 & H2 & H3 & H4 & H5 & H6 & H7 & H8 & H9 & H10 & H11).
  rewrite Hinfo in *. rewrite Hres.
  split; [|split; [reflexivity|split; [exact Hres|split; [exact Hcl|split; [exact Hkeep|]]]]].
  - destruct (ei_name i) eqn:Hname;
      (split; cbn;
       [exact H1|exact H2|exact H3|exact H4|exact H5|exact H6|exact H7
       |intros Hn; repeat split; congruence|intros Hn; repeat split; congruence]).
  - exists ev1. split; [exact Hev|]. reflexivity.
Qed.

Lemma session_update_info_spec this change_mask n_params params info this' evs :
  Z.land change_mask PW_CLIENT_SESSION_UPDATE_INFO <> 0 ->
  session_update pw_properties_update realloc_ok this change_mask n_params params info
  = (0, this', evs) ->
  session_fields_updated pw_properties_update (ss_info this) info (ss_info this')
  /\ si_change_mask (ss_info this') = 0
  /\ ss_resources this' = ss_resources this
  /\ ss_client this' = ss_client this
  /\ (Z.land change_mask PW_CLIENT_SESSION_UPDATE_PARAMS = 0 ->
      ss_params this' = ss_params this /\ ss_n_params this' = ss_n_params this)
  /\ exists notifications,
       Forall (fun e => is_info_event e = false) notifications
       /\ evs = notifications
                ++ List.map
                     (fun r => EvInfo (rd_id r)
                                 (si_set_change_mask (ss_info this') (si_change_mask info)))
                     (ss_resources this).
Proof.
  intros Hbit. unfold session_update.
  destruct (session_update_params realloc_ok this change_mask n_params params)
    as [[ok1 t1] ev1] eqn:Hparams.
  apply session_update_params_frame in Hparams as (Hinfo & Hres & Hcl & Hev & Hkeep).
  destruct ok1; cbn [negb]; [|intros [=]].
  unfold session_update_info. rewrite (proj2 (Z.eqb_neq _ _) Hbit). cbn [negb].
  destruct (session_info_fields pw_properties_update realloc_ok (ss_info t1) info)
    as [i|i] eqn:Hfields; cbn [negb]; [intros [=]|].
  intros [= <- <-].
  apply session_info_fields_spec in Hfields as [H1 H2 H3 H4 H5].
  rewrite Hinfo in *. rewrite Hres.
  split; [|split; [reflexivity|split; [exact Hres|split; [exact Hcl|split; [exact Hkeep|]]]]].
  - split; cbn; assumption.
  - exists ev1. split; [exact Hev|]. reflexivity.
Qed.

End UpdateFacts.

(** C9, as amended: an [endpoint_update] or [session_update] with the
    UPDATE_INFO bit set that succeeds (returns 0) changes each of the
    stored [n_streams], [session_id], [props] and [params] only when its
    bit is set in [info->change_mask]; [version] and [id] stay; on an
    endpoint, [name], [media_class], [direction] and [flags] stay once the
    name is set, and are taken from the update, whatever the change bits,
    while it is not. The bound resources and the client stay, and so do
    the params of the object unless UPDATE_PARAMS is set too. After the
    param notifications, the info (with the update's change mask) is
    emitted once to every bound resource, in order, and the stored
    [change_mask] is 0 afterwards, as it is after the info emitted to a
    newly bound resource. *)
Theorem info_update_frame
    (pw_properties_update : spa_dict -> spa_dict -> spa_dict) (realloc_ok : Z -> bool) :
  (forall this change_mask n_params params info this' evs,
      Z.land change_mask PW_CLIENT_ENDPOINT_UPDATE_INFO <> 0 ->
      endpoint_update pw_properties_update realloc_ok this change_mask n_params params info
      = (0, this', evs) ->
      endpoint_fields_updated pw_properties_update (ep_info this) info (ep_info this')
      /\ ei_change_mask (ep_info this') = 0
      /\ ep_resources this' = ep_resources this
      /\ ep_client this' = ep_client this
      /\ (Z.land change_mask PW_CLIENT_ENDPOINT_UPDATE_PARAMS = 0 ->
          ep_params this' = ep_params this /\ ep_n_params this' = ep_n_params this)
      /\ exists notifications,
           Forall (fun e => is_info_event e = false) notifications
           /\ evs = notifications
                    ++ List.map
                         (fun r => EvInfo (rd_id r)
                                     (ei_set_change_mask (ep_info this')
                                        (ei_change_mask info)))
                         (ep_resources this)) /\
  (forall this change_mask n_params params info this' evs,
      Z.land change_mask PW_CLIENT_SESSION_UPDATE_INFO <> 0 ->
      session_update pw_properties_update realloc_ok this change_mask n_params params info
      = (0, this', evs) ->
      session_fields_updated pw_properties_update (ss_info this) info (ss_info this')
      /\ si_change_mask (ss_info this') = 0
      /\ ss_resources this' = ss_resources this
      /\ ss_client this' = ss_client this
      /\ (Z.land change_mask PW_CLIENT_SESSION_UPDATE_PARAMS = 0 ->
          ss_params this' = ss_params this /\ ss_n_params this' = ss_n_params this)
      /\ exists notifications,
           Forall (fun e => is_info_event e = false) notifications
           /\ evs = notifications
                    ++ List.map
                         (fun r => EvInfo (rd_id r)
                                     (si_set_change_mask (ss_info this')
                                        (si_change_mask info)))
                         (ss_resources this)) /\
  (forall this id,
      exists this',
        endpoint_bind this (Some id)
        = (0, this',
           [EvInfo id (ei_set_change_mask (ep_info this) PW_ENDPOINT_CHANGE_MASK_ALL)])
        /\ ei_change_mask (ep_info this') = 0
        /\ ep_resources this'
           = ep_resources this ++ [{| rd_id := id; rd_subscribe_ids := [] |}]) /\
  (forall this id,
      exists this',
        session_bind this (Some id)
        = (0, this',
           [EvInfo id (si_set_change_mask (ss_info this) PW_SESSION_CHANGE_MASK_ALL)])
        /\ si_change_mask (ss_info this') = 0
        /\ ss_resources this'
           = ss_resources this ++ [{| rd_id := id; rd_subscribe_ids := [] |}]).
Proof.
  split; [apply endpoint_update_info_spec|].
  split; [apply session_update_info_spec|].
  split; intros this id; eexists; (split; [reflexivity|]); split; reflexivity.
Qed.

Lemma info_update_frame_witness :
  endpoint_fields_updated example_properties_update (ep_info example_endpoint)
    (example_endpoint_info PW_ENDPOINT_CHANGE_MASK_STREAMS)
    (ep_info (endpoint_update example_properties_update (fun _ => true) example_endpoint
                PW_CLIENT_ENDPOINT_UPDATE_INFO 0 []
                (example_endpoint_info PW_ENDPOINT_CHANGE_MASK_STREAMS)).1.2)
  /\ session_fields_updated example_properties_update (ss_info example_session)
       (example_session_info PW_SESSION_CHANGE_MASK_PROPS)
       (ss_info (session_update example_properties_update (fun _ => true) example_session
                   PW_CLIENT_SESSION_UPDATE_INFO 0 []
                   (example_session_info PW_SESSION_CHANGE_MASK_PROPS)).1.2).
Proof.
  destruct (info_update_frame example_properties_update (fun _ => true))
    as (Hendpoint & Hsession & _).
  split.
  - refine (proj1 (Hendpoint example_endpoint PW_CLIENT_ENDPOINT_UPDATE_INFO 0 []
                     (example_endpoint_info PW_ENDPOINT_CHANGE_MASK_STREAMS) _ _ _ _)).
    + vm_compute. discriminate.
    + vm_compute. reflexivity.
  - refine (proj1 (Hsession example_session PW_CLIENT_SESSION_UPDATE_INFO 0 []
                     (example_session_info PW_SESSION_CHANGE_MASK_PROPS) _ _ _ _)).
    + vm_compute. discriminate.
    + vm_compute. reflexivity.
Defined.

(** When the [realloc] of [info.params] fails, the update returns
    [-ENOMEM] and only reports the error on the client's resource: no
    info event goes to the two bound resources. *)
Lemma info_update_no_memory :
  endpoint_update example_properties_update (fun _ => false) example_endpoint
    PW_CLIENT_ENDPOINT_UPDATE_INFO 0 []
    (example_endpoint_info PW_ENDPOINT_CHANGE_MASK_PARAMS)
  = (- ENOMEM,
     set_ep_info example_endpoint (ei_set_params (ep_info example_endpoint) [] 0),
     [EvError 3 (- ENOMEM)]).
Proof. reflexivity. Qed.

(** C9, as stated, fails on an endpoint's first info update: the update's
    change mask is 0, no change bit is set, and yet the stored [name],
    [media_class] and [direction] are written. *)
Lemma info_update_counterexample :
  ei_change_mask (example_endpoint_info 0) = 0
  /\ ei_name (ep_info example_endpoint) = None
  /\ (endpoint_update example_properties_update (fun _ => true) example_endpoint
        PW_CLIENT_ENDPOINT_UPDATE_INFO 0 [] (example_endpoint_info 0)).1.1 = 0
  /\ ei_name (ep_info (endpoint_update example_properties_update (fun _ => true)
                         example_endpoint PW_CLIENT_ENDPOINT_UPDATE_INFO 0 []
                         (example_endpoint_info 0)).1.2)
     = Some "speakers"%string
  /\ ei_media_class (ep_info (endpoint_update example_properties_update (fun _ => true)
                                example_endpoint PW_CLIENT_ENDPOINT_UPDATE_INFO 0 []
                                (example_endpoint_info 0)).1.2)
     = Some "Audio/Sink"%string
  /\ ei_direction (ep_info example_endpoint) = 0
  /\ ei_direction (ep_info (endpoint_update example_properties_update (fun _ => true)
                              example_endpoint PW_CLIENT_ENDPOINT_UPDATE_INFO 0 []
                              (example_endpoint_info 0)).1.2)
     = 1.
Proof. repeat split. Qed.

End SessionFacts.

Module FormatFacts.
Import Alsa AlsaFormats.
Local Open Scope Z_scope.

(** X1: [spa_format_to_alsa] finds every row of the table by its interleaved
    id; it is injective on the ids it knows; and the ids it does not know
    are those that are not the interleaved id of a row after the first:
    UNKNOWN and the planar ids. *)
Theorem spa_format_to_alsa_table :
  Forall (fun fi => spa_format_to_alsa (spa_format fi) = format fi) format_info
  /\ (forall f g,
        spa_format_to_alsa f = spa_format_to_alsa g ->
        spa_format_to_alsa f <> SND_PCM_FORMAT_UNKNOWN -> f = g)
  /\ (forall f,
        spa_format_to_alsa f = SND_PCM_FORMAT_UNKNOWN
        <-> ~ In f (List.map spa_format (drop 1 format_info))).
Proof.
  split; [|split].
  - repeat constructor.
  - intros f g. destruct f, g; vm_compute; intros H1 H2;
      first [reflexivity|discriminate H1|exfalso; apply H2; reflexivity].
  - intros f. destruct f; vm_compute; split; intros H;
      first [reflexivity|discriminate H|tauto|intuition discriminate].
Qed.

Lemma format_choice_step_pushed dev (ids : list spa_audio_format) (fi : format_info_t) :
  format_choice_step dev (pushed ids) fi = pushed (ids ++ row_ids dev fi).
Proof.
  unfold format_choice_step, row_ids.
  destruct (snd_pcm_hw_params_get_format_mask dev (format fi));
    [|rewrite app_nil_r; reflexivity].
  destruct (snd_pcm_hw_params_get_access_mask dev SND_PCM_ACCESS_MMAP_INTERLEAVED);
    destruct (snd_pcm_hw_params_get_access_mask dev SND_PCM_ACCESS_MMAP_NONINTERLEAVED
              && negb (bool_decide (spa_pformat fi = SPA_AUDIO_FORMAT_UNKNOWN)));
    cbn [app]; rewrite ?app_nil_r; try reflexivity;
    unfold pushed; cbn [fst snd];
    destruct ids as [|x ids]; cbn [length app]; try reflexivity;
    rewrite ?length_app; cbn [length];
    repeat match goal with
           | |- context [Z.of_nat ?n =? 0] =>
               destruct (Z.eqb_spec (Z.of_nat n) 0); [lia|]
           | |- context [Z.of_nat ?n + 1 =? 0] =>
               destruct (Z.eqb_spec (Z.of_nat n + 1) 0); [lia|]
           end;
    rewrite <- ?app_assoc; cbn [app]; f_equal; lia.
Qed.

Lemma format_choice_fold dev (rows : list format_info_t) :
  forall ids, fold_left (format_choice_step dev) rows (pushed ids)
              = pushed (ids ++ List.flat_map (row_ids dev) rows).
Proof.
  induction rows as [|fi rows IH]; intros ids; cbn [fold_left List.flat_map].
  - rewrite app_nil_r. reflexivity.
  - rewrite format_choice_step_pushed, IH, <- app_assoc. reflexivity.
Qed.

(** X2: The format choice of the enumeration holds the ids of the table rows
    (after the first) whose sample format the device does, in table order,
    the interleaved id before the planar one, with the first id repeated
    in front as the default; it is an enumeration when there are two ids
    or more, and has no value at all when there is none. *)
Theorem format_choice_values (dev : pcm_device) :
  format_choice dev = choice_of_ids (supported_ids dev).
Proof.
  unfold format_choice. change ([], 0) with (pushed []).
  rewrite format_choice_fold. cbn [app]. fold (supported_ids dev).
  unfold pushed, choice_of_ids. cbn [fst snd].
  destruct (supported_ids dev) as [|x [|y l]]; try reflexivity.
  cbn [length]. destruct (Z.ltb_spec 1 (Z.of_nat (S (S (length l))))); [reflexivity|lia].
Qed.

Lemma spa_alsa_open_closed (dev : pcm_device) (st : state) :
  opened st = false ->
  (exists err, err < 0 /\ spa_alsa_open dev st = (err, st))
  \/ spa_alsa_open dev st = (0, set_opened st true 0 0).
Proof.
  intros Hc. unfold spa_alsa_open. rewrite Hc.
  destruct (Z.ltb_spec (snd_output_stdio_attach dev) 0); [left; eauto|].
  destruct (Z.ltb_spec (snd_pcm_open dev) 0); [left; eauto|].
  right. reflexivity.
Qed.

(** X3: [spa_alsa_enum_format] leaves a device it found open as it is; a
    device it had to open is closed again when the enumeration ends
    (and [snd_pcm_close] succeeds), and is left open when a query of the
    hardware parameters fails. *)
Theorem enum_format_open_state (fuel : nat) (dev : pcm_device)
    (chmaps : list snd_pcm_chmap_t) (st st' : state) (seq start num res : Z)
    (filter : format_pod -> option format_pod) (out : list spa_result_node_params) :
  spa_alsa_enum_format fuel dev chmaps st seq start num filter = Some (res, st', out) ->
  (opened st = true -> st' = st)
  /\ (opened st = false -> (spa_alsa_open dev st).1 < 0 ->
      res = (spa_alsa_open dev st).1 /\ st' = st /\ out = [])
  /\ (opened st = false -> 0 <= (spa_alsa_open dev st).1 ->
      (res = 0 /\ (0 <= snd_pcm_close dev -> opened st' = false)
       /\ (snd_pcm_close dev < 0 -> opened st' = true))
      \/ (res < 0 /\ opened st' = true /\ ~ hw_queries_ok dev)).
Proof.
  unfold spa_alsa_enum_format.
  destruct (opened st) eqn:Hopened.
  { unfold spa_alsa_open. rewrite Hopened. change (0 <? 0) with false. cbv iota.
    destruct (enum_format_loop _ _ _ _ _ _ _ _ _) as [[[err| |] o]|]; try discriminate;
      cbn [negb]; intros [= <- <- <-]; (split; [reflexivity|]); split; discriminate. }
  intros H. split; [discriminate|]. revert H.
  destruct (spa_alsa_open_closed dev st Hopened) as [(e & Hneg & Hfail)|Hok].
  { rewrite Hfail. cbn [fst]. cbv beta iota. rewrite (proj2 (Z.ltb_lt _ _) Hneg).
    intros [= <- <- <-].
    split; [intros _ _; repeat split|]. intros _ H. lia. }
  rewrite Hok. cbn [fst]. cbv beta iota. change (0 <? 0) with false. cbv iota.
  destruct (enum_format_loop fuel dev chmaps filter seq num start 0 [])
    as [[[err| |] o]|] eqn:Hloop; try discriminate; cbn [negb];
    intros [= <- <- <-]; (split; [intros _ H; lia|]); intros _ _.
  - right. apply AlsaFacts.enum_format_loop_error in Hloop as [Herr Hq].
    split; [exact Herr|]. split; [reflexivity|exact Hq].
  - left. split; [reflexivity|]. unfold spa_alsa_close. cbn [opened set_opened negb].
    destruct (Z.ltb_spec (snd_pcm_close dev) 0); cbn [snd opened set_opened]; split;
      intros; try reflexivity; lia.
Qed.

(** X4: Without [SPA_NODE_PARAM_FLAG_NEAREST], [spa_alsa_set_format] never
    writes to the caller's [info], whichever way it returns. *)
Theorem set_format_exact_keeps_info (dev : pcm_device) (st : state)
    (info : spa_audio_info_raw) (flags : Z) :
  Z.land flags SPA_NODE_PARAM_FLAG_NEAREST = 0 ->
  (spa_alsa_set_format dev st info flags).1.2 = info.
Proof.
  intros Hflag. unfold spa_alsa_set_format.
  destruct (spa_alsa_open dev st) as [err st1].
  unfold set_format_channels, set_format_rate. rewrite Hflag. cbn [Z.eqb negb].
  repeat match goal with
         | |- context [if ?b then _ else _] => destruct b
         end; try reflexivity; apply AlsaFacts.set_format_finish_info.
Qed.

Lemma set_format_finish_success dev st info fmt info' st' :
  set_format_finish dev st info fmt = (0, info', st') ->
  info' = info
  /\ opened st' = opened st
  /\ st_format st' = fmt
  /\ rate st' = info_rate info /\ channels st' = info_channels info
  /\ frame_size st' = info_channels info * (snd_pcm_format_physical_width dev fmt ÷ 8)
  /\ period_frames st' = (snd_pcm_hw_params_set_period_size_near dev 1024).2
  /\ buffer_frames st'
     = (snd_pcm_hw_params_set_buffer_size_near dev
          (snd_pcm_hw_params_get_buffer_size_max dev).2).2.
Proof.
  unfold set_format_finish.
  destruct (Z.ltb_spec (snd_pcm_hw_params_set_period_size_near dev 1024).1 0);
    [intros [= ?]; lia|].
  destruct (Z.ltb_spec (snd_pcm_hw_params_get_buffer_size_max dev).1 0);
    [intros [= ?]; lia|].
  cbn [buffer_frames set_buffer_frames].
  destruct (Z.ltb_spec (snd_pcm_hw_params_set_buffer_size_near dev
                          (snd_pcm_hw_params_get_buffer_size_max dev).2).1 0);
    [intros [= ?]; lia|].
  destruct (Z.ltb_spec (snd_pcm_hw_params dev) 0); [intros [= ?]; lia|].
  intros [= <- <-]. repeat split.
Qed.

(** X5: When [spa_alsa_set_format] returns 0, the device is open, the info
    handed back holds the channel count and the rate the device granted,
    and its format is the one asked for; the state holds the same rate
    and channel count, the ALSA format of the info's format, which is a
    known one, the frame size that goes with them, and the period and
    buffer sizes the device granted. *)
Theorem set_format_success_state (dev : pcm_device) (st st' : state)
    (info info' : spa_audio_info_raw) (flags : Z) :
  spa_alsa_set_format dev st info flags = (0, info', st') ->
  opened st' = true
  /\ info_format info' = info_format info
  /\ info_channels info' = (snd_pcm_hw_params_set_channels_near dev (info_channels info)).2
  /\ info_rate info' = (snd_pcm_hw_params_set_rate_near dev (info_rate info)).2
  /\ st_format st' = spa_format_to_alsa (info_format info)
  /\ st_format st' <> SND_PCM_FORMAT_UNKNOWN
  /\ rate st' = info_rate info' /\ channels st' = info_channels info'
  /\ frame_size st'
     = info_channels info' * (snd_pcm_format_physical_width dev (st_format st') ÷ 8)
  /\ period_frames st' = (snd_pcm_hw_params_set_period_size_near dev 1024).2
  /\ buffer_frames st'
     = (snd_pcm_hw_params_set_buffer_size_near dev
          (snd_pcm_hw_params_get_buffer_size_max dev).2).2.
Proof.
  assert (- EINVAL <> 0) as Hne by (vm_compute; discriminate).
  unfold spa_alsa_set_format.
  destruct (spa_alsa_open dev st) as [err st1] eqn:Hopen.
  assert (0 <= err -> opened st1 = true) as Hopened.
  { destruct (opened st) eqn:Ho.
    - unfold spa_alsa_open in Hopen. rewrite Ho in Hopen. injection Hopen as <- <-.
      intros _. exact Ho.
    - destruct (spa_alsa_open_closed dev st Ho) as [(e & Hneg & Hfail)|Hok];
        rewrite Hopen in *.
      + injection Hfail as -> ->. lia.
      + injection Hok as -> ->. reflexivity. }
  destruct (Z.ltb_spec err 0) as [|Herr]; [intros [= ?]; lia|].
  specialize (Hopened Herr).
  repeat match goal with
         | |- context [if ?x <? 0 then _ else _] =>
             destruct (Z.ltb_spec x 0); [intros [= ?]; lia|]
         end.
  destruct (bool_decide_reflect (spa_format_to_alsa (info_format info)
                                 = SND_PCM_FORMAT_UNKNOWN)) as [|Hfmt];
    [intros [= ?]; contradiction|].
  repeat match goal with
         | |- context [if ?x <? 0 then _ else _] =>
             destruct (Z.ltb_spec x 0); [intros [= ?]; lia|]
         end.
  unfold set_format_channels.
  destruct (Z.ltb_spec (snd_pcm_hw_params_set_channels_near dev (info_channels info)).1 0);
    [intros [= ?]; lia|].
  set (rchannels := (snd_pcm_hw_params_set_channels_near dev (info_channels info)).2).
  assert (forall info1,
            info_format info1 = info_format info -> info_rate info1 = info_rate info ->
            info_channels info1 = rchannels ->
            set_format_rate dev st1 info1 flags (spa_format_to_alsa (info_format info))
            = (0, info', st') ->
            opened st' = true
            /\ info_format info' = info_format info
            /\ info_channels info' = rchannels
            /\ info_rate info' = (snd_pcm_hw_params_set_rate_near dev (info_rate info)).2
            /\ st_format st' = spa_format_to_alsa (info_format info)
            /\ st_format st' <> SND_PCM_FORMAT_UNKNOWN
            /\ rate st' = info_rate info' /\ channels st' = info_channels info'
            /\ frame_size st'
               = info_channels info'
                 * (snd_pcm_format_physical_width dev (st_format st') ÷ 8)
            /\ period_frames st' = (snd_pcm_hw_params_set_period_size_near dev 1024).2
            /\ buffer_frames st'
               = (snd_pcm_hw_params_set_buffer_size_near dev
                    (snd_pcm_hw_params_get_buffer_size_max dev).2).2) as Hrate.
  { intros info1 Hf Hr Hc. unfold set_format_rate. rewrite Hr.
    destruct (Z.ltb_spec (snd_pcm_hw_params_set_rate_near dev (info_rate info)).1 0);
      [intros [= ?]; lia|].
    set (rrate := (snd_pcm_hw_params_set_rate_near dev (info_rate info)).2).
    assert (forall info2,
              info_format info2 = info_format info -> info_rate info2 = rrate ->
              info_channels info2 = rchannels ->
              set_format_finish dev st1 info2 (spa_format_to_alsa (info_format info))
              = (0, info', st') ->
              opened st' = true
              /\ info_format info' = info_format info
              /\ info_channels info' = rchannels
              /\ info_rate info' = rrate
              /\ st_format st' = spa_format_to_alsa (info_format info)
              /\ st_format st' <> SND_PCM_FORMAT_UNKNOWN
              /\ rate st' = info_rate info' /\ channels st' = info_channels info'
              /\ frame_size st'
                 = info_channels info'
                   * (snd_pcm_format_physical_width dev (st_format st') ÷ 8)
              /\ period_frames st' = (snd_pcm_hw_params_set_period_size_near dev 1024).2
              /\ buffer_frames st'
                 = (snd_pcm_hw_params_set_buffer_size_near dev
                      (snd_pcm_hw_params_get_buffer_size_max dev).2).2) as Hfin.
    { intros info2 Hf2 Hr2 Hc2 Hfinish.
      apply set_format_finish_success in Hfinish
        as (-> & Ho & Hsf & Hs3 & Hs4 & Hs5 & Hs6 & Hs7).
      rewrite Hsf, Ho. repeat split; try assumption; congruence. }
    destruct (Z.eqb_spec rrate (info_rate info)) as [Heq|Hneq]; cbn [negb].
    - apply Hfin; [exact Hf|congruence|exact Hc].
    - destruct (negb _); [|intros [= ?]; contradiction].
      apply Hfin; [exact Hf|reflexivity|exact Hc]. }
  destruct (Z.eqb_spec rchannels (info_channels info)) as [Heq|Hneq]; cbn [negb].
  - apply Hrate; congruence.
  - destruct (negb _); [|intros [= ?]; contradiction].
    apply Hrate; reflexivity.
Qed.

End FormatFacts.

Module FormatWitnesses.
Import Alsa AlsaFormats FormatFacts.
Local Open Scope Z_scope.

Lemma enum_format_open_state_witness :
  exists res st' out,
    spa_alsa_enum_format 2 example_device [] example_state 7 0 10 Some
    = Some (res, st', out)
    /\ res = 0 /\ opened st' = false /\ length out = 1%nat.
Proof.
  destruct (spa_alsa_enum_format 2 example_device [] example_state 7 0 10 Some)
    as [[[res st'] out]|] eqn:Hrun; [|vm_compute in Hrun; discriminate].
  exists res, st', out. split; [reflexivity|].
  destruct (enum_format_open_state 2 example_device [] example_state st' 7 0 10 res
              Some out Hrun) as (_ & _ & Hclosed).
  destruct (Hclosed eq_refl ltac:(vm_compute; discriminate))
    as [(Hres & Hclose & _)|(Hres & _ & Hq)].
  - split; [exact Hres|]. split; [apply Hclose; vm_compute; discriminate|].
    vm_compute in Hrun. injection Hrun as _ _ <-. reflexivity.
  - exfalso. apply Hq. repeat split; vm_compute; discriminate.
Defined.

Lemma set_format_exact_keeps_info_witness :
  Z.land 0 SPA_NODE_PARAM_FLAG_NEAREST = 0
  /\ (spa_alsa_set_format example_device example_state example_info 0).1.2 = example_info.
Proof.
  split; [reflexivity|].
  apply (set_format_exact_keeps_info example_device example_state example_info 0).
  reflexivity.
Defined.

Lemma set_format_success_state_witness :
  exists info' st',
    spa_alsa_set_format example_device example_state example_info
      SPA_NODE_PARAM_FLAG_NEAREST = (0, info', st')
    /\ opened st' = true
    /\ info_channels info' = 2 /\ info_rate info' = 48000
    /\ st_format st' = SND_PCM_FORMAT_S16_LE
    /\ frame_size st' = 4.
Proof.
  destruct (spa_alsa_set_format example_device example_state example_info
              SPA_NODE_PARAM_FLAG_NEAREST) as [[res info'] st'] eqn:Hrun.
  assert (res = 0) as -> by (vm_compute in Hrun; congruence).
  exists info', st'. split; [reflexivity|].
  destruct (set_format_success_state example_device example_state st' example_info info'
              SPA_NODE_PARAM_FLAG_NEAREST Hrun)
    as (Ho & _ & Hc & Hr & Hf & _ & _ & _ & Hfs & _).
  rewrite Hfs, Hc, Hf. repeat split; assumption.
Defined.

End FormatWitnesses.

Module ChannelMapFacts.
Import Alsa AlsaFacts.
Local Open Scope Z_scope.

(** With the default layout for its channel count at hand, no slot of a
    map stays UNKNOWN: there are as many default positions as channels. *)
Lemma sanitize_spec_no_unknown (M : list Z) :
  (length M <= 8)%nat -> ~ In SND_CHMAP_UNKNOWN (sanitize_spec M).
Proof.
  intros Hlen Hin.
  destruct (default_layouts_lookup (length M) Hlen) as [def Hdef].
  pose proof (length_default_positions _ _ Hdef) as HlenD.
  pose proof (length_sanitize_spec M) as HlenR.
  set (D := default_positions (length M)) in *.
  assert (~ In SND_CHMAP_UNKNOWN D) as HD.
  { intros H. apply default_positions_range in H. unfold SND_CHMAP_UNKNOWN in H. lia. }
  assert (incl (SND_CHMAP_UNKNOWN :: D) (sanitize_spec M)) as Hincl.
  { intros x [<-|Hx]; [exact Hin|].
    unfold sanitize_spec in *. set (c := List.map clamp_position M) in *.
    assert (x <> SND_CHMAP_UNKNOWN) as Hne by (intros ->; contradiction).
    destruct (seen c x && negb (duplicated c x)) eqn:Honce.
    - apply fill_unknown_keeps; [exact Hne|].
      apply (count_occ_In Z.eq_dec). rewrite count_occ_unknown_duplicates by exact Hne.
      rewrite Honce. lia.
    - apply fill_unknown_exhausts.
      + rewrite List.filter_In. intros [H _]. contradiction.
      + exact Hin.
      + apply List.filter_In. split; [exact Hx|]. rewrite Honce. reflexivity. }
  assert (List.NoDup (SND_CHMAP_UNKNOWN :: D)) as Hnodup.
  { constructor; [exact HD|apply NoDup_default_positions]. }
  pose proof (List.NoDup_incl_length Hnodup Hincl) as Hle.
  cbn [length] in Hle. lia.
Qed.

(** X6: Whatever the map of up to 8 channels, [sanitize_map] returns a
    proper channel map of the same length: every channel has a known
    position, and no two channels have the same. *)
Theorem sanitize_map_gives_proper_map (M : list Z) :
  (length M <= 8)%nat ->
  exists M',
    sanitize_map M = Some M'
    /\ length M' = length M
    /\ (forall x, In x M' -> 1 <= x <= SND_CHMAP_LAST)
    /\ List.NoDup M'.
Proof.
  intros Hlen. exists (sanitize_spec M).
  split; [apply sanitize_map_total, Hlen|].
  split; [apply length_sanitize_spec|].
  pose proof (sanitize_spec_no_unknown M Hlen) as Hno.
  destruct (sanitize_spec_normal M) as [Hrange Hcount].
  split.
  - intros x Hx. specialize (Hrange x Hx).
    assert (x <> SND_CHMAP_UNKNOWN) as Hne by (intros ->; contradiction).
    unfold SND_CHMAP_UNKNOWN in Hne. lia.
  - apply (NoDup_count_occ Z.eq_dec). intros x.
    destruct (Z.eq_dec x SND_CHMAP_UNKNOWN) as [->|Hne].
    + apply (count_occ_not_In Z.eq_dec) in Hno. lia.
    + apply Hcount, Hne.
Qed.

End ChannelMapFacts.

Module ChannelMapWitnesses.
Import Alsa ChannelMapFacts.
Local Open Scope Z_scope.

Lemma sanitize_map_gives_proper_map_witness :
  exists M',
    sanitize_map [SND_CHMAP_SL; SND_CHMAP_SL; 50; -1; SND_CHMAP_FC] = Some M'
    /\ length M' = 5%nat
    /\ (forall x, In x M' -> 1 <= x <= SND_CHMAP_LAST)
    /\ List.NoDup M'.
Proof.
  apply (sanitize_map_gives_proper_map [SND_CHMAP_SL; SND_CHMAP_SL; 50; -1; SND_CHMAP_FC]).
  cbn. lia.
Defined.

End ChannelMapWitnesses.

Module StreamFacts.
Import Alsa AlsaStream.
Local Open Scope Z_scope.

Lemma to_uint32_small (x : Z) : 0 <= x < 2 ^ 32 -> to_uint32 x = x.
Proof. intros H. unfold to_uint32. apply Z.mod_small. exact H. Qed.

Lemma to_uint64_small (x : Z) : 0 <= x < 2 ^ 64 -> to_uint64 x = x.
Proof. intros H. unfold to_uint64. apply Z.mod_small. exact H. Qed.

(** [c] written over [a] from position [d] on. *)
Lemma spa_memcpy_in_range (dst : list byte) (dpos : Z) (src : list byte) (spos n : Z) :
  0 <= n -> 0 <= spos -> spos + n <= Z.of_nat (length src) ->
  0 <= dpos -> dpos + n <= Z.of_nat (length dst) ->
  spa_memcpy dst dpos src spos n
  = Some (take (Z.to_nat dpos) dst ++ take (Z.to_nat n) (drop (Z.to_nat spos) src)
          ++ drop (Z.to_nat (dpos + n)) dst).
Proof.
  intros H1 H2 H3 H4 H5. unfold spa_memcpy.
  rewrite (proj2 (Z.leb_le _ _) H1), (proj2 (Z.leb_le _ _) H2), (proj2 (Z.leb_le _ _) H3),
    (proj2 (Z.leb_le _ _) H4), (proj2 (Z.leb_le _ _) H5). reflexivity.
Qed.

Lemma length_ring_read (data : list byte) (start : Z) (len : nat) :
  length (ring_read data start len) = len.
Proof. unfold ring_read. rewrite length_map, length_seq. reflexivity. Qed.

Lemma ring_read_app (data : list byte) (start : Z) (a b : nat) :
  ring_read data start (a + b)
  = ring_read data start a ++ ring_read data (start + Z.of_nat a) b.
Proof.
  unfold ring_read. rewrite seq_app, List.map_app. f_equal.
  replace (seq (0 + a) b) with (List.map (Nat.add a) (seq 0 b))
    by (rewrite (Nat.add_comm 0 a); apply (fmap_add_seq a 0 b)).
  rewrite List.map_map. apply List.map_ext. intros k.
  do 4 f_equal. lia.
Qed.

Lemma ring_read_mod (data : list byte) (start : Z) (len : nat) :
  ring_read data (start mod Z.of_nat (length data)) len = ring_read data start len.
Proof.
  unfold ring_read. apply List.map_ext. intros k.
  destruct (length data) as [|m] eqn:Hm.
  - destruct data; [|discriminate]. reflexivity.
  - rewrite Zplus_mod_idemp_l. reflexivity.
Qed.

Lemma ring_read_direct (data : list byte) (start : Z) (len : nat) :
  0 <= start -> start + Z.of_nat len <= Z.of_nat (length data) ->
  take len (drop (Z.to_nat start) data) = ring_read data start len.
Proof.
  intros H0 H1. apply list_eq. intros k. unfold ring_read.
  change (List.map ?f ?l) with (f <$> l).
  rewrite list_lookup_fmap.
  destruct (decide (k < len)%nat) as [Hk|Hk].
  - rewrite lookup_take_lt, lookup_drop by lia. rewrite lookup_seq_lt by lia. cbn.
    rewrite Z.mod_small by lia.
    replace (Z.to_nat (start + Z.of_nat k)) with (Z.to_nat start + k)%nat by lia.
    destruct (data !! (Z.to_nat start + k)%nat) eqn:Hl; [reflexivity|].
    apply lookup_ge_None in Hl. lia.
  - rewrite lookup_take_ge by lia. rewrite lookup_seq_ge by lia. reflexivity.
Qed.

Lemma overwrite_nil (a : list byte) (d : nat) : overwrite a d [] = a.
Proof. unfold overwrite. cbn [length app]. rewrite Nat.add_0_r. apply take_drop. Qed.

Lemma length_overwrite (a : list byte) (d : nat) (c : list byte) :
  (d + length c <= length a)%nat -> length (overwrite a d c) = length a.
Proof.
  intros H. unfold overwrite. rewrite !length_app, length_take, length_drop. lia.
Qed.

Lemma overwrite_overwrite (a : list byte) (d : nat) (c1 c2 : list byte) :
  (d + length c1 <= length a)%nat ->
  overwrite (overwrite a d c1) (d + length c1) c2 = overwrite a d (c1 ++ c2).
Proof.
  intros H. unfold overwrite.
  rewrite take_app_ge by (rewrite length_take; lia).
  rewrite length_take, Nat.min_l by lia.
  rewrite take_app_ge by lia.
  replace (d + length c1 - d - length c1)%nat with 0%nat by lia.
  rewrite take_0, app_nil_r.
  rewrite drop_app_ge by (rewrite length_take; lia).
  rewrite length_take, Nat.min_l by lia.
  rewrite drop_app_ge by lia.
  rewrite drop_drop, length_app, <- !app_assoc.
  do 4 f_equal. lia.
Qed.

Lemma spa_memcpy_overwrite (dst : list byte) (dpos : Z) (src : list byte) (spos n : Z) :
  0 <= n -> 0 <= spos -> spos + n <= Z.of_nat (length src) ->
  0 <= dpos -> dpos + n <= Z.of_nat (length dst) ->
  spa_memcpy dst dpos src spos n
  = Some (overwrite dst (Z.to_nat dpos)
            (take (Z.to_nat n) (drop (Z.to_nat spos) src))).
Proof.
  intros H1 H2 H3 H4 H5. rewrite spa_memcpy_in_range by assumption.
  unfold overwrite. rewrite length_take, length_drop. do 4 f_equal. lia.
Qed.

(** The two copies of the loop, [l0] bytes up to the end of the ring and
    [l1] bytes from its start, read [n] bytes around the ring. *)
Lemma ring_copy (data : list byte) (offs n : Z) :
  let m := Z.of_nat (length data) in
  let l0 := Z.min n (m - offs) in
  let l1 := n - l0 in
  0 <= offs < m -> 0 <= n <= m ->
  take (Z.to_nat l0) (drop (Z.to_nat offs) data)
  ++ take (Z.to_nat l1) (drop (Z.to_nat 0) data)
  = ring_read data offs (Z.to_nat n).
Proof.
  intros m l0 l1 Hoffs Hn.
  replace (Z.to_nat n) with (Z.to_nat l0 + Z.to_nat l1)%nat by lia.
  rewrite ring_read_app. f_equal.
  - apply ring_read_direct; lia.
  - destruct (Z.le_gt_cases n (m - offs)) as [Hle|Hgt].
    + replace (Z.to_nat l1) with 0%nat by lia. reflexivity.
    + rewrite ring_read_direct by lia.
      rewrite <- (ring_read_mod data (offs + _)).
      replace (offs + Z.of_nat (Z.to_nat l0)) with (0 + 1 * m) by lia.
      rewrite Z.mod_add by lia. reflexivity.
Qed.

Lemma mul_le_self (a f : Z) : 0 <= a -> 1 <= f -> a <= a * f.
Proof. intros. nia. Qed.

(** One round of the loop of [spa_alsa_write]: it copies whole frames, as
    many as the buffer still has or as are still to be written, and lets
    the buffer go when [ready_offset] has reached the chunk's size. *)
Lemma write_buffer_round (p : pcm) (v : copy) (i : nat) (rest : list nat) (b : buffer) :
  let fs := frame_size (st p) in
  let ro := ready_offset p in
  ready p = i :: rest -> buffers p !! i = Some b ->
  0 < fs < 2 ^ 32 ->
  0 < d_maxsize b < 2 ^ 32 -> Z.of_nat (length (d_data b)) = d_maxsize b ->
  0 <= chunk_offset b -> chunk_size b <= d_maxsize b ->
  chunk_offset b + chunk_size b < 2 ^ 32 ->
  0 <= ro <= chunk_size b ->
  0 <= to_write v -> 0 <= off v ->
  (off v + to_write v) * fs <= Z.of_nat (length (area p)) ->
  Z.of_nat (length (area p)) < 2 ^ 64 ->
  0 <= written v -> written v + to_write v < 2 ^ 64 ->
  let n := Z.min ((chunk_size b - ro) / fs) (to_write v) in
  let v' := {| to_write := to_write v - n; off := off v + n; written := written v + n;
               silence := Z.max 0 (silence v - n) |} in
  let area' := overwrite (area p) (Z.to_nat (off v * fs))
                 (ring_read (d_data b) (chunk_offset b + ro) (Z.to_nat (n * fs))) in
  let p1 := set_ready_offset (set_area p area') (ro + n * fs) in
  0 <= n /\ n * fs <= chunk_size b - ro
  /\ write_buffer p v
     = (if ro + n * fs >=? chunk_size b then
          io0 ← io p;
          Some (set_ready_offset
                  (log (set_io
                          (set_buffers (set_ready p1 rest)
                             (<[i := set_b_flags b (SPA_FLAG_SET (b_flags b) BUFFER_FLAG_OUT)]>
                                (buffers p)))
                          (Some {| io_status := io_status io0; io_buffer_id := b_id b |}))
                     (ReuseBuffer 0 (b_id b))) 0, v')
        else Some (p1, v')).
Proof.
  intros fs ro Hready Hbuf Hfs Hmax Hlen Hoff Hsize Hend Hro
    Htw Hoffv Harea Hareamax Hwr Hwrmax n v' area' p1.
  assert (0 <= (chunk_size b - ro) / fs) as Havail by (apply Z.div_pos; lia).
  assert ((chunk_size b - ro) / fs * fs <= chunk_size b - ro) as Hfull.
  { pose proof (Z.div_mod (chunk_size b - ro) fs ltac:(lia)).
    pose proof (Z.mod_pos_bound (chunk_size b - ro) fs ltac:(lia)). lia. }
  assert ((chunk_size b - ro) / fs <= chunk_size b - ro) as Havail_le.
  { pose proof (mul_le_self ((chunk_size b - ro) / fs) fs Havail ltac:(lia)). lia. }
  assert (0 <= n) as Hn by lia.
  assert (n * fs <= chunk_size b - ro) as Hnb.
  { etransitivity; [|exact Hfull]. apply Z.mul_le_mono_nonneg_r; lia. }
  assert (0 <= n * fs) as Hnb0 by (apply Z.mul_nonneg_nonneg; lia).
  assert (0 <= off v * fs) as Hdst0 by (apply Z.mul_nonneg_nonneg; lia).
  assert (off v * fs + n * fs <= Z.of_nat (length (area p))) as Hdst.
  { rewrite <- Z.mul_add_distr_r. etransitivity; [|exact Harea].
    apply Z.mul_le_mono_nonneg_r; lia. }
  assert (off v + to_write v < 2 ^ 64) as Hoffn.
  { pose proof (mul_le_self (off v + to_write v) fs ltac:(lia) ltac:(lia)). lia. }
  split; [exact Hn|]. split; [exact Hnb|].
  set (m := d_maxsize b) in *.
  set (offs := (chunk_offset b + ro) mod m).
  assert (0 <= offs < m) as Hoffs by (apply Z.mod_pos_bound; lia).
  set (l0 := Z.min (n * fs) (m - offs)).
  set (l1 := n * fs - l0).
  assert (0 <= l1 <= offs) as Hl1 by lia.
  unfold write_buffer. rewrite Hready, Hbuf. cbn [mbind option_bind].
  fold fs ro m.
  rewrite (to_uint32_small (chunk_size b)) by lia.
  rewrite (to_uint32_small m) by lia.
  rewrite (to_uint32_small (chunk_offset b + ro)) by lia.
  rewrite (to_uint32_small (chunk_size b - ro)) by lia.
  rewrite (to_uint32_small ((chunk_size b - ro) / fs)) by lia.
  fold n. rewrite (to_uint64_small (n * fs)) by lia.
  destruct (Z.eqb_spec fs 0) as [|_]; [lia|].
  destruct (Z.eqb_spec m 0) as [|_]; [lia|].
  fold offs l0. rewrite (to_uint32_small l0) by lia. fold l1.
  rewrite (to_uint32_small l1) by lia.
  rewrite (to_uint64_small (off v * fs)) by lia.
  rewrite spa_memcpy_overwrite by (unfold m in *; lia).
  cbn [mbind option_bind].
  assert ((if l1 >? 0
           then spa_memcpy
                  (overwrite (area p) (Z.to_nat (off v * fs))
                     (take (Z.to_nat l0) (drop (Z.to_nat offs) (d_data b))))
                  (off v * fs + l0) (d_data b) 0 l1
           else Some (overwrite (area p) (Z.to_nat (off v * fs))
                        (take (Z.to_nat l0) (drop (Z.to_nat offs) (d_data b)))))
          = Some area') as ->.
  { assert (area'
            = overwrite (area p) (Z.to_nat (off v * fs))
                (take (Z.to_nat l0) (drop (Z.to_nat offs) (d_data b))
                 ++ take (Z.to_nat l1) (drop (Z.to_nat 0) (d_data b)))) as ->.
    { unfold area'. f_equal. rewrite <- (ring_read_mod _ (chunk_offset b + ro)).
      rewrite Hlen. fold m offs. symmetry.
      pose proof (ring_copy (d_data b) offs (n * fs)) as Hc. cbv zeta in Hc.
      rewrite Hlen in Hc. apply Hc; lia. }
    assert (length (take (Z.to_nat l0) (drop (Z.to_nat offs) (d_data b))) = Z.to_nat l0)
      as Hlen0 by (rewrite length_take, length_drop; lia).
    destruct (Z.gtb_spec l1 0) as [Hpos|Hzero].
    - rewrite spa_memcpy_overwrite; [|lia|lia|lia|lia|].
      + f_equal. rewrite <- overwrite_overwrite by (rewrite Hlen0; lia).
        rewrite Hlen0. f_equal. lia.
      + rewrite length_overwrite by (rewrite Hlen0; lia). lia.
    - replace (Z.to_nat l1) with 0%nat by lia. rewrite take_0, app_nil_r. reflexivity. }
  cbn [mbind option_bind].
  cbn [set_area set_ready_offset ready_offset area st buffers ready io trace
       alsa_started min_latency clock position_clock free].
  fold ro. rewrite (to_uint64_small (ro + n * fs)) by lia.
  rewrite (to_uint64_small (to_write v - n)) by lia.
  rewrite (to_uint64_small (off v + n)) by lia.
  rewrite (to_uint64_small (written v + n)) by lia.
  assert ((if silence v >? n then silence v - n else 0) = Z.max 0 (silence v - n)) as ->.
  { destruct (Z.gtb_spec (silence v) n); lia. }
  fold v'.
  destruct (ro + n * fs >=? chunk_size b); [destruct (io p)|]; reflexivity.
Qed.

(** The round on a buffer whose chunk is a whole number of frames. *)
Lemma write_buffer_step (p : pcm) (v : copy) (i : nat) (rest : list nat) (b : buffer)
    (io0 : spa_io_buffers) :
  let fs := frame_size (st p) in
  let ro := ready_offset p in
  ready p = i :: rest -> buffers p !! i = Some b -> io p = Some io0 ->
  0 < fs < 2 ^ 32 -> buffer_ok fs b ->
  0 <= ro < chunk_size b -> ro mod fs = 0 ->
  0 < to_write v -> 0 <= off v ->
  (off v + to_write v) * fs <= Z.of_nat (length (area p)) ->
  Z.of_nat (length (area p)) < 2 ^ 64 ->
  0 <= written v -> written v + to_write v < 2 ^ 64 ->
  let n := Z.min ((chunk_size b - ro) / fs) (to_write v) in
  let v' := {| to_write := to_write v - n; off := off v + n; written := written v + n;
               silence := Z.max 0 (silence v - n) |} in
  let area' := overwrite (area p) (Z.to_nat (off v * fs))
                 (ring_read (d_data b) (chunk_offset b + ro) (Z.to_nat (n * fs))) in
  0 < n
  /\ ((n = (chunk_size b - ro) / fs
       /\ n * fs = chunk_size b - ro
       /\ write_buffer p v
          = Some (set_ready_offset
                    (log (set_io
                            (set_buffers
                               (set_ready (set_ready_offset (set_area p area') (ro + n * fs))
                                  rest)
                               (<[i := set_b_flags b (SPA_FLAG_SET (b_flags b) BUFFER_FLAG_OUT)]>
                                  (buffers p)))
                            (Some {| io_status := io_status io0; io_buffer_id := b_id b |}))
                       (ReuseBuffer 0 (b_id b))) 0, v'))
      \/ (n < (chunk_size b - ro) / fs /\ n = to_write v
          /\ write_buffer p v = Some (set_ready_offset (set_area p area') (ro + n * fs), v'))).
Proof.
  intros fs ro Hready Hbuf Hio Hfs (Hmax & Hlen & Hoff & Hsize & Hend & Hdiv) Hro Hrodiv
    Htw Hoffv Harea Hareamax Hwr Hwrmax n v' area'.
  destruct (write_buffer_round p v i rest b Hready Hbuf Hfs Hmax Hlen Hoff
              ltac:(lia) Hend ltac:(lia) ltac:(lia) Hoffv Harea Hareamax Hwr Hwrmax)
    as (Hn0 & Hnb & Hround).
  fold fs ro n v' area' in Hn0, Hnb, Hround. rewrite Hio in Hround.
  cbn [mbind option_bind] in Hround.
  assert ((chunk_size b - ro) mod fs = 0) as Hrem.
  { rewrite Zminus_mod, Hdiv, Hrodiv. apply Z.mod_0_l. lia. }
  assert ((chunk_size b - ro) / fs * fs = chunk_size b - ro) as Hfull.
  { pose proof (Z.div_mod (chunk_size b - ro) fs ltac:(lia)). lia. }
  assert (0 < (chunk_size b - ro) / fs) as Havail.
  { apply Z.div_str_pos. split; [lia|].
    destruct (Z.le_gt_cases fs (chunk_size b - ro)) as [|Hlt]; [assumption|].
    rewrite Z.mod_small in Hrem by lia. lia. }
  split; [lia|]. rewrite Hround.
  destruct (Z.le_gt_cases ((chunk_size b - ro) / fs) (to_write v)) as [Hle|Hgt].
  - left. assert (n = (chunk_size b - ro) / fs) as Hn_eq by lia.
    split; [exact Hn_eq|]. split; [lia|].
    destruct (Z.geb_spec (ro + n * fs) (chunk_size b)) as [_|Hlt]; [reflexivity|lia].
  - right. split; [lia|]. split; [lia|].
    assert (n * fs < (chunk_size b - ro) / fs * fs) by (apply Z.mul_lt_mono_pos_r; lia).
    destruct (Z.geb_spec (ro + n * fs) (chunk_size b)) as [Hge|_]; [lia|reflexivity].
Qed.

Lemma write_loop_done (fuel : nat) (p : pcm) (v : copy) :
  ready p = [] \/ to_write v <= 0 -> write_loop fuel p v = Returns (p, v).
Proof.
  intros H. destruct fuel; cbn [write_loop]; destruct (ready p) as [|i rest];
    try reflexivity; destruct H as [H|H]; try discriminate;
    destruct (Z.gtb_spec (to_write v) 0); try reflexivity; lia.
Qed.

Lemma copy_unchanged (v : copy) :
  0 <= silence v ->
  {| to_write := to_write v - 0; off := off v + 0; written := written v + 0;
     silence := Z.max 0 (silence v - 0) |} = v.
Proof.
  intros H. destruct v as [a b c d]. cbn in *. f_equal; lia.
Qed.

(** Setting a flag of a buffer changes neither what is queued nor the
    ids. *)
Lemma queued_from_flags (bufs : list buffer) (i : nat) (b : buffer) (f : Z) (l : list nat) :
  bufs !! i = Some b ->
  forall ro, queued_from (<[i := set_b_flags b f]> bufs) l ro = queued_from bufs l ro.
Proof.
  intros Hb. induction l as [|j l IH]; intros ro; [reflexivity|].
  cbn [queued_from]. rewrite IH. f_equal.
  destruct (decide (i = j)) as [<-|Hne].
  - rewrite list_lookup_insert_eq by (eapply lookup_lt_Some; exact Hb). rewrite Hb. reflexivity.
  - rewrite list_lookup_insert_ne by exact Hne. reflexivity.
Qed.

Lemma buffer_ids_flags (bufs : list buffer) (i : nat) (b : buffer) (f : Z) (l : list nat) :
  bufs !! i = Some b ->
  buffer_ids (<[i := set_b_flags b f]> bufs) l = buffer_ids bufs l.
Proof.
  intros Hb. induction l as [|j l IH]; [reflexivity|].
  unfold buffer_ids in *. cbn [omap list_omap]. rewrite IH.
  destruct (decide (i = j)) as [<-|Hne].
  - rewrite list_lookup_insert_eq by (eapply lookup_lt_Some; exact Hb). rewrite Hb. reflexivity.
  - rewrite list_lookup_insert_ne by exact Hne. reflexivity.
Qed.

Lemma buffers_ok_flags (fs : Z) (bufs : list buffer) (i : nat) (b : buffer) (f : Z)
    (l : list nat) :
  bufs !! i = Some b ->
  Forall (fun j => exists b', bufs !! j = Some b' /\ buffer_ok fs b') l ->
  Forall (fun j => exists b', <[i := set_b_flags b f]> bufs !! j = Some b' /\ buffer_ok fs b') l.
Proof.
  intros Hb Hall. eapply Forall_impl; [exact Hall|]. intros j (b' & Hj & Hok).
  destruct (decide (i = j)) as [<-|Hne].
  - rewrite list_lookup_insert_eq by (eapply lookup_lt_Some; exact Hb).
    eexists. split; [reflexivity|]. rewrite Hb in Hj. injection Hj as <-. exact Hok.
  - rewrite list_lookup_insert_ne by exact Hne. eauto.
Qed.

Lemma length_queued_from (fs : Z) (bufs : list buffer) (l : list nat) :
  0 < fs ->
  Forall (fun j => exists b', bufs !! j = Some b' /\ buffer_ok fs b') l ->
  Z.of_nat (length (queued_from bufs l 0)) mod fs = 0.
Proof.
  intros Hfs. induction 1 as [|j l (b & Hb & Hok) _ IH]; [apply Z.mod_0_l; lia|].
  cbn [queued_from]. rewrite Hb, length_app. unfold chunk_bytes.
  rewrite length_ring_read, Nat2Z.inj_add.
  destruct Hok as (_ & _ & _ & Hsize & _ & Hdiv).
  rewrite Z2Nat.id by lia. rewrite Z.sub_0_r, Zplus_mod, Hdiv, IH. apply Z.mod_0_l. lia.
Qed.

(** X7: The [while] loop of [spa_alsa_write] hands the queued bytes to the
    device in order, without losing or repeating one: it ends, having
    copied whole frames, as many as are queued or as the device takes,
    from the front of the queue to the mmap area, from frame [off] on;
    the rest of the queue is still queued, the buffers it has used up
    are off the [ready] list and have been given back through
    [reuse_buffer], in order, and nothing else of the state has changed. *)
Theorem write_loop_copies_queue_in_order (fuel : nat) :
  forall (p : pcm) (v : copy),
    ready_ok p ->
    0 <= to_write v -> 0 <= off v -> 0 <= written v -> 0 <= silence v ->
    (off v + to_write v) * frame_size (st p) <= Z.of_nat (length (area p)) ->
    Z.of_nat (length (area p)) < 2 ^ 64 ->
    written v + to_write v < 2 ^ 64 ->
    (length (ready p) <= fuel)%nat ->
    let fs := frame_size (st p) in
    let n := Z.min (to_write v) (Z.of_nat (length (queued p)) / fs) in
    exists p',
      write_loop fuel p v
      = Returns (p', {| to_write := to_write v - n; off := off v + n;
                        written := written v + n; silence := Z.max 0 (silence v - n) |})
      /\ area p'
         = overwrite (area p) (Z.to_nat (off v * fs)) (take (Z.to_nat (n * fs)) (queued p))
      /\ queued p' = drop (Z.to_nat (n * fs)) (queued p)
      /\ (exists k : nat,
            ready p' = drop k (ready p)
            /\ trace p'
               = trace p ++ List.map (ReuseBuffer 0) (buffer_ids (buffers p) (take k (ready p))))
      /\ st p' = st p /\ free p' = free p /\ alsa_started p' = alsa_started p
      /\ ready_ok p'.
Proof.
  assert (forall fuel (p : pcm) (v : copy),
            ready_ok p -> 0 <= to_write v -> 0 <= silence v ->
            ready p = [] \/ to_write v <= 0 ->
            let fs := frame_size (st p) in
            let n := Z.min (to_write v) (Z.of_nat (length (queued p)) / fs) in
            exists p',
              write_loop fuel p v
              = Returns (p', {| to_write := to_write v - n; off := off v + n;
                                written := written v + n;
                                silence := Z.max 0 (silence v - n) |})
              /\ area p'
                 = overwrite (area p) (Z.to_nat (off v * fs))
                     (take (Z.to_nat (n * fs)) (queued p))
              /\ queued p' = drop (Z.to_nat (n * fs)) (queued p)
              /\ (exists k : nat,
                    ready p' = drop k (ready p)
                    /\ trace p'
                       = trace p
                         ++ List.map (ReuseBuffer 0)
                              (buffer_ids (buffers p) (take k (ready p))))
              /\ st p' = st p /\ free p' = free p /\ alsa_started p' = alsa_started p
              /\ ready_ok p') as Hnothing.
  { intros fuel' p v Hok Htw Hsil Hdone fs n.
    assert (n = 0) as ->.
    { unfold n. destruct Hdone as [Hempty|Hzero].
      - unfold queued. rewrite Hempty. cbn. rewrite Z.div_0_l by (destruct Hok; lia). lia.
      - assert (0 <= Z.of_nat (length (queued p)) / fs)
          by (apply Z.div_pos; [lia|destruct Hok; lia]).
        lia. }
    exists p. rewrite write_loop_done by exact Hdone.
    rewrite copy_unchanged by exact Hsil.
    split; [reflexivity|]. cbn [Z.mul Z.to_nat take drop]. rewrite overwrite_nil.
    split; [reflexivity|]. split; [reflexivity|].
    split; [exists 0%nat; cbn; rewrite app_nil_r; split; reflexivity|].
    repeat split; try reflexivity; apply Hok. }
  induction fuel as [|fuel IH]; intros p v Hok Htw Hoff Hwr Hsil Harea Hmax Hwmax Hfuel fs n.
  { apply Hnothing; try assumption. left. destruct (ready p); [reflexivity|cbn in Hfuel; lia]. }
  assert (ready p = [] \/ exists i rest, ready p = i :: rest) as [Hempty|(i & rest & Hready)]
    by (destruct (ready p); eauto).
  { apply Hnothing; try assumption. left. exact Hempty. }
  destruct (Z.le_gt_cases (to_write v) 0) as [Hzero|Hpos].
  { apply Hnothing; try assumption. right. exact Hzero. }
  destruct Hok as (Hfs & Hall & Hro0 & Hrodiv & Hhead & Hio).
  fold fs in Hfs, Hall, Hrodiv, Harea.
  rewrite Hready in Hall, Hhead.
  apply Forall_cons in Hall as [(b & Hb & Hbok) Hrest].
  specialize (Hhead i b eq_refl Hb).
  pose proof Hbok as (Hbmax & Hblen & Hboff & Hbsize & Hbend & Hbdiv).
  set (R := queued_from (buffers p) rest 0).
  assert (queued p = chunk_bytes b (ready_offset p) ++ R) as Hq.
  { unfold queued. rewrite Hready. cbn [queued_from]. rewrite Hb. reflexivity. }
  assert (Z.of_nat (length R) mod fs = 0) as HRdiv.
  { apply (length_queued_from fs); [lia|exact Hrest]. }
  assert ((chunk_size b - ready_offset p) mod fs = 0) as Hrem.
  { rewrite Zminus_mod, Hbdiv, Hrodiv. apply Z.mod_0_l. lia. }
  set (avail := (chunk_size b - ready_offset p) / fs).
  assert (avail * fs = chunk_size b - ready_offset p) as Hfull.
  { pose proof (Z.div_mod (chunk_size b - ready_offset p) fs ltac:(lia)). unfold avail. lia. }
  assert (Z.of_nat (length (queued p)) / fs = avail + Z.of_nat (length R) / fs) as HQ.
  { rewrite Hq, length_app. unfold chunk_bytes. rewrite length_ring_read, Nat2Z.inj_add.
    rewrite Z2Nat.id by lia. rewrite <- Hfull. apply Z.div_add_l. lia. }
  assert (0 <= Z.of_nat (length R) / fs) as HRpos by (apply Z.div_pos; lia).
  destruct (io p) as [io0|] eqn:Hio0; [|contradiction].
  destruct (write_buffer_step p v i rest b io0 Hready Hb Hio0 Hfs Hbok
              ltac:(lia) Hrodiv Hpos Hoff Harea Hmax Hwr Hwmax)
    as (Hn1 & [(Hn1eq & Hbytes & Hstep)|(Hn1lt & Hn1eq & Hstep)]).
  - (* the buffer is used up *)
    fold fs avail in Hn1, Hn1eq, Hbytes, Hstep.
    set (n1 := Z.min avail (to_write v)) in *.
    set (c1 := ring_read (d_data b) (chunk_offset b + ready_offset p) (Z.to_nat (n1 * fs)))
      in *.
    assert (chunk_bytes b (ready_offset p) = c1) as Hc1.
    { unfold chunk_bytes, c1. rewrite Hbytes. reflexivity. }
    assert (length c1 = Z.to_nat (n1 * fs)) as Hlen1 by apply length_ring_read.
    assert (0 <= n1 * fs) as Hb1 by (apply Z.mul_nonneg_nonneg; lia).
    assert (0 <= off v * fs) as Hb2 by (apply Z.mul_nonneg_nonneg; lia).
    assert ((off v + n1) * fs = off v * fs + n1 * fs) as Hb3 by ring.
    assert ((off v + n1) * fs <= Z.of_nat (length (area p))) as Hb4.
    { etransitivity; [|exact Harea]. apply Z.mul_le_mono_nonneg_r; lia. }
    assert (Z.to_nat (off v * fs) + length c1 <= length (area p))%nat as Hb5
      by (rewrite Hlen1; lia).
    match type of Hstep with _ = Some (?q, ?w) => set (p1 := q) in *; set (v1 := w) in * end.
    assert (ready_ok p1) as Hok1.
    { unfold ready_ok, p1. cbn. fold fs. split; [exact Hfs|].
      split; [apply buffers_ok_flags; assumption|].
      split; [lia|]. split; [apply Z.mod_0_l; lia|]. split; [|discriminate].
      intros i' b' Hi' Hb'. destruct rest as [|j rest']; [discriminate|].
      injection Hi' as <-.
      apply Forall_cons in Hrest as [(bj & Hbj & Hbjok) _].
      destruct (decide (i = j)) as [<-|Hne].
      + rewrite list_lookup_insert_eq in Hb' by (eapply lookup_lt_Some; exact Hb).
        injection Hb' as <-. cbn. lia.
      + rewrite list_lookup_insert_ne in Hb' by exact Hne. rewrite Hbj in Hb'.
        injection Hb' as <-. destruct Hbjok as (_ & _ & _ & ? & _). lia. }
    assert (length (area p1) = length (area p)) as Hlenarea.
    { unfold p1. cbn. apply length_overwrite. exact Hb5. }
    assert (queued p1 = R) as Hq1.
    { unfold queued, p1. cbn. apply queued_from_flags. exact Hb. }
    assert (frame_size (st p1) = fs) as Hfs1 by reflexivity.
    assert (to_write v1 = to_write v - n1 /\ off v1 = off v + n1
            /\ written v1 = written v + n1 /\ silence v1 = Z.max 0 (silence v - n1))
      as (Hv1 & Hv2 & Hv3 & Hv4) by (repeat split).
    assert (length (ready p1) = length rest) as Hlenready by reflexivity.
    rewrite Hready in Hfuel. cbn [length] in Hfuel.
    destruct (IH p1 v1 Hok1) as (p' & Hloop & Harea' & Hq' & (k & Hk & Htrace) & Hst & Hfree
                                  & Hstarted & Hok').
    { rewrite Hv1. lia. }
    { rewrite Hv2. lia. }
    { rewrite Hv3. lia. }
    { rewrite Hv4. lia. }
    { rewrite Hfs1, Hv1, Hv2, Hlenarea. replace (off v + n1 + (to_write v - n1))
        with (off v + to_write v) by lia. exact Harea. }
    { rewrite Hlenarea. exact Hmax. }
    { rewrite Hv1, Hv3. lia. }
    { rewrite Hlenready. lia. }
    rewrite Hfs1, Hq1 in Hloop, Harea', Hq'.
    set (n2 := Z.min (to_write v1) (Z.of_nat (length R) / fs)) in *.
    assert (n = n1 + n2) as Hn.
    { unfold n, n2, v1. cbn [to_write]. rewrite HQ. lia. }
    assert (0 <= n2) as Hn2 by (unfold n2, v1; cbn [to_write]; lia).
    exists p'. split.
    { cbn [write_loop]. rewrite Hready.
      destruct (Z.gtb_spec (to_write v) 0); [|lia]. rewrite Hstep, Hloop.
      unfold v1. cbn [to_write off written silence]. rewrite Hn. do 3 f_equal; lia. }
    split.
    { rewrite Harea'. unfold p1, v1. cbn [area set_ready_offset log set_trace set_io
                                          set_buffers set_ready set_area off].
      replace (Z.to_nat ((off v + n1) * fs)) with (Z.to_nat (off v * fs) + length c1)%nat
        by (rewrite Hlen1; lia).
      rewrite overwrite_overwrite by exact Hb5.
      assert (n * fs = n1 * fs + n2 * fs) as Hnfs by (rewrite Hn; ring).
      assert (0 <= n2 * fs) by (apply Z.mul_nonneg_nonneg; lia).
      f_equal. rewrite Hq, Hc1, take_app_ge by (rewrite Hlen1; lia).
      f_equal. f_equal. rewrite Hlen1. lia. }
    split.
    { assert (n * fs = n1 * fs + n2 * fs) as Hnfs by (rewrite Hn; ring).
      assert (0 <= n2 * fs) by (apply Z.mul_nonneg_nonneg; lia).
      rewrite Hq', Hq, Hc1, drop_app_ge by (rewrite Hlen1; lia).
      f_equal. rewrite Hlen1. lia. }
    split.
    { exists (S k). rewrite Hready. cbn [drop take]. split.
      - rewrite Hk. reflexivity.
      - rewrite Htrace. unfold p1. cbn [trace log set_trace set_ready_offset set_io
                                         set_buffers set_ready set_area buffers ready].
        rewrite buffer_ids_flags by exact Hb.
        unfold buffer_ids. cbn [omap list_omap]. rewrite Hb. cbn [fmap option_fmap option_map].
        cbn [List.map]. rewrite <- app_assoc. reflexivity. }
    rewrite Hst, Hfree, Hstarted.
    split; [reflexivity|]. split; [reflexivity|]. split; [reflexivity|]. exact Hok'.
  - (* the device takes no more *)
    fold fs avail in Hn1, Hn1lt, Hn1eq, Hstep.
    set (n1 := Z.min avail (to_write v)) in *.
    match type of Hstep with _ = Some (?q, ?w) => set (p1 := q) in *; set (v1 := w) in * end.
    assert (n = n1) as Hn by lia.
    assert (chunk_bytes b (ready_offset p)
            = ring_read (d_data b) (chunk_offset b + ready_offset p) (Z.to_nat (n1 * fs))
              ++ chunk_bytes b (ready_offset p + n1 * fs)) as Hsplit.
    { unfold chunk_bytes.
      replace (Z.to_nat (chunk_size b - ready_offset p))
        with (Z.to_nat (n1 * fs) + Z.to_nat (chunk_size b - (ready_offset p + n1 * fs)))%nat
        by nia.
      rewrite ring_read_app. do 2 f_equal. nia. }
    exists p1. split.
    { cbn [write_loop]. rewrite Hready.
      destruct (Z.gtb_spec (to_write v) 0); [|lia]. rewrite Hstep.
      rewrite write_loop_done by (right; unfold v1; cbn; lia).
      unfold v1. rewrite Hn. reflexivity. }
    split.
    { unfold p1. cbn. fold fs. rewrite Hn. f_equal.
      rewrite Hq, Hsplit, <- app_assoc.
      rewrite take_app_length' by (symmetry; apply length_ring_read). reflexivity. }
    split.
    { unfold queued at 1. unfold p1. cbn. rewrite Hready. cbn [queued_from]. rewrite Hb.
      fold R. rewrite Hq, Hsplit, <- app_assoc, Hn.
      rewrite drop_app_length' by (symmetry; apply length_ring_read). reflexivity. }
    split.
    { exists 0%nat. unfold p1. cbn. rewrite app_nil_r. split; reflexivity. }
    split; [reflexivity|]. split; [reflexivity|]. split; [reflexivity|].
    assert (n1 * fs < avail * fs) as Hlt by (apply Z.mul_lt_mono_pos_r; lia).
    assert (0 <= n1 * fs) as Hb1 by (apply Z.mul_nonneg_nonneg; lia).
    unfold ready_ok, p1.
    cbn [st set_ready_offset set_area ready buffers ready_offset io]. fold fs.
    split; [exact Hfs|]. split; [rewrite Hready; constructor; [eauto|exact Hrest]|].
    split; [lia|]. split; [rewrite Z.mod_add by lia; exact Hrodiv|].
    split; [|rewrite Hio0; discriminate].
    intros i' b' Hi' Hb'. rewrite Hready in Hi'. injection Hi' as <-.
    rewrite Hb in Hb'. injection Hb' as <-. lia.
Qed.

Lemma pcm_unchanged (p : pcm) :
  set_ready_offset (set_area p (area p)) (ready_offset p) = p.
Proof. destruct p. reflexivity. Qed.

(** With less than a frame left in the first buffer the loop makes no
    progress. *)
Lemma write_loop_stuck (p : pcm) (v : copy) (i : nat) (rest : list nat) (b : buffer) :
  let fs := frame_size (st p) in
  let ro := ready_offset p in
  ready p = i :: rest -> buffers p !! i = Some b ->
  0 < fs < 2 ^ 32 ->
  0 < d_maxsize b < 2 ^ 32 -> Z.of_nat (length (d_data b)) = d_maxsize b ->
  0 <= chunk_offset b -> chunk_size b <= d_maxsize b ->
  chunk_offset b + chunk_size b < 2 ^ 32 ->
  0 <= ro < chunk_size b -> chunk_size b - ro < fs ->
  0 < to_write v -> 0 <= off v ->
  (off v + to_write v) * fs <= Z.of_nat (length (area p)) ->
  Z.of_nat (length (area p)) < 2 ^ 64 ->
  0 <= written v -> written v + to_write v < 2 ^ 64 -> 0 <= silence v ->
  forall fuel, write_loop fuel p v = OutOfFuel.
Proof.
  intros fs ro Hready Hbuf Hfs Hmax Hlen Hoff Hsize Hend Hro Hless
    Htw Hoffv Harea Hareamax Hwr Hwrmax Hsil.
  destruct (write_buffer_round p v i rest b Hready Hbuf Hfs Hmax Hlen Hoff
              Hsize Hend ltac:(lia) ltac:(lia) Hoffv Harea Hareamax Hwr Hwrmax)
    as (_ & _ & Hround).
  fold fs ro in Hround.
  rewrite (Z.div_small (chunk_size b - ro) fs) in Hround by lia.
  rewrite Z.min_l in Hround by lia.
  rewrite Z.mul_0_l, Z.add_0_r in Hround.
  destruct (Z.geb_spec ro (chunk_size b)) as [|_]; [lia|].
  change (Z.to_nat 0) with 0%nat in Hround.
  change (ring_read (d_data b) (chunk_offset b + ro) 0) with (@nil byte) in Hround.
  rewrite overwrite_nil, copy_unchanged in Hround by exact Hsil.
  unfold ro in Hround. rewrite pcm_unchanged in Hround.
  induction fuel as [|fuel IH]; cbn [write_loop]; rewrite Hready;
    destruct (Z.gtb_spec (to_write v) 0); try lia; [reflexivity|].
  rewrite Hround. exact IH.
Qed.

Lemma write_loop_spins (p : pcm) (v : copy) (i : nat) (rest : list nat) (b : buffer) :
  let fs := frame_size (st p) in
  let ro := ready_offset p in
  ready p = i :: rest -> buffers p !! i = Some b ->
  0 < fs < 2 ^ 32 ->
  0 < d_maxsize b < 2 ^ 32 -> Z.of_nat (length (d_data b)) = d_maxsize b ->
  0 <= chunk_offset b -> chunk_size b <= d_maxsize b ->
  chunk_offset b + chunk_size b < 2 ^ 32 ->
  0 <= ro < chunk_size b -> (chunk_size b - ro) mod fs <> 0 ->
  (chunk_size b - ro) / fs < to_write v -> 0 <= off v ->
  (off v + to_write v) * fs <= Z.of_nat (length (area p)) ->
  Z.of_nat (length (area p)) < 2 ^ 64 ->
  0 <= written v -> written v + to_write v < 2 ^ 64 -> 0 <= silence v ->
  forall fuel, write_loop fuel p v = OutOfFuel.
Proof.
  intros fs ro Hready Hbuf Hfs Hmax Hlen Hoff Hsize Hend Hro Hpartial
    Htw Hoffv Harea Hareamax Hwr Hwrmax Hsil fuel.
  set (avail := (chunk_size b - ro) / fs) in *.
  assert (0 <= avail) as Havail by (apply Z.div_pos; lia).
  pose proof (Z.div_mod (chunk_size b - ro) fs ltac:(lia)) as Hdm.
  pose proof (Z.mod_pos_bound (chunk_size b - ro) fs ltac:(lia)) as Hmod.
  fold avail in Hdm.
  destruct (Z.eq_dec avail 0) as [Hzero|Hnz].
  { apply (write_loop_stuck p v i rest b); try assumption; fold fs ro; lia. }
  destruct (write_buffer_round p v i rest b Hready Hbuf Hfs Hmax Hlen Hoff
              Hsize Hend ltac:(lia) ltac:(lia) Hoffv Harea Hareamax Hwr Hwrmax)
    as (_ & _ & Hround).
  fold fs ro avail in Hround. rewrite Z.min_l in Hround by lia.
  destruct (Z.geb_spec (ro + avail * fs) (chunk_size b)) as [|_]; [lia|].
  destruct fuel as [|fuel]; cbn [write_loop]; rewrite Hready;
    destruct (Z.gtb_spec (to_write v) 0); try lia; [reflexivity|].
  rewrite Hround.
  assert (0 <= avail * fs) by (apply Z.mul_nonneg_nonneg; lia).
  assert (Z.to_nat (off v * fs) + Z.to_nat (avail * fs) <= length (area p))%nat as Hfit.
  { assert (0 <= off v * fs) by (apply Z.mul_nonneg_nonneg; lia).
    assert ((off v + avail) * fs <= (off v + to_write v) * fs)
      by (apply Z.mul_le_mono_nonneg_r; lia).
    rewrite Z.mul_add_distr_r in *. lia. }
  apply (write_loop_stuck _ _ i rest b);
    cbn [st set_ready_offset set_area ready buffers ready_offset area
         to_write off written silence];
    fold fs ro; try assumption; try lia.
  - rewrite length_overwrite by (rewrite length_ring_read; exact Hfit).
    replace (off v + avail + (to_write v - avail)) with (off v + to_write v) by lia.
    exact Harea.
  - rewrite length_overwrite by (rewrite length_ring_read; exact Hfit). exact Hareamax.
Qed.

Lemma play_threshold_frame (s : state) :
  slaved (play_threshold s) = slaved s
  /\ frame_size (play_threshold s) = frame_size s
  /\ buffer_frames (play_threshold s) = buffer_frames s
  /\ sample_count (play_threshold s) = sample_count s
  /\ channels (play_threshold s) = channels s
  /\ st_format (play_threshold s) = st_format s.
Proof.
  unfold play_threshold. destruct (position s) as [size|]; [|repeat split].
  destruct (negb (threshold s =? size)); repeat split.
Qed.

Lemma committed_app (l1 l2 : list call) : committed (l1 ++ l2) = committed l1 + committed l2.
Proof.
  induction l1 as [|c l1 IH]; [reflexivity|].
  cbn [app committed fold_right]. fold (committed (l1 ++ l2)) (committed l1).
  rewrite IH. destruct c; lia.
Qed.

(** A round of the loop leaves the fields of [st] alone, and commits
    nothing. *)
Lemma write_buffer_frame (p p' : pcm) (v v' : copy) :
  write_buffer p v = Some (p', v') ->
  st p' = st p /\ alsa_started p' = alsa_started p /\ free p' = free p
  /\ exists l, trace p' = trace p ++ l /\ committed l = 0.
Proof.
  unfold write_buffer.
  destruct (ready p) as [|i rest]; [discriminate|].
  destruct (buffers p !! i) as [b|]; [|discriminate]. cbn [mbind option_bind].
  destruct (frame_size (st p) =? 0); [discriminate|].
  destruct (to_uint32 (d_maxsize b) =? 0); [discriminate|].
  destruct (spa_memcpy _ _ _ _ _) as [area1|]; [|discriminate]. cbn [mbind option_bind].
  match goal with
  | |- context [if ?c then spa_memcpy ?a ?b ?c' ?d ?e else Some area1] =>
      destruct (if c then spa_memcpy a b c' d e else Some area1) as [area2|];
      [|discriminate]
  end.
  cbn [mbind option_bind].
  match goal with
  | |- context [if ?x >=? ?y then _ else _] => destruct (x >=? y)
  end.
  - cbn [io set_ready_offset set_area]. destruct (io p) as [io0|]; [|discriminate].
    cbn [mbind option_bind]. intros [= <- <-]. cbn.
    repeat split. exists [ReuseBuffer 0 (b_id b)]. split; reflexivity.
  - cbn [mbind option_bind]. intros [= <- <-]. cbn.
    repeat split. exists []. rewrite app_nil_r. split; reflexivity.
Qed.

Lemma write_loop_frame (fuel : nat) :
  forall (p p' : pcm) (v v' : copy),
    write_loop fuel p v = Returns (p', v') ->
    st p' = st p /\ alsa_started p' = alsa_started p /\ free p' = free p
    /\ exists l, trace p' = trace p ++ l /\ committed l = 0.
Proof.
  assert (forall (p p' : pcm) (v v' : copy),
            Returns (p, v) = Returns (p', v') ->
            st p' = st p /\ alsa_started p' = alsa_started p /\ free p' = free p
            /\ exists l, trace p' = trace p ++ l /\ committed l = 0) as Hdone.
  { intros p p' v v' [= <- <-]. repeat split. exists []. rewrite app_nil_r.
    split; reflexivity. }
  induction fuel as [|fuel IH]; intros p p' v v'; cbn [write_loop];
    destruct (ready p) as [|i rest] eqn:Hready; try apply Hdone;
    destruct (to_write v >? 0); try apply Hdone; [discriminate|].
  destruct (write_buffer p v) as [[p1 v1]|] eqn:Hstep; [|discriminate].
  intros Hloop. apply IH in Hloop as (Hst & Hstarted & Hfree & l2 & Htrace & Hc2).
  apply write_buffer_frame in Hstep as (Hst1 & Hstarted1 & Hfree1 & l1 & Htrace1 & Hc1).
  rewrite Hst, Hstarted, Hfree, Htrace, Htrace1. repeat split; try assumption.
  exists (l1 ++ l2). rewrite app_assoc, committed_app, Hc1, Hc2. split; reflexivity.
Qed.

(** X10: [push_frames] on a free buffer stores whole frames, as many as the
    buffer has room for or as the device grants, read from the mmap area
    at frame [offset], at the start of the buffer's memory: the split in
    two copies never wraps here. The chunk it describes is what the
    playback loop reads back, byte for byte, and is a buffer that loop
    can take; the buffer leaves the [free] list for the inbox [io], when
    that is there and holds no buffer, and for the end of the [ready]
    list otherwise. *)
Theorem push_frames_stores_whole_frames (p : pcm) (offset frames : Z) (i : nat)
    (rest : list nat) (b : buffer) :
  let fs := frame_size (st p) in
  free p = i :: rest -> buffers p !! i = Some b ->
  0 < fs < 2 ^ 32 ->
  0 < d_maxsize b < 2 ^ 32 -> Z.of_nat (length (d_data b)) = d_maxsize b ->
  0 <= offset -> 0 <= frames ->
  (offset + frames) * fs <= Z.of_nat (length (area p)) ->
  Z.of_nat (length (area p)) < 2 ^ 64 ->
  let n := Z.min (d_maxsize b / fs) frames in
  exists p' b',
    push_frames p offset frames = Some (n, p')
    /\ free p' = rest /\ buffers p' = <[i := b']> (buffers p)
    /\ b_id b' = b_id b /\ d_maxsize b' = d_maxsize b
    /\ chunk_offset b' = 0 /\ chunk_size b' = n * fs /\ chunk_stride b' = fs
    /\ b_flags b' = SPA_FLAG_SET (b_flags b) BUFFER_FLAG_OUT
    /\ (b_h b <> None ->
        b_h b' = Some {| h_seq := sample_count (st p);
                         h_pts := SPA_TIMESPEC_TO_NSEC (now (st p));
                         h_dts_offset := 0 |})
    /\ d_data b'
       = take (Z.to_nat (n * fs)) (drop (Z.to_nat (offset * fs)) (area p))
         ++ drop (Z.to_nat (n * fs)) (d_data b)
    /\ chunk_bytes b' 0 = take (Z.to_nat (n * fs)) (drop (Z.to_nat (offset * fs)) (area p))
    /\ (0 < n -> buffer_ok fs b')
    /\ (match io p with
        | Some io0 =>
            if io_status io0 =? SPA_STATUS_HAVE_BUFFER
            then io p' = io p /\ ready p' = ready p ++ [i]
            else io p' = Some {| io_status := SPA_STATUS_HAVE_BUFFER;
                                 io_buffer_id := b_id b |}
                 /\ ready p' = ready p
        | None => io p' = None /\ ready p' = ready p ++ [i]
        end)
    /\ trace p' = trace p ++ [Ready SPA_STATUS_HAVE_BUFFER]
    /\ st p' = st p /\ area p' = area p.
Proof.
  intros fs Hfree Hbuf Hfs Hmax Hlen Hoffset Hframes Harea Hareamax n.
  set (m := d_maxsize b) in *.
  assert (0 <= m / fs) as Havail by (apply Z.div_pos; lia).
  assert (m / fs * fs <= m) as Hfull.
  { pose proof (Z.div_mod m fs ltac:(lia)).
    pose proof (Z.mod_pos_bound m fs ltac:(lia)). lia. }
  assert (m / fs <= m) as Havail_le.
  { pose proof (mul_le_self (m / fs) fs Havail ltac:(lia)). lia. }
  assert (0 <= n) as Hn by lia.
  assert (n * fs <= m) as Hnb.
  { etransitivity; [|exact Hfull]. apply Z.mul_le_mono_nonneg_r; lia. }
  assert (0 <= n * fs) as Hnb0 by (apply Z.mul_nonneg_nonneg; lia).
  assert (0 <= offset * fs) as Hsrc0 by (apply Z.mul_nonneg_nonneg; lia).
  assert (offset * fs + n * fs <= Z.of_nat (length (area p))) as Hsrc.
  { rewrite <- Z.mul_add_distr_r. etransitivity; [|exact Harea].
    apply Z.mul_le_mono_nonneg_r; lia. }
  set (copied := take (Z.to_nat (n * fs)) (drop (Z.to_nat (offset * fs)) (area p))).
  assert (length copied = Z.to_nat (n * fs)) as Hcopied
    by (unfold copied; rewrite length_take, length_drop; lia).
  set (h := match b_h b with
            | Some _ => Some {| h_seq := sample_count (st p);
                                h_pts := SPA_TIMESPEC_TO_NSEC (now (st p));
                                h_dts_offset := 0 |}
            | None => None
            end).
  set (data' := copied ++ drop (Z.to_nat (n * fs)) (d_data b)).
  set (b' := {| b_id := b_id b; b_flags := SPA_FLAG_SET (b_flags b) BUFFER_FLAG_OUT;
                b_h := h; d_data := data'; d_maxsize := m; chunk_offset := 0;
                chunk_size := n * fs; chunk_stride := fs |}).
  assert (length data' = length (d_data b)) as Hlen'.
  { unfold data'. rewrite length_app, length_drop, Hcopied. lia. }
  set (p1 := set_buffers (set_free p rest) (<[i := b']> (buffers p))).
  set (p2 := match io p with
             | Some io0 =>
                 if negb (io_status io0 =? SPA_STATUS_HAVE_BUFFER)
                 then set_io p1 (Some {| io_status := SPA_STATUS_HAVE_BUFFER;
                                         io_buffer_id := b_id b |})
                 else set_ready p1 (ready p ++ [i])
             | None => set_ready p1 (ready p ++ [i])
             end).
  exists (log p2 (Ready SPA_STATUS_HAVE_BUFFER)), b'.
  split.
  { unfold push_frames. rewrite Hfree, Hbuf. cbn [mbind option_bind].
    cbn [st set_free]. fold fs.
    assert (d_maxsize (match b_h b with
                       | Some _ => set_b_h b (Some {| h_seq := sample_count (st p);
                                                      h_pts := SPA_TIMESPEC_TO_NSEC (now (st p));
                                                      h_dts_offset := 0 |})
                       | None => b
                       end) = m) as Hm by (destruct (b_h b); reflexivity).
    assert (d_data (match b_h b with
                    | Some _ => set_b_h b (Some {| h_seq := sample_count (st p);
                                                   h_pts := SPA_TIMESPEC_TO_NSEC (now (st p));
                                                   h_dts_offset := 0 |})
                    | None => b
                    end) = d_data b) as Hd by (destruct (b_h b); reflexivity).
    rewrite Hm, Hd.
    destruct (Z.eqb_spec fs 0) as [|_]; [lia|].
    destruct (Z.eqb_spec m 0) as [|_]; [lia|].
    rewrite (to_uint32_small (m / fs)) by lia. fold n.
    rewrite (to_uint64_small (n * fs)) by lia.
    rewrite Z.mod_0_l by lia. rewrite Z.sub_0_r.
    rewrite Z.min_l by lia.
    rewrite (to_uint32_small (n * fs)) by lia.
    rewrite Z.sub_diag. change (to_uint32 0) with 0.
    rewrite (to_uint64_small (offset * fs)) by lia.
    cbn [area set_free].
    rewrite spa_memcpy_overwrite by lia. cbn [mbind option_bind].
    change (0 >? 0) with false. cbv iota. cbn [mbind option_bind].
    fold copied. unfold overwrite. change (Z.to_nat 0) with 0%nat.
    rewrite take_0, Hcopied. cbn [app Nat.add]. fold data'.
    f_equal. f_equal. unfold p2, p1, b', h.
    destruct (b_h b) eqn:Hh;
      unfold set_b_flags, set_chunk, set_d_data, set_b_h;
      cbn [b_id b_flags b_h d_data d_maxsize chunk_offset chunk_size chunk_stride
           buffers set_buffers io ready set_free];
      rewrite ?Hh; reflexivity. }
  split; [unfold p2; destruct (io p) as [io0|]; [destruct (negb _)|]; reflexivity|].
  split; [unfold p2; destruct (io p) as [io0|]; [destruct (negb _)|]; reflexivity|].
  split; [reflexivity|]. split; [reflexivity|]. split; [reflexivity|].
  split; [reflexivity|]. split; [reflexivity|]. split; [reflexivity|].
  split; [unfold b', h; cbn; destruct (b_h b); [reflexivity|contradiction]|].
  split; [reflexivity|].
  assert (chunk_bytes b' 0 = copied) as Hchunk.
  { unfold chunk_bytes. cbn [d_data chunk_offset chunk_size b'].
    rewrite Z.sub_0_r, Z.add_0_r.
    rewrite <- ring_read_direct by (rewrite ?Hlen'; lia).
    change (Z.to_nat 0) with 0%nat. rewrite drop_0. unfold data'.
    rewrite take_app_length' by (symmetry; exact Hcopied). reflexivity. }
  split; [exact Hchunk|].
  split.
  { intros Hpos. unfold buffer_ok. cbn [d_maxsize d_data chunk_offset chunk_size b'].
    assert (0 < n * fs) by (apply Z.mul_pos_pos; lia).
    rewrite Hlen'. repeat split; try lia. apply Z.mod_mul. lia. }
  split.
  { unfold p2. destruct (io p) as [io0|] eqn:Hio.
    - destruct (io_status io0 =? SPA_STATUS_HAVE_BUFFER); cbn [negb];
        cbn [io ready log set_trace set_io set_ready set_buffers set_free p1];
        rewrite ?Hio; split; reflexivity.
    - cbn [io ready log set_trace set_io set_ready set_buffers set_free p1].
      rewrite Hio. split; reflexivity. }
  split; [unfold p2; destruct (io p) as [io0|]; [destruct (negb _)|]; reflexivity|].
  split; unfold p2; destruct (io p) as [io0|]; try destruct (negb _); reflexivity.
Qed.

Lemma insert_map_take_drop {A : Type} (f : A -> A) (l : list A) (k : nat) (x : A) :
  l !! k = Some x ->
  <[k := f x]> (List.map f (take k l) ++ drop k l)
  = List.map f (take (S k) l) ++ drop (S k) l.
Proof.
  intros Hk. pose proof (lookup_lt_Some _ _ _ Hk) as Hlt.
  rewrite insert_app_r_alt by (rewrite length_map, length_take; lia).
  rewrite length_map, length_take, Nat.min_l by lia. rewrite Nat.sub_diag.
  rewrite (drop_S _ _ _ Hk). cbn [insert list_insert].
  rewrite (take_S_r _ _ _ Hk), List.map_app, <- app_assoc. reflexivity.
Qed.

(** What the loop of [reset_buffers] comes to. *)
Lemma reset_buffers_spec (p : pcm) :
  reset_buffers p
  = set_buffers
      (set_free (set_ready p [])
         (match stream (st p) with
          | SND_PCM_STREAM_PLAYBACK => []
          | SND_PCM_STREAM_CAPTURE => seq 0 (length (buffers p))
          end))
      (List.map
         (fun b => set_b_flags b
                     (match stream (st p) with
                      | SND_PCM_STREAM_PLAYBACK => SPA_FLAG_SET (b_flags b) BUFFER_FLAG_OUT
                      | SND_PCM_STREAM_CAPTURE => SPA_FLAG_UNSET (b_flags b) BUFFER_FLAG_OUT
                      end))
         (buffers p)).
Proof.
  unfold reset_buffers.
  set (body := fun (i : nat) (p : pcm) => _).
  assert (forall (f : buffer -> buffer) (fr : nat -> list nat),
            fr 0%nat = [] ->
            (forall (k : nat) (s : pcm) (b : buffer),
                buffers p !! k = Some b ->
                s = set_buffers (set_free (set_ready p []) (fr k))
                      (List.map f (take k (buffers p)) ++ drop k (buffers p)) ->
                body k s
                = set_buffers (set_free (set_ready p []) (fr (S k)))
                    (<[k := f b]> (buffers s))) ->
            for_range (length (buffers p)) body (set_ready (set_free p []) [])
            = set_buffers (set_free (set_ready p []) (fr (length (buffers p))))
                (List.map f (buffers p))) as Hloop.
  { intros f fr Hfr Hbody.
    rewrite <- (firstn_all (buffers p)) at 3.
    rewrite <- (app_nil_r (List.map f _)), <- (drop_all (buffers p)).
    apply (AlsaFacts.for_range_ind
             (fun k s =>
                s = set_buffers (set_free (set_ready p []) (fr k))
                      (List.map f (take k (buffers p)) ++ drop k (buffers p)))).
    - rewrite Hfr. destruct p. reflexivity.
    - intros k s Hk Hs.
      destruct (lookup_lt_is_Some_2 (buffers p) k Hk) as [b Hb].
      rewrite (Hbody k s b Hb Hs). rewrite Hs at 1. cbn [buffers set_buffers].
      rewrite insert_map_take_drop by exact Hb. reflexivity. }
  assert (forall (k : nat) (s : pcm) (b : buffer) (fr : list nat) (f : buffer -> buffer),
            buffers p !! k = Some b ->
            s = set_buffers (set_free (set_ready p []) fr)
                  (List.map f (take k (buffers p)) ++ drop k (buffers p)) ->
            buffers s !! k = Some b /\ st s = st p /\ free s = fr) as Hlook.
  { intros k s b fr f Hb ->. cbn [buffers set_buffers st set_free set_ready free].
    pose proof (lookup_lt_Some _ _ _ Hb) as Hlt.
    rewrite lookup_app_r by (rewrite length_map, length_take; lia).
    rewrite length_map, length_take, Nat.min_l by lia. rewrite Nat.sub_diag.
    rewrite (drop_S _ _ _ Hb). repeat split. }
  destruct (stream (st p)) eqn:Hstream.
  - apply (Hloop (fun b => set_b_flags b (SPA_FLAG_SET (b_flags b) BUFFER_FLAG_OUT))
             (fun _ => [])); [reflexivity|].
    intros k s b Hb Hs. unfold body.
    destruct (Hlook k s b _ _ Hb Hs) as (-> & -> & _). rewrite Hstream.
    rewrite Hs. reflexivity.
  - apply (Hloop (fun b => set_b_flags b (SPA_FLAG_UNSET (b_flags b) BUFFER_FLAG_OUT))
             (fun k => seq 0 k)); [reflexivity|].
    intros k s b Hb Hs. unfold body.
    destruct (Hlook k s b _ _ Hb Hs) as (-> & -> & _). rewrite Hstream.
    rewrite Hs. cbn [free set_free set_buffers buffers]. rewrite seq_S. reflexivity.
Qed.

(** X12: [reset_buffers] empties both queues; on playback it marks every
    buffer as outbound; on capture it puts every buffer on the [free]
    list, in the order of the array, and takes the mark off. Run twice, it
    does what it does run once. *)
Theorem reset_buffers_idempotent (p : pcm) :
  let q := reset_buffers p in
  ready q = []
  /\ free q = match stream (st p) with
              | SND_PCM_STREAM_PLAYBACK => []
              | SND_PCM_STREAM_CAPTURE => seq 0 (length (buffers p))
              end
  /\ length (buffers q) = length (buffers p)
  /\ (forall (i : nat) (b : buffer),
        buffers p !! i = Some b ->
        exists b',
          buffers q !! i = Some b'
          /\ b' = set_b_flags b (b_flags b')
          /\ Z.testbit (b_flags b') 0
             = match stream (st p) with
               | SND_PCM_STREAM_PLAYBACK => true
               | SND_PCM_STREAM_CAPTURE => false
               end
          /\ forall k, 0 < k -> Z.testbit (b_flags b') k = Z.testbit (b_flags b) k)
  /\ st q = st p /\ io q = io p /\ area q = area p /\ trace q = trace p
  /\ reset_buffers q = q.
Proof.
  intros q. unfold q. rewrite !reset_buffers_spec.
  cbn [ready free buffers st io area trace set_buffers set_free set_ready].
  split; [reflexivity|]. split; [reflexivity|]. split; [apply length_map|].
  split.
  { intros i b Hb. eexists. split.
    - change (List.map ?f ?l) with (f <$> l). rewrite list_lookup_fmap, Hb. reflexivity.
    - cbn [b_flags set_b_flags]. split; [reflexivity|].
      unfold SPA_FLAG_SET, SPA_FLAG_UNSET, BUFFER_FLAG_OUT.
      destruct (stream (st p)); split.
      + rewrite Z.lor_spec. apply orb_true_r.
      + intros k Hk. rewrite Z.lor_spec.
        change 1 with (Z.shiftl 1 0). rewrite AlsaFacts.testbit_shiftl_1 by lia.
        destruct (Z.eqb_spec k 0); [lia|]. apply orb_false_r.
      + rewrite Z.land_spec. apply andb_false_r.
      + intros k Hk. rewrite Z.land_spec, Z.lnot_spec by lia.
        change 1 with (Z.shiftl 1 0). rewrite AlsaFacts.testbit_shiftl_1 by lia.
        destruct (Z.eqb_spec k 0); [lia|]. apply andb_true_r. }
  split; [reflexivity|]. split; [reflexivity|]. split; [reflexivity|].
  split; [reflexivity|].
  rewrite length_map, List.map_map. f_equal.
  apply List.map_ext. intros b. unfold set_b_flags. cbn [b_flags b_id b_h d_data d_maxsize
                                                         chunk_offset chunk_size chunk_stride].
  f_equal. unfold SPA_FLAG_SET, SPA_FLAG_UNSET.
  destruct (stream (st p)).
  - rewrite <- Z.lor_assoc, Z.lor_diag. reflexivity.
  - rewrite <- Z.land_assoc, Z.land_diag. reflexivity.
Qed.

Section HandleFacts.

Variable hndl : snd_pcm_t.
Variable update_time : pcm -> Z -> Z -> bool -> Z * pcm.

(** X8: A buffer whose chunk is not a whole number of frames hangs
    [spa_alsa_write]: when the device takes more frames than the chunk
    has whole ones left, the [while] loop copies these and then goes
    round for ever on the rest of the chunk, which it neither copies nor
    drops. The function returns for no bound on the rounds. *)
Theorem spa_alsa_write_spins_on_partial_frame (p : pcm) (sil : Z) (start : bool)
    (i : nat) (rest : list nat) (b : buffer) (res offset frames : Z) :
  let fs := frame_size (st p) in
  let ro := ready_offset p in
  slaved (st p) = false ->
  ready p = i :: rest -> buffers p !! i = Some b ->
  0 < fs < 2 ^ 32 ->
  0 < d_maxsize b < 2 ^ 32 -> Z.of_nat (length (d_data b)) = d_maxsize b ->
  0 <= chunk_offset b -> chunk_size b <= d_maxsize b ->
  chunk_offset b + chunk_size b < 2 ^ 32 ->
  0 <= ro < chunk_size b -> (chunk_size b - ro) mod fs <> 0 ->
  snd_pcm_mmap_begin hndl (trace p) (buffer_frames (st p)) = (res, offset, frames) ->
  0 <= res -> (chunk_size b - ro) / fs < frames -> frames < 2 ^ 64 -> 0 <= offset ->
  (offset + frames) * fs <= Z.of_nat (length (area p)) ->
  Z.of_nat (length (area p)) < 2 ^ 64 ->
  0 <= sil ->
  forall fuel, spa_alsa_write hndl update_time fuel p sil start = OutOfFuel.
Proof.
  intros fs ro Hslaved Hready Hbuf Hfs Hmax Hlen Hoff Hsize Hend Hro Hpartial Hbegin Hres
    Hframes Hfmax Hoffset Harea Hareamax Hsil fuel.
  destruct (play_threshold_frame (st p)) as (Hs1 & Hs2 & Hs3 & _).
  assert (0 <= (chunk_size b - ro) / fs) as Havail by (apply Z.div_pos; lia).
  destruct fuel as [|fuel]; [reflexivity|].
  cbn [spa_alsa_write]. unfold spa_alsa_write_body.
  cbn [st set_st]. rewrite Hs1, Hslaved. cbn [mbind outcome_bind].
  destruct fuel as [|fuel]; [reflexivity|].
  cbn [write_again st set_st trace]. rewrite Hs3, Hbegin.
  destruct (Z.ltb_spec res 0); [lia|].
  rewrite (write_loop_spins _ _ i rest b); try reflexivity;
    cbn [st set_st log set_trace ready buffers ready_offset area
         to_write off written silence];
    rewrite ?Hs2; fold fs ro; try assumption; lia.
Qed.

Lemma to_uint64_add (t a : Z) : to_uint64 (to_uint64 t + a) = to_uint64 (t + a).
Proof. unfold to_uint64. apply Zplus_mod_idemp_l. Qed.

Lemma write_again_counts (fuel : nat) :
  forall (p : pcm) (sil total : Z) (w : passes),
    write_again hndl fuel p sil total = Returns w ->
    match w with
    | Failed res p' =>
        res < 0 /\ st p' = st p /\ alsa_started p' = alsa_started p
        /\ exists l, trace p' = trace p ++ l
    | Written p' written total' =>
        st p' = st p /\ alsa_started p' = alsa_started p
        /\ exists l, trace p' = trace p ++ l /\ total' = to_uint64 (total + committed l)
    end.
Proof.
  induction fuel as [|fuel IH]; intros p sil total w; [discriminate|].
  cbn [write_again].
  destruct (snd_pcm_mmap_begin hndl (trace p) (buffer_frames (st p)))
    as [[res offset] frames].
  destruct (Z.ltb_spec res 0) as [Hneg|_].
  { intros [= <-]. split; [exact Hneg|]. repeat split.
    exists [MmapBegin (buffer_frames (st p))]. reflexivity. }
  destruct (write_loop fuel _ _) as [[p1 v1]| |] eqn:Hloop; try discriminate.
  apply write_loop_frame in Hloop as (Hst & Hstarted & _ & l1 & Htrace & Hc1).
  cbn [st log set_trace trace alsa_started] in Hst, Hstarted, Htrace.
  cbn [mbind outcome_bind].
  set (q := if silence v1 >? 0
            then (log (set_area p1 (snd_pcm_areas_silence hndl (area p1) (off v1)
                                      (channels (st p1)) (silence v1) (st_format (st p1))))
                    (AreasSilence (off v1) (channels (st p1)) (silence v1)
                       (st_format (st p1))),
                  to_uint64 (written v1 + silence v1))
            else (p1, written v1)).
  assert (st q.1 = st p /\ alsa_started q.1 = alsa_started p
          /\ exists l, trace q.1 = trace p ++ l /\ committed l = 0) as (Hst2 & Hstarted2 & l2 & Htrace2 & Hc2).
  { unfold q. destruct (silence v1 >? 0); cbn [fst st log set_trace set_area trace
                                               alsa_started].
    - rewrite Hst, Hstarted, Htrace. repeat split. eexists. rewrite <- !app_assoc.
      split; [reflexivity|]. rewrite !committed_app, Hc1. reflexivity.
    - rewrite Hst, Hstarted, Htrace. repeat split. eexists. rewrite <- !app_assoc.
      split; [reflexivity|]. rewrite !committed_app, Hc1. reflexivity. }
  destruct q as [p2 written2]. cbn [fst] in *.
  set (l3 := l2 ++ [MmapCommit offset written2]).
  assert (trace (log p2 (MmapCommit offset written2)) = trace p ++ l3) as Htrace3.
  { cbn [log set_trace trace]. rewrite Htrace2. unfold l3. rewrite app_assoc. reflexivity. }
  assert (committed l3 = written2) as Hc3.
  { unfold l3. rewrite committed_app, Hc2. cbn. lia. }
  match goal with
  | |- context [if ?c then Returns (Failed ?r ?s) else _] => destruct c eqn:Hfail
  end.
  { intros [= <-]. split.
    - apply andb_prop in Hfail as [Hfail _]. apply andb_prop in Hfail as [Hfail _].
      apply Z.ltb_lt in Hfail. exact Hfail.
    - cbn [st log set_trace alsa_started]. repeat split; try assumption.
      exists l3. exact Htrace3. }
  assert (forall w,
            Returns (Written (log p2 (MmapCommit offset written2)) written2
                       (to_uint64 (total + written2))) = Returns w ->
            match w with
            | Failed res p' =>
                res < 0 /\ st p' = st p /\ alsa_started p' = alsa_started p
                /\ exists l, trace p' = trace p ++ l
            | Written p' written total' =>
                st p' = st p /\ alsa_started p' = alsa_started p
                /\ exists l, trace p' = trace p ++ l
                             /\ total' = to_uint64 (total + committed l)
            end) as Hdone.
  { intros w' [= <-]. cbn [st log set_trace alsa_started]. repeat split; try assumption.
    exists l3. rewrite Hc3. split; [exact Htrace3|reflexivity]. }
  cbn [ready log set_trace].
  destruct (ready p2) as [|i rest]; [apply Hdone|].
  destruct (written2 >? 0); [|apply Hdone].
  intros Hrec. apply IH in Hrec.
  cbn [st log set_trace alsa_started trace] in Hrec.
  destruct w as [res' p'|p' written' total'].
  - destruct Hrec as (Hneg' & Hst' & Hstarted' & l4 & Htrace4).
    rewrite Hst', Hstarted'. repeat split; try assumption.
    exists (l3 ++ l4). rewrite Htrace4. fold (log p2 (MmapCommit offset written2)).
    change (trace p2 ++ [MmapCommit offset written2])
      with (trace (log p2 (MmapCommit offset written2))).
    rewrite Htrace3, app_assoc. reflexivity.
  - destruct Hrec as (Hst' & Hstarted' & l4 & Htrace4 & Htotal).
    rewrite Hst', Hstarted'. repeat split; try assumption.
    exists (l3 ++ l4). split.
    + rewrite Htrace4.
      change (trace p2 ++ [MmapCommit offset written2])
        with (trace (log p2 (MmapCommit offset written2))).
      rewrite Htrace3, app_assoc. reflexivity.
    + rewrite Htotal, to_uint64_add, committed_app, Hc3. f_equal. lia.
Qed.

(** X9: [spa_alsa_write] on a state that is not slaved counts in
    [sample_count] the frames it has passed to [snd_pcm_mmap_commit],
    those of a commit that reports an xrun or a suspend too, modulo
    2^64. It does so when it gets to the end of its passes: when a
    later [snd_pcm_mmap_begin] or [snd_pcm_mmap_commit] fails, the frames
    committed before are not counted. Of the fields of [st] it changes
    [sample_count] and [threshold] only, and it starts the PCM only when
    asked to. *)
Theorem spa_alsa_write_counts_committed_frames (fuel : nat) (p p' : pcm) (sil res : Z)
    (start : bool) :
  slaved (st p) = false ->
  spa_alsa_write hndl update_time fuel p sil start = Returns (res, p') ->
  exists calls,
    trace p' = trace p ++ calls
    /\ res <= 0
    /\ (res = 0 ->
        st p' = set_sample_count (play_threshold (st p))
                  (sample_count (st p) + to_uint64 (committed calls)))
    /\ (res < 0 ->
        st p' = play_threshold (st p)
        \/ (last calls = Some Start
            /\ st p' = set_sample_count (play_threshold (st p))
                         (sample_count (st p) + to_uint64 (committed calls))))
    /\ (alsa_started p' = alsa_started p
        \/ (alsa_started p' = true /\ start = true /\ res = 0 /\ last calls = Some Start)).
Proof.
  intros Hslaved. destruct (play_threshold_frame (st p)) as (Hs1 & _ & _ & Hs4 & _).
  destruct fuel as [|fuel]; [discriminate|].
  cbn [spa_alsa_write]. unfold spa_alsa_write_body.
  cbn [st set_st]. rewrite Hs1, Hslaved. cbn [mbind outcome_bind].
  destruct (write_again hndl fuel _ sil 0) as [w| |] eqn:Hagain; try discriminate.
  apply write_again_counts in Hagain. cbn [st set_st alsa_started trace] in Hagain.
  cbn [mbind outcome_bind].
  destruct w as [res1 p1|p1 written1 total1].
  - destruct Hagain as (Hneg & Hst & Hstarted & l & Htrace).
    intros [= <- <-]. exists l. split; [exact Htrace|]. split; [lia|].
    split; [lia|]. split; [intros _; left; exact Hst|]. left. exact Hstarted.
  - destruct Hagain as (Hst & Hstarted & l & Htrace & Htotal).
    rewrite Z.add_0_l in Htotal. cbn [alsa_started set_st].
    destruct (negb (alsa_started p1) && (written1 >? 0) && start) eqn:Hcond.
    + apply andb_prop in Hcond as [_ Hstart].
      cbn [trace set_st]. rewrite Htrace.
      destruct (Z.ltb_spec (snd_pcm_start hndl (trace p ++ l)) 0) as [Hneg|Hok];
        intros [= <- <-]; exists (l ++ [Start]);
        cbn [trace log set_trace set_st st set_alsa_started alsa_started];
        rewrite Htrace, Hst, Hs4, committed_app, Z.add_0_r, <- Htotal, <- app_assoc.
      * split; [reflexivity|]. split; [lia|]. split; [intros; lia|].
        split; [|left; exact Hstarted].
        intros _. right. split; [apply last_snoc|reflexivity].
      * split; [reflexivity|]. split; [lia|]. split; [intros _; reflexivity|].
        split; [intros; lia|]. right. repeat split; try assumption. apply last_snoc.
    + intros [= <- <-]. exists l.
      cbn [trace set_st st alsa_started]. rewrite Htrace, Hst, Hs4, <- Htotal.
      split; [reflexivity|]. split; [lia|]. split; [intros _; reflexivity|].
      split; [intros; lia|]. left. exact Hstarted.
Qed.

(** X11: With no free buffer the capture transfer reads nothing and still
    commits [threshold] frames, whatever [snd_pcm_mmap_begin] granted:
    the period is dropped in one pass, and counted in [sample_count];
    no buffer, queue or inbox changes and no callback is made. Only a
    commit that fails with another error than an xrun or a suspend
    leaves the handler before the count. *)
Theorem capture_without_free_buffer_drops_period (fuel : nat) (p : pcm)
    (delay res offset granted : Z) :
  let th := threshold (st p) in
  free p = [] -> 0 < th <= delay -> th < 2 ^ 64 ->
  snd_pcm_mmap_begin hndl (trace p) th = (res, offset, granted) -> 0 <= res ->
  let err := snd_pcm_mmap_commit hndl (trace p ++ [MmapBegin th]) offset th in
  let p1 := log (log p (MmapBegin th)) (MmapCommit offset th) in
  capture_transfer hndl (S fuel) p delay
  = Returns (if (err <? 0) && negb (err =? - EPIPE) && negb (err =? - ESTRPIPE)
             then (false, p1)
             else (true, set_st p1 (set_sample_count (st p) (sample_count (st p) + th)))).
Proof.
  intros th Hfree Hth Hmax Hbegin Hres err p1.
  unfold capture_transfer. fold th. rewrite Z.min_r by lia.
  cbn [capture_loop]. destruct (Z.ltb_spec 0 th) as [_|]; [|lia].
  rewrite Z.sub_0_r, (to_uint64_small th) by lia. rewrite Hbegin.
  destruct (Z.ltb_spec res 0) as [|_]; [lia|].
  unfold push_frames. cbn [free log set_trace]. rewrite Hfree.
  cbn [defined mbind outcome_bind].
  change (threshold (st (log p (MmapBegin th)))) with th.
  change (trace (log p (MmapBegin th))) with (trace p ++ [MmapBegin th]).
  fold err p1.
  destruct ((err <? 0) && negb (err =? - EPIPE) && negb (err =? - ESTRPIPE)).
  { reflexivity. }
  rewrite Z.add_0_l, (to_uint64_small th) by lia.
  assert (forall to_read q, to_read <= th ->
            capture_loop hndl fuel q to_read th = Returns (true, q, th)) as Hend.
  { intros to_read q Hle. destruct fuel; cbn [capture_loop];
      destruct (Z.ltb_spec th to_read); try lia; reflexivity. }
  rewrite Hend by (destruct (th <? granted); lia).
  reflexivity.
Qed.

Lemma set_swparams_trace (p p' : pcm) (err : Z) :
  set_swparams hndl p = (err, p') ->
  exists l,
    p' = set_trace p (trace p ++ l)
    /\ (err < 0 \/ err = 0)
    /\ (l = [SwParamsCurrent]
        \/ l = [SwParamsCurrent; SwParamsSetTstampMode]
        \/ l = [SwParamsCurrent; SwParamsSetTstampMode; SwParamsSetStartThreshold]
        \/ l = [SwParamsCurrent; SwParamsSetTstampMode; SwParamsSetStartThreshold;
                SwParamsSetPeriodEvent]
        \/ l = [SwParamsCurrent; SwParamsSetTstampMode; SwParamsSetStartThreshold;
                SwParamsSetPeriodEvent; SwParams]).
Proof.
  destruct p as [s a m c pc bs fr rd ro i ar tr].
  unfold set_swparams, log, set_trace.
  cbn [trace st alsa_started min_latency clock position_clock buffers free ready
       ready_offset io area].
  repeat match goal with
         | |- (if ?x <? 0 then _ else _) = _ -> _ =>
             destruct (Z.ltb_spec x 0);
               [cbv beta iota; intros [= <- <-]; eexists;
                (split; [rewrite <- ?app_assoc; cbn [app]; reflexivity|]);
                (split; [left; assumption|]); eauto 10
               |cbv beta iota]
         end.
  intros [= <- <-]. eexists.
  split; [rewrite <- ?app_assoc; cbn [app]; reflexivity|].
  split; [right; reflexivity|]. eauto 10.
Qed.

(** X13: A capture start that fails in [snd_pcm_start] leaves the state
    not started, so that [spa_alsa_pause] returns at once and changes
    nothing. When the stream follows its own clock (it is not slaved) the
    timer source has been added to the data loop by then, and nothing
    removes it; when it is slaved no source was added. *)
Theorem failed_capture_start_leaves_source (fuel : nat) (p p1 : pcm) (t : timespec)
    (res : Z) :
  stream (st p) = SND_PCM_STREAM_CAPTURE -> started (st p) = false ->
  spa_alsa_start hndl update_time fuel p t = Returns (res, p1) ->
  res < 0 -> last (trace p1) = Some Start ->
  let slave := match position (st p), clock p with
               | Some _, Some id => negb ((position_clock p).1.1 =? id)
               | _, _ => false
               end in
  exists calls,
    trace p1 = trace p ++ calls
    /\ slaved (st p1) = slave
    /\ (slave = false -> In (AddSource SND_PCM_STREAM_CAPTURE) calls)
    /\ (slave = true -> forall s, ~ In (AddSource s) calls)
    /\ ~ In RemoveSource calls
    /\ started (st p1) = false
    /\ spa_alsa_pause p1 = (0, p1).
Proof.
  intros Hstream Hstarted. unfold spa_alsa_start. rewrite Hstarted.
  set (p0 := match position _, clock _ with
             | Some _, Some id => _
             | _, _ => _
             end).
  assert (trace p0 = trace p /\ stream (st p0) = SND_PCM_STREAM_CAPTURE
          /\ started (st p0) = false
          /\ slaved (st p0) = match position (st p), clock p with
                              | Some _, Some id => negb ((position_clock p).1.1 =? id)
                              | _, _ => false
                              end) as (Ht0 & Hs0 & Hst0 & Hsl0).
  { unfold p0. cbn [st set_st position set_threshold set_slaved clock position_clock].
    repeat case_match;
      cbn [trace set_st st stream started slaved set_slaved set_threshold];
      repeat split; try assumption; try reflexivity. }
  clearbody p0.
  destruct (set_swparams hndl p0) as [err pa] eqn:Hsw0.
  destruct (set_swparams_trace p0 pa err Hsw0) as (l & -> & Herr & Hl).
  assert (forall x, In x l -> x <> Start /\ x <> RemoveSource
                    /\ forall s, x <> AddSource s) as Hsw.
  { intros x Hx.
    destruct Hl as [-> | [-> | [-> | [-> | ->]]]]; cbn in Hx;
      repeat (destruct Hx as [<-|Hx]; [repeat split; try discriminate; intros s; discriminate|]);
      destruct Hx. }
  assert (l <> []) as Hne by (destruct Hl as [-> | [-> | [-> | [-> | ->]]]]; discriminate).
  destruct (Z.ltb_spec err 0) as [Hneg|Hok].
  { intros [= <- <-] _ Hlast. exfalso. cbn [trace set_trace] in Hlast.
    rewrite last_app in Hlast. destruct (last l) as [x|] eqn:Hx.
    - injection Hlast as ->. apply last_Some_elem_of, list_elem_of_In in Hx.
      destruct (Hsw _ Hx) as [H _]. apply H. reflexivity.
    - apply last_None in Hx. contradiction. }
  cbn [log trace set_trace st].
  match goal with
  | |- context [snd_pcm_prepare hndl ?tr <? 0] =>
      destruct (Z.ltb_spec (snd_pcm_prepare hndl tr) 0) as [Hneg|_]
  end.
  { intros [= <- <-] _ Hlast. exfalso. unfold log in Hlast.
    cbn [trace set_trace] in Hlast. rewrite last_snoc in Hlast. discriminate. }
  set (p2 := if negb (slaved (st _)) then _ else _).
  assert (st p2 = st p0
          /\ trace p2 = trace p0 ++ l ++ [Dump; Prepare]
                        ++ (if slaved (st p0) then [] else [AddSource SND_PCM_STREAM_CAPTURE]))
    as (Hst2 & Ht2).
  { unfold p2. cbn [st set_trace]. destruct (slaved (st p0)); cbn [negb];
      cbn [st trace set_trace log]; rewrite <- ?app_assoc; cbn [app];
      rewrite ?Hs0; split; reflexivity. }
  clearbody p2.
  assert (st (reset_buffers p2) = st p2 /\ trace (reset_buffers p2) = trace p2)
    as (Hst3 & Ht3) by (rewrite reset_buffers_spec; split; reflexivity).
  rewrite Hst3, Hst2, Hs0. rewrite Ht3.
  match goal with
  | |- context [snd_pcm_start hndl ?tr <? 0] =>
      destruct (Z.ltb_spec (snd_pcm_start hndl tr) 0) as [Hneg|_]
  end.
  - cbn [mbind outcome_bind]. intros [= <- <-] _ _. cbv zeta.
    rewrite <- Hsl0.
    cbn [st log set_trace trace] in *.
    rewrite Ht3, Ht2, Ht0, Hst3, Hst2, <- !app_assoc.
    assert (In RemoveSource l -> False) as Hn.
    { intros Hin. destruct (Hsw _ Hin) as (_ & Hr & _). apply Hr. reflexivity. }
    assert (forall s, In (AddSource s) l -> False) as Ha.
    { intros s Hin. destruct (Hsw _ Hin) as (_ & _ & Hr). apply (Hr s). reflexivity. }
    eexists. split; [reflexivity|].
    split; [reflexivity|].
    split.
    { intros Hs. rewrite Hs. rewrite !in_app_iff. right. cbn. tauto. }
    split.
    { intros Hs s H. rewrite Hs in H. rewrite ?in_app_iff in H. cbn [In] in H.
      destruct H as [H|[[H|[H|[]]]|[[]|[H|[]]]]]; try discriminate.
      exact (Ha s H). }
    split.
    { intros H. rewrite ?in_app_iff in H. cbn [In] in H.
      destruct (slaved (st p0)); cbn [In] in H; intuition discriminate. }
    split; [exact Hst0|].
    unfold spa_alsa_pause. cbn [st log set_trace]. rewrite Hst3, Hst2, Hst0. reflexivity.
  - cbn [mbind outcome_bind].
    match goal with
    | |- context [io ?q] => destruct (io q)
    end; [|discriminate].
    intros [= <- <-] Hres. lia.
Qed.

End HandleFacts.

End StreamFacts.

Module StreamWitnesses.
Import Alsa AlsaStream StreamExamples StreamFacts.
Local Open Scope Z_scope.

Lemma ready_ok_example_pcm : ready_ok example_pcm.
Proof.
  unfold ready_ok. cbn [st example_pcm frame_size example_state ready buffers ready_offset io].
  split; [lia|]. split.
  { repeat constructor; eexists; (split; [reflexivity|]); unfold buffer_ok; cbn;
      repeat split; lia. }
  split; [lia|]. split; [reflexivity|]. split; [|discriminate].
  intros i b [= <-] [= <-]. cbn. lia.
Qed.

Lemma write_loop_copies_queue_in_order_witness :
  exists p',
    write_loop 2 example_pcm {| to_write := 3; off := 1; written := 0; silence := 0 |}
    = Returns (p', {| to_write := 0; off := 4; written := 3; silence := 0 |})
    /\ take 16 (area p')
       = [Byte.x00; Byte.x00; Byte.x00; Byte.x00;
          Byte.x05; Byte.x06; Byte.x07; Byte.x08; Byte.x01; Byte.x02; Byte.x03; Byte.x04;
          Byte.x05; Byte.x06; Byte.x07; Byte.x08]
    /\ queued p' = [Byte.x01; Byte.x02; Byte.x03; Byte.x04].
Proof.
  destruct (write_loop_copies_queue_in_order 2 example_pcm
              {| to_write := 3; off := 1; written := 0; silence := 0 |}
              ready_ok_example_pcm)
    as (p' & Hloop & _); cbn; try lia.
  vm_compute in Hloop. injection Hloop as <-.
  eexists. split; [vm_compute; reflexivity|]. split; vm_compute; reflexivity.
Defined.

Lemma spa_alsa_write_spins_on_partial_frame_witness :
  spa_alsa_write example_hndl example_update_time 1000 partial_pcm 0 true = OutOfFuel.
Proof.
  apply (spa_alsa_write_spins_on_partial_frame example_hndl example_update_time
           partial_pcm 0 true 0%nat [1%nat] (example_buffer 7 6) 0 0 8);
    cbn; try reflexivity; try lia; discriminate.
Defined.

Lemma spa_alsa_write_counts_committed_frames_witness :
  exists p',
    spa_alsa_write example_hndl example_update_time 5 example_pcm 0 true = Returns (0, p')
    /\ trace p' = [MmapBegin 16384; ReuseBuffer 0 7; ReuseBuffer 0 9; MmapCommit 0 4; Start]
    /\ sample_count (st p') = 4.
Proof.
  destruct (spa_alsa_write example_hndl example_update_time 5 example_pcm 0 true)
    as [[res p']| |] eqn:Hrun; try (vm_compute in Hrun; discriminate).
  assert (res = 0) as -> by (vm_compute in Hrun; congruence).
  exists p'. split; [reflexivity|].
  destruct (spa_alsa_write_counts_committed_frames example_hndl example_update_time 5
              example_pcm p' 0 0 true eq_refl Hrun)
    as (calls & Htrace & _ & Hcount & _).
  assert (calls = [MmapBegin 16384; ReuseBuffer 0 7; ReuseBuffer 0 9; MmapCommit 0 4; Start])
    as Hcalls.
  { vm_compute in Hrun. injection Hrun as <-. cbn in Htrace. symmetry. exact Htrace. }
  split; [rewrite Htrace, Hcalls; reflexivity|].
  rewrite (Hcount eq_refl), Hcalls. reflexivity.
Defined.

Lemma push_frames_stores_whole_frames_witness :
  exists p' b',
    push_frames capture_pcm 1 3 = Some (2, p')
    /\ buffers p' = [b']
    /\ d_data b' = [Byte.x14; Byte.x15; Byte.x16; Byte.x17;
                    Byte.x18; Byte.x19; Byte.x1a; Byte.x1b]
    /\ chunk_size b' = 8
    /\ buffer_ok 4 b'
    /\ io p' = Some {| io_status := SPA_STATUS_HAVE_BUFFER; io_buffer_id := 7 |}.
Proof.
  destruct (push_frames_stores_whole_frames capture_pcm 1 3 0%nat [] (example_buffer 7 0))
    as (p' & b' & Hpush & _ & Hbufs & _ & _ & _ & Hsize & _ & _ & _ & Hdata & _ & Hok
        & Hio & _); cbn; try reflexivity; try lia.
  exists p', b'. split; [exact Hpush|]. split; [exact Hbufs|].
  split; [rewrite Hdata; reflexivity|]. split; [exact Hsize|].
  split; [apply Hok; reflexivity|]. apply Hio.
Defined.

Lemma capture_without_free_buffer_drops_period_witness :
  exists p',
    capture_transfer example_hndl 3 starved_pcm 2000 = Returns (true, p')
    /\ trace p' = [MmapBegin 1024; MmapCommit 0 1024]
    /\ sample_count (st p') = 1024.
Proof.
  eexists. split.
  - apply (capture_without_free_buffer_drops_period example_hndl 2 starved_pcm 2000 0 0 8);
      cbn; try reflexivity; lia.
  - split; reflexivity.
Defined.

Lemma failed_capture_start_leaves_source_witness :
  exists p1 calls,
    spa_alsa_start failing_hndl example_update_time 3 capture_pcm example_time
    = Returns (- EPIPE, p1)
    /\ trace p1 = calls
    /\ slaved (st p1) = false
    /\ In (AddSource SND_PCM_STREAM_CAPTURE) calls
    /\ started (st p1) = false
    /\ spa_alsa_pause p1 = (0, p1).
Proof.
  destruct (spa_alsa_start failing_hndl example_update_time 3 capture_pcm example_time)
    as [[res p1]| |] eqn:Hrun; try (vm_compute in Hrun; discriminate).
  assert (res = - EPIPE) as -> by (vm_compute in Hrun; injection Hrun as <- _; reflexivity).
  destruct (failed_capture_start_leaves_source failing_hndl example_update_time 3
              capture_pcm p1 example_time (- EPIPE) eq_refl eq_refl Hrun)
    as (calls & Htrace & Hslaved & Hin & _ & _ & Hstarted & Hpause).
  - reflexivity.
  - vm_compute in Hrun. injection Hrun as <-. reflexivity.
  - exists p1, calls. repeat split; try assumption. apply Hin. reflexivity.
Defined.

End StreamWitnesses.

Module ServerFacts.
Import ProtocolNative ServerTactics.
Local Open Scope Z_scope.

Lemma activation_fd_listed w path fd :
  activation_fd w path = Some fd -> exists e, In e (listen_fds w) /\ e.1 = fd /\ e.2 = path.
Proof.
  unfold activation_fd.
  destruct (List.find _ _) as [e|] eqn:Hf; [|discriminate].
  intros [= <-]. apply List.find_some in Hf as [Hin Heq].
  apply String.eqb_eq in Heq. eauto.
Qed.

Lemma lock_path_differs (p : string) : (p +:+ LOCK_SUFFIX)%string <> p.
Proof. induction p as [|a p IH]; [discriminate|]. cbn. intros [= H]. exact (IH H). Qed.

Lemma init_socket_name_cases w s name :
  (exists s', init_socket_name w s name = (false, s')
              /\ fd_lock s' = fd_lock s /\ lock_addr s' = lock_addr s
              /\ source s' = source s /\ (sun_path s = EmptyString -> sun_path s' = EmptyString)
              /\ (xdg_runtime_dir w = None
                  \/ exists dir, xdg_runtime_dir w = Some dir
                       /\ UNIX_PATH_MAX
                          <= Z.of_nat (String.length (dir +:+ "/" +:+ name)%string)))
  \/ (exists dir, xdg_runtime_dir w = Some dir
        /\ Z.of_nat (String.length (dir +:+ "/" +:+ name)%string) < UNIX_PATH_MAX
        /\ init_socket_name w s name
           = (true, {| fd_lock := fd_lock s; sun_path := (dir +:+ "/" +:+ name)%string;
                       lock_addr := lock_addr s; activated := activated s;
                       source := source s; hooked := hooked s |})).
Proof.
  unfold init_socket_name. destruct (xdg_runtime_dir w) as [dir|].
  - destruct (Z.gtb_spec (Z.of_nat (String.length (dir +:+ "/" +:+ name)%string) + 1)
                UNIX_PATH_MAX).
    + left. eexists. split; [reflexivity|]. cbn. repeat split; try tauto.
      right. exists dir. split; [reflexivity|lia].
    + right. exists dir. split; [reflexivity|]. split; [lia|reflexivity].
  - left. eexists. split; [reflexivity|]. repeat split; tauto.
Qed.

(** [destroy_server] on a server that holds its lock. *)
Lemma destroy_locked_server (m : os) (fd : Z) (path : string) (act : bool) (src : option Z)
    (h : bool) :
  fd <> -1 ->
  destroy_server m
    {| fd_lock := fd; sun_path := path; lock_addr := (path +:+ LOCK_SUFFIX)%string;
       activated := act; source := src; hooked := h |}
  = sys_close
      (sys_unlink
         (let m := match src with Some f => sys_close m f | None => m end in
          if first_char path && negb act then sys_unlink m path else m)
         (path +:+ LOCK_SUFFIX)%string) fd.
Proof.
  intros Hfd. unfold destroy_server. cbn [source sun_path activated lock_addr fd_lock].
  replace (first_char (path +:+ LOCK_SUFFIX)%string) with true
    by (destruct path; reflexivity).
  destruct (Z.eqb_spec fd (-1)); [contradiction|]. reflexivity.
Qed.

(** X14: [impl_add_server] leaks no descriptor when it fails: where the
    descriptors from [next_fd] on are unused, a start that returns no
    server has closed the lock descriptor and the socket it opened
    again, whichever step failed. The table of open descriptors is as
    it found it, except that the descriptor inherited by socket
    activation is closed when [pw_loop_add_io] fails on it. *)
Theorem add_server_failure_closes_descriptors (w w' : os) (core_name : option string) :
  0 <= next_fd w ->
  (forall fd, next_fd w <= fd -> open_fds w !! fd = None) ->
  impl_add_server w core_name = (None, w') ->
  open_fds w' = open_fds w
  \/ (exists dir afd,
        xdg_runtime_dir w = Some dir
        /\ activation_fd w (dir +:+ "/" +:+ get_name w core_name)%string = Some afd
        /\ add_io_ok w = false
        /\ open_fds w' = delete afd (open_fds w)).
Proof.
  intros Hfd Hfresh.
  assert (open_fds w !! next_fd w = None) as H0 by (apply Hfresh; lia).
  assert (open_fds w !! (next_fd w + 1) = None) as H1 by (apply Hfresh; lia).
  unfold impl_add_server.
  destruct (init_socket_name_cases w
              {| fd_lock := -1; sun_path := EmptyString; lock_addr := EmptyString;
                 activated := false; source := None; hooked := false |}
              (get_name w core_name))
    as [(s' & -> & Hl & Ha & Hs & Hp & _)|(dir & Hdir & _ & ->)].
  { cbn [negb]. intros [= <-]. left. unfold destroy_server.
    cbn in Hl, Ha, Hs, Hp. rewrite Hs, Ha, Hl, Hp by reflexivity. reflexivity. }
  cbn [negb]. unfold lock_socket. cbn [sun_path activated source hooked].
  set (path := (dir +:+ "/" +:+ get_name w core_name)%string).
  unfold sys_open.
  destruct (bool_decide _).
  { cbn. intros [= <-]. left. reflexivity. }
  rewrite (proj2 (Z.ltb_ge _ _) Hfd).
  unfold sys_flock. os_fields. rewrite lookup_insert_eq.
  destruct (bool_decide _).
  { cbn. intros [= <-]. cbn. left. same_fds. }
  cbn [Z.ltb Z.compare negb].
  unfold add_socket. os_fields.
  destruct (activation_fd _ path) as [afd|] eqn:Hafd.
  { unfold activation_fd in Hafd. os_fields.
    fold (activation_fd w path) in Hafd.
    destruct (add_io_ok w) eqn:Hio; [intros [=]|].
    cbn [negb]. intros [= <-]. right. exists dir, afd.
    split; [exact Hdir|]. split; [exact Hafd|]. split; [reflexivity|].
    rewrite destroy_locked_server by lia.
    destruct (first_char path && negb true); os_fields; same_fds. }
  unfold sys_socket. os_fields.
  destruct (socket_ok w).
  2:{ cbn [Z.ltb Z.compare negb]. intros [= <-]. left.
      rewrite destroy_locked_server by lia.
      destruct (first_char path && negb false); os_fields; same_fds. }
  os_fields. destruct (Z.ltb_spec (next_fd w + 1) 0); [lia|].
  unfold sys_bind. os_fields.
  destruct (bool_decide _).
  { cbn [Z.ltb Z.compare negb]. intros [= <-]. left.
    rewrite destroy_locked_server by lia.
    destruct (first_char path && negb false); os_fields; same_fds. }
  cbn [Z.ltb Z.compare negb]. unfold sys_listen. os_fields.
  destruct (listen_ok w).
  2:{ cbn [Z.ltb Z.compare negb]. intros [= <-]. left.
      rewrite destroy_locked_server by lia.
      destruct (first_char path && negb false); os_fields; same_fds. }
  cbn [Z.ltb Z.compare negb]. destruct (add_io_ok w); [intros [=]|].
  cbn [negb]. intros [= <-]. left. rewrite destroy_locked_server by lia.
  destruct (first_char path && negb false); os_fields; same_fds.
Qed.

(** How [impl_add_server] succeeds: by adopting the activation descriptor,
    or by binding a socket of its own. *)
Lemma add_server_success (w w' : os) (core_name : option string) (s : server) :
  impl_add_server w core_name = (Some s, w') ->
  exists dir,
    let path := (dir +:+ "/" +:+ get_name w core_name)%string in
    let lock := (path +:+ LOCK_SUFFIX)%string in
    xdg_runtime_dir w = Some dir
    /\ Z.of_nat (String.length path) < UNIX_PATH_MAX
    /\ (lock ∉ open_refused w) /\ (lock ∉ locked w) /\ 0 <= next_fd w
    /\ add_io_ok w = true
    /\ ((exists afd,
           activation_fd w path = Some afd
           /\ s = {| fd_lock := next_fd w; sun_path := path; lock_addr := lock;
                     activated := true; source := Some afd; hooked := true |}
           /\ open_fds w' = <[next_fd w := lock]> (open_fds w)
           /\ files w' = {[lock]} ∪ files w
           /\ syscalls w' = syscalls w ++ [SysOpen lock; SysFlock (next_fd w)])
        \/ (activation_fd w path = None
            /\ socket_ok w = true /\ listen_ok w = true /\ (path ∉ files w)
            /\ s = {| fd_lock := next_fd w; sun_path := path; lock_addr := lock;
                      activated := false; source := Some (next_fd w + 1); hooked := true |}
            /\ open_fds w'
               = <[next_fd w + 1 := EmptyString]> (<[next_fd w := lock]> (open_fds w))
            /\ files w' = {[path]} ∪ ({[lock]} ∪ files w)
            /\ syscalls w'
               = syscalls w ++ [SysOpen lock; SysFlock (next_fd w); SysSocket;
                                SysBind (next_fd w + 1) path; SysListen (next_fd w + 1)])).
Proof.
  unfold impl_add_server.
  destruct (init_socket_name_cases w
              {| fd_lock := -1; sun_path := EmptyString; lock_addr := EmptyString;
                 activated := false; source := None; hooked := false |}
              (get_name w core_name))
    as [(s' & -> & _)|(dir & Hdir & Hlen & ->)]; [intros [=]|].
  cbn [negb]. unfold lock_socket. cbn [sun_path activated source hooked].
  set (path := (dir +:+ "/" +:+ get_name w core_name)%string).
  set (lock := (path +:+ LOCK_SUFFIX)%string).
  unfold sys_open.
  destruct (bool_decide_reflect (lock ∈ open_refused w)) as [|Hopen]; [cbn; intros [=]|].
  destruct (Z.ltb_spec (next_fd w) 0) as [|Hfd]; [cbn; intros [=]|].
  unfold sys_flock. os_fields. rewrite lookup_insert_eq.
  destruct (bool_decide_reflect (lock ∈ locked w)) as [|Hlocked]; [cbn; intros [=]|].
  cbn [Z.ltb Z.compare negb].
  unfold add_socket. os_fields.
  intros H. exists dir. cbv zeta. fold path lock.
  split; [exact Hdir|]. split; [exact Hlen|]. split; [exact Hopen|].
  split; [exact Hlocked|]. split; [exact Hfd|].
  revert H.
  destruct (activation_fd _ path) as [afd|] eqn:Hafd.
  { unfold activation_fd in Hafd. os_fields. fold (activation_fd w path) in Hafd.
    destruct (add_io_ok w); [|intros [=]].
    cbn [negb]. intros [= <- <-]. split; [reflexivity|]. left. exists afd.
    os_fields. rewrite <- ?app_assoc. repeat split; try reflexivity. }
  unfold activation_fd in Hafd. os_fields. fold (activation_fd w path) in Hafd.
  unfold sys_socket. os_fields.
  destruct (socket_ok w); [|cbn; intros [=]].
  os_fields. destruct (Z.ltb_spec (next_fd w + 1) 0); [lia|].
  unfold sys_bind. os_fields.
  destruct (bool_decide_reflect (path ∈ {[lock]} ∪ files w)) as [|Hbind]; [cbn; intros [=]|].
  cbn [Z.ltb Z.compare negb]. unfold sys_listen. os_fields.
  destruct (listen_ok w); [|cbn; intros [=]].
  cbn [Z.ltb Z.compare negb]. destruct (add_io_ok w); [|intros [=]].
  cbn [negb]. intros [= <- <-]. split; [reflexivity|]. right.
  os_fields. rewrite <- ?app_assoc.
  repeat split; try reflexivity. same_files.
Qed.

(** X15: A server that [impl_add_server] returns holds the lock: its lock
    path is the socket path followed by [.lock], nobody held the lock
    before, and the lock descriptor is open on the lock file, which
    exists. Its socket has a source on the loop and the drain hook is
    in place. A socket it bound itself was not there before and is there
    now; a socket it was passed costs no system call beyond the [open]
    and the [flock] of the lock. *)
Theorem add_server_success_holds_lock (w w' : os) (core_name : option string) (s : server) :
  impl_add_server w core_name = (Some s, w') ->
  lock_addr s = (sun_path s +:+ LOCK_SUFFIX)%string
  /\ (lock_addr s ∉ locked w)
  /\ fd_lock s <> -1
  /\ open_fds w' !! fd_lock s = Some (lock_addr s)
  /\ (lock_addr s ∈ files w')
  /\ source s <> None
  /\ hooked s = true
  /\ (activated s = false -> (sun_path s ∉ files w) /\ (sun_path s ∈ files w'))
  /\ (activated s = true ->
      syscalls w' = syscalls w ++ [SysOpen (lock_addr s); SysFlock (fd_lock s)]).
Proof.
  intros H. apply add_server_success in H as (dir & Hdir & Hlen & Hopen & Hlocked & Hfd & Hio & H).
  cbv zeta in H.
  destruct H as [(afd & Hafd & -> & Hfds & Hfiles & Hcalls)
                |(Hafd & Hsock & Hlisten & Hbind & -> & Hfds & Hfiles & Hcalls)];
    cbn [fd_lock sun_path lock_addr activated source hooked];
    rewrite Hfds, Hfiles, Hcalls.
  - split; [reflexivity|]. split; [exact Hlocked|]. split; [lia|].
    split; [apply lookup_insert_eq|]. split; [same_files|]. split; [discriminate|].
    split; [reflexivity|]. split; [discriminate|].
    intros _. reflexivity.
  - split; [reflexivity|]. split; [exact Hlocked|]. split; [lia|].
    split; [rewrite lookup_insert_ne by lia; apply lookup_insert_eq|].
    split; [same_files|]. split; [discriminate|].
    split; [reflexivity|]. split; [|discriminate].
    intros _. split; [exact Hbind|same_files].
Qed.

(** X16: [impl_add_server] followed by [destroy_server] leaves nothing of
    its own behind: the lock file is gone and the lock descriptor closed.
    For a socket it bound itself the socket file is gone as well and the
    open descriptors are those from before the start; for a socket
    passed in by socket activation the file is left alone, and the
    inherited descriptor, which the server adopted, is closed. *)
Theorem add_then_destroy_server (w w' : os) (core_name : option string) (s : server) :
  (forall fd, next_fd w <= fd -> open_fds w !! fd = None) ->
  impl_add_server w core_name = (Some s, w') ->
  (lock_addr s ∉ files (destroy_server w' s))
  /\ (activated s = false ->
      open_fds (destroy_server w' s) = open_fds w
      /\ files (destroy_server w' s) = files w ∖ {[sun_path s]} ∖ {[lock_addr s]})
  /\ (activated s = true ->
      exists afd,
        source s = Some afd /\ activation_fd w (sun_path s) = Some afd
        /\ open_fds (destroy_server w' s) = delete afd (open_fds w)
        /\ files (destroy_server w' s) = files w ∖ {[lock_addr s]}).
Proof.
  intros Hfresh H.
  apply add_server_success in H as (dir & Hdir & Hlen & Hopen & Hlocked & Hfd & Hio & H).
  cbv zeta in H.
  assert (open_fds w !! next_fd w = None) as H0 by (apply Hfresh; lia).
  assert (open_fds w !! (next_fd w + 1) = None) as H1 by (apply Hfresh; lia).
  destruct H as [(afd & Hafd & -> & Hfds & Hfiles & Hcalls)
                |(Hafd & Hsock & Hlisten & Hbind & -> & Hfds & Hfiles & Hcalls)];
    rewrite destroy_locked_server by lia; cbn [sun_path lock_addr activated source].
  - rewrite andb_false_r. os_fields. rewrite Hfds, Hfiles.
    split; [same_files|]. split; [discriminate|].
    intros _. exists afd. split; [reflexivity|]. split; [exact Hafd|].
    split; [same_fds|same_files].
  - replace (first_char (dir +:+ "/" +:+ get_name w core_name)%string) with true
      by (destruct dir; reflexivity).
    cbn [andb negb]. os_fields. rewrite Hfds, Hfiles.
    split; [same_files|]. split; [|discriminate].
    intros _. split; [same_fds|same_files].
Qed.

(** The start of [impl_add_server] when the lock can be taken. *)
Lemma add_server_locked (w : os) (core_name : option string) (dir : string) :
  xdg_runtime_dir w = Some dir ->
  let path := (dir +:+ "/" +:+ get_name w core_name)%string in
  let lock := (path +:+ LOCK_SUFFIX)%string in
  Z.of_nat (String.length path) < UNIX_PATH_MAX ->
  lock ∉ open_refused w -> lock ∉ locked w -> 0 <= next_fd w ->
  impl_add_server w core_name
  = let s := {| fd_lock := next_fd w; sun_path := path; lock_addr := lock;
                activated := false; source := None; hooked := false |} in
    let w1 := os_update (os_update w ({[lock]} ∪ files w) (<[next_fd w := lock]> (open_fds w))
                           (next_fd w + 1) (SysOpen lock))
                ({[lock]} ∪ files w) (<[next_fd w := lock]> (open_fds w)) (next_fd w + 1)
                (SysFlock (next_fd w)) in
    let '(ok, s, w) := add_socket w1 s in
    if negb ok then (None, destroy_server w s)
    else (Some {| fd_lock := fd_lock s; sun_path := sun_path s; lock_addr := lock_addr s;
                  activated := activated s; source := source s; hooked := true |}, w).
Proof.
  intros Hdir path lock Hlen Hopen Hlocked Hfd.
  unfold impl_add_server, init_socket_name. rewrite Hdir. fold path.
  destruct (Z.gtb_spec (Z.of_nat (String.length path) + 1) UNIX_PATH_MAX) as [|_]; [lia|].
  cbn [negb]. unfold lock_socket. cbn [sun_path activated source hooked]. fold lock.
  unfold sys_open. rewrite bool_decide_eq_false_2 by exact Hopen.
  rewrite (proj2 (Z.ltb_ge _ _) Hfd).
  unfold sys_flock, os_update at 1. cbn [open_fds locked].
  rewrite lookup_insert_eq. rewrite bool_decide_eq_false_2 by exact Hlocked.
  cbn [Z.ltb Z.compare negb]. reflexivity.
Qed.

(** X17: A stale socket file heals itself: with nobody holding the lock
    and the socket file of a dead daemon still there, [impl_add_server]
    fails at [bind], and, destroying the server, unlinks the socket file
    and the lock file and closes both descriptors; the next
    [impl_add_server] then succeeds on the same path with a socket of
    its own. *)
Theorem stale_socket_removed_then_retry (w : os) (core_name : option string) (dir : string) :
  xdg_runtime_dir w = Some dir ->
  let path := (dir +:+ "/" +:+ get_name w core_name)%string in
  let lock := (path +:+ LOCK_SUFFIX)%string in
  Z.of_nat (String.length path) < UNIX_PATH_MAX ->
  lock ∉ open_refused w -> lock ∉ locked w -> 0 <= next_fd w ->
  activation_fd w path = None ->
  socket_ok w = true -> listen_ok w = true -> add_io_ok w = true ->
  path ∈ files w ->
  exists w',
    impl_add_server w core_name = (None, w')
    /\ syscalls w'
       = syscalls w ++ [SysOpen lock; SysFlock (next_fd w); SysSocket;
                        SysBind (next_fd w + 1) path; SysClose (next_fd w + 1);
                        SysUnlink path; SysUnlink lock; SysClose (next_fd w)]
    /\ files w' = files w ∖ {[path]} ∖ {[lock]}
    /\ exists s w'',
         impl_add_server w' core_name = (Some s, w'')
         /\ sun_path s = path /\ activated s = false.
Proof.
  intros Hdir path lock Hlen Hopen Hlocked Hfd Hafd Hsock Hlisten Hio Hstale.
  assert (first_char path = true) as Hfc by (destruct dir; reflexivity).
  assert (get_name_same : forall w0 : os, pipewire_core w0 = pipewire_core w ->
            get_name w0 core_name = get_name w core_name).
  { intros w0 H0. unfold get_name. rewrite H0. reflexivity. }
  rewrite (add_server_locked w core_name dir Hdir Hlen Hopen Hlocked Hfd).
  fold path lock. cbv zeta.
  unfold add_socket. unfold activation_fd in *. os_fields. rewrite Hafd.
  unfold sys_socket. os_fields. rewrite Hsock. os_fields.
  destruct (Z.ltb_spec (next_fd w + 1) 0); [lia|].
  unfold sys_bind. os_fields.
  rewrite bool_decide_eq_true_2 by (clear -Hstale; same_files).
  cbn [Z.ltb Z.compare negb].
  rewrite destroy_locked_server by lia. rewrite Hfc. cbn [andb negb].
  eexists. split; [reflexivity|]. os_fields.
  split; [rewrite <- ?app_assoc; reflexivity|].
  split; [same_files|].
  match goal with |- context [impl_add_server ?w1 _] => set (w1' := w1) end.
  assert (get_name w1' core_name = get_name w core_name) as Hname by reflexivity.
  rewrite (add_server_locked w1' core_name dir Hdir);
    rewrite ?Hname; fold path lock;
    [|exact Hlen|exact Hopen|exact Hlocked|unfold w1'; os_fields; lia].
  cbv zeta. unfold w1'.
  unfold add_socket. unfold activation_fd in *. os_fields. rewrite Hafd.
  unfold sys_socket. os_fields. rewrite Hsock. os_fields.
  destruct (Z.ltb_spec (next_fd w + 1 + 1 + 1) 0); [lia|].
  unfold sys_bind. os_fields.
  pose proof (lock_path_differs path) as Hne. fold lock in Hne.
  rewrite bool_decide_eq_false_2 by (clear -Hne; same_files).
  cbn [Z.ltb Z.compare negb]. unfold sys_listen. os_fields. rewrite Hlisten, Hio.
  cbn [Z.ltb Z.compare negb].
  eexists _, _. split; [reflexivity|]. split; reflexivity.
Qed.

(** X18: Socket activation: when a descriptor was passed in for the socket
    path, [impl_add_server] adopts it as the server's source without a
    [socket], [bind] or [listen] of its own, the only system calls being
    the [open] and [flock] of the lock; [destroy_server] then closes the
    descriptor, unlinks the lock file and closes the lock, and does not
    unlink the socket path. *)
Theorem activated_socket_is_adopted (w : os) (core_name : option string) (dir : string)
    (fd : Z) :
  xdg_runtime_dir w = Some dir ->
  let path := (dir +:+ "/" +:+ get_name w core_name)%string in
  let lock := (path +:+ LOCK_SUFFIX)%string in
  Z.of_nat (String.length path) < UNIX_PATH_MAX ->
  lock ∉ open_refused w -> lock ∉ locked w -> 0 <= next_fd w ->
  activation_fd w path = Some fd -> add_io_ok w = true ->
  exists s w',
    impl_add_server w core_name = (Some s, w')
    /\ activated s = true /\ source s = Some fd /\ sun_path s = path
    /\ syscalls w' = syscalls w ++ [SysOpen lock; SysFlock (next_fd w)]
    /\ syscalls (destroy_server w' s)
       = syscalls w' ++ [SysClose fd; SysUnlink lock; SysClose (next_fd w)]
    /\ (path ∈ files w -> path ∈ files (destroy_server w' s)).
Proof.
  intros Hdir path lock Hlen Hopen Hlocked Hfd Hafd Hio.
  rewrite (add_server_locked w core_name dir Hdir Hlen Hopen Hlocked Hfd).
  fold path lock. cbv zeta.
  unfold add_socket. unfold activation_fd in *. os_fields. rewrite Hafd, Hio.
  cbn [negb fd_lock sun_path lock_addr activated source].
  eexists _, _. split; [reflexivity|]. cbn [activated source sun_path].
  split; [reflexivity|]. split; [reflexivity|]. split; [reflexivity|].
  split; [os_fields; rewrite <- ?app_assoc; reflexivity|].
  rewrite destroy_locked_server by lia. rewrite andb_false_r. os_fields.
  split; [rewrite <- ?app_assoc; reflexivity|].
  pose proof (lock_path_differs path) as Hne.
  intros Hin. unfold lock in *. clear -Hin Hne. same_files.
Qed.

End ServerFacts.

Module ServerWitnesses.
Import ProtocolNative ServerExamples ServerFacts.
Local Open Scope Z_scope.

Lemma add_server_failure_closes_descriptors_witness :
  exists w',
    impl_add_server (inherited_os false) None = (None, w')
    /\ open_fds (inherited_os false) !! 3 = Some EmptyString
    /\ open_fds w' = delete 3 (open_fds (inherited_os false)).
Proof.
  destruct (impl_add_server (inherited_os false) None) as [[s|] w'] eqn:H;
    [vm_compute in H; discriminate H|].
  exists w'. split; [reflexivity|]. split; [reflexivity|].
  destruct (add_server_failure_closes_descriptors (inherited_os false) w' None)
    as [Hsame|(dir & afd & Hdir & Hafd & _ & Hfds)].
  - cbn. lia.
  - intros fd Hge. cbn in Hge |- *. apply lookup_singleton_ne. lia.
  - exact H.
  - exfalso. apply (f_equal (fun m => m !! 3)) in Hsame.
    injection H as <-. vm_compute in Hsame. discriminate Hsame.
  - injection Hdir as <-. vm_compute in Hafd. injection Hafd as <-. exact Hfds.
Defined.

Lemma add_server_success_holds_lock_witness :
  exists s w',
    impl_add_server free_os None = (Some s, w')
    /\ lock_addr s = "/run/user/1000/pipewire-0.lock"%string
    /\ open_fds w' !! fd_lock s = Some (lock_addr s).
Proof.
  destruct (impl_add_server free_os None) as [[s|] w'] eqn:H; [|discriminate H].
  exists s, w'. split; [reflexivity|].
  destruct (add_server_success_holds_lock free_os w' None s H) as (H1 & _ & _ & H4 & _).
  split; [|exact H4].
  injection H as <- _. reflexivity.
Defined.

Lemma add_then_destroy_server_witness :
  exists s w',
    impl_add_server (inherited_os true) None = (Some s, w')
    /\ open_fds (inherited_os true) !! 3 = Some EmptyString
    /\ open_fds (destroy_server w' s) = delete 3 (open_fds (inherited_os true))
    /\ "/run/user/1000/pipewire-0"%string ∈ files (destroy_server w' s).
Proof.
  destruct (impl_add_server (inherited_os true) None) as [[s|] w'] eqn:H;
    [|vm_compute in H; discriminate H].
  exists s, w'. split; [reflexivity|]. split; [reflexivity|].
  assert (activated s = true /\ source s = Some 3) as [Hact Hsrc].
  { injection H as <- _. split; reflexivity. }
  assert (forall fd, next_fd (inherited_os true) <= fd ->
                     open_fds (inherited_os true) !! fd = None) as Hfresh.
  { intros fd Hge. cbn in Hge |- *. apply lookup_singleton_ne. lia. }
  destruct (proj2 (proj2 (add_then_destroy_server (inherited_os true) w' None s Hfresh H))
              Hact)
    as (afd & Hafd & _ & Hfds & Hfiles).
  rewrite Hsrc in Hafd. injection Hafd as <-. split; [exact Hfds|].
  rewrite Hfiles.
  assert (lock_addr s = "/run/user/1000/pipewire-0.lock"%string) as ->
    by (injection H as <- _; reflexivity).
  apply elem_of_difference. split.
  - cbn. apply elem_of_singleton. reflexivity.
  - rewrite elem_of_singleton. discriminate.
Defined.

Lemma stale_socket_removed_then_retry_witness :
  exists w',
    impl_add_server stale_os None = (None, w')
    /\ syscalls w'
       = [SysOpen "/run/user/1000/pipewire-0.lock"; SysFlock 3; SysSocket;
          SysBind 4 "/run/user/1000/pipewire-0"; SysClose 4;
          SysUnlink "/run/user/1000/pipewire-0"; SysUnlink "/run/user/1000/pipewire-0.lock";
          SysClose 3]
    /\ files w'
       = files stale_os ∖ {[ "/run/user/1000/pipewire-0"%string ]}
         ∖ {[ "/run/user/1000/pipewire-0.lock"%string ]}
    /\ exists s w'',
         impl_add_server w' None = (Some s, w'')
         /\ sun_path s = "/run/user/1000/pipewire-0"%string /\ activated s = false.
Proof.
  refine (stale_socket_removed_then_retry stale_os None "/run/user/1000" eq_refl
            _ _ _ _ eq_refl eq_refl eq_refl eq_refl _).
  - vm_compute. reflexivity.
  - cbn. apply not_elem_of_empty.
  - cbn. apply not_elem_of_empty.
  - cbn. lia.
  - cbn. apply elem_of_singleton. reflexivity.
Defined.

Lemma activated_socket_is_adopted_witness :
  exists s w',
    impl_add_server activated_os None = (Some s, w')
    /\ activated s = true /\ source s = Some 3
    /\ sun_path s = "/run/user/1000/pipewire-0"%string
    /\ syscalls w' = [SysOpen "/run/user/1000/pipewire-0.lock"; SysFlock 4]
    /\ syscalls (destroy_server w' s)
       = syscalls w' ++ [SysClose 3; SysUnlink "/run/user/1000/pipewire-0.lock"; SysClose 4]
    /\ ("/run/user/1000/pipewire-0"%string ∈ files activated_os ->
        "/run/user/1000/pipewire-0"%string ∈ files (destroy_server w' s)).
Proof.
  refine (activated_socket_is_adopted activated_os None "/run/user/1000" 3 eq_refl
            _ _ _ _ eq_refl eq_refl).
  - vm_compute. reflexivity.
  - cbn. apply not_elem_of_empty.
  - cbn. apply not_elem_of_empty.
  - cbn. lia.
Defined.

End ServerWitnesses.

Module RemoteFacts.
Import ProtocolNative ProtocolRemote.
Local Open Scope Z_scope.

(** Setting a flag and clearing it again gives the field back when the
    flag was clear, and the other way round when it was set. *)
Lemma flag_set_unset (field flag : Z) :
  Z.land field flag = 0 -> SPA_FLAG_UNSET (SPA_FLAG_SET field flag) flag = field.
Proof.
  intros H. unfold SPA_FLAG_UNSET, SPA_FLAG_SET. apply Z.bits_inj'. intros i Hi.
  rewrite Z.land_spec, Z.lor_spec, Z.lnot_spec by exact Hi.
  apply (f_equal (fun x => Z.testbit x i)) in H.
  rewrite Z.land_spec, Z.bits_0 in H.
  destruct (Z.testbit field i), (Z.testbit flag i); cbn in *; congruence.
Qed.

Lemma flag_unset_set (field flag : Z) :
  Z.land field flag = flag -> SPA_FLAG_SET (SPA_FLAG_UNSET field flag) flag = field.
Proof.
  intros H. unfold SPA_FLAG_UNSET, SPA_FLAG_SET. apply Z.bits_inj'. intros i Hi.
  rewrite Z.lor_spec, Z.land_spec, Z.lnot_spec by exact Hi.
  apply (f_equal (fun x => Z.testbit x i)) in H.
  rewrite Z.land_spec in H.
  destruct (Z.testbit field i), (Z.testbit flag i); cbn in *; congruence.
Qed.

Lemma process_loop_leaves invoke (incoming : list message) :
  forall d d' rest,
    process_loop invoke d incoming = (d', rest) ->
    (exists consumed, incoming = consumed ++ rest)
    /\ (busy d = true -> d' = d /\ rest = incoming)
    /\ (rest <> [] -> busy d' = true \/ destroyed d' = true).
Proof.
  induction incoming as [|msg incoming IH]; intros d d' rest.
  - cbn [process_loop]. destruct (busy d) eqn:Hb; intros [= <- <-];
      (split; [exists []; reflexivity|]); split; try tauto; try discriminate.
  - cbn [process_loop]. destruct (busy d) eqn:Hb.
    { intros [= <- <-]. split; [exists []; reflexivity|]. split; [tauto|].
      intros _. left. exact Hb. }
    assert (forall d0, process_loop invoke d0 incoming = (d', rest) ->
              (exists consumed, msg :: incoming = consumed ++ rest)
              /\ (false = true -> d' = d /\ rest = msg :: incoming)
              /\ (rest <> [] -> busy d' = true \/ destroyed d' = true)) as Hnext.
    { intros d0 H0. apply IH in H0 as ((consumed & ->) & _ & Hrest).
      split; [exists (msg :: consumed); reflexivity|]. split; [discriminate|exact Hrest]. }
    assert (forall d0 r, (invalid_method d0 r, incoming) = (d', rest) ->
              (exists consumed, msg :: incoming = consumed ++ rest)
              /\ (false = true -> d' = d /\ rest = msg :: incoming)
              /\ (rest <> [] -> busy d' = true \/ destroyed d' = true)) as Hfatal.
    { intros d0 r [= <- <-]. split; [exists [msg]; reflexivity|].
      split; [discriminate|]. intros _. right. reflexivity. }
    destruct (pw_client_find_resource _ _) as [r|]; [|apply Hnext].
    destruct (res_marshal r) as [m|]; [|apply Hfatal].
    destruct (_ >=? _); [apply Hfatal|].
    destruct (_ !! _) as [dm|]; [|apply Hfatal].
    destruct (func dm) as [f|]; [|apply Hfatal].
    destruct (negb _); [apply Hnext|].
    destruct (invoke f r msg _) as [res d1].
    destruct (res <? 0); [apply Hfatal|apply Hnext].
Qed.

(** X19: Frames are taken off the connection in order, and frames are left in
    it only when the client has become busy or has been destroyed; the
    core's current client is reset on every way out. *)
Theorem dispatch_stops_only_when_busy_or_destroyed
    (invoke : method -> resource -> message -> client_data -> Z * client_data)
    (d : client_data) (incoming : list message) :
  let '(d', rest) := process_messages invoke d incoming in
  (exists consumed, incoming = consumed ++ rest)
  /\ current_client d' = false
  /\ (rest <> [] -> busy d' = true \/ destroyed d' = true).
Proof.
  unfold process_messages.
  destruct (process_loop invoke (set_current_client d true) incoming) as [d1 rest] eqn:Hloop.
  apply process_loop_leaves in Hloop as (Hpre & _ & Hrest).
  split; [exact Hpre|]. split; [reflexivity|]. exact Hrest.
Qed.

Lemma io_bit_set (mask : Z) :
  Z.land mask (Z.lor SPA_IO_ERR SPA_IO_HUP) <> 0 ->
  Z.land mask SPA_IO_HUP <> 0 \/ Z.land mask SPA_IO_ERR <> 0.
Proof.
  intros H.
  destruct (Z.eq_dec (Z.land mask SPA_IO_HUP) 0) as [Hh|]; [|tauto].
  destruct (Z.eq_dec (Z.land mask SPA_IO_ERR) 0) as [He|]; [|tauto].
  exfalso. apply H. rewrite Z.land_lor_distr_r, Hh, He. reflexivity.
Qed.

(** X20: The drain hook takes off the client list exactly the clients
    whose flush fails with an error other than [-EAGAIN], which it
    destroys, and keeps the others in their order. A client whose flush
    succeeds is left as it was; one whose flush returns [-EAGAIN] has
    [SPA_IO_OUT] set in its source mask, and no other bit of a mask and
    nothing else of a client changes. *)
Theorem drain_hook_frame (flush : client_data -> Z) (clients : list client_data) :
  let fatal d := (flush d <? 0) && negb (flush d =? - EAGAIN) in
  let '(client_list, freed) := on_before_hook flush clients in
  freed = List.map pw_client_destroy (List.filter fatal clients)
  /\ (length client_list + length freed = length clients)%nat
  /\ Forall2
       (fun d d' =>
          (0 <= flush d -> d' = d)
          /\ d' = set_source_mask d (source_mask d')
          /\ (forall i, 0 <= i ->
                Z.testbit (source_mask d') i
                = if (flush d =? - EAGAIN) && (i =? 2) then true
                  else Z.testbit (source_mask d) i))
       (List.filter (fun d => negb (fatal d)) clients) client_list.
Proof.
  intros fatal. induction clients as [|d tmp IH].
  { cbn. split; [reflexivity|]. split; [reflexivity|]. constructor. }
  cbn [on_before_hook List.filter].
  destruct (on_before_hook flush tmp) as [client_list freed].
  destruct IH as (Hfreed & Hlen & Hkept).
  assert (fatal d = (flush d <? 0) && negb (flush d =? - EAGAIN)) as Hfd by reflexivity.
  destruct (Z.eqb_spec (flush d) (- EAGAIN)) as [He|He].
  - assert (fatal d = false) as Hf by (rewrite Hfd; apply andb_false_r).
    rewrite Hf. cbn [negb length]. split; [exact Hfreed|]. split; [lia|].
    constructor; [|exact Hkept].
    split; [unfold EAGAIN in He; lia|]. split; [reflexivity|].
    intros i Hi. rewrite (proj2 (Z.eqb_eq _ _) He).
    cbn [source_mask set_source_mask andb]. unfold SPA_FLAG_SET, SPA_IO_OUT.
    rewrite Z.lor_spec, AlsaFacts.testbit_shiftl_1 by lia.
    destruct (i =? 2); [apply orb_true_r|apply orb_false_r].
  - destruct (Z.ltb_spec (flush d) 0) as [Hneg|Hok].
    + assert (fatal d = true) as Hf by (rewrite Hfd; reflexivity).
      rewrite Hf. cbn [negb length List.map].
      split; [rewrite Hfreed; reflexivity|]. split; [lia|exact Hkept].
    + assert (fatal d = false) as Hf by (rewrite Hfd; reflexivity).
      rewrite Hf. cbn [negb length].
      split; [exact Hfreed|]. split; [lia|].
      constructor; [|exact Hkept].
      split; [reflexivity|]. split; [destruct d; reflexivity|].
      intros i Hi. rewrite (proj2 (Z.eqb_neq _ _) He). reflexivity.
Qed.

(** X21: On the remote's side no frame is fatal: whatever the frames are and
    whatever the handlers return, the loop leaves for the label [error]
    only with a negative result of [get_next] other than [-EAGAIN]; and
    it reads every frame unless a handler sets [disconnecting]. *)
Theorem remote_frames_never_fatal
    (invoke : method -> proxy -> message -> client -> Z * client)
    (incoming : list message) (last : Z) (c : client) :
  let '(err, c', rest) := remote_loop invoke c incoming last in
  (exists consumed, incoming = consumed ++ rest)
  /\ (rest <> [] -> disconnecting c' = true)
  /\ (forall res, err = Some res -> res = last /\ last < 0 /\ last <> - EAGAIN /\ rest = []).
Proof.
  revert c. induction incoming as [|msg incoming IH]; intros c.
  - cbn [remote_loop]. destruct (disconnecting c) eqn:Hd.
    { split; [exists []; reflexivity|]. split; [tauto|]. intros res [=]. }
    destruct (Z.ltb_spec last 0).
    + destruct (Z.eqb_spec last (- EAGAIN)).
      * split; [exists []; reflexivity|]. split; [tauto|]. intros res [=].
      * split; [exists []; reflexivity|]. split; [tauto|]. intros res [= <-]. tauto.
    + split; [exists []; reflexivity|]. split; [tauto|]. intros res [=].
  - cbn [remote_loop]. destruct (disconnecting c) eqn:Hd.
    { split; [exists []; reflexivity|]. split; [intros _; exact Hd|]. intros res [=]. }
    assert (forall c0,
              let '(err, c', rest) := remote_loop invoke c0 incoming last in
              (exists consumed, msg :: incoming = consumed ++ rest)
              /\ (rest <> [] -> disconnecting c' = true)
              /\ (forall res, err = Some res ->
                    res = last /\ last < 0 /\ last <> - EAGAIN /\ rest = [])) as Hnext.
    { intros c0. specialize (IH c0).
      destruct (remote_loop invoke c0 incoming last) as [[err c'] rest].
      destruct IH as ((consumed & ->) & H2 & H3).
      split; [exists (msg :: consumed); reflexivity|]. split; assumption. }
    destruct (_ !! msg_id msg) as [p|]; [|apply Hnext].
    destruct (proxy_marshal_of p) as [m|]; [|apply Hnext].
    destruct (_ >=? _); [apply Hnext|].
    destruct (_ !! _) as [dm|]; [|apply Hnext].
    destruct (func dm) as [f|]; [|apply Hnext].
    destruct (invoke f p msg _) as [res c1]. apply Hnext.
Qed.

(** X22: A flush that fails, with [-EAGAIN] as with any other negative value,
    takes [on_remote_data] to the label [error]: the source is dropped and
    the remote disconnected, and the frames are not read. *)
Theorem remote_flush_failure_disconnects
    (invoke : method -> proxy -> message -> client -> Z * client)
    (flush : client -> Z) (c : client) (mask : Z) (incoming : list message) (last : Z) :
  Z.land mask (Z.lor SPA_IO_ERR SPA_IO_HUP) = 0 ->
  Z.land mask SPA_IO_OUT <> 0 ->
  flush c < 0 ->
  on_remote_data invoke flush c mask incoming last
  = Some (pw_remote_disconnect (set_cl_source c None), incoming).
Proof.
  intros Herr Hout Hres. unfold on_remote_data.
  rewrite (proj2 (Z.eqb_eq _ _) Herr), (proj2 (Z.eqb_neq _ _) Hout). cbn [negb].
  destruct (Z.geb_spec (flush c) 0); [lia|].
  destruct (Z.eqb_spec (flush c) EAGAIN) as [He|]; [|reflexivity].
  unfold EAGAIN in He. lia.
Qed.

(** X23: [need_flush] arms [SPA_IO_OUT] once, and the drain takes it back:
    after [on_need_flush] (once or twice) and a writable socket whose
    flush succeeds, the client is as it was. *)
Theorem need_flush_then_drain
    (invoke : method -> proxy -> message -> client -> Z * client)
    (flush : client -> Z) (c : client) (fd mask : Z) (incoming : list message) (last : Z) :
  cl_source c = Some (fd, mask) -> flushing c = false ->
  Z.land mask SPA_IO_OUT = 0 ->
  let armed := set_cl_source (set_flushing c true) (Some (fd, SPA_FLAG_SET mask SPA_IO_OUT)) in
  0 <= flush armed ->
  on_need_flush c = Some armed
  /\ on_need_flush armed = Some armed
  /\ on_remote_data invoke flush armed SPA_IO_OUT incoming last = Some (c, incoming).
Proof.
  intros Hsrc Hfl Hout armed Hres.
  split; [|split].
  - unfold on_need_flush, update_source_mask. rewrite Hfl. cbn. rewrite Hsrc. reflexivity.
  - reflexivity.
  - unfold on_remote_data.
    change (Z.land SPA_IO_OUT (Z.lor SPA_IO_ERR SPA_IO_HUP) =? 0) with true.
    change (Z.land SPA_IO_OUT SPA_IO_OUT =? 0) with false.
    change (Z.land SPA_IO_OUT SPA_IO_IN =? 0) with true.
    cbn [negb]. rewrite (proj2 (Z.geb_le _ _) Hres).
    unfold update_source_mask, armed. cbn [cl_source set_cl_source].
    rewrite flag_set_unset by exact Hout.
    destruct c. cbn in *. subst. reflexivity.
Qed.

(** X24: Taking the client busy and back again is a round trip for the mask,
    and drains the frames that were held back. *)
Theorem busy_round_trip
    (invoke : method -> resource -> message -> client_data -> Z * client_data)
    (d : client_data) (incoming : list message) :
  busy d = false -> Z.land (source_mask d) SPA_IO_IN = SPA_IO_IN ->
  let '(held, queue) := client_busy_changed invoke d true incoming in
  queue = incoming
  /\ busy held = true
  /\ Z.land (source_mask held) SPA_IO_IN = 0
  /\ process_messages invoke held queue = (set_current_client held false, queue)
  /\ client_busy_changed invoke held false queue = process_messages invoke d incoming.
Proof.
  intros Hbusy Hmask. unfold client_busy_changed. cbn [negb].
  split; [reflexivity|]. split; [reflexivity|].
  split.
  { cbn. unfold SPA_FLAG_UNSET. rewrite <- Z.land_assoc.
    rewrite (Z.land_comm (Z.lnot _)), Z.land_lnot_diag. apply Z.land_0_r. }
  split; [destruct incoming; reflexivity|].
  cbn [source_mask set_source_mask set_busy].
  rewrite flag_unset_set by exact Hmask.
  destruct d. cbn in *. subst. reflexivity.
Qed.

End RemoteFacts.

Module RemoteWitnesses.
Import ProtocolNative ProtocolRemote RemoteExamples RemoteFacts.
Local Open Scope Z_scope.

Lemma remote_flush_failure_disconnects_witness :
  on_remote_data example_remote_invoke (fun _ => - EAGAIN) example_remote
    (Z.lor SPA_IO_OUT SPA_IO_IN) [example_message 1 0 6] 0
  = Some (pw_remote_disconnect (set_cl_source example_remote None), [example_message 1 0 6]).
Proof.
  apply remote_flush_failure_disconnects.
  - vm_compute. reflexivity.
  - vm_compute. discriminate.
  - vm_compute. reflexivity.
Defined.

Lemma need_flush_then_drain_witness :
  let armed :=
    set_cl_source (set_flushing example_remote true)
      (Some (5, SPA_FLAG_SET (Z.lor (Z.lor SPA_IO_IN SPA_IO_HUP) SPA_IO_ERR) SPA_IO_OUT)) in
  on_need_flush example_remote = Some armed
  /\ on_need_flush armed = Some armed
  /\ on_remote_data example_remote_invoke (fun _ => 0) armed SPA_IO_OUT
       [example_message 1 0 6] 0
     = Some (example_remote, [example_message 1 0 6]).
Proof.
  apply (need_flush_then_drain example_remote_invoke (fun _ => 0) example_remote 5
           (Z.lor (Z.lor SPA_IO_IN SPA_IO_HUP) SPA_IO_ERR)).
  - reflexivity.
  - reflexivity.
  - vm_compute. reflexivity.
  - cbn. lia.
Defined.

Lemma busy_round_trip_witness :
  let '(held, queue) :=
    client_busy_changed example_invoke example_client true [example_message 1 2 6] in
  queue = [example_message 1 2 6]
  /\ busy held = true
  /\ Z.land (source_mask held) SPA_IO_IN = 0
  /\ process_messages example_invoke held queue = (set_current_client held false, queue)
  /\ client_busy_changed example_invoke held false queue
     = process_messages example_invoke example_client [example_message 1 2 6].
Proof.
  apply (busy_round_trip example_invoke example_client [example_message 1 2 6]).
  - reflexivity.
  - vm_compute. reflexivity.
Defined.

End RemoteWitnesses.

Module ParamsFacts.
Import SessionManager SessionParams.
Local Open Scope Z_scope.

Section EnumFacts.

Context {Info : Type}.
Variable spa_pod_filter : spa_pod -> option spa_pod -> option spa_pod.

Lemma params_from_end (params : list (option spa_pod)) resource seq id filter (k : nat) :
  (length params <= k)%nat ->
  params_from (Info := Info) spa_pod_filter params resource seq id filter k = [].
Proof.
  intros Hk. unfold params_from.
  replace (length params - k)%nat with 0%nat by lia. reflexivity.
Qed.

Lemma params_from_step (params : list (option spa_pod)) resource seq id filter (k : nat) :
  (k < length params)%nat ->
  params_from (Info := Info) spa_pod_filter params resource seq id filter k
  = param_event spa_pod_filter resource seq id filter k (mjoin (params !! k))
    ++ params_from spa_pod_filter params resource seq id filter (S k).
Proof.
  intros Hk. unfold params_from.
  replace (length params - k)%nat with (S (length params - S k)) by lia.
  reflexivity.
Qed.

Lemma incr32_of_nat (k : nat) :
  Z.of_nat k + 1 < 2 ^ 32 -> Alsa.incr32 (Z.of_nat k) = Z.of_nat (S k).
Proof. intros H. unfold Alsa.incr32. rewrite Z.mod_small by lia. lia. Qed.

(** The loop computes the matches from its index on, cut off when the
    count reaches [num]. *)
Lemma enum_params_loop_spec (params : list (option spa_pod)) resource seq id num filter :
  Z.of_nat (length params) < 2 ^ 32 -> 0 <= num < 2 ^ 32 ->
  forall (fuel k : nat) (count : Z),
    (length params - k < fuel)%nat -> Z.of_nat k < 2 ^ 32 ->
    0 <= count -> num = 0 \/ count < num ->
    count + Z.of_nat (length params - k) < 2 ^ 32 ->
    enum_params_loop (Info := Info) spa_pod_filter fuel params (Z.of_nat (length params))
      resource seq id num filter (Z.of_nat k) count
    = Some (if num =? 0 then params_from spa_pod_filter params resource seq id filter k
            else take (Z.to_nat (num - count))
                   (params_from spa_pod_filter params resource seq id filter k)).
Proof.
  intros Hn Hnum. induction fuel as [|fuel IH]; intros k count Hfuel Hk Hc Hlim Hwrap; [lia|].
  cbn [enum_params_loop].
  destruct (Z.geb_spec (Z.of_nat k) (Z.of_nat (length params))) as [Hge|Hlt].
  { rewrite params_from_end by lia. rewrite take_nil. destruct (num =? 0); reflexivity. }
  assert (k < length params)%nat as Hk' by lia.
  rewrite incr32_of_nat by lia. rewrite Nat2Z.id.
  rewrite (params_from_step params resource seq id filter k Hk').
  assert (forall count',
            0 <= count' -> num = 0 \/ count' < num ->
            count' + Z.of_nat (length params - S k) < 2 ^ 32 ->
            enum_params_loop (Info := Info) spa_pod_filter fuel params
              (Z.of_nat (length params)) resource seq id num filter (Z.of_nat (S k)) count'
            = Some (if num =? 0
                    then params_from spa_pod_filter params resource seq id filter (S k)
                    else take (Z.to_nat (num - count'))
                           (params_from spa_pod_filter params resource seq id filter (S k))))
    as Hnext.
  { intros count' H1 H2 H3. apply IH; lia. }
  unfold param_event.
  destruct (mjoin (params !! k)) as [param|]; [|apply Hnext; lia].
  destruct (spa_pod_is_object_id param id); cbn [negb]; [|apply Hnext; lia].
  destruct (spa_pod_filter param filter) as [result|]; [|apply Hnext; lia].
  assert (Alsa.incr32 count = count + 1) as ->.
  { unfold Alsa.incr32. apply Z.mod_small. lia. }
  replace (Z.of_nat (S k)) with (Z.of_nat k + 1) by lia.
  destruct (Z.eqb_spec (count + 1) num) as [Heq|Hne].
  - destruct (Z.eqb_spec num 0); [lia|].
    replace (Z.to_nat (num - count)) with 1%nat by lia. reflexivity.
  - replace (Z.of_nat k + 1) with (Z.of_nat (S k)) by lia.
    rewrite Hnext by lia.
    destruct (Z.eqb_spec num 0); [reflexivity|].
    replace (Z.to_nat (num - count)) with (S (Z.to_nat (num - (count + 1)))) by lia.
    reflexivity.
Qed.

Lemma enum_params_loop_refines (params : list (option spa_pod)) resource seq id start num
    filter (fuel : nat) :
  Z.of_nat (length params) < 2 ^ 32 -> 0 <= start < 2 ^ 32 -> 0 <= num < 2 ^ 32 ->
  (length params - Z.to_nat start < fuel)%nat ->
  enum_params_loop (Info := Info) spa_pod_filter fuel params (Z.of_nat (length params))
    resource seq id num filter start 0
  = Some (enum_params_spec spa_pod_filter params resource seq id start num filter).
Proof.
  intros Hn Hstart Hnum Hfuel. unfold enum_params_spec.
  rewrite <- (Z2Nat.id start) at 1 by lia.
  rewrite enum_params_loop_spec; try lia.
  rewrite Z.sub_0_r. reflexivity.
Qed.

Lemma params_from_length (params : list (option spa_pod)) resource seq id filter (k : nat) :
  (length (params_from (Info := Info) spa_pod_filter params resource seq id filter k)
   <= length params - k)%nat.
Proof.
  unfold params_from. generalize (length params - k)%nat as len. intros len. revert k.
  induction len as [|len IH]; intros k; [cbn; lia|].
  cbn [List.seq List.flat_map]. rewrite length_app. specialize (IH (S k)).
  assert (length (param_event (Info := Info) spa_pod_filter resource seq id filter k
                    (mjoin (params !! k))) <= 1)%nat.
  { unfold param_event. destruct (mjoin _) as [p|]; [|cbn; lia].
    destruct (spa_pod_is_object_id p id); [|cbn; lia].
    destruct (spa_pod_filter p filter); cbn; lia. }
  lia.
Qed.

(** A full page of [n] matches ends at some index [j], and the matches
    after the page are those from [j + 1] on. *)
Lemma params_from_page (params : list (option spa_pod)) resource seq id filter :
  forall (len k n : nat),
    len = (length params - k)%nat ->
    (0 < n <= length (params_from (Info := Info) spa_pod_filter params resource seq id
                        filter k))%nat ->
    exists (j : nat) result,
      last (take n (params_from (Info := Info) spa_pod_filter params resource seq id
                      filter k))
      = Some (EvParam resource seq id (Z.of_nat j) (Z.of_nat j + 1) result)
      /\ (k <= j < length params)%nat
      /\ drop n (params_from (Info := Info) spa_pod_filter params resource seq id filter k)
         = params_from spa_pod_filter params resource seq id filter (S j).
Proof.
  induction len as [|len IH]; intros k n Hlen Hn.
  { rewrite params_from_end in Hn by lia. cbn in Hn. lia. }
  assert (k < length params)%nat as Hk by lia.
  assert (forall n,
            (0 < n <= length (params_from (Info := Info) spa_pod_filter params resource seq
                                id filter (S k)))%nat ->
            exists (j : nat) result,
              last (take n (params_from (Info := Info) spa_pod_filter params resource seq id
                              filter (S k)))
              = Some (EvParam resource seq id (Z.of_nat j) (Z.of_nat j + 1) result)
              /\ (k <= j < length params)%nat
              /\ drop n (params_from (Info := Info) spa_pod_filter params resource seq id
                           filter (S k))
                 = params_from spa_pod_filter params resource seq id filter (S j)) as Hnext.
  { intros n' Hn'. destruct (IH (S k) n') as (j & result & H1 & H2 & H3); [lia|exact Hn'|].
    exists j, result. split; [exact H1|]. split; [lia|exact H3]. }
  rewrite (params_from_step params resource seq id filter k Hk) in *.
  unfold param_event in *.
  destruct (mjoin (params !! k)) as [param|]; [|apply Hnext, Hn].
  destruct (spa_pod_is_object_id param id); [|apply Hnext, Hn].
  destruct (spa_pod_filter param filter) as [result|]; [|apply Hnext, Hn].
  cbn [app] in *. destruct n as [|[|n]]; [lia| |].
  - exists k, result. cbn. rewrite drop_0. split; [reflexivity|]. split; [lia|reflexivity].
  - cbn [length] in Hn.
    destruct (Hnext (S n)) as (j & result' & Hlast & Hj & Hdrop); [lia|].
    exists j, result'. split; [|split; [exact Hj|exact Hdrop]].
    cbn [take]. cbn [take] in Hlast.
    destruct (params_from spa_pod_filter params resource seq id filter (S k)) as [|e l];
      [discriminate|].
    cbn [take] in *. exact Hlast.
Qed.

End EnumFacts.

Section ParamsTheorems.

Variable spa_pod_filter : spa_pod -> option spa_pod -> option spa_pod.

(** X25: [endpoint_enum_params] and [session_enum_params] return 0 after
    emitting, for the entries from [start] on that have the object id and
    pass the filter, one [param] event each, in order, with the entry's
    index, and the index after it as [next]: all of them when [num] is 0,
    and the first [num] otherwise. *)
Theorem enum_params_refines (fuel : nat) (resource seq id start num : Z)
    (filter : option spa_pod) :
  0 <= start < 2 ^ 32 -> 0 <= num < 2 ^ 32 ->
  (forall this : endpoint,
      ep_n_params this = Z.of_nat (length (ep_params this)) -> ep_n_params this < 2 ^ 32 ->
      (length (ep_params this) - Z.to_nat start < fuel)%nat ->
      endpoint_enum_params spa_pod_filter fuel this resource seq id start num filter
      = Some (0, enum_params_spec spa_pod_filter (ep_params this) resource seq id start num
                   filter)) /\
  (forall this : session,
      ss_n_params this = Z.of_nat (length (ss_params this)) -> ss_n_params this < 2 ^ 32 ->
      (length (ss_params this) - Z.to_nat start < fuel)%nat ->
      session_enum_params spa_pod_filter fuel this resource seq id start num filter
      = Some (0, enum_params_spec spa_pod_filter (ss_params this) resource seq id start num
                   filter)).
Proof.
  intros Hstart Hnum. split.
  - intros this Hn Hlt Hfuel. unfold endpoint_enum_params. rewrite Hn.
    rewrite enum_params_loop_refines by lia. reflexivity.
  - intros this Hn Hlt Hfuel. unfold session_enum_params. rewrite Hn.
    rewrite enum_params_loop_refines by lia. reflexivity.
Qed.

(** X26: Paging: when an enumeration with limit [num] gives a full page, the
    [next] of its last event is where to go on: the page, followed by the
    unlimited enumeration from there, is the unlimited enumeration from
    [start]. *)
Theorem enum_params_resumes (fuel : nat) (this : endpoint) (resource seq id start num : Z)
    (filter : option spa_pod) (page : list (event pw_endpoint_info))
    (r rseq rid index next : Z) (result : spa_pod) :
  ep_n_params this = Z.of_nat (length (ep_params this)) -> ep_n_params this < 2 ^ 32 ->
  0 <= start < 2 ^ 32 -> 0 < num < 2 ^ 32 ->
  (length (ep_params this) - Z.to_nat start < fuel)%nat ->
  endpoint_enum_params spa_pod_filter fuel this resource seq id start num filter
  = Some (0, page) ->
  Z.of_nat (length page) = num ->
  last page = Some (EvParam r rseq rid index next result) ->
  exists rest,
    endpoint_enum_params spa_pod_filter fuel this resource seq id next 0 filter
    = Some (0, rest)
    /\ endpoint_enum_params spa_pod_filter fuel this resource seq id start 0 filter
       = Some (0, page ++ rest)
    /\ start <= index /\ next = index + 1.
Proof.
  intros Hn Hlt Hstart Hnum Hfuel Hpage Hfull Hlast.
  destruct (enum_params_refines fuel resource seq id start num filter) as [He _]; [lia|lia|].
  rewrite He in Hpage by assumption. injection Hpage as <-.
  unfold enum_params_spec in *.
  destruct (Z.eqb_spec num 0); [lia|].
  set (all := params_from spa_pod_filter (ep_params this) resource seq id filter
                (Z.to_nat start)) in *.
  rewrite length_take in Hfull.
  destruct (params_from_page (Info := pw_endpoint_info) spa_pod_filter (ep_params this) resource seq id filter
              _ (Z.to_nat start) (Z.to_nat num) eq_refl) as (j & result' & Hl & Hj & Hdrop).
  { fold all. lia. }
  fold all in Hl, Hdrop. rewrite Hl in Hlast. injection Hlast as <- <- <- <- <- <-.
  pose proof (params_from_length (Info := pw_endpoint_info) spa_pod_filter (ep_params this)
                resource seq id filter (Z.to_nat start)) as Hlen. fold all in Hlen.
  destruct (enum_params_refines fuel resource seq id (Z.of_nat j + 1) 0 filter)
    as [Hrest _]; [lia|lia|].
  destruct (enum_params_refines fuel resource seq id start 0 filter) as [Hall _]; [lia|lia|].
  rewrite Hrest, Hall by (try assumption; lia).
  unfold enum_params_spec. cbn [Z.eqb]. fold all.
  replace (Z.to_nat (Z.of_nat j + 1)) with (S j) by lia. rewrite <- Hdrop.
  eexists. split; [reflexivity|]. rewrite take_drop. split; [reflexivity|].
  split; [lia|reflexivity].
Qed.

Lemma subscribe_loop_spec {Info : Type} (params : list (option spa_pod)) (resource : Z)
    (fuel : nat) (ids : list Z) :
  Z.of_nat (length params) < 2 ^ 32 -> (length params < fuel)%nat ->
  subscribe_loop (Info := Info) spa_pod_filter fuel params (Z.of_nat (length params))
    resource ids
  = Some (List.flat_map
            (fun id => params_from spa_pod_filter params resource 1 id None 0) ids).
Proof.
  intros Hn Hfuel. induction ids as [|id ids IH]; [reflexivity|].
  cbn [subscribe_loop List.flat_map].
  rewrite enum_params_loop_refines; [|lia|lia|unfold UINT32_MAX; lia|cbn; lia].
  rewrite IH. unfold enum_params_spec.
  change (UINT32_MAX =? 0) with false. cbv iota. change (Z.to_nat 0) with 0%nat.
  rewrite take_ge; [reflexivity|].
  pose proof (params_from_length (Info := Info) spa_pod_filter params resource 1 id None 0).
  unfold UINT32_MAX. lia.
Qed.

(** X27: [endpoint_subscribe_params] and [session_subscribe_params] return 0
    and store the first 32 of the ids on the resource, in place of what
    it was subscribed to, the other resources staying as they are; for
    each id stored, in order, the resource is sent every parameter with
    that object id, from index 0 on, under [seq] 1 and unfiltered. *)
Theorem subscribe_params_stores_32 (fuel : nat) (k : nat) (r : bound_resource)
    (ids : list Z) :
  (forall this : endpoint,
      ep_n_params this = Z.of_nat (length (ep_params this)) -> ep_n_params this < 2 ^ 32 ->
      (length (ep_params this) < fuel)%nat ->
      ep_resources this !! k = Some r ->
      exists this',
        endpoint_subscribe_params spa_pod_filter fuel this k ids
        = Some (0, this',
                List.flat_map
                  (fun id => params_from spa_pod_filter (ep_params this) (rd_id r) 1 id
                               None 0)
                  (take 32 ids))
        /\ ep_resources this'
           = <[k := {| rd_id := rd_id r; rd_subscribe_ids := take 32 ids |}]>
               (ep_resources this)
        /\ ep_params this' = ep_params this /\ ep_info this' = ep_info this) /\
  (forall this : session,
      ss_n_params this = Z.of_nat (length (ss_params this)) -> ss_n_params this < 2 ^ 32 ->
      (length (ss_params this) < fuel)%nat ->
      ss_resources this !! k = Some r ->
      exists this',
        session_subscribe_params spa_pod_filter fuel this k ids
        = Some (0, this',
                List.flat_map
                  (fun id => params_from spa_pod_filter (ss_params this) (rd_id r) 1 id
                               None 0)
                  (take 32 ids))
        /\ ss_resources this'
           = <[k := {| rd_id := rd_id r; rd_subscribe_ids := take 32 ids |}]>
               (ss_resources this)
        /\ ss_params this' = ss_params this /\ ss_info this' = ss_info this).
Proof.
  assert (take (Z.to_nat (Z.min (Z.of_nat (length ids)) subscribe_ids_size)) ids
          = take 32 ids) as Htake.
  { unfold subscribe_ids_size.
    destruct (Z.min_spec (Z.of_nat (length ids)) 32) as [[Hlt ->]|[Hge ->]]; [|reflexivity].
    rewrite Nat2Z.id. rewrite !take_ge by lia. reflexivity. }
  split.
  - intros this Hn Hlt Hfuel Hr. unfold endpoint_subscribe_params.
    rewrite Hr, Htake, Hn. rewrite subscribe_loop_spec by lia.
    eexists. split; [reflexivity|]. repeat split.
  - intros this Hn Hlt Hfuel Hr. unfold session_subscribe_params.
    rewrite Hr, Htake, Hn. rewrite subscribe_loop_spec by lia.
    eexists. split; [reflexivity|]. repeat split.
Qed.

End ParamsTheorems.

Section UpdateTheorems.

Variable pw_properties_update : spa_dict -> spa_dict -> spa_dict.
Variable realloc_ok : Z -> bool.




(** The info part leaves the params alone and sends info events only. *)
Lemma endpoint_update_info_frame this change_mask info ok this' evs :
  endpoint_update_info pw_properties_update realloc_ok this change_mask info
  = (ok, this', evs) ->
  ep_params this' = ep_params this /\ ep_n_params this' = ep_n_params this
  /\ ep_resources this' = ep_resources this
  /\ (forall e, In e evs -> is_info_event e = true)
  /\ (ok = false -> evs = []
                    /\ ei_change_mask (ep_info this') = ei_change_mask (ep_info this)).
Proof.
  unfold endpoint_update_info.
  destruct (negb (Z.land change_mask PW_CLIENT_ENDPOINT_UPDATE_INFO =? 0)).
  - destruct (endpoint_info_fields _ _ _ _) as [i|i] eqn:Hf; intros [= <- <- <-].
    + repeat split; try (intros e []).
      unfold endpoint_info_fields in Hf.
      repeat match type of Hf with
             | context [if ?b then _ else _] => destruct b
             end; inversion Hf; reflexivity.
    + repeat split; try discriminate.
      intros e He. apply List.in_map_iff in He as (r & <- & _). reflexivity.
  - intros [= <- <- <-]. repeat split; try discriminate. intros e [].
Qed.

Lemma session_update_info_frame this change_mask info ok this' evs :
  session_update_info pw_properties_update realloc_ok this change_mask info
  = (ok, this', evs) ->
  ss_params this' = ss_params this /\ ss_n_params this' = ss_n_params this
  /\ ss_resources this' = ss_resources this
  /\ (forall e, In e evs -> is_info_event e = true)
  /\ (ok = false -> evs = []
                    /\ si_change_mask (ss_info this') = si_change_mask (ss_info this)).
Proof.
  unfold session_update_info.
  destruct (negb (Z.land change_mask PW_CLIENT_SESSION_UPDATE_INFO =? 0)).
  - destruct (session_info_fields _ _ _ _) as [i|i] eqn:Hf; intros [= <- <- <-].
    + repeat split; try (intros e []).
      unfold session_info_fields in Hf.
      repeat match type of Hf with
             | context [if ?b then _ else _] => destruct b
             end; inversion Hf; reflexivity.
    + repeat split; try discriminate.
      intros e He. apply List.in_map_iff in He as (r & <- & _). reflexivity.
  - intros [= <- <- <-]. repeat split; try discriminate. intros e [].
Qed.


Lemma endpoint_update_params_fails this change_mask n_params params ok this' evs :
  endpoint_update_params realloc_ok this change_mask n_params params = (ok, this', evs) ->
  (ok = false <-> Z.land change_mask PW_CLIENT_ENDPOINT_UPDATE_PARAMS <> 0
                  /\ 0 < n_params * sizeof_pointer
                  /\ realloc_ok (n_params * sizeof_pointer) = false)
  /\ (ok = false -> evs = [] /\ ep_params this' = [] /\ ep_n_params this' = 0).
Proof.
  unfold endpoint_update_params.
  destruct (Z.eqb_spec (Z.land change_mask PW_CLIENT_ENDPOINT_UPDATE_PARAMS) 0) as [H0|H0];
    cbn [negb].
  { intros [= <- <- <-]. split; [|discriminate]. split; [discriminate|tauto]. }
  destruct (Z.gtb_spec (n_params * sizeof_pointer) 0) as [Hs|Hs];
    destruct (realloc_ok (n_params * sizeof_pointer)) eqn:Hr; cbn [andb negb];
    intros [= <- <- <-]; (split; [split; [try discriminate|]|try discriminate]);
    try (intros (_ & H1 & H2); first [discriminate H2|lia]).
  - intros _. repeat split; [exact H0|lia].
  - intros _. repeat split.
Qed.

Lemma session_update_params_fails this change_mask n_params params ok this' evs :
  session_update_params realloc_ok this change_mask n_params params = (ok, this', evs) ->
  (ok = false <-> Z.land change_mask PW_CLIENT_SESSION_UPDATE_PARAMS <> 0
                  /\ 0 < n_params * sizeof_pointer
                  /\ realloc_ok (n_params * sizeof_pointer) = false)
  /\ (ok = false -> evs = [] /\ ss_params this' = [] /\ ss_n_params this' = 0).
Proof.
  unfold session_update_params.
  destruct (Z.eqb_spec (Z.land change_mask PW_CLIENT_SESSION_UPDATE_PARAMS) 0) as [H0|H0];
    cbn [negb].
  { intros [= <- <- <-]. split; [|discriminate]. split; [discriminate|tauto]. }
  destruct (Z.gtb_spec (n_params * sizeof_pointer) 0) as [Hs|Hs];
    destruct (realloc_ok (n_params * sizeof_pointer)) eqn:Hr; cbn [andb negb];
    intros [= <- <- <-]; (split; [split; [try discriminate|]|try discriminate]);
    try (intros (_ & H1 & H2); first [discriminate H2|lia]).
  - intros _. repeat split; [exact H0|lia].
  - intros _. repeat split.
Qed.

Lemma endpoint_update_info_fails this change_mask info ok this' evs :
  endpoint_update_info pw_properties_update realloc_ok this change_mask info
  = (ok, this', evs) ->
  (ok = false <-> Z.land change_mask PW_CLIENT_ENDPOINT_UPDATE_INFO <> 0
                  /\ Z.land (ei_change_mask info) PW_ENDPOINT_CHANGE_MASK_PARAMS <> 0
                  /\ 0 < ei_n_params info * sizeof_param_info
                  /\ realloc_ok (ei_n_params info * sizeof_param_info) = false)
  /\ ep_client this' = ep_client this.
Proof.
  unfold endpoint_update_info, endpoint_info_fields.
  destruct (Z.eqb_spec (Z.land change_mask PW_CLIENT_ENDPOINT_UPDATE_INFO) 0) as [H0|H0];
    cbn [negb].
  { intros [= <- <- <-]. split; [|reflexivity]. split; [discriminate|tauto]. }
  destruct (Z.eqb_spec (Z.land (ei_change_mask info) PW_ENDPOINT_CHANGE_MASK_PARAMS) 0)
    as [H1|H1]; cbn [negb].
  { intros [= <- <- <-]. split; [|reflexivity]. split; [discriminate|tauto]. }
  destruct (Z.gtb_spec (ei_n_params info * sizeof_param_info) 0) as [Hs|Hs];
    destruct (realloc_ok (ei_n_params info * sizeof_param_info)) eqn:Hr; cbn [andb negb];
    intros [= <- <- <-]; (split; [|reflexivity]); (split; [try discriminate|]);
    try (intros (_ & _ & H2 & H3); first [discriminate H3|lia]).
  all: intros _; repeat split; try assumption; lia.
Qed.

Lemma session_update_info_fails this change_mask info ok this' evs :
  session_update_info pw_properties_update realloc_ok this change_mask info
  = (ok, this', evs) ->
  (ok = false <-> Z.land change_mask PW_CLIENT_SESSION_UPDATE_INFO <> 0
                  /\ Z.land (si_change_mask info) PW_SESSION_CHANGE_MASK_PARAMS <> 0
                  /\ 0 < si_n_params info * sizeof_param_info
                  /\ realloc_ok (si_n_params info * sizeof_param_info) = false)
  /\ ss_client this' = ss_client this.
Proof.
  unfold session_update_info, session_info_fields.
  destruct (Z.eqb_spec (Z.land change_mask PW_CLIENT_SESSION_UPDATE_INFO) 0) as [H0|H0];
    cbn [negb].
  { intros [= <- <- <-]. split; [|reflexivity]. split; [discriminate|tauto]. }
  destruct (Z.eqb_spec (Z.land (si_change_mask info) PW_SESSION_CHANGE_MASK_PARAMS) 0)
    as [H1|H1]; cbn [negb].
  { intros [= <- <- <-]. split; [|reflexivity]. split; [discriminate|tauto]. }
  destruct (Z.gtb_spec (si_n_params info * sizeof_param_info) 0) as [Hs|Hs];
    destruct (realloc_ok (si_n_params info * sizeof_param_info)) eqn:Hr; cbn [andb negb];
    intros [= <- <- <-]; (split; [|reflexivity]); (split; [try discriminate|]);
    try (intros (_ & _ & H2 & H3); first [discriminate H3|lia]).
  all: intros _; repeat split; try assumption; lia.
Qed.

(** X29: [endpoint_update] and [session_update] return 0 or [-ENOMEM], and
    the latter exactly when a [realloc] to a size above 0 fails: that of
    the params, or, the params part done, that of [info.params]. Then
    the error is reported on the client's resource, after the param
    notifications already sent; no [info] event goes out, and the change
    mask and the bound resources are as before. *)
Theorem update_out_of_memory (change_mask n_params : Z) (params : list (option spa_pod)) :
  (forall this info res this' evs,
      endpoint_update pw_properties_update realloc_ok this change_mask n_params params info
      = (res, this', evs) ->
      let params_fail :=
        Z.land change_mask PW_CLIENT_ENDPOINT_UPDATE_PARAMS <> 0
        /\ 0 < n_params * sizeof_pointer
        /\ realloc_ok (n_params * sizeof_pointer) = false in
      let info_fail :=
        Z.land change_mask PW_CLIENT_ENDPOINT_UPDATE_INFO <> 0
        /\ Z.land (ei_change_mask info) PW_ENDPOINT_CHANGE_MASK_PARAMS <> 0
        /\ 0 < ei_n_params info * sizeof_param_info
        /\ realloc_ok (ei_n_params info * sizeof_param_info) = false in
      (res = 0 \/ res = - ENOMEM)
      /\ (res = - ENOMEM <-> params_fail \/ info_fail)
      /\ (res = - ENOMEM ->
          (exists notifications,
             evs = notifications ++ [EvError (ep_client this) (- ENOMEM)]
             /\ Forall (fun e => is_info_event e = false) notifications)
          /\ ei_change_mask (ep_info this') = ei_change_mask (ep_info this)
          /\ ep_resources this' = ep_resources this
          /\ (params_fail ->
              ep_params this' = [] /\ ep_n_params this' = 0
              /\ ep_info this' = ep_info this))) /\
  (forall this info res this' evs,
      session_update pw_properties_update realloc_ok this change_mask n_params params info
      = (res, this', evs) ->
      let params_fail :=
        Z.land change_mask PW_CLIENT_SESSION_UPDATE_PARAMS <> 0
        /\ 0 < n_params * sizeof_pointer
        /\ realloc_ok (n_params * sizeof_pointer) = false in
      let info_fail :=
        Z.land change_mask PW_CLIENT_SESSION_UPDATE_INFO <> 0
        /\ Z.land (si_change_mask info) PW_SESSION_CHANGE_MASK_PARAMS <> 0
        /\ 0 < si_n_params info * sizeof_param_info
        /\ realloc_ok (si_n_params info * sizeof_param_info) = false in
      (res = 0 \/ res = - ENOMEM)
      /\ (res = - ENOMEM <-> params_fail \/ info_fail)
      /\ (res = - ENOMEM ->
          (exists notifications,
             evs = notifications ++ [EvError (ss_client this) (- ENOMEM)]
             /\ Forall (fun e => is_info_event e = false) notifications)
          /\ si_change_mask (ss_info this') = si_change_mask (ss_info this)
          /\ ss_resources this' = ss_resources this
          /\ (params_fail ->
              ss_params this' = [] /\ ss_n_params this' = 0
              /\ ss_info this' = ss_info this))).
Proof.
  assert (- ENOMEM <> 0) as Hne by (vm_compute; discriminate).
  split.
  - intros this info res this' evs. cbv zeta. unfold endpoint_update.
    destruct (endpoint_update_params realloc_ok this change_mask n_params params)
      as [[ok1 t1] ev1] eqn:Hparams.
    pose proof (SessionFacts.endpoint_update_params_frame realloc_ok _ _ _ _ _ _ _ Hparams)
      as (Hi1 & Hr1 & Hc1 & Hev1 & _).
    apply endpoint_update_params_fails in Hparams as (Hfail1 & Hlost).
    destruct ok1; cbn [negb].
    2:{ intros [= <- <- <-]. destruct (Hlost eq_refl) as (-> & Hp & Hn).
        split; [right; reflexivity|]. split; [split; [intros _; left; tauto|reflexivity]|].
        intros _. split; [exists []; split; [rewrite Hc1; reflexivity|constructor]|].
        rewrite Hi1, Hr1. repeat split; assumption. }
    destruct (endpoint_update_info pw_properties_update realloc_ok t1 change_mask info)
      as [[ok2 t2] ev2] eqn:Hinfo.
    pose proof (endpoint_update_info_frame _ _ _ _ _ _ Hinfo) as (_ & _ & Hr2 & _ & Hlost2).
    apply endpoint_update_info_fails in Hinfo as (Hfail2 & Hc2).
    assert (~ (Z.land change_mask PW_CLIENT_ENDPOINT_UPDATE_PARAMS <> 0
               /\ 0 < n_params * sizeof_pointer
               /\ realloc_ok (n_params * sizeof_pointer) = false)) as Hok1.
    { intros H. apply Hfail1 in H. discriminate. }
    destruct ok2; cbn [negb]; intros [= <- <- <-].
    + split; [left; reflexivity|]. split; [|intros H; symmetry in H; contradiction].
      split; [intros H; symmetry in H; contradiction|].
      intros [H|H]; [contradiction|]. apply Hfail2 in H. discriminate.
    + destruct (Hlost2 eq_refl) as (-> & Hm).
      split; [right; reflexivity|]. split; [split; [intros _; right; tauto|reflexivity]|].
      intros _. split; [exists ev1; split; [rewrite Hc2, Hc1; reflexivity|exact Hev1]|].
      rewrite Hm, Hi1, Hr2, Hr1. repeat split; contradiction.
  - intros this info res this' evs. cbv zeta. unfold session_update.
    destruct (session_update_params realloc_ok this change_mask n_params params)
      as [[ok1 t1] ev1] eqn:Hparams.
    pose proof (SessionFacts.session_update_params_frame realloc_ok _ _ _ _ _ _ _ Hparams)
      as (Hi1 & Hr1 & Hc1 & Hev1 & _).
    apply session_update_params_fails in Hparams as (Hfail1 & Hlost).
    destruct ok1; cbn [negb].
    2:{ intros [= <- <- <-]. destruct (Hlost eq_refl) as (-> & Hp & Hn).
        split; [right; reflexivity|]. split; [split; [intros _; left; tauto|reflexivity]|].
        intros _. split; [exists []; split; [rewrite Hc1; reflexivity|constructor]|].
        rewrite Hi1, Hr1. repeat split; assumption. }
    destruct (session_update_info pw_properties_update realloc_ok t1 change_mask info)
      as [[ok2 t2] ev2] eqn:Hinfo.
    pose proof (session_update_info_frame _ _ _ _ _ _ Hinfo) as (_ & _ & Hr2 & _ & Hlost2).
    apply session_update_info_fails in Hinfo as (Hfail2 & Hc2).
    assert (~ (Z.land change_mask PW_CLIENT_SESSION_UPDATE_PARAMS <> 0
               /\ 0 < n_params * sizeof_pointer
               /\ realloc_ok (n_params * sizeof_pointer) = false)) as Hok1.
    { intros H. apply Hfail1 in H. discriminate. }
    destruct ok2; cbn [negb]; intros [= <- <- <-].
    + split; [left; reflexivity|]. split; [|intros H; symmetry in H; contradiction].
      split; [intros H; symmetry in H; contradiction|].
      intros [H|H]; [contradiction|]. apply Hfail2 in H. discriminate.
    + destruct (Hlost2 eq_refl) as (-> & Hm).
      split; [right; reflexivity|]. split; [split; [intros _; right; tauto|reflexivity]|].
      intros _. split; [exists ev1; split; [rewrite Hc2, Hc1; reflexivity|exact Hev1]|].
      rewrite Hm, Hi1, Hr2, Hr1. repeat split; contradiction.
Qed.

End UpdateTheorems.

End ParamsFacts.

Module ParamsWitnesses.
Import SessionManager SessionParams ParamsFacts.
Local Open Scope Z_scope.

Lemma enum_params_refines_witness :
  endpoint_enum_params example_pod_filter 5 example_params_endpoint 8 7 2 0 1 None
  = Some (0, [EvParam 8 7 2 0 1 (example_pod 2)]).
Proof.
  refine (proj1 (enum_params_refines example_pod_filter 5 8 7 2 0 1 None _ _)
            example_params_endpoint _ _ _).
  - lia.
  - lia.
  - reflexivity.
  - cbn. lia.
  - cbn. lia.
Defined.

Lemma enum_params_resumes_witness :
  exists rest,
    endpoint_enum_params example_pod_filter 5 example_params_endpoint 8 7 2 1 0 None
    = Some (0, rest)
    /\ endpoint_enum_params example_pod_filter 5 example_params_endpoint 8 7 2 0 0 None
       = Some (0, [EvParam 8 7 2 0 1 (example_pod 2)] ++ rest)
    /\ 0 <= 0 /\ 1 = 0 + 1.
Proof.
  refine (enum_params_resumes example_pod_filter 5 example_params_endpoint 8 7 2 0 1 None
            [EvParam 8 7 2 0 1 (example_pod 2)] 8 7 2 0 1 (example_pod 2)
            _ _ _ _ _ _ _ _).
  - reflexivity.
  - cbn. lia.
  - lia.
  - lia.
  - cbn. lia.
  - reflexivity.
  - reflexivity.
  - reflexivity.
Defined.

Lemma subscribe_params_stores_32_witness :
  exists this',
    endpoint_subscribe_params example_pod_filter 5 example_params_endpoint 1 [3; 2]
    = Some (0, this',
            [EvParam 8 1 3 2 3 (example_pod 3);
             EvParam 8 1 2 0 1 (example_pod 2); EvParam 8 1 2 3 4 (example_pod 2)])
    /\ ep_resources this'
       = [ {| rd_id := 7; rd_subscribe_ids := [] |};
           {| rd_id := 8; rd_subscribe_ids := [3; 2] |} ]
    /\ ep_params this' = example_params
    /\ ep_info this' = ep_info example_endpoint.
Proof.
  refine (proj1 (subscribe_params_stores_32 example_pod_filter 5 1
                   {| rd_id := 8; rd_subscribe_ids := [2] |} [3; 2])
            example_params_endpoint _ _ _ _).
  - reflexivity.
  - cbn. lia.
  - cbn. lia.
  - reflexivity.
Defined.


Lemma update_out_of_memory_witness :
  let result :=
    endpoint_update example_properties_update (fun _ => false) example_endpoint
      PW_CLIENT_ENDPOINT_UPDATE_PARAMS 4 example_params (example_endpoint_info 0) in
  result.1.1 = - ENOMEM
  /\ ep_params result.1.2 = [] /\ ep_n_params result.1.2 = 0
  /\ ep_info result.1.2 = ep_info example_endpoint.
Proof.
  intros result.
  destruct (proj1 (update_out_of_memory example_properties_update (fun _ => false)
                     PW_CLIENT_ENDPOINT_UPDATE_PARAMS 4 example_params)
              example_endpoint (example_endpoint_info 0) result.1.1 result.1.2 result.2
              eq_refl)
    as (_ & Hiff & Hfail).
  assert (result.1.1 = - ENOMEM) as Hres.
  { apply Hiff. left. split; [vm_compute; discriminate|]. split; [reflexivity|reflexivity]. }
  split; [exact Hres|].
  apply (Hfail Hres). split; [vm_compute; discriminate|]. split; reflexivity.
Defined.

End ParamsWitnesses.
